(** * A shallow embedding of the search pipeline of the collection engine

    The development follows [src/collection.cpp] and
    [src/analytics_manager.cpp].  Part I translates the functions the
    properties are about; Part II states and proves the properties.

    Conventions.
    - [size_t], [uint64_t] and [int64_t] values are integers in [Z]; every
      place where the C++ arithmetic is modular is written out with
      [to_uint64].
    - [Option<T>] of the code base (a value, or an error code with a
      message) is the inductive [Option].
    - [nlohmann::json] values are terms of [json]; objects keep their keys
      sorted, as the default [std::map] backed object does.
    - Code of other translation units (the index, the store, the
      tokenizer, the embedders, the field and validator headers) enters
      as section variables. *)

From Stdlib Require Import ZArith Lia List Bool Ascii String DecimalString Permutation.
From stdpp Require Import base gmap strings list fin_maps.

Set Warnings "-register-all".

Local Open Scope string_scope.
Local Open Scope list_scope.
Local Open Scope Z_scope.

(* ===================================================================== *)
(** * Part I.  The embedding                                              *)
(* ===================================================================== *)

(** ** Common vocabulary *)

(** [Option<T>]: [Ok v] is [Option<T>(v)], [Error c m] is [Option<T>(c, m)]. *)
Inductive Option (T : Type) : Type :=
| Ok (value : T)
| Error (code : Z) (error : string).
Arguments Ok {T} value.
Arguments Error {T} code error.

Definition ok {T} (o : Option T) : bool :=
  match o with Ok _ => true | Error _ _ => false end.

(** How a call ends: it returns an [Option<T>], or an accessor of
    [nlohmann::json] throws and the exception leaves the function. *)
Inductive outcome (T : Type) : Type :=
| Returned (o : Option T)
| Thrown.
Arguments Returned {T} o.
Arguments Thrown {T}.

Definition UINT64_MODULUS : Z := 2 ^ 64.

(** Conversion of an integer to [uint64_t] / [size_t]. *)
Definition to_uint64 (z : Z) : Z := z mod UINT64_MODULUS.

Definition is_uint64 (z : Z) : Prop := 0 <= z < UINT64_MODULUS.

(** [StringUtils::is_uint32_t] accepts exactly the decimal numerals of this range. *)
Definition is_uint32 (z : Z) : Prop := 0 <= z < 2 ^ 32.

(** [std::to_string] on a non-negative integer. *)
Definition to_string (z : Z) : string :=
  NilZero.string_of_uint (N.to_uint (Z.to_N z)).

(** [nlohmann::json], without floating point numbers. *)
Inductive json : Type :=
| JNull
| JBool (b : bool)
| JNum (n : Z)
| JStr (s : string)
| JArr (items : list json)
| JObj (members : list (string * json)).

(** The numbers compared and typed below are those of documents read
    from the store, as [nlohmann::json::parse] yields them: an integer
    below 0 is a [number_integer] ([int64_t]), one from 0 up a
    [number_unsigned] ([uint64_t]). *)

(** [static_cast<number_integer_t>] of a [number_unsigned]. *)
Definition as_number_integer (n : Z) : Z :=
  let m := n mod 2 ^ 64 in if m <? 2 ^ 63 then m else m - 2 ^ 64.

(** [operator==] of two numbers: a [number_integer] is compared with a
    [number_unsigned] after the cast of the latter. *)
Definition number_eqb (x y : Z) : bool :=
  if (x <? 0) && negb (y <? 0) then x =? as_number_integer y
  else if negb (x <? 0) && (y <? 0) then as_number_integer x =? y
  else x =? y.

(** [operator==] of two json values. *)
Fixpoint json_eqb (a b : json) {struct a} : bool :=
  match a, b with
  | JNull, JNull => true
  | JBool x, JBool y => Bool.eqb x y
  | JNum x, JNum y => number_eqb x y
  | JStr x, JStr y => String.eqb x y
  | JArr xs, JArr ys =>
      (fix go (xs ys : list json) {struct xs} : bool :=
         match xs, ys with
         | [], [] => true
         | x :: xs', y :: ys' => json_eqb x y && go xs' ys'
         | _, _ => false
         end) xs ys
  | JObj xs, JObj ys =>
      (fix go (xs ys : list (string * json)) {struct xs} : bool :=
         match xs, ys with
         | [], [] => true
         | (k, x) :: xs', (k', y) :: ys' =>
             String.eqb k k' && json_eqb x y && go xs' ys'
         | _, _ => false
         end) xs ys
  | _, _ => false
  end.

(** [json::type()], the discriminator compared by [cascade_remove_docs]. *)
Inductive json_type : Type :=
| T_null | T_boolean | T_number_integer | T_number_unsigned | T_string | T_array
| T_object.

Definition type_of (j : json) : json_type :=
  match j with
  | JNull => T_null
  | JBool _ => T_boolean
  | JNum n => if n <? 0 then T_number_integer else T_number_unsigned
  | JStr _ => T_string
  | JArr _ => T_array
  | JObj _ => T_object
  end.

Definition json_type_eqb (a b : json_type) : bool :=
  match a, b with
  | T_null, T_null | T_boolean, T_boolean | T_number_integer, T_number_integer
  | T_number_unsigned, T_number_unsigned
  | T_string, T_string | T_array, T_array | T_object, T_object => true
  | _, _ => false
  end.

Definition is_array (j : json) : bool :=
  match j with JArr _ => true | _ => false end.

Definition is_object (j : json) : bool :=
  match j with JObj _ => true | _ => false end.

Definition is_boolean (j : json) : bool :=
  match j with JBool _ => true | _ => false end.

Definition json_is_string (j : json) : bool :=
  match j with JStr _ => true | _ => false end.

(** Lookup of a key among the members of an object. *)
Fixpoint members_get (k : string) (ms : list (string * json)) : option json :=
  match ms with
  | [] => None
  | (k', v) :: ms' => if String.eqb k k' then Some v else members_get k ms'
  end.

(** Insertion of a key, replacing an existing binding and keeping the keys
    in increasing order. *)
Fixpoint members_set (k : string) (v : json) (ms : list (string * json))
  : list (string * json) :=
  match ms with
  | [] => [(k, v)]
  | (k', v') :: ms' =>
      if String.eqb k k' then (k, v) :: ms'
      else if String.ltb k k' then (k, v) :: (k', v') :: ms'
      else (k', v') :: members_set k v ms'
  end.

(** [j.at(k)] / [j[k]] for reading. A non-object has no members. *)
Definition json_get (k : string) (j : json) : option json :=
  match j with
  | JObj ms => members_get k ms
  | _ => None
  end.

(** [j.count(k)] and [j.contains(k)]. *)
Definition json_contains (k : string) (j : json) : bool :=
  match json_get k j with Some _ => true | None => false end.

(** [j[k] = v]: a null value silently becomes an object. *)
Definition json_set (k : string) (v : json) (j : json) : json :=
  match j with
  | JObj ms => JObj (members_set k v ms)
  | _ => JObj [(k, v)]
  end.

(** [j.size()]. *)
Definition json_size (j : json) : Z :=
  match j with
  | JNull => 0
  | JArr xs => Z.of_nat (length xs)
  | JObj ms => Z.of_nat (length ms)
  | _ => 1
  end.

(** [j.empty()]. *)
Definition json_empty (j : json) : bool := json_size j =? 0.

(** [j += v] ([push_back]): a null value silently becomes an array. *)
Definition json_push_back (v : json) (j : json) : json :=
  match j with
  | JArr xs => JArr (xs ++ [v])
  | _ => JArr [v]
  end.

(** The elements of an array. *)
Definition json_items (j : json) : list json :=
  match j with JArr xs => xs | _ => [] end.

(** [t.find(s) != std::string::npos]: [s] occurs in [t] as a contiguous part. *)
Fixpoint occurs_in (s t : string) : bool :=
  String.prefix s t ||
  match t with
  | EmptyString => false
  | String _ t' => occurs_in s t'
  end.

(* --------------------------------------------------------------------- *)
(** ** Text match score decoding ([extract_bits], [populate_text_match_info]) *)
(* --------------------------------------------------------------------- *)

Module TextMatch.

Inductive text_match_type_t : Type := max_score | max_weight.

(** [CHAR_BIT * sizeof(uint64_t)]. *)
Definition max_n : Z := 64.

(** [Collection::extract_bits]; [lsb_offset] is zero-based and inclusive. *)
Definition extract_bits (value lsb_offset n : Z) : Z :=
  if max_n <=? lsb_offset then 0
  else
    let value := Z.shiftr value lsb_offset in
    if max_n <=? n then value
    else
      let mask := to_uint64 (to_uint64 (Z.shiftl 1 n) - 1) in
      Z.land value mask.

(** [Collection::populate_text_match_info]. *)
Definition populate_text_match_info (info : json) (match_score : Z)
    (match_type : text_match_type_t) (total_tokens : Z) : json :=
  let tokens_matched := extract_bits match_score 59 4 in
  let info := json_set "score" (JStr (to_string match_score)) info in
  let info := json_set "tokens_matched" (JNum tokens_matched) info in
  let info := json_set "fields_matched" (JNum (extract_bits match_score 0 3)) info in
  match match_type with
  | max_score =>
      let info := json_set "best_field_score"
                    (JStr (to_string (extract_bits match_score 11 48))) info in
      let info := json_set "best_field_weight"
                    (JNum (extract_bits match_score 3 8)) info in
      let info := json_set "num_tokens_dropped"
                    (JNum (to_uint64 (total_tokens - tokens_matched))) info in
      json_set "typo_prefix_score"
        (JNum (to_uint64 (255 - extract_bits match_score 35 8))) info
  | max_weight =>
      let info := json_set "best_field_weight"
                    (JNum (extract_bits match_score 51 8)) info in
      let info := json_set "best_field_score"
                    (JStr (to_string (extract_bits match_score 3 48))) info in
      let info := json_set "num_tokens_dropped"
                    (JNum (to_uint64 (total_tokens - tokens_matched))) info in
      json_set "typo_prefix_score"
        (JNum (to_uint64 (255 - extract_bits match_score 27 8))) info
  end.

(** The bits [lo..hi] (inclusive, bit 0 least significant) of a word. *)
Definition bits (value lo hi : Z) : Z := (value / 2 ^ lo) mod 2 ^ (hi - lo + 1).

End TextMatch.

(* --------------------------------------------------------------------- *)
(** ** Analytics events and the per-IP rate limit ([AnalyticsManager::add_event]) *)
(* --------------------------------------------------------------------- *)

Module Analytics.

Definition EVENTS_RATE_LIMIT_SEC : Z := 60.

Definition CUSTOM_EVENT : string := "custom".
Definition SEARCH_EVENT : string := "search".

(** [struct event_cache_t]. *)
Record event_cache_t : Type := {
  last_update_time : Z;
  count : Z
}.

(** Modelled from the spec: [LRU::Cache<std::string, event_cache_t>] of
    [lru/lru.hpp], which is not among the sources.  The spec calls it a
    fixed-capacity LRU of per-client-IP rate records: the entries are kept
    most recently used first, a lookup through [find] refreshes the entry,
    and an insertion beyond the capacity evicts from the old end. *)
Record lru_cache : Type := {
  lru_capacity : nat;
  lru_entries : list (string * event_cache_t)
}.

Fixpoint entries_lookup (k : string) (l : list (string * event_cache_t))
  : option event_cache_t :=
  match l with
  | [] => None
  | (k', v) :: l' => if String.eqb k k' then Some v else entries_lookup k l'
  end.

Fixpoint entries_remove (k : string) (l : list (string * event_cache_t))
  : list (string * event_cache_t) :=
  match l with
  | [] => []
  | (k', v) :: l' =>
      if String.eqb k k' then entries_remove k l' else (k', v) :: entries_remove k l'
  end.

(** The record currently held for a key (a read without side effect). *)
Definition cache_lookup (k : string) (c : lru_cache) : option event_cache_t :=
  entries_lookup k (lru_entries c).

(** [cache.find(k)]. *)
Definition cache_find (k : string) (c : lru_cache) : option event_cache_t * lru_cache :=
  match entries_lookup k (lru_entries c) with
  | Some v =>
      (Some v, {| lru_capacity := lru_capacity c;
                  lru_entries := (k, v) :: entries_remove k (lru_entries c) |})
  | None => (None, c)
  end.

(** Assignment through the iterator returned by [find]: [it->second = v]. *)
Definition cache_assign (k : string) (v : event_cache_t) (c : lru_cache) : lru_cache :=
  {| lru_capacity := lru_capacity c;
     lru_entries :=
       List.map (fun kv => if String.eqb k (fst kv) then (fst kv, v) else kv)
                (lru_entries c) |}.

(** [cache.insert(k, v)]. *)
Definition cache_insert (k : string) (v : event_cache_t) (c : lru_cache) : lru_cache :=
  {| lru_capacity := lru_capacity c;
     lru_entries := firstn (lru_capacity c) ((k, v) :: entries_remove k (lru_entries c)) |}.

(** [struct event_type_collection]; [queries_ptr] is the identity of the
    [QueryAnalytics] object, or [None] for a null pointer. *)
Record event_type_collection : Type := {
  event_type : string;
  destination_collection : string;
  src_collections : list string;
  log_to_store : bool;
  analytic_rule : string;
  queries_ptr : option nat
}.

(** [struct event_t]. *)
Record event_t : Type := {
  e_query : string;
  e_event_type : string;
  e_timestamp : Z;
  e_user_id : string;
  e_doc_id : string;
  e_doc_ids : list string;
  e_name : string;
  e_data : list (string * string);
  e_log_to_store : bool
}.

(** [struct counter_event_t]. *)
Record counter_event_t : Type := {
  counter_field : string;
  docid_counts : gmap string Z;
  event_weight_map : gmap string Z
}.

(** One call [queries_ptr->add(query, query, false, user_id, 0, filter, tag)];
    [QueryAnalytics] belongs to another translation unit, the calls made on
    each object are recorded in order. *)
Record query_add_t : Type := {
  qa_target : nat;
  qa_query : string;
  qa_user_id : string;
  qa_filter : string;
  qa_tag : string
}.

(** The members of [class AnalyticsManager] that [add_event] touches. *)
Record AnalyticsManager : Type := {
  counter_events : gmap string counter_event_t;
  query_collection_events : gmap string (list event_t);
  event_collection_map : gmap string event_type_collection;
  events_cache : lru_cache;
  query_adds : list query_add_t;
  analytics_minute_rate_limit : Z
}.

Definition with_events_cache (c : lru_cache) (m : AnalyticsManager) : AnalyticsManager :=
  {| counter_events := counter_events m;
     query_collection_events := query_collection_events m;
     event_collection_map := event_collection_map m;
     events_cache := c;
     query_adds := query_adds m;
     analytics_minute_rate_limit := analytics_minute_rate_limit m |}.

(** [j.get<std::string>()]. *)
Definition get_string (j : json) : option string :=
  match j with JStr s => Some s | _ => None end.

(** [j.get<std::vector<std::string>>()]. *)
Fixpoint get_strings (l : list json) : option (list string) :=
  match l with
  | [] => Some []
  | JStr s :: l' =>
      match get_strings l' with Some r => Some (s :: r) | None => None end
  | _ :: _ => None
  end.

Definition get_string_vector (j : json) : option (list string) :=
  match j with JArr l => get_strings l | _ => None end.

(** [event_json[k].get<std::string>()] on the constant reference. *)
Definition get_string_at (k : string) (j : json) : option string :=
  match json_get k j with Some v => get_string v | None => None end.

(** Lines 424-434: the source collection the event is filed under.
    [inl] is the early exit of [add_event]. *)
Definition resolve_src_collection (ec : event_type_collection) (event_name : string)
    (event_json : json) : outcome bool + string :=
  let src := src_collections ec in
  if negb (json_contains "collection" event_json) && (length src =? 1)%nat then
    inr (hd "" src)
  else if negb (json_contains "collection" event_json) && (1 <? length src)%nat then
    inl (Returned (Error 400 "Multiple source collections. 'collection' should be specified"))
  else
    match json_get "collection" event_json with
    | Some (JStr c) =>
        if existsb (String.eqb c) src then inr c
        else inl (Returned (Error 400 (c +:+ " not found in the rule " +:+ event_name)))
    | Some _ => inl Thrown
    | None => inr ""
    end.

(** Lines 442-461: the rate limit proper.  [inl] is the rejection together
    with the cache as [find] left it, [inr] the cache after the record of
    the client has been created, incremented or reset. *)
Definition rate_limit (now_ts_seconds : Z) (client_ip : string) (limit : Z)
    (cache : lru_cache) : (Option bool * lru_cache) + lru_cache :=
  match cache_find client_ip cache with
  | (Some r, cache) =>
      if to_uint64 (now_ts_seconds - last_update_time r) <? EVENTS_RATE_LIMIT_SEC then
        if limit <=? count r then
          inl (Error 500 "event rate limit reached.", cache)
        else
          inr (cache_assign client_ip
                 {| last_update_time := last_update_time r;
                    count := to_uint64 (count r + 1) |} cache)
      else
        inr (cache_assign client_ip
               {| last_update_time := to_uint64 now_ts_seconds; count := 1 |} cache)
  | (None, cache) =>
      inr (cache_insert client_ip
             {| last_update_time := to_uint64 now_ts_seconds; count := 1 |} cache)
  end.

(** The fields read from the payload (lines 468-517). *)
Record event_fields : Type := {
  f_query : string;
  f_user_id : string;
  f_doc_id : string;
  f_doc_ids : list string;
  f_custom_data : list (string * string);
  f_filter_str : string;
  f_analytics_tag : string
}.

Definition no_fields : event_fields :=
  {| f_query := ""; f_user_id := ""; f_doc_id := ""; f_doc_ids := [];
     f_custom_data := []; f_filter_str := ""; f_analytics_tag := "" |}.

(** The loop over the members of a custom event (lines 494-507). *)
Fixpoint read_custom_members (ms : list (string * json)) (f : event_fields)
  : option event_fields :=
  match ms with
  | [] => Some f
  | (k, v) :: ms' =>
      if String.eqb k "query" then
        match get_string v with
        | Some s => read_custom_members ms'
                      {| f_query := s; f_user_id := f_user_id f; f_doc_id := f_doc_id f;
                         f_doc_ids := f_doc_ids f; f_custom_data := f_custom_data f;
                         f_filter_str := f_filter_str f; f_analytics_tag := f_analytics_tag f |}
        | None => None
        end
      else if String.eqb k "user_id" then
        match get_string v with
        | Some s => read_custom_members ms'
                      {| f_query := f_query f; f_user_id := s; f_doc_id := f_doc_id f;
                         f_doc_ids := f_doc_ids f; f_custom_data := f_custom_data f;
                         f_filter_str := f_filter_str f; f_analytics_tag := f_analytics_tag f |}
        | None => None
        end
      else if String.eqb k "doc_id" then
        match get_string v with
        | Some s => read_custom_members ms'
                      {| f_query := f_query f; f_user_id := f_user_id f; f_doc_id := s;
                         f_doc_ids := f_doc_ids f; f_custom_data := f_custom_data f;
                         f_filter_str := f_filter_str f; f_analytics_tag := f_analytics_tag f |}
        | None => None
        end
      else if String.eqb k "doc_ids" then
        match get_string_vector v with
        | Some l => read_custom_members ms'
                      {| f_query := f_query f; f_user_id := f_user_id f; f_doc_id := f_doc_id f;
                         f_doc_ids := l; f_custom_data := f_custom_data f;
                         f_filter_str := f_filter_str f; f_analytics_tag := f_analytics_tag f |}
        | None => None
        end
      else
        match get_string v with
        | Some s => read_custom_members ms'
                      {| f_query := f_query f; f_user_id := f_user_id f; f_doc_id := f_doc_id f;
                         f_doc_ids := f_doc_ids f;
                         f_custom_data := f_custom_data f ++ [(k, s)];
                         f_filter_str := f_filter_str f; f_analytics_tag := f_analytics_tag f |}
        | None => None
        end
  end.

(** An optional string member: absent gives the default, a member that is
    not a string makes [get<std::string>] throw. *)
Definition optional_string (k : string) (j : json) (default : string) : option string :=
  match json_get k j with
  | Some v => get_string v
  | None => Some default
  end.

(** Lines 476-517 for the three kinds of event; [None] when an accessor throws. *)
Definition read_event_fields (event_type : string) (event_json : json)
  : option event_fields :=
  if String.eqb event_type SEARCH_EVENT then
    match get_string_at "q" event_json, get_string_at "user_id" event_json,
          optional_string "filter_by" event_json "",
          optional_string "analytics_tag" event_json "" with
    | Some q, Some u, Some fb, Some tag =>
        Some {| f_query := q; f_user_id := u; f_doc_id := ""; f_doc_ids := [];
                f_custom_data := []; f_filter_str := fb; f_analytics_tag := tag |}
    | _, _, _, _ => None
    end
  else if String.eqb event_type CUSTOM_EVENT then
    match event_json with
    | JObj ms => read_custom_members ms no_fields
    | JNull => Some no_fields
    | _ => None
    end
  else
    match optional_string "q" event_json "", optional_string "user_id" event_json "" with
    | Some q, Some u =>
        match json_get "doc_id" event_json with
        | Some v =>
            match get_string v with
            | Some d => Some {| f_query := q; f_user_id := u; f_doc_id := d; f_doc_ids := [];
                                f_custom_data := []; f_filter_str := "";
                                f_analytics_tag := "" |}
            | None => None
            end
        | None =>
            match json_get "doc_ids" event_json with
            | Some v =>
                match get_string_vector v with
                | Some l => Some {| f_query := q; f_user_id := u; f_doc_id := "";
                                    f_doc_ids := l; f_custom_data := [];
                                    f_filter_str := ""; f_analytics_tag := "" |}
                | None => None
                end
            | None => Some {| f_query := q; f_user_id := u; f_doc_id := ""; f_doc_ids := [];
                              f_custom_data := []; f_filter_str := "";
                              f_analytics_tag := "" |}
            end
        end
    | _, _ => None
    end.

(** [user_id.erase(std::remove(user_id.begin(), user_id.end(), '%'), user_id.end())]. *)
Fixpoint remove_percent (s : string) : string :=
  match s with
  | EmptyString => EmptyString
  | String c s' =>
      if Ascii.eqb c "%"%char then remove_percent s' else String c (remove_percent s')
  end.

(** [docid_counts[id] += inc_val]. *)
Definition bump (inc_val : Z) (counts : gmap string Z) (id : string) : gmap string Z :=
  <[id := to_uint64 (default 0 (counts !! id) + inc_val)]> counts.

(** Lines 527-548. *)
Definition count_event (destination event_name : string) (f : event_fields)
    (ce : gmap string counter_event_t) : gmap string counter_event_t :=
  match ce !! destination with
  | Some c =>
      match event_weight_map c !! event_name with
      | Some inc_val =>
          let counts :=
            match f_doc_ids f with
            | [] => bump inc_val (docid_counts c) (f_doc_id f)
            | ids => fold_left (bump inc_val) ids (docid_counts c)
            end in
          <[destination := {| counter_field := counter_field c;
                              docid_counts := counts;
                              event_weight_map := event_weight_map c |}]> ce
      | None => ce
      end
  | None => ce
  end.

(** Lines 465-552: what happens to an event the rate limit lets through. *)
Definition record_event (now_ts_useconds : Z) (event_type event_name src_collection : string)
    (ec : event_type_collection) (events_vec : list event_t) (event_json : json)
    (m : AnalyticsManager) : outcome bool * AnalyticsManager :=
  match read_event_fields event_type event_json with
  | None => (Thrown, m)
  | Some f =>
      let after_search : (Option bool) + AnalyticsManager :=
        if String.eqb event_type SEARCH_EVENT then
          match queries_ptr ec with
          | Some q =>
              inr {| counter_events := counter_events m;
                     query_collection_events := query_collection_events m;
                     event_collection_map := event_collection_map m;
                     events_cache := events_cache m;
                     query_adds := query_adds m ++
                       [{| qa_target := q; qa_query := f_query f; qa_user_id := f_user_id f;
                           qa_filter := f_filter_str f; qa_tag := f_analytics_tag f |}];
                     analytics_minute_rate_limit := analytics_minute_rate_limit m |}
          | None => inl (Error 500 ("Error in /events endpoint for event " +:+ event_name))
          end
        else inr m in
      match after_search with
      | inl e => (Returned e, m)
      | inr m =>
          let user_id := if log_to_store ec then remove_percent (f_user_id f) else f_user_id f in
          let events :=
            if log_to_store ec then
              <[src_collection :=
                  events_vec ++
                  [{| e_query := f_query f; e_event_type := event_type;
                      e_timestamp := now_ts_useconds; e_user_id := user_id;
                      e_doc_id := f_doc_id f; e_doc_ids := f_doc_ids f;
                      e_name := event_name; e_data := f_custom_data f;
                      e_log_to_store := log_to_store ec |}]]>
                (query_collection_events m)
            else query_collection_events m in
          (Returned (Ok true),
           {| counter_events :=
                count_event (destination_collection ec) event_name f (counter_events m);
              query_collection_events := events;
              event_collection_map := event_collection_map m;
              events_cache := events_cache m;
              query_adds := query_adds m;
              analytics_minute_rate_limit := analytics_minute_rate_limit m |})
      end
  end.

(** [AnalyticsManager::add_event] (built without [TEST_BUILD]); the two
    readings of the clock are the arguments [now_ts_seconds] and
    [now_ts_useconds]. *)
Definition add_event (now_ts_seconds now_ts_useconds : Z)
    (client_ip event_type_arg event_name : string) (event_json : json)
    (m : AnalyticsManager) : outcome bool * AnalyticsManager :=
  match event_collection_map m !! event_name with
  | None =>
      (Returned (Error 404 ("No analytics rule defined for event name " +:+ event_name)), m)
  | Some ec =>
      if negb (String.eqb (event_type ec) event_type_arg) then
        (Returned (Error 400 "event_type mismatch in analytic rules."), m)
      else
        match resolve_src_collection ec event_name event_json with
        | inl early => (early, m)
        | inr src_collection =>
            match query_collection_events m !! src_collection with
            | None => (Returned (Error 500 "Failure in adding an event."), m)
            | Some events_vec =>
                match rate_limit now_ts_seconds client_ip
                        (analytics_minute_rate_limit m) (events_cache m) with
                | inl (rejected, cache) => (Returned rejected, with_events_cache cache m)
                | inr cache =>
                    record_event now_ts_useconds event_type_arg event_name src_collection
                      ec events_vec event_json (with_events_cache cache m)
                end
            end
        end
  end.

(** Everything [add_event] keeps, read without regard to the recency order
    of the cache. *)
Definition same_analytics_state (m m' : AnalyticsManager) : Prop :=
  counter_events m' = counter_events m /\
  query_collection_events m' = query_collection_events m /\
  event_collection_map m' = event_collection_map m /\
  query_adds m' = query_adds m /\
  analytics_minute_rate_limit m' = analytics_minute_rate_limit m /\
  forall ip, cache_lookup ip (events_cache m') = cache_lookup ip (events_cache m).

(** *** The scenario of the spec: a rule for click events, limit 3 *)

Definition scenario_rule : event_type_collection :=
  {| event_type := "click"; destination_collection := "products";
     src_collections := ["products"]; log_to_store := false;
     analytic_rule := "product_clicks"; queries_ptr := None |}.

Definition scenario_manager : AnalyticsManager :=
  {| counter_events := ∅;
     query_collection_events := {["products" := []]};
     event_collection_map := {["product_click" := scenario_rule]};
     events_cache := {| lru_capacity := 1024; lru_entries := [] |};
     query_adds := [];
     analytics_minute_rate_limit := 3 |}.

(** One click event sent by the address 10.0.0.7 at the given second. *)
Definition scenario_event (now_ts_seconds : Z) (m : AnalyticsManager)
  : outcome bool * AnalyticsManager :=
  add_event now_ts_seconds (now_ts_seconds * 1000000) "10.0.0.7" "click" "product_click"
    (JObj [("doc_id", JStr "21"); ("user_id", JStr "u1")]) m.

End Analytics.

(* --------------------------------------------------------------------- *)
(** ** Sort clauses ([struct sort_by], [sort_field_const]) *)
(* --------------------------------------------------------------------- *)

Module Sort.

(** The kinds of sort clause the sources assign to [sort_by::type].
    [unassigned] stands for the value a clause is constructed with, which
    the validation leaves in place for [_seq_id], [_group_found] and
    [_union_search_index] clauses given by the user. *)
Inductive sort_by_type : Type :=
| unassigned
| string_field
| int32_field
| int64_field
| float_field
| bool_field
| geopoint_field
| text_match
| vector_search
| eval_expression
| random_order
| insertion_order
| union_query_order.

Definition sort_by_type_eqb (a b : sort_by_type) : bool :=
  match a, b with
  | unassigned, unassigned | string_field, string_field | int32_field, int32_field
  | int64_field, int64_field | float_field, float_field | bool_field, bool_field
  | geopoint_field, geopoint_field | text_match, text_match
  | vector_search, vector_search | eval_expression, eval_expression
  | random_order, random_order | insertion_order, insertion_order
  | union_query_order, union_query_order => true
  | _, _ => false
  end.

(** [magic_enum::enum_name]: the identifier of the enumerator, and the empty
    string for a value that is not one. *)
Definition enum_name (t : sort_by_type) : string :=
  match t with
  | unassigned => ""
  | string_field => "string_field"
  | int32_field => "int32_field"
  | int64_field => "int64_field"
  | float_field => "float_field"
  | bool_field => "bool_field"
  | geopoint_field => "geopoint_field"
  | text_match => "text_match"
  | vector_search => "vector_search"
  | eval_expression => "eval_expression"
  | random_order => "random_order"
  | insertion_order => "insertion_order"
  | union_query_order => "union_query_order"
  end.

(** The members of [struct sort_by] that the functions below read or write. *)
Record sort_by : Type := {
  name : string;
  order : string;
  type : sort_by_type;
  text_match_buckets : Z;
  text_match_bucket_size : Z;
  vector_search_buckets : Z;
  vector_search_bucket_size : Z;
  union_search_index : Z;
  reference_collection_name : string;
  eval_expressions : list string
}.

(** [sort_by(name, order)]. *)
Definition mk_sort_by (n o : string) : sort_by :=
  {| name := n; order := o; type := unassigned;
     text_match_buckets := 0; text_match_bucket_size := 0;
     vector_search_buckets := 0; vector_search_bucket_size := 0;
     union_search_index := 0; reference_collection_name := "";
     eval_expressions := [] |}.

Definition with_type (t : sort_by_type) (s : sort_by) : sort_by :=
  {| name := name s; order := order s; type := t;
     text_match_buckets := text_match_buckets s;
     text_match_bucket_size := text_match_bucket_size s;
     vector_search_buckets := vector_search_buckets s;
     vector_search_bucket_size := vector_search_bucket_size s;
     union_search_index := union_search_index s;
     reference_collection_name := reference_collection_name s;
     eval_expressions := eval_expressions s |}.

Definition with_union_search_index (i : Z) (s : sort_by) : sort_by :=
  {| name := name s; order := order s; type := type s;
     text_match_buckets := text_match_buckets s;
     text_match_bucket_size := text_match_bucket_size s;
     vector_search_buckets := vector_search_buckets s;
     vector_search_bucket_size := vector_search_bucket_size s;
     union_search_index := i;
     reference_collection_name := reference_collection_name s;
     eval_expressions := eval_expressions s |}.

Definition with_eval_expressions (l : list string) (s : sort_by) : sort_by :=
  {| name := name s; order := order s; type := type s;
     text_match_buckets := text_match_buckets s;
     text_match_bucket_size := text_match_bucket_size s;
     vector_search_buckets := vector_search_buckets s;
     vector_search_bucket_size := vector_search_bucket_size s;
     union_search_index := union_search_index s;
     reference_collection_name := reference_collection_name s;
     eval_expressions := l |}.

(** Modelled from the spec: the names in [namespace sort_field_const] of
    [field.h], which is not among the sources; section 4.3 of the spec
    lists the recognised clause names and the two orders. *)
Module sort_field_const.
Definition text_match : string := "_text_match".
Definition vector_distance : string := "_vector_distance".
Definition vector_query : string := "_vector_query".
Definition eval : string := "_eval".
Definition random_order : string := "_random_order".
Definition seq_id : string := "_seq_id".
Definition group_found : string := "_group_found".
Definition union_search_index : string := "_union_search_index".
Definition asc : string := "ASC".
Definition desc : string := "DESC".
End sort_field_const.

End Sort.

(* --------------------------------------------------------------------- *)
(** ** Paging, bucketed rescoring and the hits of a search
       ([init_index_search_args], [Collection::search]) *)
(* --------------------------------------------------------------------- *)

Module Search.

Import Sort.

(** The members of [struct KV] (topster.h) read here. *)
Record KV : Type := {
  key : Z;
  distinct_key : Z;
  match_score_index : Z;
  scores : list Z
}.

(** [kv->scores[i]]. *)
Definition score_at (i : Z) (kv : KV) : Z := nth (Z.to_nat i) (scores kv) 0.

(** [kv->scores[i] = v]. *)
Definition set_score (i v : Z) (kv : KV) : KV :=
  {| key := key kv; distinct_key := distinct_key kv;
     match_score_index := match_score_index kv;
     scores := <[Z.to_nat i := v]> (scores kv) |}.

(** [kv->match_score_index = v]. *)
Definition set_match_score_index (v : Z) (kv : KV) : KV :=
  {| key := key kv; distinct_key := distinct_key kv;
     match_score_index := v; scores := scores kv |}.

(** An element of [raw_result_kvs]: the KVs of one result (one group). *)
Definition kv_group : Type := list KV.

Definition no_kv : KV :=
  {| key := 0; distinct_key := 0; match_score_index := 0; scores := [] |}.

(** [group[0]]; the index never hands out an empty group. *)
Definition first_kv (g : kv_group) : KV := hd no_kv g.

(** An update of [*group[0]] through the pointer. *)
Definition map_first (f : KV -> KV) (g : kv_group) : kv_group :=
  match g with
  | [] => []
  | kv :: g' => f kv :: g'
  end.

(** [Index::DEFAULT_TOPSTER_SIZE]; the comment at its use in [search] and
    the spec give the value. *)
Definition DEFAULT_TOPSTER_SIZE : Z := 250.

(** *** Paging (lines 2405-2423 of [init_index_search_args]) *)

Record page_bounds : Type := {
  offset : Z;
  fetch_size : Z
}.

Definition init_page_bounds (per_page_max per_page page page_offset limit_hits : Z)
  : Option page_bounds :=
  if to_uint64 per_page_max <? per_page then
    Error 422 ("Only upto " +:+ to_string per_page_max +:+ " hits can be fetched per page.")
  else
    let offset :=
      if (page =? 0) && negb (page_offset =? 0) then page_offset
      else
        let actual_page := if page =? 0 then 1 else page in
        to_uint64 (per_page * to_uint64 (actual_page - 1)) in
    Ok {| offset := offset;
          fetch_size := Z.min (to_uint64 (offset + per_page)) limit_hits |}.

(** The offset a request asks for, in words of the spec: the [offset]
    parameter when the page is 0 and the offset is not, and
    [per_page * (page - 1)] otherwise, with the page defaulting to 1. *)
Definition requested_offset (per_page page page_offset : Z) : Z :=
  if (page =? 0) && negb (page_offset =? 0) then page_offset
  else per_page * ((if page =? 0 then 1 else page) - 1).

(** *** Bucketed rescoring (lines 2821-2914) *)

(** The first clause of the given name that has a bucket parameter set:
    the two search loops at lines 2823-2829 and 2870-2876. *)
Fixpoint find_bucketed_clause (clause_name : string) (buckets size : sort_by -> Z)
    (i : Z) (l : list sort_by) : option (Z * sort_by) :=
  match l with
  | [] => None
  | s :: l' =>
      if String.eqb (name s) clause_name
         && (negb (buckets s =? 0) || negb (size s =? 0))
      then Some (i, s)
      else find_bucketed_clause clause_name buckets size (i + 1) l'
  end.

(** The guard at lines 2839 and 2886. *)
Definition bucketing_applies (num_buckets bucket_size max_kvs_bucketed : Z) : bool :=
  ((0 <? num_buckets) && (num_buckets <=? max_kvs_bucketed))
  || ((0 <? bucket_size) && (bucket_size <=? max_kvs_bucketed)).

(** [ceil(double(max_kvs_bucketed) / double(num_buckets))], or the given
    bucket size.  Both operands are at most 250, so the quotient computed
    in floating point has the integer ceiling written here. *)
Definition block_length (num_buckets bucket_size max_kvs_bucketed : Z) : Z :=
  if 0 <? num_buckets then (max_kvs_bucketed + num_buckets - 1) / num_buckets
  else bucket_size.

(** The nested loops at lines 2844-2855, flattened: [i] is the start of the
    current block, [j] the position inside it, [todo] the number of
    elements below [max_kvs_bucketed] still to visit.  The element at
    [i + j] has its score saved under its key and replaced by [-i].
    [index_of] picks the rewritten score slot. *)
Fixpoint assign_blocks (index_of : KV -> Z) (block_len : Z) (i j : Z) (todo : nat)
    (kvs : list kv_group) (result_scores : gmap Z Z)
  : list kv_group * gmap Z Z :=
  match todo, kvs with
  | S todo', g :: kvs' =>
      let '(i, j) := if j <? block_len then (i, j) else (i + j, 0) in
      let kv := first_kv g in
      let result_scores := <[key kv := score_at (index_of kv) kv]> result_scores in
      let g := map_first (set_score (index_of kv) (- i)) g in
      let '(rest, result_scores) :=
        assign_blocks index_of block_len i (j + 1) todo' kvs' result_scores in
      (g :: rest, result_scores)
  | _, _ => (kvs, result_scores)
  end.

(** The loop at lines 2862-2865: [result_scores[key]] reads 0 for a key
    that was never saved. *)
Fixpoint restore_scores (index_of : KV -> Z) (todo : nat) (kvs : list kv_group)
    (result_scores : gmap Z Z) : list kv_group :=
  match todo, kvs with
  | S todo', g :: kvs' =>
      let kv := first_kv g in
      map_first (set_score (index_of kv) (default 0 (result_scores !! key kv))) g
      :: restore_scores index_of todo' kvs' result_scores
  | _, _ => kvs
  end.

Section Rescoring.

(** [std::partial_sort(begin, begin + middle, end, KV::is_greater_kv_group)]
    as a function of [middle] and the sequence. *)
Variable partial_sort : nat -> list kv_group -> list kv_group.

(** The body of either rescoring block once its clause has been found. *)
Definition rescore (index_of : KV -> Z) (num_buckets bucket_size : Z)
    (raw_result_kvs : list kv_group) : list kv_group :=
  let max_kvs_bucketed := Z.min DEFAULT_TOPSTER_SIZE (Z.of_nat (length raw_result_kvs)) in
  if bucketing_applies num_buckets bucket_size max_kvs_bucketed then
    let block_len := block_length num_buckets bucket_size max_kvs_bucketed in
    let '(kvs, result_scores) :=
      assign_blocks index_of block_len 0 0 (Z.to_nat max_kvs_bucketed) raw_result_kvs ∅ in
    let kvs := partial_sort (Z.to_nat max_kvs_bucketed) kvs in
    restore_scores index_of (Z.to_nat max_kvs_bucketed) kvs result_scores
  else raw_result_kvs.

(** Lines 2821-2867: the text match block saves and restores the slot
    [match_score_index] of each KV. *)
Definition bucket_text_match (sort_fields_std : list sort_by)
    (raw_result_kvs : list kv_group) : list kv_group :=
  match find_bucketed_clause sort_field_const.text_match
          text_match_buckets text_match_bucket_size 0 sort_fields_std with
  | Some (_, s) =>
      if (0 <? text_match_buckets s) || (0 <? text_match_bucket_size s) then
        rescore match_score_index (text_match_buckets s) (text_match_bucket_size s)
          raw_result_kvs
      else raw_result_kvs
  | None => raw_result_kvs
  end.

(** Lines 2869-2914: the vector distance block uses the position of the
    clause among the sort clauses. *)
Definition bucket_vector_distance (sort_fields_std : list sort_by)
    (raw_result_kvs : list kv_group) : list kv_group :=
  match find_bucketed_clause sort_field_const.vector_distance
          vector_search_buckets vector_search_bucket_size 0 sort_fields_std with
  | Some (vector_distance_index, s) =>
      if (0 <? vector_search_buckets s) || (0 <? vector_search_bucket_size s) then
        rescore (fun _ => vector_distance_index)
          (vector_search_buckets s) (vector_search_bucket_size s) raw_result_kvs
      else raw_result_kvs
  | None => raw_result_kvs
  end.

End Rescoring.

(** Modelled from the spec: [KV::is_greater_kv_group] of topster.h, which is
    not among the sources.  Section 8 of the spec orders results
    lexicographically over their sort keys with the key as last resort, and
    the comment at line 2849 says the order is descending. *)
Definition is_greater_kv_group (a b : kv_group) : bool :=
  let x := first_kv a in
  let y := first_kv b in
  let cmp := (score_at 0 x ?= score_at 0 y) in
  match cmp with
  | Gt => true
  | Lt => false
  | Eq =>
      match score_at 1 x ?= score_at 1 y with
      | Gt => true
      | Lt => false
      | Eq =>
          match score_at 2 x ?= score_at 2 y with
          | Gt => true
          | Lt => false
          | Eq => key y <? key x
          end
      end
  end.

Fixpoint insert_group (g : kv_group) (sorted : list kv_group) : list kv_group :=
  match sorted with
  | [] => [g]
  | h :: sorted' =>
      if is_greater_kv_group g h then g :: h :: sorted'
      else h :: insert_group g sorted'
  end.

(** One behaviour [std::partial_sort] may have: the whole range ends up in
    order, so the first [middle] positions hold the first [middle] elements
    of the order. *)
Definition std_partial_sort (middle : nat) (l : list kv_group) : list kv_group :=
  fold_right insert_group [] l.

(** *** Merging raw and curated results (lines 2917-2961) *)

(** The members of [search_args] read after [run_search]. *)
Record search_args : Type := {
  sort_fields_std : list sort_by;
  group_limit : Z;
  group_by_fields : list string;
  args_offset : Z;
  args_fetch_size : Z;
  raw_result_kvs : list kv_group;
  override_result_kvs : list kv_group;
  found_count : Z;
  found_docs : Z;
  groups_processed : gmap Z Z
}.

(** Conversion of a [size_t] to [long]. *)
Definition to_long (z : Z) : Z := (z + 2 ^ 63) mod 2 ^ 64 - 2 ^ 63.

(** The values [start, start + 1, ..., end] of a loop
    [for(long i = start; i <= end; i++)]. *)
Definition index_range (start_index end_index : Z) : list Z :=
  List.map (fun i => start_index + Z.of_nat i)
           (seq 0 (Z.to_nat (end_index - start_index + 1))).

Section Hits.

(** The marker written into [match_score_index] of a curated record. *)
Variable CURATED_RECORD_IDENTIFIER : Z.

(** [get_document_from_store] on the key of a sequence id: the stored
    document, or [None] when the read or the parse fails. *)
Variable get_document_from_store : Z -> option json.

(** Lines 3043-3127 for one KV and its document: highlighting, pruning by
    include/exclude fields, text match info and distances.  An error of
    [prune_doc] or of the geo distance lookup ends the search. *)
Variable make_wrapper_doc : KV -> json -> Option json.

Variable partial_sort : nat -> list kv_group -> list kv_group.

(** The loop at lines 2943-2946. *)
Fixpoint fill_group (limit : Z) (src dst : kv_group) : kv_group :=
  match src with
  | [] => dst
  | kv :: src' =>
      if Z.of_nat (length dst) <? limit then fill_group limit src' (dst ++ [kv])
      else dst
  end.

(** Lines 2925-2936, repeated while the next curated record asks for the
    position the result list has reached.  Returns the curated records
    not yet placed. *)
Fixpoint place_overrides (overrides : list kv_group) (result_group_kvs : list kv_group)
    (override_group_id_positions : gmap Z nat)
  : list kv_group * list kv_group * gmap Z nat :=
  match overrides with
  | [] => ([], result_group_kvs, override_group_id_positions)
  | ov :: overrides' =>
      let result_position := Z.of_nat (length result_group_kvs) + 1 in
      let override_kv := first_kv ov in
      let override_position := to_uint64 (- score_at 0 override_kv) in
      if result_position =? override_position then
        place_overrides overrides'
          (result_group_kvs
             ++ [map_first (set_match_score_index CURATED_RECORD_IDENTIFIER) ov])
          (<[distinct_key override_kv := length result_group_kvs]>
             override_group_id_positions)
      else (overrides, result_group_kvs, override_group_id_positions)
  end.

(** The loop at lines 2924-2955: one raw result per step, after the curated
    records that belong before it. *)
Fixpoint merge_raw (limit : Z) (raw overrides result_group_kvs : list kv_group)
    (override_group_id_positions : gmap Z nat) : list kv_group * list kv_group :=
  match raw with
  | [] => (overrides, result_group_kvs)
  | g :: raw' =>
      let '(overrides, result_group_kvs, override_group_id_positions) :=
        place_overrides overrides result_group_kvs override_group_id_positions in
      let result_group_kvs :=
        if limit =? 0 then result_group_kvs ++ [g]
        else
          match override_group_id_positions !! distinct_key (first_kv g) with
          | Some results_pos => alter (fill_group limit g) results_pos result_group_kvs
          | None => result_group_kvs ++ [g]
          end in
      merge_raw limit raw' overrides result_group_kvs override_group_id_positions
  end.

(** Lines 2917-2961: the merged result list [result_group_kvs]. *)
Definition merge_results (limit : Z) (raw overrides : list kv_group) : list kv_group :=
  let '(overrides, result_group_kvs) := merge_raw limit raw overrides [] ∅ in
  result_group_kvs
    ++ List.map (map_first (set_match_score_index CURATED_RECORD_IDENTIFIER)) overrides.

(** *** The hits of the requested page (lines 2981-3142) *)

(** [document[f]] for the group-by fields the document has. *)
Definition group_key_of (fields : list string) (document : json) : list json :=
  omap (fun f => json_get f document) fields.

(** The loop over the KVs of one result (lines 3032-3130). *)
Fixpoint render_group (limit : Z) (fields : list string) (kvs : kv_group)
    (hits_array group_key : list json) : Option (list json * list json) :=
  match kvs with
  | [] => Ok (hits_array, group_key)
  | field_order_kv :: kvs' =>
      match get_document_from_store (key field_order_kv mod 2 ^ 32) with
      | None => render_group limit fields kvs' hits_array group_key
      | Some document =>
          let group_key :=
            match group_key with
            | [] => if limit =? 0 then [] else group_key_of fields document
            | _ => group_key
            end in
          match make_wrapper_doc field_order_kv document with
          | Error c m => Error c m
          | Ok wrapper_doc =>
              render_group limit fields kvs' (hits_array ++ [wrapper_doc]) group_key
          end
      end
  end.

(** One entry of [grouped_hits] (lines 3132-3140). *)
Definition group_hits_json (processed : gmap Z Z) (g : kv_group)
    (hits_array group_key : list json) : json :=
  let group_hits := JObj [("hits", JArr hits_array)] in
  let group_hits := json_set "group_key" (JArr group_key) group_hits in
  match processed !! distinct_key (first_kv g) with
  | Some n => json_set "found" (JNum n) group_hits
  | None => group_hits
  end.

(** The loop at line 3021 over the result indices of the page; [hits] is
    [result["hits"]] or [result["grouped_hits"]]. *)
Fixpoint construct_hits (limit : Z) (fields : list string) (processed : gmap Z Z)
    (result_group_kvs : list kv_group) (indices : list Z) (hits : list json)
  : Option (list json) :=
  match indices with
  | [] => Ok hits
  | result_kvs_index :: indices' =>
      let g := nth (Z.to_nat result_kvs_index) result_group_kvs [] in
      if limit =? 0 then
        match render_group limit fields g hits [] with
        | Error c m => Error c m
        | Ok (hits, _) =>
            construct_hits limit fields processed result_group_kvs indices' hits
        end
      else
        match render_group limit fields g [] [] with
        | Error c m => Error c m
        | Ok (hits_array, group_key) =>
            construct_hits limit fields processed result_group_kvs indices'
              (hits ++ [group_hits_json processed g hits_array group_key])
        end
  end.

(** The hits of a sequence of results taken in order, each rendered as the
    body of the loop at line 3021 does. *)
Fixpoint render_groups (limit : Z) (fields : list string) (processed : gmap Z Z)
    (groups : list kv_group) (hits : list json) : Option (list json) :=
  match groups with
  | [] => Ok hits
  | g :: groups' =>
      if limit =? 0 then
        match render_group limit fields g hits [] with
        | Error c m => Error c m
        | Ok (hits, _) => render_groups limit fields processed groups' hits
        end
      else
        match render_group limit fields g [] [] with
        | Error c m => Error c m
        | Ok (hits_array, group_key) =>
            render_groups limit fields processed groups'
              (hits ++ [group_hits_json processed g hits_array group_key])
        end
  end.

(** The entry of the hits array that stands for one result: without
    grouping the wrapper document of its single KV, with grouping the
    object made of the hits of the group. *)
Definition renders_to (limit : Z) (fields : list string) (processed : gmap Z Z)
    (g : kv_group) (hit : json) : Prop :=
  if limit =? 0 then
    exists kv document,
      g = [kv] /\ get_document_from_store (key kv mod 2 ^ 32) = Some document
      /\ make_wrapper_doc kv document = Ok hit
  else
    exists hits_array group_key,
      render_group limit fields g [] [] = Ok (hits_array, group_key)
      /\ hit = group_hits_json processed g hits_array group_key.

(** The result list a search pages over: bucketed rescoring of the raw
    results, then the merge with the curated ones. *)
Definition merged_results (a : search_args) : list kv_group :=
  merge_results (group_limit a)
    (bucket_vector_distance partial_sort (sort_fields_std a)
       (bucket_text_match partial_sort (sort_fields_std a) (raw_result_kvs a)))
    (override_result_kvs a).

Definition hits_key (a : search_args) : string :=
  if group_limit a =? 0 then "hits" else "grouped_hits".

(** [Collection::search] from the cutoff test at line 2815 to the end of
    the hits loop at line 3142; the conversation and facet sections that
    follow add other members to the response. *)
Definition search (search_cutoff exclude_out_of : bool) (num_documents : Z)
    (a : search_args) : Option json :=
  if search_cutoff && (found_count a =? 0) then Error 408 "Request Timeout"
  else
    let result_group_kvs := merged_results a in
    let start_result_index := to_long (args_offset a) in
    let end_result_index :=
      to_long (to_uint64
                 (Z.min (args_fetch_size a) (Z.of_nat (length result_group_kvs)) - 1)) in
    let result := JObj [("found", JNum (found_count a))] in
    let result :=
      if group_limit a =? 0 then result
      else json_set "found_docs" (JNum (found_docs a)) result in
    let result :=
      if exclude_out_of then result
      else json_set "out_of" (JNum num_documents) result in
    match construct_hits (group_limit a) (group_by_fields a) (groups_processed a)
            result_group_kvs (index_range start_result_index end_result_index) [] with
    | Error c m => Error c m
    | Ok hits => Ok (json_set (hits_key a) (JArr hits) result)
    end.

End Hits.

(** *** A deep page with bucketed text match scores

    251 results in descending order of their text match score [1000 - i],
    sorted by [_text_match(buckets: 2):desc]. *)

Definition deep_page_results : list kv_group :=
  List.map
    (fun i => [{| key := Z.of_nat i; distinct_key := Z.of_nat i; match_score_index := 0;
                  scores := [1000 - Z.of_nat i; 0; 0] |}])
    (seq 0 251).

Definition two_buckets : list sort_by :=
  [{| name := sort_field_const.text_match; order := sort_field_const.desc;
      type := text_match; text_match_buckets := 2; text_match_bucket_size := 0;
      vector_search_buckets := 0; vector_search_bucket_size := 0;
      union_search_index := 0; reference_collection_name := "";
      eval_expressions := [] |}].

(** The score a result of the given key carries in the given slot. *)
Definition score_of_key (slot k : Z) (l : list kv_group) : option Z :=
  match List.find (fun g => key (first_kv g) =? k) l with
  | Some g => Some (score_at slot (first_kv g))
  | None => None
  end.

(** *** The second page of two hits over five results *)

Definition five_results : list kv_group :=
  List.map
    (fun i => [{| key := Z.of_nat i; distinct_key := Z.of_nat i; match_score_index := 0;
                  scores := [100 - Z.of_nat i; 0; 0] |}])
    (seq 0 5).

Definition second_page : search_args :=
  {| sort_fields_std := two_buckets; group_limit := 0; group_by_fields := [];
     args_offset := 2; args_fetch_size := 4;
     raw_result_kvs := five_results; override_result_kvs := [];
     found_count := 5; found_docs := 5; groups_processed := ∅ |}.

(** A store that holds a document for every sequence id, and a wrapper
    that only embeds the document. *)
Definition every_document (seq_id : Z) : option json :=
  Some (JObj [("id", JStr (to_string seq_id))]).

Definition plain_wrapper (kv : KV) (document : json) : Option json :=
  Ok (JObj [("document", document)]).

(** The part of a list from index [from] up to index [to] exclusive. *)
Definition slice {A} (from to : nat) (l : list A) : list A :=
  firstn (to - from) (skipn from l).

End Search.

(* --------------------------------------------------------------------- *)
(** ** Fields of a schema ([struct field]) *)
(* --------------------------------------------------------------------- *)

Module Schema.

(** The members of [struct field] (field.h) read by the functions below. *)
Record field : Type := {
  name : string;
  type : string;
  facet : bool;
  optional : bool;
  index : bool;
  sort : bool;
  nested : bool;
  embed : json
}.

(** Modelled from the spec: the type predicates of [struct field], whose
    header is not among the sources; section 3 of the spec names the types
    int32, int64, float, bool and string. *)
Definition is_string (f : field) : bool := String.eqb (type f) "string".
Definition is_int32 (f : field) : bool := String.eqb (type f) "int32".
Definition is_int64 (f : field) : bool := String.eqb (type f) "int64".
Definition is_float (f : field) : bool := String.eqb (type f) "float".
Definition is_bool (f : field) : bool := String.eqb (type f) "bool".

(** [f.embed.count(fields::from) != 0]. *)
Definition has_embed_from (f : field) : bool := json_contains "from" (embed f).

End Schema.

(* --------------------------------------------------------------------- *)
(** ** The effective sort order ([validate_and_standardize_sort_fields]) *)
(* --------------------------------------------------------------------- *)

Module SortFields.

Import Sort.

(** The chain of type tests at lines 1714-1724 (and 1635-1645). *)
Definition sort_type_of_field (f : Schema.field) (otherwise : sort_by_type) : sort_by_type :=
  if Schema.is_string f then string_field
  else if Schema.is_int32 f then int32_field
  else if Schema.is_int64 f then int64_field
  else if Schema.is_float f then float_field
  else if Schema.is_bool f then bool_field
  else otherwise.

(** The first character of a name is ['$']. *)
Definition is_reference_name (n : string) : bool :=
  match n with
  | String c _ => Ascii.eqb c "$"%char
  | EmptyString => false
  end.

Definition has_name (n : string) (s : sort_by) : bool := String.eqb (name s) n.

Section Validate.

Variable search_schema : gmap string Schema.field.
Variable default_sorting_field : string.

(** Lines 1138-1198, a clause [$Collection(...)]: the standardized clauses
    of the referenced collection, or the error of the branch. *)
Variable standardize_reference_clause : sort_by -> Option (list sort_by).

(** [filter::parse_filter_query] on one expression of an [_eval] clause. *)
Variable parse_filter_query : string -> Option bool.

(** Lines 1238-1663, a clause on a field of the schema or with a
    parenthesized parameter list: the standardized clause, or the error. *)
Variable standardize_field_clause : sort_by -> Option sort_by.

(** The loop at lines 1209-1221 over the expressions of an [_eval] clause. *)
Fixpoint check_eval_expressions (exprs : list string) : Option bool :=
  match exprs with
  | [] => Ok true
  | filter_exp :: exprs' =>
      if String.eqb filter_exp "" then
        Error 400 "The eval expression in sort_by is empty."
      else
        match parse_filter_query filter_exp with
        | Error c _ => Error c "Error parsing eval expression in sort_by clause."
        | Ok _ => check_eval_expressions exprs'
        end
  end.

(** The loop at lines 1135-1666 over the clauses of the request. *)
Fixpoint standardize_clauses (sort_fields sort_fields_std : list sort_by)
    (eval_sort_count : Z) : Option (list sort_by * Z) :=
  match sort_fields with
  | [] => Ok (sort_fields_std, eval_sort_count)
  | _sort_field :: rest =>
      if is_reference_name (name _sort_field) then
        match standardize_reference_clause _sort_field with
        | Error c m => Error c m
        | Ok ref_sort_fields_std =>
            standardize_clauses rest (sort_fields_std ++ ref_sort_fields_std)
              eval_sort_count
        end
      else if String.eqb (name _sort_field) sort_field_const.eval then
        match check_eval_expressions (eval_expressions _sort_field) with
        | Error c m => Error c m
        | Ok _ =>
            standardize_clauses rest
              (sort_fields_std
                 ++ [with_eval_expressions (eval_expressions _sort_field)
                       (with_type eval_expression
                          (mk_sort_by sort_field_const.eval (order _sort_field)))])
              (eval_sort_count + 1)
        end
      else if String.eqb (name _sort_field) sort_field_const.random_order then
        standardize_clauses rest
          (sort_fields_std
             ++ [with_type random_order
                   (mk_sort_by (name _sort_field) (order _sort_field))])
          eval_sort_count
      else if String.eqb (name _sort_field) sort_field_const.union_search_index then
        standardize_clauses rest
          (sort_fields_std ++ [mk_sort_by (name _sort_field) (order _sort_field)])
          eval_sort_count
      else
        match standardize_field_clause _sort_field with
        | Error c m => Error c m
        | Ok sort_field_std =>
            standardize_clauses rest (sort_fields_std ++ [sort_field_std]) eval_sort_count
        end
  end.

(** The pair appended for a union search (lines 1733-1738 and 1771-1776). *)
Definition union_tie_break (union_search_index : Z) : list sort_by :=
  [ with_type union_query_order
      (with_union_search_index union_search_index
         (mk_sort_by sort_field_const.union_search_index sort_field_const.asc));
    with_type insertion_order (mk_sort_by sort_field_const.seq_id sort_field_const.desc) ].

(** Lines 1692-1742: the clauses supplied when the request has none. *)
Definition default_clauses (is_wildcard_query is_vector_query is_union_search : bool)
    (union_search_index : Z) : Option (list sort_by) :=
  let l :=
    if negb is_wildcard_query then
      [with_type text_match (mk_sort_by sort_field_const.text_match sort_field_const.desc)]
    else [] in
  let l :=
    if is_vector_query then
      l ++ [with_type vector_search
              (mk_sort_by sort_field_const.vector_distance sort_field_const.asc)]
    else l in
  let with_default : Option (list sort_by) :=
    if negb (String.eqb default_sorting_field "") then
      match search_schema !! default_sorting_field with
      | None =>
          Error 400 ("Default sorting field not found in the schema or it has been marked as a "
                     +:+ "non-indexed field.")
      | Some def =>
          if negb (Schema.index def) then
            Error 400 ("Default sorting field not found in the schema or it has been marked as a "
                       +:+ "non-indexed field.")
          else
            Ok (l ++ [with_type (sort_type_of_field def unassigned)
                        (mk_sort_by default_sorting_field sort_field_const.desc)])
      end
    else if negb is_union_search then
      Ok (l ++ [with_type insertion_order
                  (mk_sort_by sort_field_const.seq_id sort_field_const.desc)])
    else Ok l in
  match with_default with
  | Error c m => Error c m
  | Ok l =>
      if is_union_search && (length l <? 2)%nat then Ok (l ++ union_tie_break union_search_index)
      else Ok l
  end.

(** Lines 1744-1777: the clauses added behind those of the request. *)
Definition complete_clauses (is_wildcard_query is_vector_query is_union_search : bool)
    (union_search_index : Z) (sort_fields_std : list sort_by) : list sort_by :=
  let found_text_match_score := existsb (has_name sort_field_const.text_match) sort_fields_std in
  let found_vector_distance :=
    existsb (has_name sort_field_const.vector_distance) sort_fields_std in
  let found_union_search_index :=
    existsb (has_name sort_field_const.union_search_index) sort_fields_std in
  let l := sort_fields_std in
  let l :=
    if negb found_text_match_score && negb is_wildcard_query && (length l <? 3)%nat then
      l ++ [with_type text_match
              (mk_sort_by sort_field_const.text_match sort_field_const.desc)]
    else l in
  let l :=
    if negb found_vector_distance && is_vector_query && is_wildcard_query
       && (length l <? 3)%nat then
      l ++ [with_type vector_search
              (mk_sort_by sort_field_const.vector_distance sort_field_const.asc)]
    else l in
  if negb found_union_search_index && is_union_search && (length l <? 2)%nat then
    l ++ union_tie_break union_search_index
  else l.

(** [Collection::validate_and_standardize_sort_fields]: the standardized
    clauses [sort_fields_std] on success. *)
Definition validate_and_standardize_sort_fields (sort_fields : list sort_by)
    (is_wildcard_query is_vector_query is_reference_sort is_union_search : bool)
    (union_search_index : Z) : Option (list sort_by) :=
  match standardize_clauses sort_fields [] 0 with
  | Error c m => Error c m
  | Ok (sort_fields_std, eval_sort_count) =>
      if is_reference_sort then
        if 1 <? eval_sort_count then Error 422 "Only one sorting eval expression is allowed."
        else Ok sort_fields_std
      else
        let defaulted :=
          match sort_fields_std with
          | [] => default_clauses is_wildcard_query is_vector_query is_union_search
                    union_search_index
          | _ => Ok sort_fields_std
          end in
        match defaulted with
        | Error c m => Error c m
        | Ok sort_fields_std =>
            let sort_fields_std :=
              complete_clauses is_wildcard_query is_vector_query is_union_search
                union_search_index sort_fields_std in
            if (3 <? length sort_fields_std)%nat then
              Error 422 "Only upto 3 sort_by fields can be specified."
            else if 1 <? eval_sort_count then
              Error 422 "Only one sorting eval expression is allowed."
            else Ok sort_fields_std
        end
  end.

End Validate.

(** The order the spec describes for a request without sort clauses:
    [_text_match] descending for a query that is not a wildcard, then
    [_vector_distance] ascending for a vector query, then a last clause. *)
Definition described_default_order (is_wildcard_query is_vector_query : bool)
    (last_clause : sort_by) : list sort_by :=
  (if negb is_wildcard_query then
     [with_type text_match (mk_sort_by sort_field_const.text_match sort_field_const.desc)]
   else [])
  ++ (if is_vector_query then
        [with_type vector_search
           (mk_sort_by sort_field_const.vector_distance sort_field_const.asc)]
      else [])
  ++ [last_clause].

(** A schema with the indexed field [points] of type int32. *)
Definition points_field : Schema.field :=
  {| Schema.name := "points"; Schema.type := "int32"; Schema.facet := false;
     Schema.optional := false; Schema.index := true; Schema.sort := true;
     Schema.nested := false; Schema.embed := JNull |}.

Definition points_schema : gmap string Schema.field := {["points" := points_field]}.

(** The number of [_eval] clauses among the clauses of a request. *)
Definition count_eval (sort_fields : list sort_by) : Z :=
  Z.of_nat (length (List.filter (has_name sort_field_const.eval) sort_fields)).

End SortFields.

(* --------------------------------------------------------------------- *)
(** ** Union of searches ([Collection::do_union]) *)
(* --------------------------------------------------------------------- *)

Module Union.

Import Sort.

(** What [do_union] reads of a collection obtained from the manager. *)
Record collection_info : Type := {
  coll_name : string;
  coll_default_sorting_field : string;
  coll_num_documents : Z
}.

(** The members of [collection_search_args_t] read by [do_union]. *)
Record collection_search_args_t : Type := {
  sort_fields : list sort_by;
  raw_query : string
}.

(** The members of [search_args] read by [do_union]. *)
Record search_args : Type := {
  sort_fields_std : list sort_by;
  all_result_ids_len : Z;
  raw_result_kvs : list Search.kv_group
}.

(** [struct union_global_params_t]. *)
Record union_global_params_t : Type := {
  per_page : Z;
  page : Z;
  offset : Z;
  limit_hits : Z;
  fetch_size : Z
}.

(** [s.back()], the zero character for an empty string. *)
Definition string_back (s : string) : ascii :=
  List.last (list_ascii_of_string s) Ascii.zero.

(** [s[i] = c]. *)
Definition string_set (i : nat) (c : ascii) (s : string) : string :=
  string_of_list_ascii (<[i := c]> (list_ascii_of_string s)).

(** The loops at lines 3709-3711 and 3718-3720. *)
Definition list_clauses (message : string) (l : list sort_by) : string :=
  fold_left (fun m item => m +:+ ("`" +:+ name item +:+ ": " +:+ enum_name (type item) +:+ "`, "))
            l message.

(** Lines 3707-3727: the message for searches that sort on different
    numbers of clauses. *)
Definition size_mismatch_message (search_index : Z) (first this : list sort_by) : string :=
  let message := "Expected size of `sort_by` parameter of all searches to be equal. "
                 +:+ "The first union search sorts on {" in
  let message := list_clauses message first in
  let message :=
    if negb (Ascii.eqb (string_back message) "{"%char) then
      string_set (String.length message - 2) "}"%char message
    else message +:+ "} " in
  let message := message +:+ ("but the search at index `" +:+ to_string search_index
                              +:+ "` sorts on {") in
  let message := list_clauses message this in
  if negb (Ascii.eqb (string_back message) "{"%char) then
    string_set (String.length message - 1) "."%char
      (string_set (String.length message - 2) "}"%char message)
  else message +:+ "}.".

(** Lines 3732-3748. *)
Definition default_sorting_field_hint (default_sorting_field_used
    first_request_default_sorting_field_used : bool)
    (this_collection first_search_collection_name : string) : string :=
  if default_sorting_field_used && first_request_default_sorting_field_used then
    " Both `" +:+ this_collection +:+ "` and `" +:+ first_search_collection_name +:+
    "` collections have declared a default sorting field of different type. Since" +:+
    " union expects the searches to sort_by on the same type of fields, default" +:+
    " sorting fields of the collections should be removed."
  else if default_sorting_field_used then
    " `" +:+ this_collection +:+ "` collection has declared a default sorting field of " +:+
    "different type. Since union expects the searches to sort_by on the same type " +:+
    "of fields, default sorting field of the collection should be removed."
  else if first_request_default_sorting_field_used then
    " `" +:+ first_search_collection_name +:+ "` collection has declared a default sorting" +:+
    " field of different type. Since union expects the searches to sort_by on the" +:+
    " same type of fields, default sorting field of the collection should be removed."
  else "".

(** Lines 3750-3755. *)
Definition type_mismatch_message (search_index : Z) (this first : sort_by)
    (append_hint : string) : string :=
  "Expected type of `" +:+ name this +:+ "` sort_by (" +:+ enum_name (type this) +:+
  ") at search index `" +:+ to_string search_index +:+ "` to be " +:+
  "the same as the type of `" +:+ name first +:+ "` sort_by (" +:+
  enum_name (type first) +:+ ") at search index `" +:+ to_string 0 +:+ "`." +:+ append_hint.

(** Lines 3759-3764. *)
Definition order_mismatch_message (search_index : Z) (this first : sort_by) : string :=
  "Expected order of `" +:+ name this +:+ "` sort_by (" +:+ order this +:+
  ") at search index `" +:+ to_string search_index +:+
  "` to be the same as the order of `" +:+ name first +:+ "` sort_by (" +:+
  order first +:+ ") at search index `" +:+ to_string 0 +:+ "`.".

(** The loop at lines 3730-3766 over the clause positions; [None] when no
    position differs. *)
Fixpoint compare_clauses (search_index : Z) (append_hint : string)
    (this first : list sort_by) : option (Z * string) :=
  match this, first with
  | t :: this', f :: first' =>
      if negb (sort_by_type_eqb (type t) (type f)) then
        Some (400, type_mismatch_message search_index t f append_hint)
      else if negb (String.eqb (order t) (order f)) then
        Some (400, order_mismatch_message search_index t f)
      else compare_clauses search_index append_hint this' first'
  | _, _ => None
  end.

(** Lines 3703-3766 for a search that is not the first one. *)
Definition check_sort_compatibility (search_index : Z)
    (default_sorting_field_used first_request_default_sorting_field_used : bool)
    (this_collection first_search_collection_name : string)
    (this first : list sort_by) : option (Z * string) :=
  if negb (length this =? length first)%nat then
    Some (400, size_mismatch_message search_index first this)
  else
    compare_clauses search_index
      (default_sorting_field_hint default_sorting_field_used
         first_request_default_sorting_field_used this_collection
         first_search_collection_name)
      this first.

(** The variables of [do_union] that live across the iterations of its
    first loop. *)
Record union_state : Type := {
  total : Z;
  out_of : Z;
  unique_collection_ids : gset Z;
  request_json_list : list json;
  first_request_default_sorting_field_used : bool;
  search_params_guards : list search_args
}.

Definition initial_state : union_state :=
  {| total := 0; out_of := 0; unique_collection_ids := ∅; request_json_list := [];
     first_request_default_sorting_field_used := false; search_params_guards := [] |}.

(** [request_json_list[0]["collection"]]. *)
Definition first_collection_name (st : union_state) : string :=
  match request_json_list st with
  | first :: _ =>
      match json_get "collection" first with Some (JStr s) => s | _ => "" end
  | [] => ""
  end.

Section DoUnion.

(** [CollectionManager::get_collection_with_id]. *)
Variable get_collection_with_id : Z -> option collection_info.

(** [init_index_search_args_with_lock] of the collection, for the search at
    the given index of the union. *)
Variable init_index_search_args_with_lock :
  collection_info -> collection_search_args_t -> Z -> Option search_args.

(** [run_search_with_lock]: the search arguments with the results filled in. *)
Variable run_search_with_lock : collection_info -> search_args -> Option search_args.

(** Lines 3778-3946: the shared topster and the hits of the page. *)
Variable union_hits :
  list Z -> list collection_search_args_t -> list search_args ->
  union_global_params_t -> Option (list json).

(** Lines 3642-3643: the search names no sort clause and its collection
    declares a default sorting field. *)
Definition default_sorting_field_used (coll : collection_info)
    (coll_args : collection_search_args_t) : bool :=
  match sort_fields coll_args with [] => true | _ => false end
  && negb (String.eqb (coll_default_sorting_field coll) "").

(** Lines 3667-3700 and 3767-3769: what an iteration records of a search
    that has run. *)
Definition record_search (union_params : union_global_params_t) (search_index : Z)
    (coll_id : Z) (coll : collection_info) (coll_args : collection_search_args_t)
    (search_params : search_args) (st : union_state) : union_state :=
  let found := all_result_ids_len search_params in
  let total := to_uint64 (total st + found) in
  let '(out_of, unique_collection_ids) :=
    if decide (coll_id ∈ unique_collection_ids st) then
      (out_of st, unique_collection_ids st)
    else
      (to_uint64 (out_of st + coll_num_documents coll),
       {[coll_id]} ∪ unique_collection_ids st) in
  let params :=
    json_set "found" (JNum found)
      (json_set "q" (JStr (raw_query coll_args))
         (json_set "per_page" (JNum (per_page union_params))
            (json_set "collection" (JStr (coll_name coll)) JNull))) in
  {| total := total; out_of := out_of;
     unique_collection_ids := unique_collection_ids;
     request_json_list := request_json_list st ++ [params];
     first_request_default_sorting_field_used :=
       if 0 <? search_index then first_request_default_sorting_field_used st
       else default_sorting_field_used coll coll_args;
     search_params_guards := search_params_guards st ++ [search_params] |}.

(** [search_params_guards[0]->sort_fields_std]. *)
Definition first_search_sort_fields (st : union_state) : list sort_by :=
  match search_params_guards st with
  | first :: _ => sort_fields_std first
  | [] => []
  end.

(** One iteration of the loop at lines 3619-3770. *)
Definition union_step (union_params : union_global_params_t) (search_index : Z)
    (coll_id : Z) (coll_args : collection_search_args_t) (st : union_state)
  : Option union_state :=
  match get_collection_with_id coll_id with
  | None =>
      Error 400 ("Collection having `coll_id: " +:+ to_string coll_id +:+ "` not found.")
  | Some coll =>
      match init_index_search_args_with_lock coll coll_args search_index with
      | Error c m => Error c m
      | Ok search_params_guard =>
          match run_search_with_lock coll search_params_guard with
          | Error c m => Error c m
          | Ok search_params =>
              let st' :=
                record_search union_params search_index coll_id coll coll_args
                  search_params st in
              if 0 <? search_index then
                match check_sort_compatibility search_index
                        (default_sorting_field_used coll coll_args)
                        (first_request_default_sorting_field_used st) (coll_name coll)
                        (first_collection_name st')
                        (sort_fields_std search_params)
                        (first_search_sort_fields st') with
                | Some (c, m) => Error c m
                | None => Ok st'
                end
              else Ok st'
          end
      end
  end.

(** The loop at lines 3619-3770. *)
Fixpoint union_loop (union_params : union_global_params_t) (search_index : Z)
    (collection_ids : list Z) (searches : list collection_search_args_t)
    (st : union_state) : Option union_state :=
  match collection_ids, searches with
  | coll_id :: collection_ids', coll_args :: searches' =>
      match union_step union_params search_index coll_id coll_args st with
      | Error c m => Error c m
      | Ok st' => union_loop union_params (search_index + 1) collection_ids' searches' st'
      end
  | _, _ => Ok st
  end.

(** [Collection::do_union]: the response [result] on success. *)
Definition do_union (search_cutoff : bool) (collection_ids : list Z)
    (searches : list collection_search_args_t)
    (union_params : union_global_params_t) : Option json :=
  if negb (length searches =? length collection_ids)%nat then
    Error 400 "Expected `collection_ids` and `searches` size to be equal."
  else
    match union_loop union_params 0 collection_ids searches initial_state with
    | Error c m => Error c m
    | Ok st =>
        if search_cutoff && (total st =? 0) then Error 408 "Request Timeout"
        else
          match union_hits collection_ids searches (search_params_guards st)
                  union_params with
          | Error c m => Error c m
          | Ok hits =>
              let result := JObj [("found", JNum (total st))] in
              let result := json_set "out_of" (JNum (out_of st)) result in
              let result := json_set "page" (JNum (page union_params)) result in
              let result := json_set "hits" (JArr hits) result in
              let result :=
                json_set "union_request_params" (JArr (request_json_list st)) result in
              Ok (json_set "search_cutoff" (JBool search_cutoff) result)
          end
    end.

(** The number of results of each search of a union, taken on its own. *)
Fixpoint found_counts (search_index : Z) (collection_ids : list Z)
    (searches : list collection_search_args_t) : list Z :=
  match collection_ids, searches with
  | coll_id :: collection_ids', coll_args :: searches' =>
      match get_collection_with_id coll_id with
      | Some coll =>
          match init_index_search_args_with_lock coll coll_args search_index with
          | Ok guard =>
              match run_search_with_lock coll guard with
              | Ok search_params => all_result_ids_len search_params
              | Error _ _ => 0
              end
          | Error _ _ => 0
          end
      | None => 0
      end :: found_counts (search_index + 1) collection_ids' searches'
  | _, _ => []
  end.

(** The number of documents of the collection of an id. *)
Definition documents_of (coll_id : Z) : Z :=
  match get_collection_with_id coll_id with
  | Some coll => coll_num_documents coll
  | None => 0
  end.

End DoUnion.

(** The sum of a list of integers. *)
Definition sum_list (l : list Z) : Z := fold_right Z.add 0 l.

(** The first position at which two lists of clauses differ in type or in
    order: the clauses found there. *)
Fixpoint first_mismatch (this first : list sort_by) : option (sort_by * sort_by) :=
  match this, first with
  | t :: this', f :: first' =>
      if sort_by_type_eqb (type t) (type f) && String.eqb (order t) (order f) then
        first_mismatch this' first'
      else Some (t, f)
  | _, _ => None
  end.

(** What the spec says of the message for searches that sort on different
    numbers of clauses: it lists the clauses of the first search and those
    of the later one, each with its type, and gives the index of the later
    search. *)
Definition described_clause (item : sort_by) : string :=
  "`" +:+ name item +:+ ": " +:+ enum_name (type item) +:+ "`".

Definition described_clauses (l : list sort_by) : string :=
  String.concat ", " (List.map described_clause l).

Definition described_size_message (search_index : Z) (first this : list sort_by) : string :=
  "Expected size of `sort_by` parameter of all searches to be equal. "
  +:+ "The first union search sorts on {" +:+ described_clauses first
  +:+ "} but the search at index `" +:+ to_string search_index +:+ "` sorts on {"
  +:+ described_clauses this +:+ "}.".

(** What the spec says of the message for a mismatch at a clause position:
    it names both clauses with their types and search indexes, and when
    either search fell back to the default sorting field of its
    collection, it also names that collection and suggests removing the
    default sorting field. *)
Definition described_mismatch_message (message : string) (search_index : Z)
    (this first : sort_by) (this_collection first_collection : string)
    (this_fell_back first_fell_back : bool) : bool :=
  occurs_in (name this) message && occurs_in (enum_name (type this)) message
  && occurs_in (name first) message && occurs_in (enum_name (type first)) message
  && occurs_in ("`" +:+ to_string search_index +:+ "`") message
  && occurs_in "`0`" message
  && (if this_fell_back then
        occurs_in this_collection message && occurs_in "should be removed" message
      else true)
  && (if first_fell_back then
        occurs_in first_collection message && occurs_in "should be removed" message
      else true).

(** *** Two collections searched in one union

    Collection 1, [products], declares the default sorting field [points]
    (int32) and holds 3 documents; collection 2, [articles], declares none
    and holds 5.  Every search is a wildcard query and finds 2 documents. *)

Definition union_collection (coll_id : Z) : option collection_info :=
  if coll_id =? 1 then
    Some {| coll_name := "products"; coll_default_sorting_field := "points";
            coll_num_documents := 3 |}
  else if coll_id =? 2 then
    Some {| coll_name := "articles"; coll_default_sorting_field := "";
            coll_num_documents := 5 |}
  else None.

Definition union_field (n t : string) : Schema.field :=
  {| Schema.name := n; Schema.type := t; Schema.facet := false;
     Schema.optional := false; Schema.index := true; Schema.sort := true;
     Schema.nested := false; Schema.embed := JNull |}.

Definition union_schema : gmap string Schema.field :=
  {["points" := union_field "points" "int32";
    "rank" := union_field "rank" "int32";
    "price" := union_field "price" "float"]}.

(** The type given to a clause on a field of [union_schema]. *)
Definition union_field_clause (s : sort_by) : Option sort_by :=
  match union_schema !! name s with
  | Some f => Ok (with_type (SortFields.sort_type_of_field f (type s)) s)
  | None =>
      Error 404 ("Could not find a field named `" +:+ name s
                 +:+ "` in the schema for sorting.")
  end.

(** The search arguments of a search of the union: its sort clauses are
    standardized as for any search of a union. *)
Definition union_init (coll : collection_info) (coll_args : collection_search_args_t)
    (search_index : Z) : Option search_args :=
  match SortFields.validate_and_standardize_sort_fields union_schema
          (coll_default_sorting_field coll)
          (fun _ => Error 400 "Reference `sort_by` is malformed.") (fun _ => Ok true)
          union_field_clause (sort_fields coll_args) true false false true search_index with
  | Ok l => Ok {| sort_fields_std := l; all_result_ids_len := 0; raw_result_kvs := [] |}
  | Error c m => Error c m
  end.

Definition union_run (coll : collection_info) (guard : search_args) : Option search_args :=
  Ok {| sort_fields_std := sort_fields_std guard; all_result_ids_len := 2;
        raw_result_kvs := [] |}.

Definition union_no_hits (ids : list Z) (searches : list collection_search_args_t)
    (guards : list search_args) (union_params : union_global_params_t)
  : Option (list json) := Ok [].

Definition first_page : union_global_params_t :=
  {| per_page := 10; page := 1; offset := 0; limit_hits := 1000000; fetch_size := 10 |}.

(** A wildcard search with the given sort clauses. *)
Definition wildcard_search (clauses : list sort_by) : collection_search_args_t :=
  {| sort_fields := clauses; raw_query := "*" |}.

(** The first occurrences of the elements of a list, in order. *)
Fixpoint distinct (seen : gset Z) (l : list Z) : list Z :=
  match l with
  | [] => []
  | x :: l' =>
      if decide (x ∈ seen) then distinct seen l'
      else x :: distinct ({[x]} ∪ seen) l'
  end.

End Union.

(* --------------------------------------------------------------------- *)
(** ** Curation ([does_override_match], [curate_results]) *)
(* --------------------------------------------------------------------- *)

Module Curation.

(** [override_t::rule]; a [std::set<std::string>] is the list of its
    elements in iteration order. *)
Record rule_t : Type := {
  query : string;
  normalized_query : string;
  match_ : string;
  tags : list string;
  rule_filter_by : string
}.

Record add_hit_t : Type := {
  doc_id : string;
  position : Z
}.

(** [struct override_t]; [drop_hits] keeps the document ids. *)
Record override_t : Type := {
  id : string;
  rule : rule_t;
  add_hits : list add_hit_t;
  drop_hits : list string;
  filter_by : string;
  remove_matched_tokens : bool;
  replace_query : string;
  stop_processing : bool;
  filter_curated_hits : bool;
  sort_by : string;
  metadata : json;
  effective_from_ts : Z;
  effective_to_ts : Z
}.

(** Modelled from the spec: [override_t::MATCH_EXACT] and
    [override_t::MATCH_CONTAINS] of override.h, which is not among the
    sources; section 3 of the spec names the matchers [exact] and
    [contains]. *)
Definition MATCH_EXACT : string := "exact".
Definition MATCH_CONTAINS : string := "contains".

(** What [curate_results] and [does_override_match] read and write:
    the local [query] and [excluded_set] of [curate_results], and its
    reference parameters. *)
Record curation : Type := {
  c_query : string;
  excluded_set : gset Z;
  actual_query : string;
  included_ids : list (Z * Z);
  excluded_ids : list Z;
  filter_overrides : list override_t;
  c_filter_curated_hits : bool;
  curated_sort_by : string;
  override_metadata : json
}.

(** A loop body either falls through to the next iteration or leaves the
    loop by [break]. *)
Inductive flow : Type := Continue | Break.

(** [for(x : l) { body }] with [break]. *)
Fixpoint for_each {A S : Type} (body : A -> S -> flow * S) (l : list A) (s : S)
  : flow * S :=
  match l with
  | [] => (Continue, s)
  | x :: l' =>
      match body x s with
      | (Break, s') => (Break, s')
      | (Continue, s') => for_each body l' s'
      end
  end.

Definition is_empty (s : string) : bool := String.eqb s "".

Section Curate.

(** [Collection::doc_id_to_seq_id]: the sequence id of a stored document. *)
Variable doc_id_to_seq_id : string -> option Z.

(** [std::time(0)] at the call. *)
Variable now_epoch : Z.

(** [StringUtils::contains_word], [StringUtils::replace_all] and
    [StringUtils::trim]. *)
Variable contains_word : string -> string -> bool.
Variable replace_all : string -> string -> string -> string.
Variable trim : string -> string.

(** The tokenizer run at lines 984-987 followed by the join on spaces. *)
Variable normalize : string -> string.

(** The loop at lines 910-916 (and 969-975). *)
Definition exclude_hits (hits : list string) (st : curation) : curation :=
  fold_left
    (fun st hit =>
       match doc_id_to_seq_id hit with
       | Some seq_id =>
           {| c_query := c_query st;
              excluded_set := {[seq_id]} ∪ excluded_set st;
              actual_query := actual_query st;
              included_ids := included_ids st;
              excluded_ids := excluded_ids st ++ [seq_id];
              filter_overrides := filter_overrides st;
              c_filter_curated_hits := c_filter_curated_hits st;
              curated_sort_by := curated_sort_by st;
              override_metadata := override_metadata st |}
       | None => st
       end)
    hits st.

(** The loop at lines 918-928 (and 1090-1100). *)
Definition include_hits (hits : list add_hit_t) (st : curation) : curation :=
  fold_left
    (fun st hit =>
       match doc_id_to_seq_id (doc_id hit) with
       | None => st
       | Some seq_id =>
           if decide (seq_id ∈ excluded_set st) then st
           else
             {| c_query := c_query st;
                excluded_set := excluded_set st;
                actual_query := actual_query st;
                included_ids := included_ids st ++ [(seq_id, position hit)];
                excluded_ids := excluded_ids st;
                filter_overrides := filter_overrides st;
                c_filter_curated_hits := c_filter_curated_hits st;
                curated_sort_by := curated_sort_by st;
                override_metadata := override_metadata st |}
       end)
    hits st.

(** [filter_overrides.push_back(&override)]. *)
Definition push_filter_override (o : override_t) (st : curation) : curation :=
  {| c_query := c_query st;
     excluded_set := excluded_set st;
     actual_query := actual_query st;
     included_ids := included_ids st;
     excluded_ids := excluded_ids st;
     filter_overrides := filter_overrides st ++ [o];
     c_filter_curated_hits := c_filter_curated_hits st;
     curated_sort_by := curated_sort_by st;
     override_metadata := override_metadata st |}.

(** Lines 930-947. *)
Definition reshape_query (o : override_t) (st : curation) : curation :=
  let '(query, actual) :=
    if negb (is_empty (replace_query o)) then (c_query st, replace_query o)
    else if remove_matched_tokens o && is_empty (filter_by o) then
      let q := trim (replace_all (c_query st) (normalized_query (rule o)) "") in
      let q := if is_empty q then "*" else q in
      (q, q)
    else (c_query st, actual_query st) in
  {| c_query := query;
     excluded_set := excluded_set st;
     actual_query := actual;
     included_ids := included_ids st;
     excluded_ids := excluded_ids st;
     filter_overrides := filter_overrides st;
     c_filter_curated_hits := filter_curated_hits o;
     curated_sort_by := sort_by o;
     override_metadata :=
       if json_empty (override_metadata st) then metadata o else override_metadata st |}.

(** [Collection::does_override_match]. *)
Definition does_override_match (o : override_t) (filter_query : string)
    (tags_matched wildcard_tag_matched : bool) (st : curation) : bool * curation :=
  if negb wildcard_tag_matched && negb tags_matched
     && negb (match tags (rule o) with [] => true | _ => false end) then
    (false, st)
  else if negb (effective_from_ts o =? -1) && (now_epoch <? effective_from_ts o) then
    (false, st)
  else if negb (effective_to_ts o =? -1) && (effective_to_ts o <? now_epoch) then
    (false, st)
  else
    let st := if negb (is_empty (filter_by o)) then push_filter_override o st else st in
    let allowed :=
      if (wildcard_tag_matched || tags_matched) && is_empty (query (rule o))
         && is_empty (rule_filter_by (rule o)) then true
      else
        let filter_by_match :=
          is_empty (query (rule o)) && is_empty (match_ (rule o))
          && negb (is_empty (rule_filter_by (rule o)))
          && String.eqb (rule_filter_by (rule o)) filter_query in
        let query_match :=
          (String.eqb (match_ (rule o)) MATCH_EXACT
           && String.eqb (normalized_query (rule o)) (c_query st))
          || (String.eqb (match_ (rule o)) MATCH_CONTAINS
              && contains_word (c_query st) (normalized_query (rule o))) in
        if negb filter_by_match && negb query_match then false
        else if negb (is_empty (rule_filter_by (rule o)))
                && negb (String.eqb (rule_filter_by (rule o)) filter_query) then false
        else true in
    if allowed then
      (true, reshape_query o (include_hits (add_hits o) (exclude_hits (drop_hits o) st)))
    else (false, st).

(** [overrides.find(id)] in the [std::map] of the collection, kept as the
    list of its entries in key order. *)
Fixpoint find_override (overrides : list (string * override_t)) (i : string)
  : option override_t :=
  match overrides with
  | [] => None
  | (k, o) :: overrides' => if String.eqb k i then Some o else find_override overrides' i
  end.

(** The state of the two tag passes: the curation state, [found_overrides]
    and [all_tags_found]. *)
Definition tag_state : Type := curation * gset string * bool.

(** The body of the loop at lines 999-1022 (all requested tags must be the
    tags of the override). *)
Definition exact_tags_body (overrides : list (string * override_t))
    (request_tags : list string) (filter_query : string)
    (i : string) (ts : tag_state) : flow * tag_state :=
  let '(st, found_overrides, all_tags_found) := ts in
  match find_override overrides i with
  | None => (Continue, ts)
  | Some o =>
      if bool_decide (tags (rule o) = request_tags) then
        match does_override_match o filter_query true false st with
        | (true, st') =>
            (if stop_processing o then Break else Continue,
             (st', {[i]} ∪ found_overrides, true))
        | (false, st') => (Continue, (st', found_overrides, all_tags_found))
        end
      else (Continue, ts)
  end.

(** The body of the inner loop at lines 1036-1067 (some requested tag is a
    tag of the override). *)
Definition partial_tags_body (overrides : list (string * override_t))
    (request_tags : list string) (filter_query : string)
    (i : string) (ts : tag_state) : flow * tag_state :=
  let '(st, found_overrides, all_tags_found) := ts in
  if decide (i ∈ found_overrides) then (Continue, ts)
  else
    match find_override overrides i with
    | None => (Continue, ts)
    | Some o =>
        if existsb (fun t => existsb (String.eqb t) request_tags) (tags (rule o)) then
          match does_override_match o filter_query true false st with
          | (true, st') =>
              (if stop_processing o then Break else Continue,
               (st', {[i]} ∪ found_overrides, all_tags_found))
          | (false, st') => (Continue, (st', found_overrides, all_tags_found))
          end
        else (Continue, ts)
    end.

(** The outer loop at lines 1028-1068: the [break] of the inner loop leaves
    the inner loop only, the next requested tag is then taken up. *)
Definition partial_tags_pass (overrides : list (string * override_t))
    (override_tags : gmap string (list string)) (request_tags : list string)
    (filter_query : string) (ts : tag_state) : tag_state :=
  fold_left
    (fun ts tag =>
       match override_tags !! tag with
       | None => ts
       | Some override_ids =>
           snd (for_each (partial_tags_body overrides request_tags filter_query)
                         override_ids ts)
       end)
    request_tags ts.

(** Line 1074: the only tag of the override is [*]. *)
Definition wildcard_tag (o : override_t) : bool :=
  match tags (rule o) with [t] => String.eqb t "*" | _ => false end.

(** The body of the loop at lines 1072-1083 (no tags requested). *)
Definition untagged_body (filter_query : string) (entry : string * override_t)
    (st : curation) : flow * curation :=
  let o := snd entry in
  match does_override_match o filter_query false (wildcard_tag o) st with
  | (match_found, st') =>
      (if match_found && stop_processing o then Break else Continue, st')
  end.

(** Lines 963-976 of [curate_results]: the hidden hits are excluded. *)
Definition hide_hits (actual_query_arg : string) (hidden_hits : list string) : curation :=
  exclude_hits hidden_hits
    {| c_query := ""; excluded_set := ∅; actual_query := actual_query_arg;
       included_ids := []; excluded_ids := []; filter_overrides := [];
       c_filter_curated_hits := false; curated_sort_by := "";
       override_metadata := JNull |}.

(** Lines 979-988: [query] is the tokenized query of the request. *)
Definition tokenize_query (st : curation) : curation :=
  {| c_query :=
       if String.eqb (actual_query st) "*" then "*" else normalize (actual_query st);
     excluded_set := excluded_set st;
     actual_query := actual_query st; included_ids := included_ids st;
     excluded_ids := excluded_ids st; filter_overrides := filter_overrides st;
     c_filter_curated_hits := c_filter_curated_hits st;
     curated_sort_by := curated_sort_by st;
     override_metadata := override_metadata st |}.

(** [Collection::curate_results]; [pinned_hits] is the map of the request
    flattened to (document id, position) in iteration order. *)
Definition curate_results (overrides : list (string * override_t))
    (override_tags : gmap string (list string))
    (actual_query_arg filter_query : string) (enable_overrides : bool)
    (request_tags : list string) (pinned_hits : list add_hit_t)
    (hidden_hits : list string) : curation :=
  let st := hide_hits actual_query_arg hidden_hits in
  let st :=
    if enable_overrides && negb (match overrides with [] => true | _ => false end) then
      let st := tokenize_query st in
      match request_tags with
      | [] => snd (for_each (untagged_body filter_query) overrides st)
      | tag :: _ =>
          let ts : tag_state := (st, ∅, false) in
          let ts :=
            if (1 <? length request_tags)%nat then
              match override_tags !! tag with
              | Some override_ids =>
                  snd (for_each (exact_tags_body overrides request_tags filter_query)
                                override_ids ts)
              | None => ts
              end
            else ts in
          let '(st, found_overrides, all_tags_found) := ts in
          if all_tags_found then st
          else
            fst (fst (partial_tags_pass overrides override_tags request_tags
                        filter_query ts))
      end
    else st in
  include_hits pinned_hits st.

End Curate.

(** *** Overrides that drop one document each

    The documents [1], [2] and [3] are stored under their numbers.  An
    override of the fixture has no time window, no filter and no query
    replacement; its rule is an exact match on the query [shoes], or no
    query at all when it is matched by tag. *)

Definition stored_seq_id (doc : string) : option Z :=
  if String.eqb doc "1" then Some 1
  else if String.eqb doc "2" then Some 2
  else if String.eqb doc "3" then Some 3
  else None.

Definition dropping_override (i : string) (r : rule_t) (drop : list string)
    (stop : bool) : override_t :=
  {| id := i; rule := r; add_hits := []; drop_hits := drop; filter_by := "";
     remove_matched_tokens := false; replace_query := ""; stop_processing := stop;
     filter_curated_hits := false; sort_by := ""; metadata := JNull;
     effective_from_ts := -1; effective_to_ts := -1 |}.

Definition tag_rule (t : list string) : rule_t :=
  {| query := ""; normalized_query := ""; match_ := ""; tags := t; rule_filter_by := "" |}.

Definition shoes_rule : rule_t :=
  {| query := "shoes"; normalized_query := "shoes"; match_ := MATCH_EXACT; tags := [];
     rule_filter_by := "" |}.

(** An override under the tag [a] that stops the processing, and an
    override under the tag [b]. *)
Definition stop_under_a : override_t :=
  dropping_override "o1" (tag_rule ["a"]) ["1"] true.
Definition drop_under_b : override_t :=
  dropping_override "o2" (tag_rule ["b"]) ["2"] false.

(** Two overrides on the query [shoes], the first one stops the
    processing. *)
Definition stop_on_shoes : override_t := dropping_override "u1" shoes_rule ["1"] true.
Definition drop_on_shoes : override_t := dropping_override "u2" shoes_rule ["2"] false.

(** [curate_results] with an identity tokenizer and no word matching. *)
Definition curate_stored (overrides : list (string * override_t))
    (override_tags : gmap string (list string)) (actual_query_arg : string)
    (request_tags : list string) : curation :=
  curate_results stored_seq_id 0 (fun _ _ => false) (fun s _ _ => s) (fun s => s)
    (fun s => s) overrides override_tags actual_query_arg "" true request_tags [] [].

End Curation.

(* --------------------------------------------------------------------- *)
(** ** Cascading delete through references ([cascade_remove_docs]) *)
(* --------------------------------------------------------------------- *)

Module Cascade.

(** What one call leaves behind: the documents handed to
    [remove_document], in order, and the update documents collected in
    [buffer] for the final [add_many(buffer, dummy, UPDATE)]. *)
Record cascade_result : Type := {
  removed : list (Z * json);
  buffer : list json
}.

Definition nothing : cascade_result := {| removed := []; buffer := [] |}.

Definition remove_document (document : json) (seq_id : Z) (r : cascade_result)
  : cascade_result :=
  {| removed := removed r ++ [(seq_id, document)]; buffer := buffer r |}.

Definition push_update (update_document : json) (r : cascade_result) : cascade_result :=
  {| removed := removed r; buffer := buffer r ++ [update_document] |}.

(** The loop at lines 5476-5485 over the positions of the reference array:
    the elements equal to the removed value are skipped together with the
    helper entry at the same position. *)
Fixpoint drop_reference (field_name ref_helper_field_name : string) (ref_value : json)
    (values helpers : list json) (update_document : json) (removed_ref_value_found : bool)
  : json * bool :=
  match values with
  | [] => (update_document, removed_ref_value_found)
  | v :: values' =>
      if json_eqb v ref_value then
        drop_reference field_name ref_helper_field_name ref_value values' (tl helpers)
          update_document true
      else
        let update_document :=
          json_set field_name
            (json_push_back v (default JNull (json_get field_name update_document)))
            update_document in
        let update_document :=
          json_set ref_helper_field_name
            (json_push_back (hd JNull helpers)
               (default JNull (json_get ref_helper_field_name update_document)))
            update_document in
        drop_reference field_name ref_helper_field_name ref_value values' (tl helpers)
          update_document removed_ref_value_found
  end.

Section CascadeRemove.

(** [fields::REFERENCE_HELPER_FIELD_SUFFIX] and
    [fields::reference_helper_fields] of field.h. *)
Variable REFERENCE_HELPER_FIELD_SUFFIX : string.
Variable reference_helper_fields : string.

(** [get_filter_ids] on a filter query: the matching sequence ids. *)
Variable get_filter_ids : string -> list Z.

Variable search_schema : gmap string Schema.field.

(** [field::is_singular]. *)
Variable is_singular : Schema.field -> bool.

(** [reference_fields]: the referenced collection and field of a reference field. *)
Variable reference_fields : gmap string (string * string).

(** [get_document_from_store] on the key of a sequence id; a failure is
    logged and the document skipped, whatever its code. *)
Variable get_document_from_store : Z -> option json.

(** Lines 5382-5397 and 5493-5508, the rule for a single reference:
    [None] when [get<std::string>] throws on the id. *)
Definition singular_rule (field_name : string) (is_field_optional : bool)
    (seq_id : Z) (existing_document : json) (r : cascade_result) : option cascade_result :=
  let multiple_ref_fields :=
    json_contains reference_helper_fields existing_document
    && (1 <? json_size (default JNull (json_get reference_helper_fields existing_document))) in
  if multiple_ref_fields && is_field_optional then
    match json_get "id" existing_document with
    | Some (JStr id) =>
        let update_document := json_set "id" (JStr id) JNull in
        let update_document := json_set field_name JNull update_document in
        Some (push_update update_document r)
    | _ => None
    end
  else Some (remove_document existing_document seq_id r).

(** Lines 5439-5508 for one document holding an array of references. *)
Definition array_rule (field_name ref_helper_field_name : string) (ref_value : json)
    (is_field_optional : bool) (seq_id : Z) (existing_document : json)
    (r : cascade_result) : option cascade_result :=
  let values := default JNull (json_get field_name existing_document) in
  let helpers := default JNull (json_get ref_helper_field_name existing_document) in
  if negb (json_contains "id" existing_document) then
    singular_rule field_name is_field_optional seq_id existing_document r
  else if negb (json_contains field_name existing_document) then
    singular_rule field_name is_field_optional seq_id existing_document r
  else if negb (is_array values) then
    singular_rule field_name is_field_optional seq_id existing_document r
  else if json_empty values then
    singular_rule field_name is_field_optional seq_id existing_document r
  else if negb (json_type_eqb (type_of (hd JNull (json_items values))) (type_of ref_value)) then
    singular_rule field_name is_field_optional seq_id existing_document r
  else if negb (json_contains ref_helper_field_name existing_document) then
    singular_rule field_name is_field_optional seq_id existing_document r
  else if negb (is_array helpers) then
    singular_rule field_name is_field_optional seq_id existing_document r
  else if negb (json_size values =? json_size helpers) then
    singular_rule field_name is_field_optional seq_id existing_document r
  else if 1 <? json_size values then
    match json_get "id" existing_document with
    | Some (JStr id) =>
        let update_document := json_set "id" (JStr id) JNull in
        let update_document := json_set field_name (JArr []) update_document in
        let '(update_document, removed_ref_value_found) :=
          drop_reference field_name ref_helper_field_name ref_value
            (json_items values) (json_items helpers) update_document false in
        if removed_ref_value_found then Some (push_update update_document r) else Some r
    | _ => None
    end
  else singular_rule field_name is_field_optional seq_id existing_document r.

(** The two loops over the matching documents (lines 5366-5398 and
    5423-5509). *)
Fixpoint for_documents (rule : Z -> json -> cascade_result -> option cascade_result)
    (docs : list Z) (r : cascade_result) : option cascade_result :=
  match docs with
  | [] => Some r
  | seq_id :: docs' =>
      match get_document_from_store seq_id with
      | None => for_documents rule docs' r
      | Some existing_document =>
          match rule seq_id existing_document r with
          | None => None
          | Some r' => for_documents rule docs' r'
          end
      end
  end.

(** [Collection::cascade_remove_docs]: [None] when a json accessor throws. *)
Definition cascade_remove_docs (field_name : string) (ref_seq_id : Z) (ref_doc : json)
  : option cascade_result :=
  let ref_helper_field_name := field_name +:+ REFERENCE_HELPER_FIELD_SUFFIX in
  let docs := get_filter_ids (ref_helper_field_name +:+ ":" +:+ to_string ref_seq_id) in
  match docs with
  | [] => Some nothing
  | _ =>
      match search_schema !! field_name with
      | None => Some nothing
      | Some f =>
          let is_field_optional := Schema.optional f in
          if is_singular f then
            for_documents (singular_rule field_name is_field_optional) docs nothing
          else
            match reference_fields !! field_name with
            | None => Some nothing
            | Some (ref_coll_name, ref_field_name) =>
                match json_get ref_field_name ref_doc with
                | None => Some nothing
                | Some ref_value =>
                    if is_array ref_value then Some nothing
                    else
                      for_documents
                        (array_rule field_name ref_helper_field_name ref_value
                           is_field_optional)
                        docs nothing
                end
            end
      end
  end.

End CascadeRemove.

(** The member of an update document that is an array built by [+=]: the
    key is set by the first element appended. *)
Definition array_member (l : list json) : option json :=
  match l with [] => None | _ => Some (JArr l) end.

(** The pairs (reference value, helper entry) that do not hold the removed value. *)
Definition surviving_pairs (ref_value : json) (values helpers : list json)
  : list (json * json) :=
  List.filter (fun p => negb (json_eqb (fst p) ref_value)) (combine values helpers).

(** The documents that the store holds for the sequence ids, in order. *)
Fixpoint stored_documents (get_document_from_store : Z -> option json) (docs : list Z)
  : list (Z * json) :=
  match docs with
  | [] => []
  | seq_id :: docs' =>
      match get_document_from_store seq_id with
      | Some document => (seq_id, document) :: stored_documents get_document_from_store docs'
      | None => stored_documents get_document_from_store docs'
      end
  end.






(** The product [p1] refers to the categories [c1] and [c2], stored under
    the sequence ids 7 and 8. *)
Definition product_document : json :=
  JObj [("cats", JArr [JStr "c1"; JStr "c2"]);
        ("cats_sequence_id", JArr [JNum 7; JNum 8]);
        ("id", JStr "p1")].

(** The product [p2] refers to the category [c1] only. *)
Definition single_product_document : json :=
  JObj [("cats", JArr [JStr "c1"]);
        ("cats_sequence_id", JArr [JNum 7]);
        ("id", JStr "p2")].

(** The collection of the products: [p1] and [p2] are stored under the
    sequence ids 3 and 4, and the index also lists the sequence id 5, of
    which the store holds no document. *)
Definition products_store (seq_id : Z) : option json :=
  if seq_id =? 3 then Some product_document
  else if seq_id =? 4 then Some single_product_document
  else None.

Definition products_schema : gmap string Schema.field :=
  {["cats" := {| Schema.name := "cats"; Schema.type := "string[]"; Schema.facet := false;
                 Schema.optional := false; Schema.index := true; Schema.sort := false;
                 Schema.nested := false; Schema.embed := JNull |}]}.


End Cascade.

(* --------------------------------------------------------------------- *)
(** ** Schema alteration ([validate_alter_payload], [alter]) *)
(* --------------------------------------------------------------------- *)

Module Alter.

Import Schema.

(** The members of [class Collection] that an alteration reads or writes. *)
Record Collection : Type := {
  fields : list field;
  search_schema : gmap string field;
  dynamic_fields : gmap string field;
  nested_fields : gmap string field;
  embedding_fields : gmap string field;
  fallback_field_type : string;
  default_sorting_field : string;
  alter_in_progress : bool;
  validated_docs : Z;
  altered_docs : Z;
  alter_history : list json
}.

(** The schema of a collection as the alteration must leave it when it
    fails. *)
Definition schema_state (c : Collection)
  : list field * gmap string field * gmap string field * gmap string field
    * gmap string field * string * string :=
  (fields c, search_schema c, dynamic_fields c, nested_fields c, embedding_fields c,
   fallback_field_type c, default_sorting_field c).

Definition ALTER_STATUS_MSG_COUNT : nat := 5.

(** The output parameters of [validate_alter_payload]. *)
Record alter_plan : Type := {
  addition_fields : list field;
  reindex_fields : list field;
  del_fields : list field;
  update_fields : list field;
  this_fallback_field_type : string
}.

(** The locals of [validate_alter_payload] while it walks the payload,
    together with the one member it writes, [embedding_fields]. *)
Record pass_state : Type := {
  plan : alter_plan;
  updated_search_schema : gmap string field;
  updated_nested_fields : gmap string field;
  updated_embedding_fields : gmap string field;
  new_dynamic_fields : gmap string field;
  num_auto_detect_fields : Z;
  member_embedding_fields : gmap string field
}.

(** The course of a function body: it goes on with a state, returns an
    error, or is left by an exception. *)
Inductive step (S : Type) : Type :=
| Next (s : S)
| Stop (code : Z) (error : string)
| Throw.
Arguments Next {S} s.
Arguments Stop {S} code error.
Arguments Throw {S}.

(** [m.emplace(k, v)]: a present key keeps its value. *)
Definition emplace (k : string) (v : field) (m : gmap string field) : gmap string field :=
  match m !! k with
  | Some _ => m
  | None => <[k := v]> m
  end.

(** [field(name, type, facet)]. *)
Definition mk_field (n t : string) (fct : bool) : field :=
  {| name := n; type := t; facet := fct; optional := false; index := true;
     sort := false; nested := false; embed := JNull |}.

Definition with_embed (e : json) (f : field) : field :=
  {| name := name f; type := type f; facet := facet f; optional := optional f;
     index := index f; sort := sort f; nested := nested f; embed := e |}.

(** The entries of [m.equal_prefix_range(field_name)] other than the key
    [field_name] itself. *)
Definition prefix_children (field_name : string) (m : gmap string field)
  : list (string * field) :=
  List.filter
    (fun kv => String.prefix field_name (fst kv)
               && negb (String.length (fst kv) =? String.length field_name)%nat)
    (map_to_list m).

(** [std::tolower] on the first character. *)
Definition lower_first (s : string) : string :=
  match s with
  | EmptyString => EmptyString
  | String c s' =>
      let n := nat_of_ascii c in
      if ((65 <=? n) && (n <=? 90))%nat then String (ascii_of_nat (n + 32)) s'
      else String c s'
  end.

(** [s.pop_back()]. *)
Definition pop_back (s : string) : string :=
  string_of_list_ascii (removelast (list_ascii_of_string s)).

(** The stable rearrangement that puts the entries with a [drop] member
    first: one outcome of the [std::sort] at line 6457. *)
Definition drops_first (entries : list json) : list json :=
  List.filter (json_contains "drop") entries
  ++ List.filter (fun e => negb (json_contains "drop" e)) entries.

Definition set_plan (p : alter_plan) (ps : pass_state) : pass_state :=
  {| plan := p;
     updated_search_schema := updated_search_schema ps;
     updated_nested_fields := updated_nested_fields ps;
     updated_embedding_fields := updated_embedding_fields ps;
     new_dynamic_fields := new_dynamic_fields ps;
     num_auto_detect_fields := num_auto_detect_fields ps;
     member_embedding_fields := member_embedding_fields ps |}.

Definition push_del (f : field) (ps : pass_state) : pass_state :=
  set_plan {| addition_fields := addition_fields (plan ps);
              reindex_fields := reindex_fields (plan ps);
              del_fields := del_fields (plan ps) ++ [f];
              update_fields := update_fields (plan ps);
              this_fallback_field_type := this_fallback_field_type (plan ps) |} ps.

Definition push_update_field (f : field) (ps : pass_state) : pass_state :=
  set_plan {| addition_fields := addition_fields (plan ps);
              reindex_fields := reindex_fields (plan ps);
              del_fields := del_fields (plan ps);
              update_fields := update_fields (plan ps) ++ [f];
              this_fallback_field_type := this_fallback_field_type (plan ps) |} ps.

(** [reindex_fields.push_back(f)] or [addition_fields.push_back(f)]. *)
Definition push_change (is_reindex : bool) (f : field) (ps : pass_state) : pass_state :=
  set_plan {| addition_fields :=
                if is_reindex then addition_fields (plan ps)
                else addition_fields (plan ps) ++ [f];
              reindex_fields :=
                if is_reindex then reindex_fields (plan ps) ++ [f]
                else reindex_fields (plan ps);
              del_fields := del_fields (plan ps);
              update_fields := update_fields (plan ps);
              this_fallback_field_type := this_fallback_field_type (plan ps) |} ps.

Definition set_fallback (t : string) (n : Z) (ps : pass_state) : pass_state :=
  {| plan := {| addition_fields := addition_fields (plan ps);
                reindex_fields := reindex_fields (plan ps);
                del_fields := del_fields (plan ps);
                update_fields := update_fields (plan ps);
                this_fallback_field_type := t |};
     updated_search_schema := updated_search_schema ps;
     updated_nested_fields := updated_nested_fields ps;
     updated_embedding_fields := updated_embedding_fields ps;
     new_dynamic_fields := new_dynamic_fields ps;
     num_auto_detect_fields := n;
     member_embedding_fields := member_embedding_fields ps |}.

(** Updates of the working copies [updated_search_schema],
    [updated_nested_fields], [updated_embedding_fields] and of
    [new_dynamic_fields]. *)
Definition on_updated_search_schema (g : gmap string field -> gmap string field)
    (ps : pass_state) : pass_state :=
  {| plan := plan ps;
     updated_search_schema := g (updated_search_schema ps);
     updated_nested_fields := updated_nested_fields ps;
     updated_embedding_fields := updated_embedding_fields ps;
     new_dynamic_fields := new_dynamic_fields ps;
     num_auto_detect_fields := num_auto_detect_fields ps;
     member_embedding_fields := member_embedding_fields ps |}.

Definition on_updated_nested_fields (g : gmap string field -> gmap string field)
    (ps : pass_state) : pass_state :=
  {| plan := plan ps;
     updated_search_schema := updated_search_schema ps;
     updated_nested_fields := g (updated_nested_fields ps);
     updated_embedding_fields := updated_embedding_fields ps;
     new_dynamic_fields := new_dynamic_fields ps;
     num_auto_detect_fields := num_auto_detect_fields ps;
     member_embedding_fields := member_embedding_fields ps |}.

Definition on_updated_embedding_fields (g : gmap string field -> gmap string field)
    (ps : pass_state) : pass_state :=
  {| plan := plan ps;
     updated_search_schema := updated_search_schema ps;
     updated_nested_fields := updated_nested_fields ps;
     updated_embedding_fields := g (updated_embedding_fields ps);
     new_dynamic_fields := new_dynamic_fields ps;
     num_auto_detect_fields := num_auto_detect_fields ps;
     member_embedding_fields := member_embedding_fields ps |}.

Definition on_new_dynamic_fields (g : gmap string field -> gmap string field)
    (ps : pass_state) : pass_state :=
  {| plan := plan ps;
     updated_search_schema := updated_search_schema ps;
     updated_nested_fields := updated_nested_fields ps;
     updated_embedding_fields := updated_embedding_fields ps;
     new_dynamic_fields := g (new_dynamic_fields ps);
     num_auto_detect_fields := num_auto_detect_fields ps;
     member_embedding_fields := member_embedding_fields ps |}.

(** [embedding_fields.emplace(k, f)] on the member of the collection
    (lines 6593 and 6609). *)
Definition emplace_member_embedding_field (k : string) (f : field) (ps : pass_state)
  : pass_state :=
  {| plan := plan ps;
     updated_search_schema := updated_search_schema ps;
     updated_nested_fields := updated_nested_fields ps;
     updated_embedding_fields := updated_embedding_fields ps;
     new_dynamic_fields := new_dynamic_fields ps;
     num_auto_detect_fields := num_auto_detect_fields ps;
     member_embedding_fields := emplace k f (member_embedding_fields ps) |}.

(** [kv.value()["name"].get<std::string>()]. *)
Definition entry_name (entry : json) : option string :=
  match json_get "name" entry with
  | Some (JStr s) => Some s
  | _ => None
  end.

Definition err_msg : string :=
  "The `fields` value should be an array of objects containing "
  +:+ "the field `name` and other properties.".

(** The first pass over the entries (lines 6462-6480): the names of the
    fields to delete. *)
Fixpoint collect_deletions (entries : list json) (delete_field_names : gset string)
  : step (gset string) :=
  match entries with
  | [] => Next delete_field_names
  | entry :: entries' =>
      if negb (is_object entry) then Stop 400 err_msg
      else if negb (json_contains "name" entry) then Stop 400 err_msg
      else
        match entry_name entry with
        | None => Throw
        | Some field_name =>
            if String.eqb field_name "id" then
              Stop 400 ("Field `" +:+ field_name +:+ "` cannot be altered.")
            else
              collect_deletions entries'
                (if json_contains "drop" entry then {[field_name]} ∪ delete_field_names
                 else delete_field_names)
        end
  end.

Section Validation.

Variable enable_nested_fields : bool.

(** [field::json_field_to_field]: the field appended to [diff_fields], the
    fallback field type and the number of [.*] fields after the call. *)
Variable json_field_to_field : bool -> json -> string -> Z -> Option (field * string * Z).

(** [field::is_dynamic]. *)
Variable is_dynamic : field -> bool.

(** [field::validate_and_init_embed_field], which may complete the field. *)
Variable validate_and_init_embed_field :
  gmap string field -> json -> list json -> field -> Option field.

(** [Collection::check_and_add_nested_field] on a copy of the nested fields. *)
Variable check_and_add_nested_field : gmap string field -> field -> gmap string field.

(** [std::regex_match(name, std::regex(pattern))]. *)
Variable regex_match : string -> string -> bool.

(** [Collection::detect_new_fields] with [DIRTY_VALUES::DROP]. *)
Variable detect_new_fields :
  json -> gmap string field -> gmap string field -> gmap string field -> string ->
  Option (list field).

(** [validator_t::validate_index_in_memory] with [index_operation_t::CREATE]
    and [DIRTY_VALUES::COERCE_OR_REJECT]: document, sequence id, default
    sorting field, schema, embedding fields, fallback field type. *)
Variable validate_index_in_memory :
  json -> Z -> string -> gmap string field -> gmap string field -> string -> Option bool.

(** [StringUtils::split(text, parts, delimiter)]. *)
Variable split : string -> string -> list string.

(** Lines 6494-6551: an entry with a [drop] member. *)
Definition drop_entry (c : Collection) (entry : json) (field_name : string)
    (ps : pass_state) : step pass_state :=
  let field_it := search_schema c !! field_name in
  let dyn_field_it := dynamic_fields c !! field_name in
  match json_get "drop" entry with
  | Some (JBool true) =>
      if String.eqb field_name ".*" then Next (push_del (mk_field ".*" "auto" false) ps)
      else
        match field_it, dyn_field_it with
        | None, None =>
            Stop 400 ("Field `" +:+ field_name +:+ "` is not part of collection schema.")
        | _, _ =>
            let ps :=
              match field_it with
              | Some f =>
                  let ps :=
                    if has_embed_from f then on_updated_embedding_fields (delete field_name) ps
                    else ps in
                  let ps := push_del f ps in
                  let ps := on_updated_search_schema (delete field_name) ps in
                  let ps := on_updated_nested_fields (delete field_name) ps in
                  let ps :=
                    if has_embed_from f then on_updated_embedding_fields (delete field_name) ps
                    else ps in
                  if nested f && enable_nested_fields then
                    fold_left
                      (fun ps kv =>
                         let ps := push_del (snd kv) ps in
                         let ps := on_updated_search_schema (delete (fst kv)) ps in
                         let ps := on_updated_nested_fields (delete (fst kv)) ps in
                         if has_embed_from (snd kv) then
                           on_updated_embedding_fields (delete (fst kv)) ps
                         else ps)
                      (prefix_children field_name (search_schema c)) ps
                  else ps
              | None => ps
              end in
            match dyn_field_it with
            | Some d =>
                let ps := push_del d ps in
                Next
                  (fold_left
                     (fun ps kv =>
                        if regex_match (name (snd kv)) field_name then
                          on_updated_search_schema (delete (name (snd kv)))
                            (push_del (snd kv) ps)
                        else ps)
                     (map_to_list (search_schema c)) ps)
            | None => Next ps
            end
        end
  | _ => Stop 400 ("Field `" +:+ field_name +:+ "` must have a drop value of `true`.")
  end.

(** Lines 6562-6619: an entry that adds a field, or brings back one dropped
    by the same payload. *)
Definition add_entry (c : Collection) (all_entries : list json) (entry : json)
    (field_name : string) (is_reindex : bool) (ps : pass_state) : step pass_state :=
  match json_field_to_field enable_nested_fields entry
          (this_fallback_field_type (plan ps)) (num_auto_detect_fields ps) with
  | Error code m => Stop code m
  | Ok (f, fallback, autos) =>
      let ps := set_fallback fallback autos ps in
      let ps :=
        if is_dynamic f then on_new_dynamic_fields (insert (name f) f) ps
        else on_updated_search_schema (insert (name f) f) ps in
      let checked : Option field :=
        if negb (json_empty (embed f)) then
          validate_and_init_embed_field (search_schema c) entry all_entries f
        else Ok f in
      match checked with
      | Error code m => Stop code m
      | Ok f =>
          let ps := push_change is_reindex f ps in
          let ps :=
            if has_embed_from f then emplace_member_embedding_field (name f) f ps
            else ps in
          if nested f && enable_nested_fields then
            let ps := on_updated_nested_fields (fun m => check_and_add_nested_field m f) ps in
            Next
              (fold_left
                 (fun ps kv =>
                    let ps := on_updated_search_schema (emplace (fst kv) (snd kv)) ps in
                    let ps :=
                      on_updated_nested_fields
                        (fun m => check_and_add_nested_field m (snd kv)) ps in
                    let ps :=
                      if has_embed_from (snd kv) then
                        emplace_member_embedding_field (fst kv) (snd kv) ps
                      else ps in
                    push_change is_reindex (snd kv) ps)
                 (prefix_children field_name (search_schema c)) ps)
          else Next ps
      end
  end.

(** Lines 6620-6641: an entry on an existing embedding field, of which only
    the credentials may change. *)
Definition update_entry (entry : json) (field_name : string) (existing : field)
    (ps : pass_state) : step pass_state :=
  match json_get "embed" entry with
  | Some (JObj e) =>
      match members_get "model_config" e with
      | Some (JObj mc) =>
          if negb (json_is_string (default JNull (members_get "model_name" mc)))
             || negb (json_is_string (default JNull (members_get "api_key" mc))) then
            Stop 400 ("`model_config` should be an object containing `model_name` and "
                      +:+ "`api_key` as string values.")
          else
            Next (push_update_field
                    (with_embed (JObj e) (mk_field field_name (type existing) (facet existing)))
                    ps)
      | _ =>
          Stop 400 "`model_config` should be an object containing `model_name` and `api_key`."
      end
  | _ => Stop 400 "Missing or bad `embed` param."
  end.

(** The body of the second loop (lines 6485-6648). *)
Definition apply_entry (c : Collection) (delete_field_names : gset string)
    (all_entries : list json) (entry : json) (ps : pass_state) : step pass_state :=
  match entry_name entry with
  | None => Throw
  | Some field_name =>
      if json_contains "drop" entry then drop_entry c entry field_name ps
      else
        let field_it := search_schema c !! field_name in
        let found_dyn_field :=
          match dynamic_fields c !! field_name with Some _ => true | None => false end in
        let found_field := match field_it with Some _ => true | None => false end in
        let is_addition := negb found_field && negb found_dyn_field in
        let is_reindex := bool_decide (field_name ∈ delete_field_names) in
        if is_addition && is_reindex then
          Stop 400 ("Field `" +:+ field_name +:+
                    "` cannot be added and deleted at the same time.")
        else if is_addition || is_reindex then
          add_entry c all_entries entry field_name is_reindex ps
        else
          match field_it with
          | Some existing =>
              if has_embed_from existing then update_entry entry field_name existing ps
              else
                Stop 400 ("Field `" +:+ field_name +:+ "` is already part of the schema: To "
                          +:+ "change this field, drop it first before adding it back to the schema.")
          | None =>
              Stop 400 ("Field `" +:+ field_name +:+ "` is already part of the schema: To "
                        +:+ "change this field, drop it first before adding it back to the schema.")
          end
  end.

(** The second loop: its outcome and the member [embedding_fields] as the
    loop leaves it.  An entry that returns an error, or throws, does so
    before it writes the member (lines 6567 and 6582 come before 6593),
    so the member then holds what the entries before it have registered. *)
Fixpoint apply_entries (c : Collection) (delete_field_names : gset string)
    (all_entries entries : list json) (ps : pass_state)
  : step pass_state * gmap string field :=
  match entries with
  | [] => (Next ps, member_embedding_fields ps)
  | entry :: entries' =>
      match apply_entry c delete_field_names all_entries entry ps with
      | Next ps' => apply_entries c delete_field_names all_entries entries' ps'
      | Stop code m => (Stop code m, member_embedding_fields ps)
      | Throw => (Throw, member_embedding_fields ps)
      end
  end.

(** Lines 6690-6712: the fields discovered in a stored document. *)
Definition adopt_new_fields (new_fields : list field) (ps : pass_state) : pass_state :=
  fold_left
    (fun ps new_field =>
       match updated_search_schema ps !! name new_field with
       | Some _ => ps
       | None =>
           let being_deleted :=
             existsb (fun f => String.eqb (name f) (name new_field)) (del_fields (plan ps)) in
           let being_reindexed :=
             existsb (fun f => String.eqb (name f) (name new_field))
                     (reindex_fields (plan ps)) in
           if nested new_field && being_deleted && negb being_reindexed then ps
           else
             on_updated_search_schema (insert (name new_field) new_field)
               (push_change true new_field ps)
       end)
    new_fields ps.

(** Lines 6723-6754: the error of the validator reworded for an alteration. *)
Definition alter_error_message (err_message : string) : string :=
  if occurs_in "but is not found in the document." err_message then
    pop_back err_message
    +:+ "s already present in the collection. If you still want to add this field, "
    +:+ "set it as `optional: true`."
  else if occurs_in "must be" err_message then
    let type_error := "Schema change is incompatible with the type of documents already stored "
                      +:+ "in this collection." in
    match split err_message "must be" with
    | [part0; part1] =>
        type_error +:+ " Existing data for " +:+ lower_first part0
        +:+ " cannot be coerced into " +:+ part1
    | _ => type_error
    end
  else
    "Schema change is incompatible with the type of documents already stored "
    +:+ "in this collection. error: " +:+ err_message.

(** The loop at lines 6665-6768 over the stored documents, each given by
    its sequence id and its parsed value ([None] when the stored text is
    not json).  The counter [validated_docs] is carried along. *)
Fixpoint validate_documents (c : Collection) (docs : list (Z * option json))
    (validated : Z) (ps : pass_state) : step pass_state * Z :=
  match docs with
  | [] => (Next ps, validated)
  | (seq_id, parsed) :: docs' =>
      let validated := validated + 1 in
      match parsed with
      | None => (Stop 400 "Bad JSON in document: null", validated)
      | Some document =>
          let detected : step pass_state :=
            if negb (String.eqb (this_fallback_field_type (plan ps)) "")
               || negb (bool_decide (new_dynamic_fields ps = ∅))
               || negb (bool_decide (updated_nested_fields ps = ∅)) then
              match detect_new_fields document (updated_search_schema ps)
                      (new_dynamic_fields ps) (updated_nested_fields ps)
                      (this_fallback_field_type (plan ps)) with
              | Error code m => Stop code m
              | Ok new_fields => Next (adopt_new_fields new_fields ps)
              end
            else Next ps in
          match detected with
          | Next ps =>
              match validate_index_in_memory document seq_id (default_sorting_field c)
                      (updated_search_schema ps) (updated_embedding_fields ps)
                      (this_fallback_field_type (plan ps)) with
              | Error code m => (Stop code (alter_error_message m), validated)
              | Ok _ => validate_documents c docs' validated ps
              end
          | Stop code m => (Stop code m, validated)
          | Throw => (Throw, validated)
          end
      end
  end.

Definition with_validation (emb : gmap string field) (validated : Z) (c : Collection)
  : Collection :=
  {| fields := fields c;
     search_schema := search_schema c;
     dynamic_fields := dynamic_fields c;
     nested_fields := nested_fields c;
     embedding_fields := emb;
     fallback_field_type := fallback_field_type c;
     default_sorting_field := default_sorting_field c;
     alter_in_progress := alter_in_progress c;
     validated_docs := validated;
     altered_docs := altered_docs c;
     alter_history := alter_history c |}.

(** [Collection::validate_alter_payload] on the payload and the stored
    documents: the plan handed back through the output parameters, and the
    collection as the call leaves it. *)
Definition validate_alter_payload (schema_changes : json) (docs : list (Z * option json))
    (c : Collection) : step alter_plan * Collection :=
  match schema_changes with
  | JObj members =>
      if negb (length members =? 1)%nat then
        (Stop 400 "Only `fields` and `metadata` can be updated at the moment.", c)
      else
        match members_get "fields" members with
        | Some (JArr (first :: others)) =>
            let entries := drops_first (first :: others) in
            match collect_deletions entries ∅ with
            | Stop code m => (Stop code m, c)
            | Throw => (Throw, c)
            | Next delete_field_names =>
                let ps :=
                  {| plan := {| addition_fields := []; reindex_fields := [];
                                del_fields := []; update_fields := [];
                                this_fallback_field_type := "" |};
                     updated_search_schema := search_schema c;
                     updated_nested_fields := nested_fields c;
                     updated_embedding_fields := embedding_fields c;
                     new_dynamic_fields := ∅;
                     num_auto_detect_fields := 0;
                     member_embedding_fields := embedding_fields c |} in
                match apply_entries c delete_field_names entries entries ps with
                | (Stop code m, registered) =>
                    (Stop code m, with_validation registered (validated_docs c) c)
                | (Throw, registered) =>
                    (Throw, with_validation registered (validated_docs c) c)
                | (Next ps, _) =>
                    if 1 <? num_auto_detect_fields ps then
                      (Stop 400 "There can be only one field named `.*`.",
                       with_validation (member_embedding_fields ps) (validated_docs c) c)
                    else
                      match validate_documents c docs 0 ps with
                      | (Next ps, validated) =>
                          (Next (plan ps),
                           with_validation (member_embedding_fields ps) validated c)
                      | (Stop code m, validated) =>
                          (Stop code m,
                           with_validation (member_embedding_fields ps) validated c)
                      | (Throw, validated) =>
                          (Throw, with_validation (member_embedding_fields ps) validated c)
                      end
                end
            end
        | _ => (Stop 400 err_msg, c)
        end
  | _ => (Stop 400 "Bad JSON.", c)
  end.

(** [Collection::batch_alter_data]: the mutation of the schema and the
    re-indexing of the stored documents. *)
Variable batch_alter_data :
  list field -> list field -> string -> Collection -> Option bool * Collection.

(** [Collection::update_apikey]. *)
Variable update_apikey : json -> string -> Collection -> Option bool * Collection.

(** [Collection::check_store_alter_status_msg]; the time stamp of the entry
    is left out. *)
Definition check_store_alter_status_msg (success : bool) (msg : string) (c : Collection)
  : Collection :=
  let history :=
    if (length (alter_history c) =? ALTER_STATUS_MSG_COUNT)%nat then tl (alter_history c)
    else alter_history c in
  let resp := json_set "success" (JBool success) JNull in
  let resp := if success then resp else json_set "message" (JStr msg) resp in
  {| fields := fields c;
     search_schema := search_schema c;
     dynamic_fields := dynamic_fields c;
     nested_fields := nested_fields c;
     embedding_fields := embedding_fields c;
     fallback_field_type := fallback_field_type c;
     default_sorting_field := default_sorting_field c;
     alter_in_progress := alter_in_progress c;
     validated_docs := validated_docs c;
     altered_docs := altered_docs c;
     alter_history := history ++ [resp] |}.

(** [Collection::reset_alter_status_counters], and the assignment of
    [alter_in_progress]. *)
Definition set_alter_status (in_progress : bool) (validated altered : Z) (c : Collection)
  : Collection :=
  {| fields := fields c;
     search_schema := search_schema c;
     dynamic_fields := dynamic_fields c;
     nested_fields := nested_fields c;
     embedding_fields := embedding_fields c;
     fallback_field_type := fallback_field_type c;
     default_sorting_field := default_sorting_field c;
     alter_in_progress := in_progress;
     validated_docs := validated;
     altered_docs := altered;
     alter_history := alter_history c |}.

Definition reset_alter_status_counters (c : Collection) : Collection :=
  set_alter_status false 0 0 c.

Definition set_fallback_field_type (t : string) (c : Collection) : Collection :=
  {| fields := fields c;
     search_schema := search_schema c;
     dynamic_fields := dynamic_fields c;
     nested_fields := nested_fields c;
     embedding_fields := embedding_fields c;
     fallback_field_type := t;
     default_sorting_field := default_sorting_field c;
     alter_in_progress := alter_in_progress c;
     validated_docs := validated_docs c;
     altered_docs := altered_docs c;
     alter_history := alter_history c |}.

(** The loop at lines 6272-6284 over the fields whose credentials change. *)
Fixpoint update_apikeys (update_fields : list field) (c : Collection)
  : Option bool * Collection :=
  match update_fields with
  | [] => (Ok true, c)
  | f :: rest =>
      if has_embed_from f then
        match update_apikey (default JNull (json_get "model_config" (embed f))) (name f) c with
        | (Error code m, c) =>
            (Error code m, reset_alter_status_counters (check_store_alter_status_msg false m c))
        | (Ok _, c) => update_apikeys rest c
        end
      else update_apikeys rest c
  end.

(** The failure of a mutation phase (lines 6252-6258 and 6263-6269). *)
Definition alter_data_failed (code : Z) (m : string) (c : Collection)
  : outcome bool * Collection :=
  (Returned (Error code m),
   reset_alter_status_counters
     (check_store_alter_status_msg false ("Alter failed during alter data: " +:+ m) c)).

(** [Collection::alter] on a payload and the stored documents. *)
Definition alter (alter_payload : json) (docs : list (Z * option json)) (c : Collection)
  : outcome bool * Collection :=
  let c := set_alter_status true (validated_docs c) (altered_docs c) c in
  match validate_alter_payload alter_payload docs c with
  | (Throw, c) => (Thrown, c)
  | (Stop code m, c) =>
      (Returned (Error code m),
       reset_alter_status_counters
         (check_store_alter_status_msg false ("Alter failed validation: " +:+ m) c))
  | (Next p, c) =>
      if negb (String.eqb (this_fallback_field_type p) "")
         && negb (String.eqb (fallback_field_type c) "") then
        (Returned (Error 400 "The schema already contains a `.*` field."),
         reset_alter_status_counters
           (check_store_alter_status_msg false
              "Alter failed: schema already contains a `.*` field." c))
      else
        let c :=
          if negb (String.eqb (this_fallback_field_type p) "")
             && String.eqb (fallback_field_type c) "" then
            set_fallback_field_type (this_fallback_field_type p) c
          else c in
        match batch_alter_data (addition_fields p) (del_fields p) (fallback_field_type c) c with
        | (Error code m, c) => alter_data_failed code m c
        | (Ok _, c) =>
            let reindexed : Option bool * Collection :=
              match reindex_fields p with
              | [] => (Ok true, c)
              | _ => batch_alter_data (reindex_fields p) [] (fallback_field_type c) c
              end in
            match reindexed with
            | (Error code m, c) => alter_data_failed code m c
            | (Ok _, c) =>
                match update_apikeys (update_fields p) c with
                | (Error code m, c) => (Returned (Error code m), c)
                | (Ok _, c) =>
                    (Returned (Ok true),
                     check_store_alter_status_msg true "" (reset_alter_status_counters c))
                end
            end
        end
  end.

End Validation.

(** *** An alteration that a stored document rejects

    The collection has the field [title] and one stored document.  The
    payload adds the embedding field [emb], computed from [title], and the
    field [price], which the stored document does not have. *)

(** A reading of [name], [type] and [embed] in place of
    [field::json_field_to_field]. *)
Definition read_field (enable_nested_fields : bool) (entry : json)
    (fallback_field_type : string) (num_auto_detect_fields : Z)
  : Option (field * string * Z) :=
  match entry_name entry, json_get "type" entry with
  | Some n, Some (JStr t) =>
      Ok (with_embed (default JNull (json_get "embed" entry)) (mk_field n t false),
          fallback_field_type, num_auto_detect_fields)
  | _, _ => Error 400 "Wrong format for `fields`."
  end.

(** A validator that asks for the field [price] once the schema has it. *)
Definition require_price (document : json) (seq_id : Z) (default_sorting_field : string)
    (schema embedding : gmap string field) (fallback_field_type : string) : Option bool :=
  match schema !! "price" with
  | Some _ =>
      if json_contains "price" document then Ok true
      else Error 400 ("Field `price` has been declared in the schema, "
                      +:+ "but is not found in the document.")
  | None => Ok true
  end.

Definition titled_collection : Collection :=
  {| fields := [mk_field "title" "string" false];
     search_schema := {["title" := mk_field "title" "string" false]};
     dynamic_fields := ∅; nested_fields := ∅; embedding_fields := ∅;
     fallback_field_type := ""; default_sorting_field := "";
     alter_in_progress := false; validated_docs := 0; altered_docs := 0;
     alter_history := [] |}.

Definition embedding_entry : json :=
  JObj [("embed", JObj [("from", JArr [JStr "title"]);
                        ("model_config", JObj [("model_name", JStr "ts/e5-small")])]);
        ("name", JStr "emb"); ("type", JStr "float[]")].

Definition price_entry : json := JObj [("name", JStr "price"); ("type", JStr "int32")].

Definition add_embedding_and_price : json :=
  JObj [("fields", JArr [embedding_entry; price_entry])].

Definition stored_titles : list (Z * option json) :=
  [(0, Some (JObj [("id", JStr "0"); ("title", JStr "shoe")]))].

(** [alter] on the collections of this fixture. *)
Definition alter_titled (alter_payload : json) (docs : list (Z * option json))
    (c : Collection) : outcome bool * Collection :=
  alter false read_field (fun _ => false) (fun _ _ _ f => Ok f) (fun m _ => m)
    (fun _ _ => false) (fun _ _ _ _ _ => Ok []) require_price (fun _ _ => [])
    (fun _ _ _ c => (Ok true, c)) (fun _ _ c => (Ok true, c)) alter_payload docs c.

End Alter.

(* --------------------------------------------------------------------- *)
(** ** Further functions of the collection and of the analytics manager *)
(* --------------------------------------------------------------------- *)

(** ** The status of an alteration ([get_alter_schema_status]) *)

Module AlterStatus.

Import Schema Alter.

(** [Collection::get_alter_schema_status] of the collection [name]. *)
Definition get_alter_schema_status (name : string) (c : Collection) : Option json :=
  if negb (alter_in_progress c) then Error 400 "No active alter operation running."
  else
    let status_json := json_set "collection" (JStr name) JNull in
    let status_json := json_set "validated_docs" (JNum (validated_docs c)) status_json in
    let status_json := json_set "altered_docs" (JNum (altered_docs c)) status_json in
    let status_json := json_set "alter_history" (JArr []) status_json in
    Ok (fold_left
          (fun status_json entry =>
             json_set "alter_history"
               (json_push_back entry
                  (default JNull (json_get "alter_history" status_json)))
               status_json)
          (rev (alter_history c)) status_json).

(** The [success] member of a status entry. *)
Definition entry_success (entry : json) : option bool :=
  match json_get "success" entry with
  | Some (JBool b) => Some b
  | _ => None
  end.

End AlterStatus.

(** ** Reference arrays that do not hold the removed value *)

Module CascadeAbsent.

Import Cascade.

(** An owning document as the indexer stores it, with more than one
    reference of the type of the removed value, none of them equal to
    it. *)
Definition lacks_reference (field_name ref_helper_field_name : string)
    (ref_value document : json) : Prop :=
  exists id values helpers,
    json_get "id" document = Some (JStr id) /\
    json_get field_name document = Some (JArr values) /\
    json_get ref_helper_field_name document = Some (JArr helpers) /\
    length helpers = length values /\
    (1 < length values)%nat /\
    type_of (hd JNull values) = type_of ref_value /\
    existsb (fun v => json_eqb v ref_value) values = false.

(** The cascade in the products on the removal of a category [c3], which
    no product refers to, while the index lists the products. *)
Definition remove_category_c3 : option cascade_result :=
  cascade_remove_docs "_sequence_id" ".ref" (fun _ => [3; 5]) products_schema
    (fun _ => false) {["cats" := ("categories", "id")]} products_store
    "cats" 9 (JObj [("id", JStr "c3")]).

End CascadeAbsent.

(** ** Hiding credentials and the helper members of a document *)

Module Documents.

(** [s.replace(pos, len, count, ch)] on the characters of a string, for
    [pos] within the string. *)
Definition replace_fill (pos len count : nat) (ch : ascii) (s : list ascii) : list ascii :=
  firstn pos s ++ repeat ch count ++ skipn (pos + len) s.

(** [Collection::hide_credential]; [None] when the member is not a string
    (the conversion to [std::string] throws). *)
Definition hide_credential (j : json) (credential_name : string) : option json :=
  if json_contains credential_name j then
    match json_get credential_name j with
    | Some (JStr credential_name_str) =>
        if (5 <? String.length credential_name_str)%nat then
          let num_chars_to_replace := (String.length credential_name_str - 5)%nat in
          Some (json_set credential_name
                  (JStr (string_of_list_ascii
                           (replace_fill 5 num_chars_to_replace num_chars_to_replace
                              "*"%char (list_ascii_of_string credential_name_str))))
                  j)
        else Some (json_set credential_name (JStr "***********") j)
    | _ => None
    end
  else Some j.

(** [j.erase(k)] on an object. *)
Fixpoint members_erase (k : string) (ms : list (string * json)) : list (string * json) :=
  match ms with
  | [] => []
  | (k', v) :: ms' =>
      if String.eqb k k' then members_erase k ms' else (k', v) :: members_erase k ms'
  end.

Definition json_erase (k : string) (j : json) : json :=
  match j with
  | JObj ms => JObj (members_erase k ms)
  | _ => j
  end.

(** [Collection::remove_flat_fields]; [None] when [.flat] is not an array
    of strings ([get<std::vector<std::string>>] throws). *)
Definition remove_flat_fields (document : json) : option json :=
  if json_contains ".flat" document then
    match Analytics.get_string_vector (default JNull (json_get ".flat" document)) with
    | Some flat_keys =>
        Some (json_erase ".flat"
                (fold_left (fun document flat_key => json_erase flat_key document)
                   flat_keys document))
    | None => None
    end
  else Some document.

(** [Collection::remove_reference_helper_fields], for the name
    [fields::reference_helper_fields] of field.h. *)
Definition remove_reference_helper_fields (reference_helper_fields : string)
    (document : json) : option json :=
  if json_contains reference_helper_fields document then
    match Analytics.get_string_vector
            (default JNull (json_get reference_helper_fields document)) with
    | Some keys =>
        Some (json_erase reference_helper_fields
                (fold_left (fun document key => json_erase key document) keys document))
    | None => None
    end
  else Some document.

(** A stored document with a nested field flattened into [address.city]. *)
Definition flattened_document : json :=
  JObj [(".flat", JArr [JStr "address.city"]);
        ("address", JObj [("city", JStr "Oslo")]);
        ("address.city", JStr "Oslo");
        ("id", JStr "7")].

End Documents.

(** ** Keeping the overrides of a collection *)

Module Overrides.

Import Curation.

(** The members [overrides] (a [std::map] kept as the list of its entries
    in key order) and [override_tags] (for each tag the [std::set] of the
    ids of the overrides that carry it, kept as a list in order). *)
Record override_index : Type := {
  overrides : list (string * override_t);
  override_tags : gmap string (list string)
}.

(** [m[k] = v] on the entries of a [std::map]. *)
Fixpoint entries_assign (k : string) (v : override_t) (l : list (string * override_t))
  : list (string * override_t) :=
  match l with
  | [] => [(k, v)]
  | (k', v') :: l' =>
      if String.eqb k k' then (k, v) :: l'
      else if String.ltb k k' then (k, v) :: (k', v') :: l'
      else (k', v') :: entries_assign k v l'
  end.

(** [m.erase(k)]. *)
Fixpoint entries_erase (k : string) (l : list (string * override_t))
  : list (string * override_t) :=
  match l with
  | [] => []
  | (k', v') :: l' =>
      if String.eqb k k' then entries_erase k l' else (k', v') :: entries_erase k l'
  end.

(** [s.insert(x)] and [s.erase(x)] on the elements of a [std::set]. *)
Fixpoint set_insert (x : string) (l : list string) : list string :=
  match l with
  | [] => [x]
  | y :: l' =>
      if String.eqb x y then l
      else if String.ltb x y then x :: l
      else y :: set_insert x l'
  end.

Fixpoint set_erase (x : string) (l : list string) : list string :=
  match l with
  | [] => []
  | y :: l' => if String.eqb x y then set_erase x l' else y :: set_erase x l'
  end.

(** The loops at lines 5575-5579 and 5597-5601: the id leaves the set of
    every tag listed, where there is one. *)
Definition erase_from_tags (id_ : string) (tags_ : list string)
    (m : gmap string (list string)) : gmap string (list string) :=
  fold_left
    (fun m tag =>
       match m !! tag with
       | Some ids => <[tag := set_erase id_ ids]> m
       | None => m
       end)
    tags_ m.

(** The loop at lines 5583-5585. *)
Definition insert_into_tags (id_ : string) (tags_ : list string)
    (m : gmap string (list string)) : gmap string (list string) :=
  fold_left (fun m tag => <[tag := set_insert id_ (default [] (m !! tag))]> m) tags_ m.

(** [Collection::add_override]; [inserted] is the answer of
    [store->insert] when the override is written to the store. *)
Definition add_override (inserted : bool) (o : override_t) (write_to_store : bool)
    (st : override_index) : Option Z * override_index :=
  if write_to_store && negb inserted then
    (Error 500 "Error while storing the override on disk.", st)
  else
    let tags_map :=
      match find_override (overrides st) (id o) with
      | Some old =>
          if negb (match tags (rule old) with [] => true | _ => false end) then
            erase_from_tags (id o) (tags (rule old)) (override_tags st)
          else override_tags st
      | None => override_tags st
      end in
    (Ok 200,
     {| overrides := entries_assign (id o) o (overrides st);
        override_tags := insert_into_tags (id o) (tags (rule o)) tags_map |}).

(** [Collection::remove_override]; [removed] is the answer of
    [store->remove]. *)
Definition remove_override (removed : bool) (id_ : string) (st : override_index)
  : Option Z * override_index :=
  match find_override (overrides st) id_ with
  | Some old =>
      if negb removed then (Error 500 "Error while deleting the override from disk.", st)
      else
        (Ok 200,
         {| overrides := entries_erase id_ (overrides st);
            override_tags := erase_from_tags id_ (tags (rule old)) (override_tags st) |})
  | None => (Error 404 "Could not find that `id`.", st)
  end.

(** [Collection::get_override]. *)
Definition get_override (override_id : string) (st : override_index) : Option override_t :=
  match find_override (overrides st) override_id with
  | Some o => Ok o
  | None => Error 404 ("override " +:+ override_id +:+ " not found.")
  end.

(** Arithmetic on [uint32_t]. *)
Definition to_uint32 (z : Z) : Z := z mod 2 ^ 32.

(** [Collection::get_overrides]: the entries of the map it returns, in key
    order.  [std::advance] past the end of the map has no defined
    behaviour: [None]. *)
Definition get_overrides (limit offset : Z) (st : override_index)
  : option (Option (list (string * override_t))) :=
  let size := Z.of_nat (length (overrides st)) in
  if (0 <? offset) && (size <=? offset) then Some (Error 400 "Invalid offset param.")
  else
    let from_offset := skipn (Z.to_nat offset) (overrides st) in
    if (0 <? limit) && (to_uint32 (offset + limit) <? size) then
      if Z.of_nat (length from_offset) <? limit then None
      else Some (Ok (firstn (Z.to_nat limit) from_offset))
    else Some (Ok from_offset).

(** The tags listed for an override are those of its rule. *)
Definition tags_agree (st : override_index) : Prop :=
  forall tag i,
    In i (default [] (override_tags st !! tag)) <->
    exists o, find_override (overrides st) i = Some o /\ In tag (tags (rule o)).

Definition no_overrides : override_index := {| overrides := []; override_tags := ∅ |}.

End Overrides.

(** ** Field names of a request ([extract_field_name]) *)

Module FieldNames.

Import Schema.

(** [s.find(c) != std::string::npos]. *)
Fixpoint has_char (c : ascii) (s : string) : bool :=
  match s with
  | EmptyString => false
  | String c' s' => Ascii.eqb c c' || has_char c s'
  end.

(** [s[i]], the zero character at the end of the string. *)
Definition char_at (i : nat) (s : string) : ascii :=
  match String.get i s with Some c => c | None => Ascii.zero end.

Section Extract.

(** [search_schema.equal_prefix_range(prefix)]: the entries of the schema
    whose key starts with the prefix, in the order of the trie. *)
Variable equal_prefix_range : string -> list (string * field).

(** [field::is_object], [field::is_string] and the test
    [type == field_types::FLOAT_ARRAY && num_dim > 0] on the members of
    [struct field] (field.h). *)
Variable is_object_field : field -> bool.
Variable is_string_field : field -> bool.
Variable is_text_embedding : field -> bool.

(** The body of the loop at lines 1822-1851: the error it returns, or the
    names collected and [field_found]. *)
Definition visit_field (field_name : string) (is_wildcard extract_only_string_fields
    enable_nested_fields : bool) (kv : string * field) (acc : list string * bool)
  : Option (list string * bool) :=
  let '(processed_search_fields, field_found) := acc in
  let exact_key_match := (String.length (fst kv) =? String.length field_name)%nat in
  let exact_primitive_match := exact_key_match && negb (is_object_field (snd kv)) in
  let text_embedding := is_text_embedding (snd kv) in
  if extract_only_string_fields && negb (is_string_field (snd kv)) && negb text_embedding then
    if exact_primitive_match && negb is_wildcard then
      Error 400 ("Field `" +:+ field_name +:+ "` should be a string or a string array.")
    else Ok acc
  else
    let is_nested_field := nested (snd kv) in
    if negb exact_key_match && negb is_wildcard && negb is_nested_field then Ok acc
    else if exact_primitive_match || (is_wildcard && index (snd kv)) || text_embedding
            || (enable_nested_fields
                && (String.length field_name <? String.length (fst kv))%nat
                && Ascii.eqb (char_at (String.length field_name) (fst kv)) "."%char) then
      Ok (processed_search_fields ++ [fst kv], true)
    else Ok acc.

(** The loop: the error it returns with the names collected until then, or
    the names collected and [field_found] at its end. *)
Fixpoint visit_fields (field_name : string) (is_wildcard extract_only_string_fields
    enable_nested_fields : bool) (range : list (string * field))
    (acc : list string * bool) : Option bool * (list string * bool) :=
  match range with
  | [] => (Ok true, acc)
  | kv :: range' =>
      match visit_field field_name is_wildcard extract_only_string_fields
              enable_nested_fields kv acc with
      | Error c m => (Error c m, acc)
      | Ok acc' =>
          visit_fields field_name is_wildcard extract_only_string_fields
            enable_nested_fields range' acc'
      end
  end.

(** [Collection::extract_field_name]: its result, and
    [processed_search_fields] as the call leaves it. *)
Definition extract_field_name (field_name : string)
    (processed_search_fields : list string)
    (extract_only_string_fields enable_nested_fields handle_wildcard include_id : bool)
  : Option bool * list string :=
  if Ascii.eqb (char_at 0 field_name) "$"%char then
    (Ok true, processed_search_fields ++ [field_name])
  else if String.eqb field_name "id" then
    (Ok true, processed_search_fields ++ [field_name])
  else
    let is_wildcard := has_char "*"%char field_name in
    if is_wildcard && negb handle_wildcard then
      (Error 400 ("Pattern `" +:+ field_name +:+ "` is not allowed."),
       processed_search_fields)
    else
      let processed_search_fields :=
        if is_wildcard && include_id && (String.length field_name <? 4)%nat
           && (String.eqb field_name "*" || String.eqb field_name "i*"
               || String.eqb field_name "id*") then
          processed_search_fields ++ ["id"]
        else processed_search_fields in
      let prefix :=
        String.substring 0
          (String.length field_name - (if is_wildcard then 1 else 0)) field_name in
      match visit_fields field_name is_wildcard extract_only_string_fields
              enable_nested_fields (equal_prefix_range prefix)
              (processed_search_fields, false) with
      | (Error c m, (processed_search_fields, _)) => (Error c m, processed_search_fields)
      | (Ok _, (processed_search_fields, field_found)) =>
          if is_wildcard && extract_only_string_fields && negb field_found then
            (Error 404 ("No string or string array field found matching the pattern `"
                        +:+ field_name +:+ "` in the schema."),
             processed_search_fields)
          else if negb field_found then
            (Error 404 (if is_wildcard then "No field found matching the pattern `"
                        else "Could not find a field named `" +:+ field_name
                             +:+ "` in the schema."),
             processed_search_fields)
          else (Ok true, processed_search_fields)
      end.

(** The loops at lines 7351-7361 and 7363-7383 over the names of the
    request, given in the order of the hash set. *)
Fixpoint collect_names (skip : string -> bool) (enable_nested_fields : bool)
    (names : list string) (fields_vec : list string) : Option (list string) :=
  match names with
  | [] => Ok fields_vec
  | f_name :: names' =>
      if skip f_name then collect_names skip enable_nested_fields names' fields_vec
      else
        match extract_field_name f_name fields_vec false enable_nested_fields true true with
        | (Ok _, fields_vec) => collect_names skip enable_nested_fields names' fields_vec
        | (Error code m, fields_vec) =>
            if code =? 404 then
              collect_names skip enable_nested_fields names' (fields_vec ++ [f_name])
            else Error code m
        end
  end.

(** [Collection::populate_include_exclude_fields]: the two sets it fills,
    from empty ones. *)
Definition populate_include_exclude_fields (enable_nested_fields : bool)
    (include_fields exclude_fields : list string) : Option (gset string * gset string) :=
  match collect_names (fun _ => false) enable_nested_fields include_fields [] with
  | Error code m => Error code m
  | Ok include_fields_vec =>
      match collect_names
              (fun f_name => String.eqb f_name "out_of"
                             || String.eqb f_name "conversation_history")
              enable_nested_fields exclude_fields [] with
      | Error code m => Error code m
      | Ok exclude_fields_vec =>
          Ok (list_to_set include_fields_vec, list_to_set exclude_fields_vec)
      end
  end.

End Extract.

(** A schema with the string field [title] and the int32 field [points],
    looked up by prefix. *)
Definition title_and_points (prefix : string) : list (string * field) :=
  List.filter (fun kv => String.prefix prefix (fst kv))
    [("points", Alter.mk_field "points" "int32" false);
     ("title", Alter.mk_field "title" "string" false)].

End FieldNames.

(** ** Pruning a document to the fields asked for ([prune_doc]) *)

Module Prune.

(** A [tsl::htrie_set<char>] of names, by its elements. *)
Definition names_empty (names : list string) : bool :=
  match names with [] => true | _ => false end.

(** [names.count(n) != 0]. *)
Definition names_count (names : list string) (n : string) : bool :=
  existsb (String.eqb n) names.

(** [names.equal_prefix_range(p)] is not empty: some name starts with [p]. *)
Definition names_prefix_found (names : list string) (p : string) : bool :=
  existsb (String.prefix p) names.

(** [parent_name + (parent_name.empty() ? key : "." + key)]. *)
Definition nested_name_of (parent_name key : string) : string :=
  parent_name +:+ (if String.eqb parent_name "" then key else "." +:+ key).

(** The loop of [Collection::prune_doc] (lines 6344-6417) over the members
    of an object, with its calls of itself on the objects below.  A call
    on an object below ends, as every call, with
    [Join::include_references] (join.cpp), here with the default
    arguments: [nested_references] is what that makes of the object.  The
    code is written for objects only; the last branch is not reached from
    [prune_doc] below. *)
Fixpoint prune_fields (nested_references : json -> json)
    (include_names exclude_names : list string)
    (parent_name : string) (doc : json) {struct doc} : json :=
  match doc with
  | JObj members =>
      JObj
        ((fix loop (ms : list (string * json)) : list (string * json) :=
            match ms with
            | [] => []
            | (key, value) :: ms' =>
                let nested_name := nested_name_of parent_name key in
                if negb (names_empty include_names)
                   && negb (names_prefix_found include_names nested_name) then
                  loop ms'
                else if names_count exclude_names nested_name then loop ms'
                else if names_empty exclude_names && negb (names_empty include_names)
                        && names_count include_names nested_name then
                  (key, value) :: loop ms'
                else
                  match value with
                  | JObj _ =>
                      let is_orig_empty := json_empty value in
                      let value' :=
                        nested_references
                          (prune_fields nested_references include_names exclude_names
                             nested_name value) in
                      if negb is_orig_empty && json_empty value' then loop ms'
                      else (key, value') :: loop ms'
                  | JArr items =>
                      let orig_array_empty := json_empty value in
                      let primitive_array :=
                        forallb (fun e => negb (is_object e)) items in
                      let items' :=
                        (fix each (es : list json) : list json :=
                           match es with
                           | [] => []
                           | e :: es' =>
                               match e with
                               | JObj _ =>
                                   nested_references
                                     (prune_fields nested_references include_names
                                        exclude_names nested_name e)
                               | _ => e
                               end :: each es'
                           end) items in
                      if negb orig_array_empty && json_empty (JArr items') then loop ms'
                      else if negb primitive_array then (key, JArr items') :: loop ms'
                      else if negb (names_empty include_names)
                              && negb (names_count include_names nested_name) then
                        loop ms'
                      else (key, JArr items') :: loop ms'
                  | _ =>
                      if negb (names_empty include_names)
                         && negb (names_count include_names nested_name) then
                        loop ms'
                      else (key, value) :: loop ms'
                  end
            end) members)
  | _ => doc
  end.

(** The members that the loop leaves of the members [ms] of an object, and
    the elements that it leaves of the elements of an array. *)
Definition prune_members (nested_references : json -> json)
    (include_names exclude_names : list string)
    (parent_name : string) (ms : list (string * json)) : list (string * json) :=
  match prune_fields nested_references include_names exclude_names parent_name
          (JObj ms) with
  | JObj ms' => ms'
  | _ => []
  end.

Definition prune_elements (nested_references : json -> json)
    (include_names exclude_names : list string)
    (nested_name : string) (items : list json) : list json :=
  List.map (fun e => match e with
                     | JObj _ =>
                         nested_references
                           (prune_fields nested_references include_names exclude_names
                              nested_name e)
                     | _ => e
                     end) items.

Section References.

(** [Join::include_references] (join.cpp), on the pruned document with the
    arguments of the call, and on an object below with the default ones. *)
Variable include_references : json -> Option bool * json.
Variable nested_references : json -> json.

(** [Collection::prune_doc] on a document: its result and the document as
    the call leaves it; [None] for a value that is not an object. *)
Definition prune_doc (doc : json) (include_names exclude_names : list string)
    (parent_name : string) : option (Option bool * json) :=
  if is_object doc then
    Some (include_references
            (prune_fields nested_references include_names exclude_names parent_name doc))
  else None.

End References.

(** A product with a nested object and an array of objects. *)
Definition product_with_details : json :=
  JObj [("details", JObj [("colour", JStr "red"); ("size", JNum 42)]);
        ("name", JStr "shoe");
        ("price", JNum 10);
        ("variants", JArr [JObj [("sku", JStr "a")]; JObj [("sku", JStr "b")]])].

End Prune.

(** ** Weights of the fields searched ([process_search_field_weights]) *)

Module Weights.

Import Overrides.

(** Conversion to [int]. *)
Definition to_int (z : Z) : Z :=
  let m := z mod 2 ^ 32 in if m <? 2 ^ 31 then m else m - 2 ^ 32.

(** [search_field_t] (index.h): the name, the weight and the other members. *)
Record search_field_t (A : Type) : Type := {
  name : string;
  weight : Z;
  others : A
}.

Arguments name {A} _.
Arguments weight {A} _.
Arguments others {A} _.

(** A copy of a field with [weight] assigned. *)
Definition with_weight {A : Type} (w : Z) (f : search_field_t A) : search_field_t A :=
  {| name := name f; weight := w; others := others f |}.

(** [v[i] = x]; nothing is defined out of range. *)
Definition store {T : Type} (i : nat) (x : T) (v : list T) : option (list T) :=
  if (i <? length v)%nat then Some (<[i := x]> v) else None.

Section Weights.

Context {A : Type}.

(** [Index::FIELD_MAX_WEIGHT] (index.h), a [size_t]. *)
Variable FIELD_MAX_WEIGHT : Z.

(** [std::sort] with the comparison [a.second > b.second]. *)
Variable std_sort : list (Z * Z) -> list (Z * Z).

(** The body of the loop at lines 4047-4060, on [query_by_weights],
    [weighted_search_fields], [weights_in_desc_order] and
    [weights_under_max]; [None] is a read out of range. *)
Definition first_pass (weights_given : bool) (search_fields : list (search_field_t A))
    (st : option (list Z * list (search_field_t A) * bool * bool)) (i : nat)
  : option (list Z * list (search_field_t A) * bool * bool) :=
  match st with
  | None => None
  | Some (query_by_weights, weighted_search_fields, weights_in_desc_order,
          weights_under_max) =>
      if negb weights_given then
        let weight :=
          Z.max 0 (to_int (to_uint64 (to_int FIELD_MAX_WEIGHT - Z.of_nat i))) in
        match search_fields !! i with
        | None => None
        | Some search_field =>
            Some (query_by_weights ++ [to_uint32 weight],
                  weighted_search_fields ++ [with_weight weight search_field],
                  weights_in_desc_order, weights_under_max)
        end
      else
        match query_by_weights !! (if (i =? 0)%nat then 0%nat else (i - 1)%nat) with
        | None => None
        | Some prev_weight =>
            let in_desc_order :=
              if weights_in_desc_order then
                match query_by_weights !! i with
                | Some w => Some (w <=? prev_weight)
                | None => None
                end
              else Some false in
            let under_max :=
              if weights_under_max then
                match query_by_weights !! i with
                | Some w => Some (w <=? FIELD_MAX_WEIGHT)
                | None => None
                end
              else Some false in
            match in_desc_order, under_max with
            | Some d, Some u => Some (query_by_weights, weighted_search_fields, d, u)
            | _, _ => None
            end
        end
  end.

(** The body of the loop at lines 4074-4099 over the sorted pairs. *)
Definition second_pass (search_fields : list (search_field_t A))
    (field_index_and_weights : list (Z * Z))
    (st : option (list Z * list (search_field_t A))) (i : nat)
  : option (list Z * list (search_field_t A)) :=
  match st with
  | None => None
  | Some (query_by_weights, weighted_search_fields) =>
      match field_index_and_weights !! i with
      | None => None
      | Some index_weight =>
          let stored :=
            if (i =? 0)%nat then
              store i (to_uint32 FIELD_MAX_WEIGHT) query_by_weights
            else
              match field_index_and_weights !! (i - 1)%nat,
                    query_by_weights !! (i - 1)%nat with
              | Some prev, Some prev_stored =>
                  let curr_weight := snd index_weight in
                  let prev_weight := snd prev in
                  if curr_weight =? prev_weight then store i prev_stored query_by_weights
                  else
                    let bounded_weight :=
                      to_uint32 (Z.max 0 (to_int prev_stored - 1)) in
                    store i bounded_weight query_by_weights
              | _, _ => None
              end in
          match stored with
          | None => None
          | Some query_by_weights =>
              match search_fields !! Z.to_nat (fst index_weight),
                    query_by_weights !! i with
              | Some search_field, Some weight =>
                  Some (query_by_weights,
                        weighted_search_fields ++ [with_weight weight search_field])
              | _, _ => None
              end
          end
      end
  end.

(** [Collection::process_search_field_weights]: [query_by_weights] and
    [weighted_search_fields] as the call leaves them. *)
Definition process_search_field_weights (search_fields : list (search_field_t A))
    (query_by_weights : list Z) (weighted_search_fields : list (search_field_t A))
  : option (list Z * list (search_field_t A)) :=
  let weights_given := negb (Nat.eqb (length query_by_weights) 0) in
  match fold_left (first_pass weights_given search_fields)
          (seq 0 (length search_fields))
          (Some (query_by_weights, weighted_search_fields, true, true)) with
  | None => None
  | Some (query_by_weights, weighted_search_fields, weights_in_desc_order,
          weights_under_max) =>
      let sorted :=
        if weights_given && (negb weights_in_desc_order || negb weights_under_max) then
          let field_index_and_weights :=
            std_sort (imap (fun i f => (Z.of_nat i, weight f)) search_fields) in
          fold_left (second_pass search_fields field_index_and_weights)
            (seq 0 (length field_index_and_weights))
            (Some (query_by_weights, weighted_search_fields))
        else Some (query_by_weights, weighted_search_fields) in
      match sorted with
      | None => None
      | Some (query_by_weights, weighted_search_fields) =>
          if Nat.eqb (length weighted_search_fields) 0 then
            Some (query_by_weights, weighted_search_fields ++ search_fields)
          else Some (query_by_weights, weighted_search_fields)
      end
  end.

End Weights.

(** Weights as the second loop leaves them: the first is [max_weight],
    none is above the one before it, and all lie between 0 and
    [max_weight]. *)
Definition normalised (max_weight : Z) (l : list Z) : Prop :=
  (forall x, l !! 0%nat = Some x -> x = max_weight)
  /\ (forall i x y, l !! i = Some x -> l !! S i = Some y -> y <= x)
  /\ List.Forall (fun x => 0 <= x <= max_weight) l.

(** A sort of pairs by decreasing second component, by insertion. *)
Fixpoint insert_desc (p : Z * Z) (l : list (Z * Z)) : list (Z * Z) :=
  match l with
  | [] => [p]
  | q :: l' => if snd q <? snd p then p :: l else q :: insert_desc p l'
  end.

Definition sort_desc (l : list (Z * Z)) : list (Z * Z) :=
  fold_right insert_desc [] l.

(** Three fields with the weights 1, 3 and 2 as given in a request. *)
Definition three_fields : list (search_field_t unit) :=
  [{| name := "title"; weight := 1; others := tt |};
   {| name := "body"; weight := 3; others := tt |};
   {| name := "tags"; weight := 2; others := tt |}].

End Weights.

(** ** Pinned hits of a request ([parse_pinned_hits]) *)

Module PinnedHits.

Import FieldNames.

(** The loop at lines 5838-5841, with [n = index + 1]: the index of the
    last [:] of the part, or -1. *)
Fixpoint last_colon (pinned_hits_part : string) (n : nat) : Z :=
  match n with
  | O => -1
  | S index =>
      if Ascii.eqb (char_at index pinned_hits_part) ":"%char then Z.of_nat index
      else last_colon pinned_hits_part index
  end.

(** [s.substr(pos)]. *)
Definition substr_from (pos : nat) (s : string) : string :=
  String.substring pos (String.length s - pos) s.

(** [s.substr(0, count)], where a count of -1 is [npos]. *)
Definition substr_to (count : Z) (s : string) : string :=
  if count <? 0 then s else String.substring 0 (Z.to_nat count) s.

Section Parse.

(** [StringUtils::split], [StringUtils::is_positive_integer] and
    [std::stoi], which throws on a number out of range. *)
Variable split : string -> string -> list string.
Variable is_positive_integer : string -> bool.
Variable stoi : string -> option Z.

(** The body of the loop over the parts; [Thrown] is the exception of
    [std::stoi]. *)
Definition parse_part (pinned_hits_part : string) (pinned_hits : gmap Z (list string))
  : outcome (gmap Z (list string)) :=
  let index := last_colon pinned_hits_part (String.length pinned_hits_part) in
  if index =? 0 then Returned (Error 400 "Pinned hits are not in expected format.")
  else
    let pinned_id := substr_to index pinned_hits_part in
    let pinned_pos := substr_from (Z.to_nat (index + 1)) pinned_hits_part in
    if negb (is_positive_integer pinned_pos) then
      Returned (Error 400 "Pinned hits are not in expected format.")
    else
      match stoi pinned_pos with
      | None => Thrown
      | Some position =>
          if position =? 0 then
            Returned (Error 400 "Pinned hits must start from position 1.")
          else
            let key := to_uint64 position in
            Returned
              (Ok (<[key := default [] (pinned_hits !! key) ++ [pinned_id]]>
                     pinned_hits))
      end.

Fixpoint parse_parts (parts : list string) (pinned_hits : gmap Z (list string))
  : outcome (gmap Z (list string)) :=
  match parts with
  | [] => Returned (Ok pinned_hits)
  | part :: parts' =>
      match parse_part part pinned_hits with
      | Returned (Ok pinned_hits) => parse_parts parts' pinned_hits
      | other => other
      end
  end.

(** [Collection::parse_pinned_hits]: the map as the call leaves it, or the
    error. *)
Definition parse_pinned_hits (pinned_hits_str : string)
    (pinned_hits : gmap Z (list string)) : outcome (gmap Z (list string)) :=
  if negb (String.eqb pinned_hits_str "") then
    parse_parts (split pinned_hits_str ",") pinned_hits
  else Returned (Ok pinned_hits).

End Parse.

End PinnedHits.

(** ** Counter events of the analytics manager *)

Module Counters.

Import Analytics.

(** The ids that an event counts: [doc_ids], or [doc_id] without them. *)
Definition counted_ids (f : event_fields) : list string :=
  match f_doc_ids f with
  | [] => [f_doc_id f]
  | ids => ids
  end.

(** How often [id] is among [ids]. *)
Definition occurrences (id : string) (ids : list string) : Z :=
  Z.of_nat (count_occ string_dec ids id).

(** A counter of clicks on products, each click weighing 2. *)
Definition click_counter : gmap string counter_event_t :=
  {["products" := {| counter_field := "popularity";
                     docid_counts := {["7" := 40]};
                     event_weight_map := {["product_click" := 2]} |}]}.

(** Clicks on the documents 7, 9 and 7 again. *)
Definition three_clicks : event_fields :=
  {| f_query := ""; f_user_id := "u%1"; f_doc_id := ""; f_doc_ids := ["7"; "9"; "7"];
     f_custom_data := []; f_filter_str := ""; f_analytics_tag := "" |}.

(** A rule for click events that logs to the store, and a click whose user
    id holds a [%]. *)
Definition logging_rule : event_type_collection :=
  {| event_type := "click"; destination_collection := "products";
     src_collections := ["products"]; log_to_store := true;
     analytic_rule := "product_clicks"; queries_ptr := None |}.

Definition logged_click : outcome bool * AnalyticsManager :=
  record_event 5 "click" "product_click" "products" logging_rule []
    (JObj [("doc_id", JStr "21"); ("user_id", JStr "u%1")]) scenario_manager.

End Counters.


(* ===================================================================== *)
(** * Part II.  Properties                                                *)
(* ===================================================================== *)

(** ** Reading and writing members of json objects *)

Lemma members_get_set_eq (k : string) (v : json) (ms : list (string * json)) :
  members_get k (members_set k v ms) = Some v.
Proof.
  induction ms as [|[k' v'] ms IH]; simpl.
  - now rewrite String.eqb_refl.
  - destruct (String.eqb k k') eqn:E; simpl.
    + now rewrite String.eqb_refl.
    + destruct (String.ltb k k'); simpl.
      * now rewrite String.eqb_refl.
      * now rewrite E.
Qed.

Lemma members_get_set_ne (k k' : string) (v : json) (ms : list (string * json)) :
  k <> k' -> members_get k' (members_set k v ms) = members_get k' ms.
Proof.
  intros Hne.
  assert (Hkk : String.eqb k' k = false) by (apply String.eqb_neq; congruence).
  induction ms as [|[k0 v0] ms IH]; simpl.
  - now rewrite Hkk.
  - destruct (String.eqb k k0) eqn:E; simpl.
    + apply String.eqb_eq in E. subst k0. now rewrite Hkk.
    + destruct (String.ltb k k0); simpl.
      * now rewrite Hkk.
      * destruct (String.eqb k' k0); [reflexivity | exact IH].
Qed.

Lemma json_get_set_eq (k : string) (v j : json) : json_get k (json_set k v j) = Some v.
Proof.
  destruct j; simpl; try (now rewrite String.eqb_refl).
  apply members_get_set_eq.
Qed.

Lemma json_get_set_ne (k k' : string) (v j : json) :
  k <> k' -> json_get k' (json_set k v j) = json_get k' j.
Proof.
  intros Hne.
  assert (Hkk : String.eqb k' k = false) by (apply String.eqb_neq; congruence).
  destruct j; simpl; try (now rewrite Hkk).
  now apply members_get_set_ne.
Qed.

(** Reads a member through the assignments made after it. *)
Ltac read_member :=
  repeat (rewrite json_get_set_ne by (intro; discriminate));
  rewrite ?json_get_set_eq.

(** ** Arithmetic on [uint64_t] *)

Lemma to_uint64_small (z : Z) : is_uint64 z -> to_uint64 z = z.
Proof. unfold is_uint64, to_uint64. intros H. now apply Z.mod_small. Qed.

Lemma is_uint32_is_uint64 (z : Z) : is_uint32 z -> is_uint64 z.
Proof. unfold is_uint32, is_uint64, UINT64_MODULUS. lia. Qed.

(** ** Text match score decoding *)

Module TextMatchProofs.

Import TextMatch.

Lemma bits_range (v lo hi : Z) : lo <= hi -> 0 <= bits v lo hi < 2 ^ (hi - lo + 1).
Proof.
  intros H. unfold bits. apply Z.mod_pos_bound. apply Z.pow_pos_nonneg; lia.
Qed.

(** On a 64-bit word [extract_bits] returns the [n] bits from [lsb_offset] up. *)
Lemma extract_bits_bits (value lsb_offset n : Z) :
  0 <= lsb_offset < 64 -> 0 < n < 64 ->
  extract_bits value lsb_offset n = bits value lsb_offset (lsb_offset + n - 1).
Proof.
  intros Hlo Hn. unfold extract_bits, bits, max_n.
  destruct (Z.leb_spec 64 lsb_offset) as [?|_]; [lia|].
  destruct (Z.leb_spec 64 n) as [?|_]; [lia|].
  assert (Hpow : 0 < 2 ^ n < 2 ^ 64).
  { split; [apply Z.pow_pos_nonneg; lia | apply Z.pow_lt_mono_r; lia]. }
  rewrite Z.shiftl_1_l.
  rewrite (to_uint64_small (2 ^ n)) by (unfold is_uint64, UINT64_MODULUS; lia).
  rewrite to_uint64_small by (unfold is_uint64, UINT64_MODULUS; lia).
  replace (2 ^ n - 1) with (Z.ones n) by (rewrite Z.ones_equiv; lia).
  rewrite Z.land_ones by lia.
  rewrite Z.shiftr_div_pow2 by lia.
  f_equal. f_equal. lia.
Qed.

(** C9.  For a 64-bit text match score the members of [text_match_info]
    are the declared bit fields of the score: [tokens_matched] is bits
    59..62 and [fields_matched] bits 0..2 under both schemes; under
    [max_score], [best_field_score] is bits 11..58, [best_field_weight]
    bits 3..10 and [typo_prefix_score] is 255 minus bits 35..42; under
    [max_weight], [best_field_weight] is bits 51..58, [best_field_score]
    bits 3..50 and [typo_prefix_score] is 255 minus bits 27..34;
    [num_tokens_dropped] is the number of query tokens minus
    [tokens_matched], computed on [size_t] (so the plain difference
    whenever no more tokens matched than the query has). *)
Theorem text_match_info_layout (info : json) (match_score total_tokens : Z)
    (match_type : text_match_type_t) :
  is_uint64 match_score ->
  is_uint64 total_tokens ->
  let r := populate_text_match_info info match_score match_type total_tokens in
  json_get "score" r = Some (JStr (to_string match_score)) /\
  json_get "tokens_matched" r = Some (JNum (bits match_score 59 62)) /\
  json_get "fields_matched" r = Some (JNum (bits match_score 0 2)) /\
  json_get "num_tokens_dropped" r
    = Some (JNum (to_uint64 (total_tokens - bits match_score 59 62))) /\
  (bits match_score 59 62 <= total_tokens ->
   json_get "num_tokens_dropped" r = Some (JNum (total_tokens - bits match_score 59 62))) /\
  match match_type with
  | max_score =>
      json_get "best_field_score" r = Some (JStr (to_string (bits match_score 11 58))) /\
      json_get "best_field_weight" r = Some (JNum (bits match_score 3 10)) /\
      json_get "typo_prefix_score" r = Some (JNum (255 - bits match_score 35 42))
  | max_weight =>
      json_get "best_field_weight" r = Some (JNum (bits match_score 51 58)) /\
      json_get "best_field_score" r = Some (JStr (to_string (bits match_score 3 50))) /\
      json_get "typo_prefix_score" r = Some (JNum (255 - bits match_score 27 34))
  end.
Proof.
  intros Hscore Htotal r. subst r. unfold populate_text_match_info.
  rewrite (extract_bits_bits match_score 59 4 : _ -> _ -> _ = bits match_score 59 62) by lia.
  rewrite (extract_bits_bits match_score 0 3 : _ -> _ -> _ = bits match_score 0 2) by lia.
  rewrite (extract_bits_bits match_score 11 48 : _ -> _ -> _ = bits match_score 11 58) by lia.
  rewrite (extract_bits_bits match_score 3 8 : _ -> _ -> _ = bits match_score 3 10) by lia.
  rewrite (extract_bits_bits match_score 35 8 : _ -> _ -> _ = bits match_score 35 42) by lia.
  rewrite (extract_bits_bits match_score 51 8 : _ -> _ -> _ = bits match_score 51 58) by lia.
  rewrite (extract_bits_bits match_score 3 48 : _ -> _ -> _ = bits match_score 3 50) by lia.
  rewrite (extract_bits_bits match_score 27 8 : _ -> _ -> _ = bits match_score 27 34) by lia.
  pose proof (bits_range match_score 59 62 ltac:(lia)) as Htm.
  pose proof (bits_range match_score 35 42 ltac:(lia)) as H35.
  pose proof (bits_range match_score 27 34 ltac:(lia)) as H27.
  change (2 ^ (62 - 59 + 1)) with 16 in Htm.
  change (2 ^ (42 - 35 + 1)) with 256 in H35.
  change (2 ^ (34 - 27 + 1)) with 256 in H27.
  assert (Hdrop : bits match_score 59 62 <= total_tokens ->
                  to_uint64 (total_tokens - bits match_score 59 62)
                  = total_tokens - bits match_score 59 62).
  { intros Hle. apply to_uint64_small. unfold is_uint64 in *. lia. }
  assert (H255a : to_uint64 (255 - bits match_score 35 42) = 255 - bits match_score 35 42).
  { apply to_uint64_small. unfold is_uint64, UINT64_MODULUS. lia. }
  assert (H255b : to_uint64 (255 - bits match_score 27 34) = 255 - bits match_score 27 34).
  { apply to_uint64_small. unfold is_uint64, UINT64_MODULUS. lia. }
  destruct match_type; cbv zeta.
  - rewrite H255a.
    repeat split;
      try (intros Hle; read_member; rewrite (Hdrop Hle); reflexivity);
      read_member; reflexivity.
  - rewrite H255b.
    repeat split;
      try (intros Hle; read_member; rewrite (Hdrop Hle); reflexivity);
      read_member; reflexivity.
Qed.

(** The layout at a score with two matched tokens of a two token query. *)
Lemma text_match_info_layout_witness :
  is_uint64 1157451471441100921 /\ is_uint64 2 /\
  json_get "tokens_matched"
    (populate_text_match_info (JObj []) 1157451471441100921 max_score 2)
  = Some (JNum (bits 1157451471441100921 59 62)) /\
  json_get "num_tokens_dropped"
    (populate_text_match_info (JObj []) 1157451471441100921 max_score 2)
  = Some (JNum (to_uint64 (2 - bits 1157451471441100921 59 62))).
Proof.
  assert (H1 : is_uint64 1157451471441100921) by (unfold is_uint64, UINT64_MODULUS; lia).
  assert (H2 : is_uint64 2) by (unfold is_uint64, UINT64_MODULUS; lia).
  pose proof (text_match_info_layout (JObj []) 1157451471441100921 2 max_score H1 H2) as H.
  cbv zeta in H.
  split; [exact H1|]. split; [exact H2|].
  split; [exact (proj1 (proj2 H)) | exact (proj1 (proj2 (proj2 (proj2 H))))].
Defined.

End TextMatchProofs.

(** ** The per-IP rate limit of analytics events *)

Module AnalyticsProofs.

Import Analytics.

Lemma entries_lookup_remove_same (k : string) (l : list (string * event_cache_t)) :
  entries_lookup k (entries_remove k l) = None.
Proof.
  induction l as [|[k' v] l IH]; simpl; [reflexivity|].
  destruct (String.eqb k k') eqn:E; [exact IH|].
  simpl. now rewrite E.
Qed.

Lemma entries_lookup_remove_other (k k' : string) (l : list (string * event_cache_t)) :
  k <> k' -> entries_lookup k' (entries_remove k l) = entries_lookup k' l.
Proof.
  intros Hne. induction l as [|[k0 v] l IH]; simpl; [reflexivity|].
  destruct (String.eqb k k0) eqn:E.
  - apply String.eqb_eq in E. subst k0.
    assert (String.eqb k' k = false) as -> by (apply String.eqb_neq; congruence).
    exact IH.
  - simpl. destruct (String.eqb k' k0); [reflexivity | exact IH].
Qed.

(** [find] moves the entry to the front and changes no record. *)
Lemma cache_find_lookup (k : string) (c : lru_cache) :
  fst (cache_find k c) = cache_lookup k c /\
  lru_capacity (snd (cache_find k c)) = lru_capacity c /\
  forall k', cache_lookup k' (snd (cache_find k c)) = cache_lookup k' c.
Proof.
  unfold cache_find, cache_lookup.
  destruct (entries_lookup k (lru_entries c)) as [v|] eqn:E; simpl.
  - split; [reflexivity|]. split; [reflexivity|]. intros k'.
    destruct (String.eqb k' k) eqn:Ek.
    + apply String.eqb_eq in Ek. subst k'. now rewrite E.
    + apply entries_lookup_remove_other. apply String.eqb_neq in Ek. congruence.
  - split; [reflexivity|]. split; reflexivity.
Qed.

Lemma entries_lookup_assign (k k' : string) (v : event_cache_t)
    (l : list (string * event_cache_t)) :
  entries_lookup k'
    (List.map (fun kv => if String.eqb k (fst kv) then (fst kv, v) else kv) l)
  = if String.eqb k k' then
      match entries_lookup k' l with Some _ => Some v | None => None end
    else entries_lookup k' l.
Proof.
  induction l as [|[k0 v0] l IH]; simpl.
  - now destruct (String.eqb k k').
  - destruct (String.eqb k k0) eqn:E0; simpl.
    + apply String.eqb_eq in E0. subst k0.
      destruct (String.eqb k' k) eqn:E1.
      * apply String.eqb_eq in E1. subst k'. now rewrite String.eqb_refl.
      * rewrite IH. reflexivity.
    + destruct (String.eqb k' k0) eqn:E1.
      * apply String.eqb_eq in E1. subst k0.
        rewrite E0. reflexivity.
      * exact IH.
Qed.

(** The assignment through the iterator changes the record of its key only. *)
Lemma cache_assign_lookup (k : string) (v old : event_cache_t) (c : lru_cache) :
  cache_lookup k c = Some old ->
  cache_lookup k (cache_assign k v c) = Some v /\
  forall k', k' <> k -> cache_lookup k' (cache_assign k v c) = cache_lookup k' c.
Proof.
  unfold cache_lookup, cache_assign. simpl. intros Hold. split.
  - rewrite entries_lookup_assign, String.eqb_refl, Hold. reflexivity.
  - intros k' Hne. rewrite entries_lookup_assign.
    assert (String.eqb k k' = false) as -> by (apply String.eqb_neq; congruence).
    reflexivity.
Qed.

(** An insertion into a cache that can hold an entry creates the record. *)
Lemma cache_insert_lookup (k : string) (v : event_cache_t) (c : lru_cache) :
  (0 < lru_capacity c)%nat -> cache_lookup k (cache_insert k v c) = Some v.
Proof.
  unfold cache_lookup, cache_insert. simpl. intros Hcap.
  destruct (lru_capacity c) as [|n]; [lia|]. simpl.
  now rewrite String.eqb_refl.
Qed.

(** An event that is not a search event, or whose rule has a query
    aggregator, is accepted once its payload has been read. *)
Lemma record_event_accepts (now_ts_useconds : Z) (event_type_arg event_name src : string)
    (ec : event_type_collection) (events_vec : list event_t) (event_json : json)
    (m : AnalyticsManager) :
  read_event_fields event_type_arg event_json <> None ->
  String.eqb event_type_arg SEARCH_EVENT = false \/ queries_ptr ec <> None ->
  fst (record_event now_ts_useconds event_type_arg event_name src ec events_vec
         event_json m) = Returned (Ok true).
Proof.
  intros Hread Hkind. unfold record_event.
  destruct (read_event_fields event_type_arg event_json) as [f|]; [|congruence].
  destruct (String.eqb event_type_arg SEARCH_EVENT) eqn:E.
  - destruct Hkind as [Hk|Hk]; [discriminate|].
    destruct (queries_ptr ec); [reflexivity | congruence].
  - reflexivity.
Qed.

(** C8.  [add_event] keeps one record [{last_update_time, count}] per
    client IP.  For an event that reaches the rate limit (its rule is
    known, the event type agrees and the source collection is tracked):
    - when the record of the IP is less than 60 seconds old and its count
      has reached [analytics_minute_rate_limit], the event is rejected with
      error 500 "event rate limit reached." and nothing of the analytics
      state changes;
    - when the record is less than 60 seconds old and the count is below
      the limit, the count is incremented and the event goes on to be
      recorded;
    - when the record is at least 60 seconds old it is reset to the
      current time with count 1, and when there is none it is created
      with count 1, and the event goes on to be recorded;
    - an event that goes on to be recorded is accepted, provided its
      payload can be read and, for a search event, its rule has a query
      aggregator. *)
Theorem add_event_rate_limit (now_ts_seconds now_ts_useconds : Z)
    (client_ip event_type_arg event_name src : string) (event_json : json)
    (m : AnalyticsManager) (ec : event_type_collection) (events_vec : list event_t) :
  event_collection_map m !! event_name = Some ec ->
  event_type ec = event_type_arg ->
  resolve_src_collection ec event_name event_json = inr src ->
  query_collection_events m !! src = Some events_vec ->
  (0 < lru_capacity (events_cache m))%nat ->
  let limit := analytics_minute_rate_limit m in
  let result :=
    add_event now_ts_seconds now_ts_useconds client_ip event_type_arg event_name
      event_json m in
  let recorded_with cache :=
    record_event now_ts_useconds event_type_arg event_name src ec events_vec event_json
      (with_events_cache cache m) in
  let fresh r := to_uint64 (now_ts_seconds - last_update_time r) < EVENTS_RATE_LIMIT_SEC in
  (forall r, cache_lookup client_ip (events_cache m) = Some r ->
     fresh r -> limit <= count r ->
     fst result = Returned (Error 500 "event rate limit reached.") /\
     same_analytics_state m (snd result)) /\
  (forall r, cache_lookup client_ip (events_cache m) = Some r ->
     fresh r -> count r < limit ->
     exists cache,
       result = recorded_with cache /\
       cache_lookup client_ip cache
       = Some {| last_update_time := last_update_time r;
                 count := to_uint64 (count r + 1) |} /\
       forall ip, ip <> client_ip ->
         cache_lookup ip cache = cache_lookup ip (events_cache m)) /\
  (forall r, cache_lookup client_ip (events_cache m) = Some r ->
     ~ fresh r ->
     exists cache,
       result = recorded_with cache /\
       cache_lookup client_ip cache
       = Some {| last_update_time := to_uint64 now_ts_seconds; count := 1 |} /\
       forall ip, ip <> client_ip ->
         cache_lookup ip cache = cache_lookup ip (events_cache m)) /\
  (cache_lookup client_ip (events_cache m) = None ->
     exists cache,
       result = recorded_with cache /\
       cache_lookup client_ip cache
       = Some {| last_update_time := to_uint64 now_ts_seconds; count := 1 |}) /\
  (read_event_fields event_type_arg event_json <> None ->
   String.eqb event_type_arg SEARCH_EVENT = false \/ queries_ptr ec <> None ->
   forall cache, fst (recorded_with cache) = Returned (Ok true)).
Proof.
  intros Hrule Htype Hsrc Hevents Hcap limit result recorded_with fresh.
  assert (Hadd : result =
            match rate_limit now_ts_seconds client_ip limit (events_cache m) with
            | inl (rejected, cache) => (Returned rejected, with_events_cache cache m)
            | inr cache => recorded_with cache
            end).
  { subst result recorded_with limit. unfold add_event.
    rewrite Hrule, Htype, String.eqb_refl. simpl negb. cbv iota.
    rewrite Hsrc, Hevents. reflexivity. }
  destruct (cache_find_lookup client_ip (events_cache m)) as (Hfst & Hcapf & Hsnd).
  unfold rate_limit in Hadd.
  destruct (cache_find client_ip (events_cache m)) as [found cache0] eqn:Efind.
  simpl in Hfst, Hcapf, Hsnd.
  split; [|split; [|split; [|split]]].
  - (* rejected *)
    intros r Hr Hfresh Hfull. rewrite Hadd, Hfst, Hr.
    destruct (Z.ltb_spec (to_uint64 (now_ts_seconds - last_update_time r))
                EVENTS_RATE_LIMIT_SEC) as [_|?]; [|unfold fresh in Hfresh; lia].
    destruct (Z.leb_spec limit (count r)) as [_|?]; [|lia].
    split; [reflexivity|].
    unfold same_analytics_state. simpl. repeat split. exact Hsnd.
  - (* incremented *)
    intros r Hr Hfresh Hroom. rewrite Hadd, Hfst, Hr.
    destruct (Z.ltb_spec (to_uint64 (now_ts_seconds - last_update_time r))
                EVENTS_RATE_LIMIT_SEC) as [_|?]; [|unfold fresh in Hfresh; lia].
    destruct (Z.leb_spec limit (count r)) as [?|_]; [lia|].
    assert (Hr0 : cache_lookup client_ip cache0 = Some r) by (rewrite Hsnd; exact Hr).
    destruct (cache_assign_lookup client_ip
                {| last_update_time := last_update_time r;
                   count := to_uint64 (count r + 1) |} r cache0 Hr0) as [Hk Hother].
    eexists. split; [reflexivity|]. split; [exact Hk|].
    intros ip Hip. rewrite Hother by exact Hip. apply Hsnd.
  - (* reset *)
    intros r Hr Hstale. rewrite Hadd, Hfst, Hr.
    destruct (Z.ltb_spec (to_uint64 (now_ts_seconds - last_update_time r))
                EVENTS_RATE_LIMIT_SEC) as [?|_]; [unfold fresh in Hstale; lia|].
    assert (Hr0 : cache_lookup client_ip cache0 = Some r) by (rewrite Hsnd; exact Hr).
    destruct (cache_assign_lookup client_ip
                {| last_update_time := to_uint64 now_ts_seconds; count := 1 |}
                r cache0 Hr0) as [Hk Hother].
    eexists. split; [reflexivity|]. split; [exact Hk|].
    intros ip Hip. rewrite Hother by exact Hip. apply Hsnd.
  - (* created *)
    intros Hnone. rewrite Hadd, Hfst, Hnone.
    eexists. split; [reflexivity|].
    apply cache_insert_lookup. rewrite Hcapf. exact Hcap.
  - (* accepted *)
    intros Hread Hkind cache. subst recorded_with. cbv beta.
    now apply record_event_accepts.
Qed.

(** The scenario of the spec: with limit 3, three events of one address
    within a window are accepted, the fourth is rejected and leaves the
    state as it was, and an event 60 seconds after the first one is
    accepted again with a count restarted at 1. *)
Lemma add_event_rate_limit_witness :
  let m1 := snd (scenario_event 100 scenario_manager) in
  let m2 := snd (scenario_event 110 m1) in
  let m3 := snd (scenario_event 120 m2) in
  let m4 := snd (scenario_event 129 m3) in
  fst (scenario_event 100 scenario_manager) = Returned (Ok true) /\
  fst (scenario_event 110 m1) = Returned (Ok true) /\
  fst (scenario_event 120 m2) = Returned (Ok true) /\
  cache_lookup "10.0.0.7" (events_cache m3)
  = Some {| last_update_time := 100; count := 3 |} /\
  (fst (scenario_event 129 m3) = Returned (Error 500 "event rate limit reached.") /\
   same_analytics_state m3 m4) /\
  fst (scenario_event 160 m4) = Returned (Ok true) /\
  cache_lookup "10.0.0.7" (events_cache (snd (scenario_event 160 m4)))
  = Some {| last_update_time := 160; count := 1 |}.
Proof.
  intros m1 m2 m3 m4.
  split; [vm_compute; reflexivity|].
  split; [vm_compute; reflexivity|].
  split; [vm_compute; reflexivity|].
  split; [vm_compute; reflexivity|].
  split.
  - apply (proj1 (add_event_rate_limit 129 129000000 "10.0.0.7" "click" "product_click"
                    "products" (JObj [("doc_id", JStr "21"); ("user_id", JStr "u1")])
                    m3 scenario_rule []
                    ltac:(vm_compute; reflexivity) ltac:(reflexivity)
                    ltac:(vm_compute; reflexivity) ltac:(vm_compute; reflexivity)
                    ltac:(vm_compute; lia))
             {| last_update_time := 100; count := 3 |}).
    + vm_compute; reflexivity.
    + vm_compute; reflexivity.
    + vm_compute. discriminate.
  - split; vm_compute; reflexivity.
Defined.

End AnalyticsProofs.

(** ** The page of a search *)

Module SearchProofs.

Import Sort Search.

(** *** Paging *)

Lemma to_long_small (z : Z) : 0 <= z < 2 ^ 63 -> to_long z = z.
Proof.
  intros H. unfold to_long.
  rewrite Z.mod_small by lia. lia.
Qed.

Lemma to_long_minus_one : to_long (to_uint64 (-1)) = -1.
Proof. reflexivity. Qed.

Lemma requested_offset_range (per_page page page_offset : Z) :
  0 <= per_page < 2 ^ 31 -> is_uint32 page -> is_uint32 page_offset ->
  0 <= requested_offset per_page page page_offset < 2 ^ 63.
Proof.
  unfold is_uint32, requested_offset. intros Hpp Hp Ho.
  destruct ((page =? 0) && negb (page_offset =? 0)); [lia|].
  destruct (Z.eqb_spec page 0); [lia|].
  assert (per_page * (page - 1) <= 2 ^ 31 * 2 ^ 32) by nia.
  change (2 ^ 63) with (2 ^ 31 * 2 ^ 32 * 1). nia.
Qed.

Lemma init_page_bounds_ok (per_page_max per_page page page_offset limit_hits : Z) :
  0 <= per_page_max < 2 ^ 31 ->
  0 <= per_page <= per_page_max ->
  is_uint32 page -> is_uint32 page_offset ->
  init_page_bounds per_page_max per_page page page_offset limit_hits
  = Ok {| offset := requested_offset per_page page page_offset;
          fetch_size :=
            Z.min (requested_offset per_page page page_offset + per_page) limit_hits |}.
Proof.
  intros Hmax Hpp Hp Ho.
  pose proof (requested_offset_range per_page page page_offset ltac:(lia) Hp Ho) as Hoff.
  unfold init_page_bounds.
  rewrite (to_uint64_small per_page_max)
    by (unfold is_uint64, UINT64_MODULUS; lia).
  destruct (Z.ltb_spec per_page_max per_page) as [?|_]; [lia|].
  assert (Eoff :
    (if (page =? 0) && negb (page_offset =? 0) then page_offset
     else to_uint64 (per_page * to_uint64 ((if page =? 0 then 1 else page) - 1)))
    = requested_offset per_page page page_offset).
  { unfold requested_offset in *.
    destruct ((page =? 0) && negb (page_offset =? 0)); [reflexivity|].
    unfold is_uint32 in Hp.
    rewrite (to_uint64_small ((if page =? 0 then 1 else page) - 1))
      by (unfold is_uint64, UINT64_MODULUS; destruct (Z.eqb_spec page 0); lia).
    apply to_uint64_small. unfold is_uint64, UINT64_MODULUS. lia. }
  rewrite Eoff.
  rewrite (to_uint64_small (requested_offset per_page page page_offset + per_page))
    by (unfold is_uint64, UINT64_MODULUS; lia).
  reflexivity.
Qed.

(** *** The index loop visits a contiguous part of the result list *)

Lemma nth_range_slice {A} (d : A) (l : list A) (n from : nat) :
  (from + n <= length l)%nat ->
  List.map (fun i => nth (Z.to_nat (Z.of_nat from + Z.of_nat i)) l d) (seq 0 n)
  = slice from (from + n) l.
Proof.
  unfold slice. replace (from + n - from)%nat with n by lia.
  revert from. induction n as [|n IH]; intros from Hlen.
  - reflexivity.
  - cbn [seq List.map]. rewrite <- seq_shift, List.map_map.
    assert (Hsk : skipn from l = nth from l d :: skipn (S from) l).
    { clear IH. revert from Hlen. induction l as [|x l IHl]; intros from Hlen.
      - simpl in Hlen. lia.
      - destruct from as [|from]; [reflexivity|].
        simpl. apply IHl. simpl in Hlen. lia. }
    rewrite Hsk. simpl firstn. f_equal.
    + f_equal. lia.
    + rewrite <- (IH (S from)) by lia.
      apply List.map_ext. intros i. f_equal. lia.
Qed.

Lemma Forall_slice {A} (P : A -> Prop) (from to : nat) (l : list A) :
  Forall P l -> Forall P (slice from to l).
Proof.
  intros H. unfold slice.
  rewrite <- (firstn_skipn from l) in H. apply List.Forall_app in H. destruct H as [_ H].
  rewrite <- (firstn_skipn (to - from) (skipn from l)) in H.
  apply List.Forall_app in H. tauto.
Qed.

Lemma index_range_slice {A} (d : A) (l : list A) (from to : Z) :
  0 <= from -> to <= Z.of_nat (length l) ->
  List.map (fun i => nth (Z.to_nat i) l d) (index_range from (to - 1))
  = slice (Z.to_nat from) (Z.to_nat to) l.
Proof.
  intros Hfrom Hto. unfold index_range. rewrite List.map_map.
  replace (to - 1 - from + 1) with (to - from) by lia.
  destruct (Z.le_gt_cases to from) as [Hle|Hgt].
  - replace (Z.to_nat (to - from)) with 0%nat by lia.
    unfold slice. replace (Z.to_nat to - Z.to_nat from)%nat with 0%nat by lia.
    reflexivity.
  - replace (Z.to_nat to) with (Z.to_nat from + Z.to_nat (to - from))%nat by lia.
    rewrite <- (nth_range_slice d) by lia.
    apply List.map_ext. intros i. f_equal. lia.
Qed.

(** *** Groups keep their size through rescoring and merging *)

Lemma map_first_length (f : KV -> KV) (g : kv_group) : length (map_first f g) = length g.
Proof. destruct g; reflexivity. Qed.

Lemma assign_blocks_sizes (P : nat -> Prop) (index_of : KV -> Z) (block_len : Z)
    (todo : nat) (kvs : list kv_group) :
  forall i j scores,
    Forall (fun g => P (length g)) kvs ->
    Forall (fun g => P (length g))
           (fst (assign_blocks index_of block_len i j todo kvs scores)).
Proof.
  revert kvs. induction todo as [|todo IH]; intros kvs i j scores Hall.
  - destruct kvs; exact Hall.
  - destruct kvs as [|g kvs]; [exact Hall|].
    inversion Hall as [|? ? Hg Hrest]; subst. simpl.
    destruct (j <? block_len);
      match goal with
      | |- context [assign_blocks ?a ?b ?c ?d ?e ?f ?g] =>
          specialize (IH kvs c d g Hrest);
          destruct (assign_blocks a b c d e f g) as [rest scores'] eqn:E
      end; simpl in *; constructor; try exact IH; now rewrite map_first_length.
Qed.

Lemma restore_scores_sizes (P : nat -> Prop) (index_of : KV -> Z) (todo : nat)
    (kvs : list kv_group) (scores : gmap Z Z) :
  Forall (fun g => P (length g)) kvs ->
  Forall (fun g => P (length g)) (restore_scores index_of todo kvs scores).
Proof.
  revert kvs. induction todo as [|todo IH]; intros kvs Hall.
  - destruct kvs; exact Hall.
  - destruct kvs as [|g kvs]; [exact Hall|].
    inversion Hall as [|? ? Hg Hrest]; subst. simpl.
    constructor; [now rewrite map_first_length | now apply IH].
Qed.

Section Pages.

Variable CURATED_RECORD_IDENTIFIER : Z.
Variable get_document_from_store : Z -> option json.
Variable make_wrapper_doc : KV -> json -> Option json.
Variable partial_sort : nat -> list kv_group -> list kv_group.

(** What the standard asks of [std::partial_sort]: it rearranges. *)
Hypothesis partial_sort_permutes :
  forall middle l, Permutation (partial_sort middle l) l.

Lemma rescore_sizes (P : nat -> Prop) (index_of : KV -> Z) (num_buckets bucket_size : Z)
    (kvs : list kv_group) :
  Forall (fun g => P (length g)) kvs ->
  Forall (fun g => P (length g)) (rescore partial_sort index_of num_buckets bucket_size kvs).
Proof.
  intros Hall. unfold rescore.
  destruct (bucketing_applies _ _ _); [|exact Hall].
  match goal with
  | |- context [assign_blocks ?a ?b ?c ?d ?e ?f ?g] =>
      pose proof (assign_blocks_sizes P a b e f c d g Hall) as H;
      destruct (assign_blocks a b c d e f g) as [rest scores'] eqn:E
  end.
  simpl in H. apply restore_scores_sizes.
  eapply Permutation_Forall; [|exact H].
  apply Permutation_sym, partial_sort_permutes.
Qed.

Lemma bucketed_sizes (P : nat -> Prop) (sort_fields : list sort_by) (kvs : list kv_group) :
  Forall (fun g => P (length g)) kvs ->
  Forall (fun g => P (length g))
    (bucket_vector_distance partial_sort sort_fields
       (bucket_text_match partial_sort sort_fields kvs)).
Proof.
  intros Hall.
  assert (Htm : Forall (fun g => P (length g))
                  (bucket_text_match partial_sort sort_fields kvs)).
  { unfold bucket_text_match.
    destruct (find_bucketed_clause _ _ _ _ _) as [[i s]|]; [|exact Hall].
    destruct (_ || _); [now apply rescore_sizes | exact Hall]. }
  unfold bucket_vector_distance.
  destruct (find_bucketed_clause _ _ _ _ _) as [[i s]|]; [|exact Htm].
  destruct (_ || _); [now apply rescore_sizes | exact Htm].
Qed.

Lemma place_overrides_sizes (P : nat -> Prop) (overrides : list kv_group) :
  forall result positions,
    Forall (fun g => P (length g)) overrides ->
    Forall (fun g => P (length g)) result ->
    let '(overrides', result', _) :=
      place_overrides CURATED_RECORD_IDENTIFIER overrides result positions in
    Forall (fun g => P (length g)) overrides' /\ Forall (fun g => P (length g)) result'.
Proof.
  induction overrides as [|ov overrides IH]; intros result positions Hov Hres; simpl.
  - split; [constructor | exact Hres].
  - inversion Hov as [|? ? Hhd Htl]; subst.
    destruct (_ =? _).
    + apply IH; [exact Htl|].
      apply Forall_app. split; [exact Hres|].
      constructor; [now rewrite map_first_length | constructor].
    + split; [exact Hov | exact Hres].
Qed.

Lemma merge_raw_sizes (P : nat -> Prop) (raw : list kv_group) :
  forall overrides result positions,
    Forall (fun g => P (length g)) raw ->
    Forall (fun g => P (length g)) overrides ->
    Forall (fun g => P (length g)) result ->
    let '(overrides', result') :=
      merge_raw CURATED_RECORD_IDENTIFIER 0 raw overrides result positions in
    Forall (fun g => P (length g)) overrides' /\ Forall (fun g => P (length g)) result'.
Proof.
  induction raw as [|g raw IH]; intros overrides result positions Hraw Hov Hres; simpl.
  - split; assumption.
  - inversion Hraw as [|? ? Hg Hrest]; subst.
    pose proof (place_overrides_sizes P overrides result positions Hov Hres) as Hplace.
    destruct (place_overrides CURATED_RECORD_IDENTIFIER overrides result positions)
      as [[overrides' result'] positions'].
    destruct Hplace as [Hov' Hres'].
    apply IH; [exact Hrest | exact Hov' |].
    apply Forall_app. split; [exact Hres' | constructor; [exact Hg | constructor]].
Qed.

(** Without grouping, the merged list is made of groups of the sizes the
    index and the curation handed out. *)
Lemma merged_results_sizes (P : nat -> Prop) (a : search_args) :
  group_limit a = 0 ->
  Forall (fun g => P (length g)) (raw_result_kvs a ++ override_result_kvs a) ->
  Forall (fun g => P (length g))
         (merged_results CURATED_RECORD_IDENTIFIER partial_sort a).
Proof.
  intros Hlimit Hall. apply Forall_app in Hall. destruct Hall as [Hraw Hov].
  unfold merged_results, merge_results. rewrite Hlimit.
  pose proof (merge_raw_sizes P _ (override_result_kvs a) [] ∅
                (bucketed_sizes P (sort_fields_std a) _ Hraw) Hov ltac:(constructor)) as H.
  destruct (merge_raw _ _ _ _ _ _) as [overrides' result'].
  destruct H as [Hov' Hres'].
  apply Forall_app. split; [exact Hres'|].
  apply List.Forall_forall. intros g Hin. apply List.in_map_iff in Hin.
  destruct Hin as (g0 & <- & Hin0). rewrite map_first_length.
  revert g0 Hin0. now apply List.Forall_forall.
Qed.

(** *** Rendering the results of a page *)

Lemma construct_hits_render_groups (limit : Z) (fields : list string)
    (processed : gmap Z Z) (l : list kv_group) (indices : list Z) :
  forall hits,
    construct_hits get_document_from_store make_wrapper_doc limit fields processed l
      indices hits
    = render_groups get_document_from_store make_wrapper_doc limit fields processed
        (List.map (fun i => nth (Z.to_nat i) l []) indices) hits.
Proof.
  induction indices as [|i indices IH]; intros hits; simpl; [reflexivity|].
  destruct (limit =? 0).
  - destruct (render_group _ _ _ _ _ _ _) as [[hits' gk]|]; [apply IH | reflexivity].
  - destruct (render_group _ _ _ _ _ _ _) as [[hits' gk]|]; [apply IH | reflexivity].
Qed.

Lemma render_group_length (limit : Z) (fields : list string) (kvs : kv_group) :
  forall hits group_key hits' group_key',
    render_group get_document_from_store make_wrapper_doc limit fields kvs hits group_key
    = Ok (hits', group_key') ->
    (length hits' <= length hits + length kvs)%nat.
Proof.
  induction kvs as [|kv kvs IH]; intros hits gk hits' gk' H; simpl in H.
  - injection H as <- <-. lia.
  - destruct (get_document_from_store _) as [document|].
    + destruct (make_wrapper_doc kv document) as [w|]; [|discriminate].
      apply IH in H. rewrite length_app in H. simpl in *. lia.
    + apply IH in H. simpl. lia.
Qed.

Lemma render_groups_length (limit : Z) (fields : list string) (processed : gmap Z Z)
    (groups : list kv_group) :
  forall hits hits',
    (limit = 0 -> Forall (fun g => length g = 1%nat) groups) ->
    render_groups get_document_from_store make_wrapper_doc limit fields processed
      groups hits = Ok hits' ->
    (length hits' <= length hits + length groups)%nat.
Proof.
  induction groups as [|g groups IH]; intros hits hits' Hone H; simpl in H.
  - injection H as <-. lia.
  - destruct (Z.eqb_spec limit 0) as [E|E].
    + specialize (Hone E). apply List.Forall_cons_iff in Hone. destruct Hone as [Hg Hrest].
      destruct (render_group _ _ _ _ _ _ _) as [[hits1 gk]|] eqn:Eg; [|discriminate].
      apply render_group_length in Eg.
      apply IH in H; [|intros _; exact Hrest]. simpl. lia.
    + destruct (render_group _ _ _ _ _ _ _) as [[hits1 gk]|] eqn:Eg; [|discriminate].
      apply IH in H; [|intros; contradiction].
      rewrite length_app in H. simpl in *. lia.
Qed.

Lemma render_groups_entries (limit : Z) (fields : list string) (processed : gmap Z Z)
    (groups : list kv_group) :
  forall hits hits',
    (limit = 0 -> Forall (fun g => length g = 1%nat) groups) ->
    (forall g kv, In g groups -> In kv g ->
                  get_document_from_store (key kv mod 2 ^ 32) <> None) ->
    render_groups get_document_from_store make_wrapper_doc limit fields processed
      groups hits = Ok hits' ->
    exists entries,
      hits' = hits ++ entries /\
      Forall2 (renders_to get_document_from_store make_wrapper_doc limit fields processed)
              groups entries.
Proof.
  induction groups as [|g groups IH]; intros hits hits' Hone Hstored H; simpl in H.
  - injection H as <-. exists []. split; [now rewrite app_nil_r | constructor].
  - destruct (Z.eq_dec limit 0) as [E|E].
    + assert (Eb : (limit =? 0) = true) by (now apply Z.eqb_eq).
      rewrite Eb in H.
      specialize (Hone E). apply List.Forall_cons_iff in Hone. destruct Hone as [Hg Hrest].
      destruct g as [|kv [|? ?]]; try discriminate.
      simpl in H.
      pose proof (Hstored [kv] kv (or_introl eq_refl) (or_introl eq_refl)) as Hdoc.
      destruct (get_document_from_store (key kv mod 2 ^ 32)) as [document|] eqn:Ed;
        [|congruence].
      destruct (make_wrapper_doc kv document) as [w|] eqn:Ew; [|discriminate].
      apply IH in H; [|intros _; exact Hrest|].
      * destruct H as (entries & -> & Hall). exists (w :: entries).
        split; [now rewrite <- app_assoc|].
        constructor; [|exact Hall].
        unfold renders_to. rewrite Eb. exists kv, document. auto.
      * intros g0 kv0 Hin. apply Hstored. now right.
    + assert (Eb : (limit =? 0) = false) by (now apply Z.eqb_neq).
      rewrite Eb in H.
      destruct (render_group _ _ _ _ _ _ _) as [[hits_array gk]|] eqn:Eg; [|discriminate].
      apply IH in H; [|intros; contradiction|].
      * destruct H as (entries & -> & Hall).
        exists (group_hits_json processed g hits_array gk :: entries).
        split; [now rewrite <- app_assoc|].
        constructor; [|exact Hall].
        unfold renders_to. rewrite Eb. exists hits_array, gk. auto.
      * intros g0 kv0 Hin. apply Hstored. now right.
Qed.

(** C1.  The paging bounds of a request are
    [offset] (the [offset] parameter when only it is given, otherwise
    [per_page * (page - 1)] with the page defaulting to 1) and
    [fetch_size = min(offset + per_page, limit_hits)]; the [hits] (or
    [grouped_hits]) array of the response renders, in order, exactly the
    results of the merged list from index [offset] up to
    [min(fetch_size, number of merged results)] exclusive, one entry per
    result when the documents of the page are in the store; and it never
    holds more than [limit_hits] entries.  The parameters are in the ranges
    the request parser and the configuration give them, and without
    grouping every result handed over by the index is a single KV. *)
Theorem search_page_is_window (per_page_max per_page page page_offset limit_hits : Z)
    (search_cutoff exclude_out_of : bool) (num_documents : Z) (a : search_args)
    (result : json) :
  0 <= per_page_max < 2 ^ 31 ->
  0 <= per_page <= per_page_max ->
  is_uint32 page -> is_uint32 page_offset -> is_uint32 limit_hits ->
  (group_limit a = 0 ->
   Forall (fun g => length g = 1%nat) (raw_result_kvs a ++ override_result_kvs a)) ->
  let off := requested_offset per_page page page_offset in
  let fetch := Z.min (off + per_page) limit_hits in
  init_page_bounds per_page_max per_page page page_offset limit_hits
  = Ok {| offset := off; fetch_size := fetch |} /\
  (args_offset a = off -> args_fetch_size a = fetch ->
   search CURATED_RECORD_IDENTIFIER get_document_from_store make_wrapper_doc partial_sort
     search_cutoff exclude_out_of num_documents a = Ok result ->
   let merged := merged_results CURATED_RECORD_IDENTIFIER partial_sort a in
   let page_results :=
     slice (Z.to_nat off) (Z.to_nat (Z.min fetch (Z.of_nat (length merged)))) merged in
   exists hits,
     json_get (hits_key a) result = Some (JArr hits) /\
     render_groups get_document_from_store make_wrapper_doc (group_limit a)
       (group_by_fields a) (groups_processed a) page_results [] = Ok hits /\
     Z.of_nat (length hits) <= limit_hits /\
     ((forall g kv, In g page_results -> In kv g ->
                    get_document_from_store (key kv mod 2 ^ 32) <> None) ->
      Forall2 (renders_to get_document_from_store make_wrapper_doc (group_limit a)
                 (group_by_fields a) (groups_processed a))
              page_results hits)).
Proof.
  intros Hmax Hpp Hpage Hoffset Hlimit Hone off fetch.
  pose proof (requested_offset_range per_page page page_offset ltac:(lia) Hpage Hoffset)
    as Hoff.
  fold off in Hoff.
  split; [now apply init_page_bounds_ok|].
  intros Eoff Efetch Hsearch merged page_results.
  unfold search in Hsearch.
  destruct (search_cutoff && (found_count a =? 0)); [discriminate|].
  fold merged in Hsearch. rewrite Eoff, Efetch in Hsearch.
  unfold is_uint32 in Hlimit.
  assert (Hfetch : 0 <= fetch < 2 ^ 32) by (unfold fetch; lia).
  set (stop := Z.min fetch (Z.of_nat (length merged))) in *.
  assert (Hstop : 0 <= stop <= fetch) by (unfold stop; lia).
  assert (Eend : to_long (to_uint64 (stop - 1)) = stop - 1).
  { destruct (Z.eq_dec stop 0) as [->|Hnz]; [reflexivity|].
    rewrite to_uint64_small by (unfold is_uint64, UINT64_MODULUS; lia).
    apply to_long_small. lia. }
  rewrite Eend, (to_long_small off) in Hsearch by lia.
  rewrite construct_hits_render_groups in Hsearch.
  rewrite index_range_slice in Hsearch by (unfold stop; lia).
  fold page_results in Hsearch.
  destruct (render_groups _ _ _ _ _ page_results []) as [hits|] eqn:Ehits; [|discriminate].
  injection Hsearch as <-.
  assert (Hones : group_limit a = 0 -> Forall (fun g => length g = 1%nat) page_results).
  { intros E.
    pose proof (merged_results_sizes (fun n => n = 1%nat) a E (Hone E)) as Hall.
    fold merged in Hall.
    unfold page_results. now apply Forall_slice. }
  assert (Hlen : (length page_results <= Z.to_nat stop - Z.to_nat off)%nat).
  { unfold page_results, slice. rewrite length_firstn. lia. }
  exists hits. split; [apply json_get_set_eq|]. split; [reflexivity|]. split.
  - apply render_groups_length in Ehits; [|exact Hones]. simpl in Ehits.
    unfold fetch in *. lia.
  - intros Hstored.
    destruct (render_groups_entries _ _ _ page_results [] hits Hones Hstored Ehits)
      as (entries & -> & Hall).
    exact Hall.
Qed.

(** *** Bucketed rescoring *)

Lemma set_score_restore (i v : Z) (kv : KV) :
  set_score i (score_at i kv) (set_score i v kv) = kv.
Proof.
  destruct kv as [k d m sc]. unfold set_score, score_at. simpl. f_equal.
  rewrite list_insert_insert_eq.
  rewrite nth_lookup.
  destruct (sc !! Z.to_nat i) as [x|] eqn:E; simpl.
  - now apply list_insert_id.
  - apply list_insert_ge. now apply lookup_ge_None.
Qed.

(** The slot a rescoring block rewrites does not depend on the score it
    holds. *)
Definition slot_is_stable (index_of : KV -> Z) : Prop :=
  forall kv i v, index_of (set_score i v kv) = index_of kv.

Lemma assign_blocks_saves (index_of : KV -> Z) (block_len : Z) (todo : nat) :
  forall kvs i j scores0 out scores',
    (length kvs <= todo)%nat ->
    NoDup (List.map (fun g => key (first_kv g)) kvs) ->
    assign_blocks index_of block_len i j todo kvs scores0 = (out, scores') ->
    Forall2 (fun g g' =>
               exists v, g' = map_first (set_score (index_of (first_kv g)) v) g)
            kvs out /\
    (forall g, In g kvs ->
       scores' !! key (first_kv g) = Some (score_at (index_of (first_kv g)) (first_kv g))) /\
    (forall k, ~ In k (List.map (fun g => key (first_kv g)) kvs) ->
       scores' !! k = scores0 !! k).
Proof.
  induction todo as [|todo IH]; intros kvs i j scores0 out scores' Hlen Hnd H.
  - destruct kvs; [|simpl in Hlen; lia]. simpl in H. injection H as <- <-.
    split; [constructor|]. split; [intros g []|reflexivity].
  - destruct kvs as [|g kvs].
    + simpl in H. injection H as <- <-.
      split; [constructor|]. split; [intros g []|reflexivity].
    + simpl in H. simpl in Hlen.
      simpl in Hnd. apply NoDup_cons in Hnd. destruct Hnd as [Hfresh Hnd2].
      rewrite list_elem_of_In in Hfresh.
      assert (Hl : (length kvs <= todo)%nat) by lia.
      destruct (j <? block_len);
        destruct (assign_blocks index_of block_len _ _ todo kvs _)
          as [rest scores1] eqn:E;
        destruct (IH _ _ _ _ _ _ Hl Hnd2 E) as (Hall & Hsaved & Hkept);
        injection H as <- <-;
        (split; [constructor; [eexists; reflexivity | exact Hall]|]);
        (split;
         [ intros g0 [<-|Hin];
           [ rewrite Hkept by exact Hfresh; apply lookup_insert_eq
           | now apply Hsaved ]
         | intros k Hk; simpl in Hk;
           rewrite Hkept by tauto;
           apply lookup_insert_ne; tauto ]).
Qed.

Lemma restore_scores_all (index_of : KV -> Z) (scores : gmap Z Z) (todo : nat) :
  forall kvs,
    (length kvs <= todo)%nat ->
    restore_scores index_of todo kvs scores
    = List.map (fun g => map_first (set_score (index_of (first_kv g))
                                       (default 0 (scores !! key (first_kv g)))) g) kvs.
Proof.
  induction todo as [|todo IH]; intros kvs Hlen.
  - destruct kvs; [reflexivity | simpl in Hlen; lia].
  - destruct kvs as [|g kvs]; [reflexivity|]. simpl in *.
    f_equal. apply IH. lia.
Qed.

(** With at most 250 results whose keys differ, a rescoring block only
    rearranges the results: every result comes out with the scores it went
    in with. *)
Lemma rescore_rearranges (index_of : KV -> Z) (num_buckets bucket_size : Z)
    (raw : list kv_group) :
  slot_is_stable index_of ->
  Z.of_nat (length raw) <= DEFAULT_TOPSTER_SIZE ->
  NoDup (List.map (fun g => key (first_kv g)) raw) ->
  Permutation (rescore partial_sort index_of num_buckets bucket_size raw) raw.
Proof.
  intros Hstable Hsize Hnd. unfold rescore.
  rewrite Z.min_r by exact Hsize. rewrite Nat2Z.id.
  destruct (bucketing_applies _ _ _); [|reflexivity].
  destruct (assign_blocks _ _ _ _ _ _ _) as [assigned scores] eqn:E.
  destruct (assign_blocks_saves _ _ _ _ _ _ _ _ _ (Nat.le_refl _) Hnd E)
    as (Hall & Hsaved & _).
  rewrite restore_scores_all
    by (rewrite (Permutation_length (partial_sort_permutes _ _));
        apply Forall2_length in Hall; lia).
  set (restore := fun g => map_first _ g).
  transitivity (List.map restore assigned).
  { apply Permutation_map, partial_sort_permutes. }
  assert (Hid : List.map restore assigned = raw).
  { clear E. induction Hall as [|g g' raw' assigned' (v & ->) Hrest IH].
    - reflexivity.
    - simpl. f_equal.
      + subst restore. cbv beta.
        destruct g as [|kv g]; [reflexivity|].
        pose proof (Hsaved (kv :: g) (or_introl eq_refl)) as Hs.
        unfold first_kv, map_first, hd in *.
        rewrite Hstable.
        change (key (set_score (index_of kv) v kv)) with (key kv).
        rewrite Hs. simpl default.
        f_equal. apply set_score_restore.
      + apply IH.
        * simpl in Hsize. lia.
        * simpl in Hnd. apply NoDup_cons in Hnd. tauto.
        * intros g0 Hin. apply Hsaved. now right. }
  now rewrite Hid.
Qed.

End Pages.

Lemma insert_group_permutes (g : kv_group) (sorted : list kv_group) :
  Permutation (insert_group g sorted) (g :: sorted).
Proof.
  induction sorted as [|h sorted IH]; simpl; [reflexivity|].
  destruct (is_greater_kv_group g h); [reflexivity|].
  rewrite IH. apply perm_swap.
Qed.

Lemma std_partial_sort_permutes (middle : nat) (l : list kv_group) :
  Permutation (std_partial_sort middle l) l.
Proof.
  unfold std_partial_sort. induction l as [|g l IH]; simpl; [reflexivity|].
  rewrite insert_group_permutes. now constructor.
Qed.

(** The second page of two hits out of five results, for [per_page = 2]
    and [page = 2]: the two text match buckets order the merged list by
    keys 2, 1, 0, 4, 3, and the page holds its entries 2 and 3. *)
Lemma search_page_is_window_witness :
  exists result hits,
    search 100 every_document plain_wrapper std_partial_sort false false 5 second_page
    = Ok result /\
    json_get "hits" result = Some (JArr hits) /\
    hits = [JObj [("document", JObj [("id", JStr "0")])];
            JObj [("document", JObj [("id", JStr "4")])]] /\
    Z.of_nat (length hits) <= 1000000.
Proof.
  destruct (search 100 every_document plain_wrapper std_partial_sort false false 5
              second_page) as [result|] eqn:E; [|vm_compute in E; discriminate].
  assert (H32 : forall z, 0 <= z < 2 ^ 32 -> is_uint32 z) by (intros z Hz; exact Hz).
  destruct (proj2 (search_page_is_window 100 every_document plain_wrapper std_partial_sort
                     std_partial_sort_permutes 250 2 2 0 1000000 false false 5 second_page
                     result ltac:(lia) ltac:(lia) (H32 2 ltac:(lia)) (H32 0 ltac:(lia))
                     (H32 1000000 ltac:(lia))
                     ltac:(intros _; vm_compute; repeat constructor))
                  eq_refl eq_refl E) as (hits & Hget & Hrender & Hlen & _).
  exists result, hits. split; [reflexivity|]. split; [exact Hget|]. split; [|exact Hlen].
  vm_compute in Hrender. injection Hrender as Hhits. rewrite <- Hhits. reflexivity.
Defined.

(** The rescoring at the deep page: the slot rewritten for text match
    buckets is that of the KV, whatever score it holds. *)
Lemma match_score_index_is_stable : slot_is_stable match_score_index.
Proof. intros kv i v. reflexivity. Qed.

(** C2.  On the deep page of 251 results sorted by
    [_text_match(buckets: 2):desc], bucketed rescoring runs (2 is at most
    min(250, 251)) in blocks of 125, and the scores are not all restored:
    the result of key 250, which lies beyond the 250 bucketed results, is
    moved to the front by the partial sort and leaves with score 0 instead
    of its score 750, and the result of key 125 is moved out of the first
    250 and keeps its bucket value -125 instead of its score 875.  With at
    most 250 results every score is restored ([rescore_rearranges]). *)
Theorem deep_page_scores_not_restored :
  let rescored := bucket_text_match std_partial_sort two_buckets deep_page_results in
  bucketing_applies 2 0 (Z.min DEFAULT_TOPSTER_SIZE (Z.of_nat (length deep_page_results)))
  = true /\
  block_length 2 0 (Z.min DEFAULT_TOPSTER_SIZE (Z.of_nat (length deep_page_results))) = 125 /\
  score_of_key 0 250 deep_page_results = Some 750 /\
  score_of_key 0 250 rescored = Some 0 /\
  score_of_key 0 125 deep_page_results = Some 875 /\
  score_of_key 0 125 rescored = Some (-125) /\
  List.map (fun g => key (first_kv g)) (firstn 3 rescored) = [250; 124; 123].
Proof.
  vm_compute. repeat split; reflexivity.
Qed.

End SearchProofs.

(** ** The effective sort order *)

Module SortFieldsProofs.

Import Sort SortFields.

Section Validate.

Variable search_schema : gmap string Schema.field.
Variable default_sorting_field : string.
Variable standardize_reference_clause : sort_by -> Option (list sort_by).
Variable parse_filter_query : string -> Option bool.
Variable standardize_field_clause : sort_by -> Option sort_by.

Local Abbreviation validate :=
  (validate_and_standardize_sort_fields search_schema default_sorting_field
     standardize_reference_clause parse_filter_query standardize_field_clause).

Lemma reference_name_is_not_eval (n : string) :
  is_reference_name n = true -> String.eqb n sort_field_const.eval = false.
Proof.
  destruct n as [|c n]; [discriminate|]. simpl. intros H.
  apply Ascii.eqb_eq in H. subst c. reflexivity.
Qed.

(** The counter of the clause loop counts the [_eval] clauses of the request. *)
Lemma standardize_clauses_counts (sort_fields : list sort_by) :
  forall std n std' n',
    standardize_clauses standardize_reference_clause parse_filter_query
      standardize_field_clause sort_fields std n = Ok (std', n') ->
    n' = n + count_eval sort_fields.
Proof.
  unfold count_eval.
  induction sort_fields as [|s rest IH]; intros std n std' n' H; simpl in H.
  - injection H as <- <-. simpl. lia.
  - simpl List.filter. unfold has_name at 1.
    destruct (is_reference_name (name s)) eqn:Eref.
    + rewrite (reference_name_is_not_eval _ Eref).
      destruct (standardize_reference_clause s); [|discriminate].
      now apply IH in H.
    + destruct (String.eqb (name s) sort_field_const.eval) eqn:Eeval.
      * destruct (check_eval_expressions _ _); [|discriminate].
        apply IH in H. simpl length. lia.
      * destruct (String.eqb (name s) sort_field_const.random_order);
          [now apply IH in H|].
        destruct (String.eqb (name s) sort_field_const.union_search_index);
          [now apply IH in H|].
        destruct (standardize_field_clause s); [|discriminate].
        now apply IH in H.
Qed.

(** C3.  For a search that is not part of a union and supplies no sort
    clauses the effective order is: [_text_match] descending when the query
    is not a wildcard, then [_vector_distance] ascending when it is a
    vector query, then the default sorting field of the collection
    descending when one is declared (it is then a field of the schema that
    is indexed), and otherwise [_seq_id] descending.  For every request,
    an accepted order has at most 3 clauses and the request at most one
    [_eval] clause; a request with more than one [_eval] clause is
    rejected. *)
Theorem effective_sort_order (is_wildcard_query is_vector_query : bool)
    (union_search_index : Z) (declared : option Schema.field) :
  match declared with
  | Some def =>
      default_sorting_field <> ""
      /\ search_schema !! default_sorting_field = Some def
      /\ Schema.index def = true
  | None => default_sorting_field = ""
  end ->
  validate [] is_wildcard_query is_vector_query false false union_search_index
  = Ok (described_default_order is_wildcard_query is_vector_query
          (match declared with
           | Some def =>
               with_type (sort_type_of_field def unassigned)
                 (mk_sort_by default_sorting_field sort_field_const.desc)
           | None =>
               with_type insertion_order
                 (mk_sort_by sort_field_const.seq_id sort_field_const.desc)
           end)) /\
  (forall sort_fields wildcard vector is_union_search index effective,
     validate sort_fields wildcard vector false is_union_search index = Ok effective ->
     (length effective <= 3)%nat /\ count_eval sort_fields <= 1) /\
  (forall sort_fields wildcard vector is_reference_sort is_union_search index,
     1 < count_eval sort_fields ->
     ok (validate sort_fields wildcard vector is_reference_sort is_union_search index)
     = false).
Proof.
  intros Hdsf. split; [|split].
  - unfold validate_and_standardize_sort_fields, described_default_order. simpl.
    unfold default_clauses, complete_clauses.
    destruct declared as [def|].
    + destruct Hdsf as (Hne & Hdef & Hindex).
      assert (Edsf : String.eqb default_sorting_field "" = false)
        by (now apply String.eqb_neq).
      rewrite Edsf, Hdef, Hindex. simpl.
      destruct is_wildcard_query, is_vector_query; simpl;
        unfold has_name; simpl;
        repeat match goal with
               | |- context [String.eqb ?x ?y] => destruct (String.eqb x y)
               end; reflexivity.
    + rewrite Hdsf. simpl.
      destruct is_wildcard_query, is_vector_query; reflexivity.
  - intros sort_fields wildcard vector is_union_search index effective H.
    unfold validate_and_standardize_sort_fields in H.
    destruct (standardize_clauses _ _ _ _ _ _) as [[std n]|] eqn:E; [|discriminate].
    apply standardize_clauses_counts in E. rewrite Z.add_0_l in E. subst n.
    destruct (match std with
              | [] => default_clauses _ _ _ _ _ _
              | _ :: _ => Ok std
              end) as [std2|]; [|discriminate].
    destruct (Nat.ltb_spec 3 (length (complete_clauses wildcard vector is_union_search
                                        index std2))); [discriminate|].
    destruct (Z.ltb_spec 1 (count_eval sort_fields)); [discriminate|].
    injection H as <-. split; lia.
  - intros sort_fields wildcard vector is_reference_sort is_union_search index Hmany.
    unfold validate_and_standardize_sort_fields.
    destruct (standardize_clauses _ _ _ _ _ _) as [[std n]|] eqn:E; [|reflexivity].
    apply standardize_clauses_counts in E. rewrite Z.add_0_l in E. subst n.
    destruct (Z.ltb_spec 1 (count_eval sort_fields)) as [_|?]; [|lia].
    destruct is_reference_sort; [reflexivity|].
    destruct (match std with
              | [] => default_clauses _ _ _ _ _ _
              | _ :: _ => Ok std
              end) as [std2|]; [|reflexivity].
    now destruct (_ <? _)%nat.
Qed.

End Validate.

(** A collection whose default sorting field is the indexed field [points]
    of type int32, asked a text query without sort clauses: the order is
    [_text_match] descending, then [points] descending. *)
Lemma effective_sort_order_witness :
  validate_and_standardize_sort_fields points_schema "points"
    (fun _ => Error 400 "Referenced collection not found.") (fun _ => Ok true)
    (fun s => Ok s) [] false false false false 0
  = Ok [with_type text_match (mk_sort_by sort_field_const.text_match sort_field_const.desc);
        with_type int32_field (mk_sort_by "points" sort_field_const.desc)].
Proof.
  refine (proj1 (effective_sort_order points_schema "points" _ _ _ false false 0
                   (Some points_field) _)).
  split; [discriminate|]. split; [vm_compute; reflexivity | reflexivity].
Defined.

End SortFieldsProofs.

(** ** Union of searches *)

Module UnionProofs.

Import Sort Union.

Lemma to_uint64_add_l (a b : Z) : to_uint64 (to_uint64 a + b) = to_uint64 (a + b).
Proof. unfold to_uint64, UINT64_MODULUS. now rewrite Z.add_mod_idemp_l. Qed.

Lemma to_uint64_idem (a : Z) : to_uint64 (to_uint64 a) = to_uint64 a.
Proof. unfold to_uint64, UINT64_MODULUS. now rewrite Z.mod_mod. Qed.

Lemma to_uint64_range (a : Z) : is_uint64 (to_uint64 a).
Proof. unfold is_uint64, to_uint64, UINT64_MODULUS. apply Z.mod_pos_bound. lia. Qed.

Lemma sort_by_type_eqb_eq (a b : sort_by_type) : sort_by_type_eqb a b = true <-> a = b.
Proof. destruct a, b; simpl; split; intros H; first [reflexivity | discriminate]. Qed.

(** Two lists of clauses that differ in type or in order at some position
    have a first such position. *)
Lemma first_mismatch_exists :
  forall (this first : list sort_by) (i : nat) (t f : sort_by),
    this !! i = Some t -> first !! i = Some f ->
    type t <> type f \/ order t <> order f ->
    exists t' f', first_mismatch this first = Some (t', f').
Proof.
  induction this as [|t0 this IH]; intros first i t f Ht Hf Hdiff; [discriminate|].
  destruct first as [|f0 first]; [discriminate|].
  simpl. destruct (sort_by_type_eqb (type t0) (type f0)
                   && String.eqb (order t0) (order f0)) eqn:E; [|eauto].
  destruct i as [|i].
  - simpl in Ht, Hf. injection Ht as ->. injection Hf as ->.
    apply andb_true_iff in E as [E1 E2].
    apply sort_by_type_eqb_eq in E1. apply String.eqb_eq in E2. tauto.
  - apply (IH first i t f); assumption.
Qed.

Lemma append_assoc (a b c : string) : (a +:+ b) +:+ c = a +:+ (b +:+ c).
Proof.
  induction a as [|x a IH]; [reflexivity|].
  change (String x ((a +:+ b) +:+ c) = String x (a +:+ (b +:+ c))). now rewrite IH.
Qed.

Lemma append_nil_r (a : string) : a +:+ "" = a.
Proof.
  induction a as [|x a IH]; [reflexivity|].
  change (String x (a +:+ "") = String x a). now rewrite IH.
Qed.

Lemma list_ascii_app (a b : string) :
  list_ascii_of_string (a +:+ b) = list_ascii_of_string a ++ list_ascii_of_string b.
Proof.
  induction a as [|x a IH]; [reflexivity|].
  change (x :: list_ascii_of_string (a +:+ b)
          = x :: (list_ascii_of_string a ++ list_ascii_of_string b)).
  now rewrite IH.
Qed.

Lemma string_of_list_app (a b : list ascii) :
  string_of_list_ascii (a ++ b) = string_of_list_ascii a +:+ string_of_list_ascii b.
Proof.
  induction a as [|x a IH]; [reflexivity|].
  change (String x (string_of_list_ascii (a ++ b))
          = String x (string_of_list_ascii a +:+ string_of_list_ascii b)).
  now rewrite IH.
Qed.

Lemma string_length_list (s : string) : String.length s = length (list_ascii_of_string s).
Proof. induction s as [|x s IH]; simpl; [reflexivity | now rewrite IH]. Qed.

Lemma string_back_app (a : string) (c : ascii) (b : string) :
  string_back (a +:+ String c b) = string_back (String c b).
Proof.
  unfold string_back. rewrite list_ascii_app. cbn [list_ascii_of_string].
  induction (list_ascii_of_string a) as [|x l IH]; [reflexivity|].
  cbn [app]. destruct (l ++ c :: list_ascii_of_string b) eqn:E.
  - destruct l; discriminate E.
  - exact IH.
Qed.

(** Writing over the comma of a trailing [", "]. *)
Lemma string_set_comma (a : string) (c : ascii) :
  string_set (String.length (a +:+ ", ") - 2) c (a +:+ ", ") = a +:+ String c " ".
Proof.
  unfold string_set. rewrite string_length_list, !list_ascii_app.
  rewrite length_app. cbn [list_ascii_of_string length].
  replace (length (list_ascii_of_string a) + 2 - 2)%nat
    with (length (list_ascii_of_string a) + 0)%nat by lia.
  rewrite insert_app_r. cbn. rewrite string_of_list_app.
  now rewrite string_of_list_ascii_of_string.
Qed.

(** Writing over the blank that follows. *)
Lemma string_set_blank (a : string) (c d : ascii) (n : nat) :
  n = String.length (a +:+ String c " ") ->
  string_set (n - 1) d (a +:+ String c " ") = a +:+ String c (String d "").
Proof.
  intros ->. unfold string_set. rewrite string_length_list, !list_ascii_app.
  rewrite length_app. cbn [list_ascii_of_string length].
  replace (length (list_ascii_of_string a) + 2 - 1)%nat
    with (length (list_ascii_of_string a) + 1)%nat by lia.
  rewrite insert_app_r. cbn. rewrite string_of_list_app.
  now rewrite string_of_list_ascii_of_string.
Qed.

Lemma entry_comma_eq (item : sort_by) :
  "`" +:+ name item +:+ ": " +:+ enum_name (type item) +:+ "`, "
  = described_clause item +:+ ", ".
Proof. unfold described_clause. rewrite !append_assoc. reflexivity. Qed.

Lemma described_clauses_cons (item item' : sort_by) (l : list sort_by) :
  described_clauses (item :: item' :: l)
  = described_clause item +:+ ", " +:+ described_clauses (item' :: l).
Proof. reflexivity. Qed.

(** The clauses of a list that is not empty, as the loop appends them. *)
Lemma list_clauses_described (l : list sort_by) :
  forall item message,
    list_clauses message (item :: l)
    = message +:+ described_clauses (item :: l) +:+ ", ".
Proof.
  induction l as [|item' l IH]; intros item message.
  - change (list_clauses message [item])
      with (message
            +:+ ("`" +:+ name item +:+ ": " +:+ enum_name (type item) +:+ "`, ")).
    now rewrite entry_comma_eq.
  - change (list_clauses message (item :: item' :: l))
      with (list_clauses
              (message
               +:+ ("`" +:+ name item +:+ ": " +:+ enum_name (type item) +:+ "`, "))
              (item' :: l)).
    rewrite IH, described_clauses_cons, entry_comma_eq.
    rewrite !append_assoc. reflexivity.
Qed.

(** The braces around the clauses of a list, closed by [close]. *)
Lemma size_mismatch_message_described (search_index : Z) (first this : list sort_by) :
  size_mismatch_message search_index first this
  = described_size_message search_index first this.
Proof.
  unfold size_mismatch_message, described_size_message.
  set (head := "Expected size of `sort_by` parameter of all searches to be equal. "
               +:+ "The first union search sorts on {").
  assert (Hfirst :
            (if negb (Ascii.eqb (string_back (list_clauses head first)) "{"%char) then
               string_set (String.length (list_clauses head first) - 2) "}"%char
                 (list_clauses head first)
             else list_clauses head first +:+ "} ")
            = head +:+ described_clauses first +:+ "} ").
  { destruct first as [|item l].
    - reflexivity.
    - rewrite list_clauses_described.
      replace (head +:+ described_clauses (item :: l) +:+ ", ")
        with ((head +:+ described_clauses (item :: l)) +:+ ", ")
        by now rewrite append_assoc.
      rewrite string_back_app. cbn [string_back list_ascii_of_string List.last].
      cbn [Ascii.eqb Bool.eqb andb negb].
      rewrite string_set_comma. now rewrite append_assoc. }
  cbv zeta. rewrite Hfirst.
  set (middle := (head +:+ described_clauses first +:+ "} ")
                 +:+ "but the search at index `" +:+ to_string search_index
                 +:+ "` sorts on {").
  assert (Hend : string_back middle = "{"%char).
  { unfold middle.
    replace ((head +:+ described_clauses first +:+ "} ")
             +:+ "but the search at index `" +:+ to_string search_index +:+ "` sorts on {")
      with (((head +:+ described_clauses first +:+ "} ")
             +:+ "but the search at index `" +:+ to_string search_index +:+ "` sorts on")
            +:+ " {")
      by (rewrite !append_assoc; reflexivity).
    rewrite string_back_app. reflexivity. }
  destruct this as [|item l].
  - change (list_clauses middle []) with middle. rewrite Hend.
    cbn [Ascii.eqb Bool.eqb andb negb]. unfold middle.
    rewrite !append_assoc. reflexivity.
  - rewrite list_clauses_described.
    replace (middle +:+ described_clauses (item :: l) +:+ ", ")
      with ((middle +:+ described_clauses (item :: l)) +:+ ", ")
      by now rewrite append_assoc.
    rewrite string_back_app. cbn [string_back list_ascii_of_string List.last].
    cbn [Ascii.eqb Bool.eqb andb negb].
    rewrite string_set_comma.
    rewrite (string_set_blank _ "}"%char "."%char).
    + unfold middle. rewrite !append_assoc. reflexivity.
    + rewrite !string_length_list, !list_ascii_app, !length_app. reflexivity.
Qed.

Lemma prefix_refl_app (s b : string) : String.prefix s (s +:+ b) = true.
Proof.
  induction s as [|c s IH]; [now destruct b|].
  change (String.prefix (String c s) (String c (s +:+ b)) = true).
  cbn [String.prefix]. destruct (Ascii.ascii_dec c c); [exact IH | congruence].
Qed.

Lemma occurs_in_here (s b : string) : occurs_in s (s +:+ b) = true.
Proof.
  destruct (s +:+ b) eqn:E; cbn [occurs_in]; rewrite <- E, prefix_refl_app; reflexivity.
Qed.

Lemma occurs_in_cons (s t : string) (c : ascii) :
  occurs_in s t = true -> occurs_in s (String c t) = true.
Proof. intros H. cbn [occurs_in]. rewrite H. apply orb_true_r. Qed.

Lemma occurs_in_later (s a t : string) :
  occurs_in s t = true -> occurs_in s (a +:+ t) = true.
Proof.
  intros H. induction a as [|c a IH]; [exact H|].
  change (occurs_in s (String c (a +:+ t)) = true). now apply occurs_in_cons.
Qed.

(** The message for clauses of different types, written out. *)
Lemma type_mismatch_message_text (search_index : Z) (t f : sort_by) (hint : string) :
  type_mismatch_message search_index t f hint
  = "Expected type of `" +:+ name t +:+ "` sort_by (" +:+ enum_name (type t)
    +:+ ") at search index `" +:+ to_string search_index
    +:+ "` to be the same as the type of `" +:+ name f +:+ "` sort_by ("
    +:+ enum_name (type f) +:+ ") at search index `0`." +:+ hint.
Proof. reflexivity. Qed.

(** The message for clauses of different orders, written out. *)
Lemma order_mismatch_message_text (search_index : Z) (t f : sort_by) :
  order_mismatch_message search_index t f
  = "Expected order of `" +:+ name t +:+ "` sort_by (" +:+ order t
    +:+ ") at search index `" +:+ to_string search_index
    +:+ "` to be the same as the order of `" +:+ name f +:+ "` sort_by ("
    +:+ order f +:+ ") at search index `0`.".
Proof. reflexivity. Qed.

Ltac find_part :=
  repeat first
    [ apply occurs_in_here
    | apply occurs_in_cons
    | apply occurs_in_later ].

(** The hint names the collection of a search that fell back and suggests
    removing the default sorting field. *)
Lemma hint_described (this_fell_back first_fell_back : bool)
    (this_collection first_collection : string) :
  let hint :=
    default_sorting_field_hint this_fell_back first_fell_back this_collection
      first_collection in
  (this_fell_back = true ->
   exists a b c, hint = a +:+ this_collection +:+ b +:+ "should be removed" +:+ c) /\
  (first_fell_back = true ->
   exists a b c, hint = a +:+ first_collection +:+ b +:+ "should be removed" +:+ c) /\
  (this_fell_back = false -> first_fell_back = false -> hint = "").
Proof.
  unfold default_sorting_field_hint.
  destruct this_fell_back, first_fell_back; cbn [andb];
    (split; [|split]); try (intros; discriminate); intros.
  - exists " Both `",
      ("` and `" +:+ first_collection +:+
       "` collections have declared a default sorting field of different type. Since"
       +:+ " union expects the searches to sort_by on the same type of fields, default"
       +:+ " sorting fields of the collections "), ".".
    rewrite !append_assoc. reflexivity.
  - exists (" Both `" +:+ this_collection +:+ "` and `"),
      ("` collections have declared a default sorting field of different type. Since"
       +:+ " union expects the searches to sort_by on the same type of fields, default"
       +:+ " sorting fields of the collections "), ".".
    rewrite !append_assoc. reflexivity.
  - exists " `",
      ("` collection has declared a default sorting field of "
       +:+ "different type. Since union expects the searches to sort_by on the same type "
       +:+ "of fields, default sorting field of the collection "), ".".
    rewrite !append_assoc. reflexivity.
  - exists " `",
      ("` collection has declared a default sorting" +:+
       " field of different type. Since union expects the searches to sort_by on the" +:+
       " same type of fields, default sorting field of the collection "), ".".
    rewrite !append_assoc. reflexivity.
  - reflexivity.
Qed.

(** The message for clauses of different types is as the spec describes
    it. *)
Lemma type_mismatch_message_described (search_index : Z) (t f : sort_by)
    (this_fell_back first_fell_back : bool) (this_collection first_collection : string) :
  described_mismatch_message
    (type_mismatch_message search_index t f
       (default_sorting_field_hint this_fell_back first_fell_back this_collection
          first_collection))
    search_index t f this_collection first_collection this_fell_back first_fell_back
  = true.
Proof.
  destruct (hint_described this_fell_back first_fell_back this_collection first_collection)
    as (Hthis & Hfirst & _).
  set (hint := default_sorting_field_hint this_fell_back first_fell_back this_collection
                 first_collection) in *.
  rewrite type_mismatch_message_text.
  unfold described_mismatch_message.
  repeat (apply andb_true_iff; split).
  - find_part.
  - find_part.
  - find_part.
  - find_part.
  - replace ("Expected type of `" +:+ name t +:+ "` sort_by (" +:+ enum_name (type t)
             +:+ ") at search index `" +:+ to_string search_index
             +:+ "` to be the same as the type of `" +:+ name f +:+ "` sort_by ("
             +:+ enum_name (type f) +:+ ") at search index `0`." +:+ hint)
      with (("Expected type of `" +:+ name t +:+ "` sort_by (" +:+ enum_name (type t)
             +:+ ") at search index ")
            +:+ ("`" +:+ to_string search_index +:+ "`")
            +:+ (" to be the same as the type of `" +:+ name f +:+ "` sort_by ("
                 +:+ enum_name (type f) +:+ ") at search index `0`." +:+ hint))
      by (rewrite !append_assoc; reflexivity).
    find_part.
  - replace ("Expected type of `" +:+ name t +:+ "` sort_by (" +:+ enum_name (type t)
             +:+ ") at search index `" +:+ to_string search_index
             +:+ "` to be the same as the type of `" +:+ name f +:+ "` sort_by ("
             +:+ enum_name (type f) +:+ ") at search index `0`." +:+ hint)
      with (("Expected type of `" +:+ name t +:+ "` sort_by (" +:+ enum_name (type t)
             +:+ ") at search index `" +:+ to_string search_index
             +:+ "` to be the same as the type of `" +:+ name f +:+ "` sort_by ("
             +:+ enum_name (type f) +:+ ") at search index ")
            +:+ "`0`" +:+ ("." +:+ hint))
      by (rewrite !append_assoc; reflexivity).
    find_part.
  - destruct this_fell_back; [|reflexivity].
    destruct (Hthis eq_refl) as (a & b & c & ->).
    apply andb_true_iff. split; find_part.
  - destruct first_fell_back; [|reflexivity].
    destruct (Hfirst eq_refl) as (a & b & c & ->).
    apply andb_true_iff. split; find_part.
Qed.

Section DoUnion.

Variable get_collection_with_id : Z -> option collection_info.
Variable init_index_search_args_with_lock :
  collection_info -> collection_search_args_t -> Z -> Option search_args.
Variable run_search_with_lock : collection_info -> search_args -> Option search_args.
Variable union_hits :
  list Z -> list collection_search_args_t -> list search_args ->
  union_global_params_t -> Option (list json).

Local Abbreviation step :=
  (union_step get_collection_with_id init_index_search_args_with_lock run_search_with_lock).
Local Abbreviation loop :=
  (union_loop get_collection_with_id init_index_search_args_with_lock run_search_with_lock).
Local Abbreviation counts :=
  (found_counts get_collection_with_id init_index_search_args_with_lock
     run_search_with_lock).
Local Abbreviation documents := (documents_of get_collection_with_id).

(** What a step that succeeds has done. *)
Lemma union_step_ok (union_params : union_global_params_t) (search_index coll_id : Z)
    (coll_args : collection_search_args_t) (st st' : union_state) :
  step union_params search_index coll_id coll_args st = Ok st' ->
  exists coll guard search_params,
    get_collection_with_id coll_id = Some coll /\
    init_index_search_args_with_lock coll coll_args search_index = Ok guard /\
    run_search_with_lock coll guard = Ok search_params /\
    st' = record_search union_params search_index coll_id coll coll_args search_params st.
Proof.
  unfold union_step. intros H.
  destruct (get_collection_with_id coll_id) as [coll|]; [|discriminate].
  destruct (init_index_search_args_with_lock coll coll_args search_index)
    as [guard|] eqn:Hinit; [|discriminate].
  destruct (run_search_with_lock coll guard) as [search_params|] eqn:Hrun;
    [|discriminate].
  exists coll, guard, search_params.
  repeat (split; [first [reflexivity | assumption]|]).
  destruct (0 <? search_index); [|congruence].
  destruct (check_sort_compatibility _ _ _ _ _ _ _) as [[c m]|]; congruence.
Qed.

Lemma record_search_total union_params search_index coll_id coll coll_args
    search_params st :
  total (record_search union_params search_index coll_id coll coll_args search_params st)
  = to_uint64 (total st + all_result_ids_len search_params).
Proof. unfold record_search. now destruct (decide _). Qed.

Lemma record_search_out_of union_params search_index coll_id coll coll_args
    search_params st :
  out_of (record_search union_params search_index coll_id coll coll_args search_params st)
  = if decide (coll_id ∈ unique_collection_ids st) then out_of st
    else to_uint64 (out_of st + coll_num_documents coll).
Proof. unfold record_search. now destruct (decide _). Qed.

Lemma record_search_unique union_params search_index coll_id coll coll_args
    search_params st :
  unique_collection_ids
    (record_search union_params search_index coll_id coll coll_args search_params st)
  = {[coll_id]} ∪ unique_collection_ids st.
Proof.
  unfold record_search. destruct (decide _) as [Hin|Hin]; simpl; [|reflexivity].
  symmetry. now apply subseteq_union_1_L, singleton_subseteq_l.
Qed.

(** The totals after the loop: the sum of the result counts of the
    searches, and the documents of each collection counted once. *)
Lemma union_loop_totals (union_params : union_global_params_t)
    (collection_ids : list Z) :
  forall searches search_index st st',
    length searches = length collection_ids ->
    loop union_params search_index collection_ids searches st = Ok st' ->
    to_uint64 (total st')
    = to_uint64 (total st + sum_list (counts search_index collection_ids searches)) /\
    to_uint64 (out_of st')
    = to_uint64 (out_of st
                 + sum_list (List.map documents
                               (distinct (unique_collection_ids st) collection_ids))) /\
    (is_uint64 (total st) -> is_uint64 (total st')) /\
    (is_uint64 (out_of st) -> is_uint64 (out_of st')).
Proof.
  induction collection_ids as [|coll_id ids IH];
    intros searches search_index st st' Hlen H.
  - destruct searches; [|discriminate]. simpl in H. injection H as <-.
    simpl. rewrite !Z.add_0_r. tauto.
  - destruct searches as [|coll_args searches]; [discriminate|].
    simpl in H.
    destruct (step union_params search_index coll_id coll_args st) as [st1|] eqn:E;
      [|discriminate].
    destruct (union_step_ok _ _ _ _ _ _ E) as (coll & guard & sp & Hc & Hi & Hr & ->).
    pose proof (record_search_total union_params search_index coll_id coll coll_args
                  sp st) as Ht.
    pose proof (record_search_out_of union_params search_index coll_id coll coll_args
                  sp st) as Ho.
    pose proof (record_search_unique union_params search_index coll_id coll coll_args
                  sp st) as Hu.
    destruct (IH searches (search_index + 1) _ st' ltac:(simpl in Hlen; lia) H)
      as (IHt & IHo & IHrt & IHro).
    simpl. unfold documents_of. rewrite Hc, Hi, Hr. simpl.
    split; [|split; [|split]].
    + rewrite IHt, Ht, to_uint64_add_l. f_equal. lia.
    + rewrite IHo, Ho, Hu.
      destruct (decide (coll_id ∈ unique_collection_ids st)) as [Hin|Hin].
      * replace ({[coll_id]} ∪ unique_collection_ids st)
          with (unique_collection_ids st)
          by (symmetry; now apply subseteq_union_1_L, singleton_subseteq_l).
        reflexivity.
      * simpl. unfold documents_of at 1. rewrite Hc.
        rewrite to_uint64_add_l. f_equal. lia.
    + intros _. apply IHrt. rewrite Ht. apply to_uint64_range.
    + intros Hrange. apply IHro. rewrite Ho.
      destruct (decide _); [exact Hrange | apply to_uint64_range].
Qed.

(** The two totals of a union that returns a response. *)
Lemma do_union_totals (search_cutoff : bool) (collection_ids : list Z)
    (searches : list collection_search_args_t) (union_params : union_global_params_t)
    (result : json) :
  do_union get_collection_with_id init_index_search_args_with_lock run_search_with_lock
    union_hits search_cutoff collection_ids searches union_params = Ok result ->
  json_get "found" result
  = Some (JNum (to_uint64 (sum_list (counts 0 collection_ids searches)))) /\
  json_get "out_of" result
  = Some (JNum (to_uint64 (sum_list (List.map documents (distinct ∅ collection_ids))))).
Proof.
  unfold do_union. intros H.
  destruct (length searches =? length collection_ids)%nat eqn:Hlen; [|discriminate].
  apply Nat.eqb_eq in Hlen. simpl in H.
  destruct (loop union_params 0 collection_ids searches initial_state) as [st|] eqn:E;
    [|discriminate].
  destruct (search_cutoff && (total st =? 0)); [discriminate|].
  destruct (union_hits collection_ids searches (search_params_guards st) union_params)
    as [hits|]; [|discriminate].
  injection H as <-.
  destruct (union_loop_totals _ _ _ _ _ _ Hlen E) as (Ht & Ho & Hrt & Hro).
  simpl in Ht, Ho, Hrt, Hro.
  assert (H0 : is_uint64 0) by (unfold is_uint64, UINT64_MODULUS; lia).
  rewrite (to_uint64_small _ (Hrt H0)) in Ht.
  rewrite (to_uint64_small _ (Hro H0)) in Ho.
  rewrite Z.add_0_l in Ht, Ho.
  split; simpl; congruence.
Qed.

(** The loop over a list of searches runs its first part, then the rest. *)
Lemma union_loop_app (union_params : union_global_params_t) (ids1 ids2 : list Z) :
  forall (searches1 searches2 : list collection_search_args_t) search_index st,
    length searches1 = length ids1 ->
    loop union_params search_index (ids1 ++ ids2) (searches1 ++ searches2) st
    = match loop union_params search_index ids1 searches1 st with
      | Ok st1 =>
          loop union_params (search_index + Z.of_nat (length ids1)) ids2 searches2 st1
      | Error c m => Error c m
      end.
Proof.
  induction ids1 as [|coll_id ids1 IH]; intros searches1 searches2 search_index st Hlen.
  - destruct searches1; [|discriminate]. simpl. now rewrite Z.add_0_r.
  - destruct searches1 as [|coll_args searches1]; [discriminate|].
    cbn [app union_loop length].
    destruct (step union_params search_index coll_id coll_args st) as [st1|];
      [|reflexivity].
    rewrite IH by (simpl in Hlen; lia).
    replace (search_index + 1 + Z.of_nat (length ids1))
      with (search_index + Z.of_nat (S (length ids1))) by lia.
    reflexivity.
Qed.

(** After the first search, the loop keeps what it has recorded of it. *)
Lemma union_loop_keeps_first (union_params : union_global_params_t)
    (collection_ids : list Z) :
  forall searches search_index st st',
    0 < search_index ->
    loop union_params search_index collection_ids searches st = Ok st' ->
    first_request_default_sorting_field_used st'
    = first_request_default_sorting_field_used st /\
    (forall p r, request_json_list st = p :: r ->
                 exists r', request_json_list st' = p :: r') /\
    (forall g r, search_params_guards st = g :: r ->
                 exists r', search_params_guards st' = g :: r').
Proof.
  induction collection_ids as [|coll_id ids IH];
    intros searches search_index st st' Hpos H.
  - simpl in H. injection H as <-. eauto.
  - destruct searches as [|coll_args searches]; [injection H as <-; eauto|].
    simpl in H.
    destruct (step union_params search_index coll_id coll_args st) as [st1|] eqn:E;
      [|discriminate].
    destruct (union_step_ok _ _ _ _ _ _ E) as (coll & guard & sp & _ & _ & _ & ->).
    destruct (IH searches (search_index + 1) _ st' ltac:(lia) H) as (Hf & Hp & Hg).
    assert (Hlt : (0 <? search_index) = true) by (apply Z.ltb_lt; lia).
    split; [|split].
    + rewrite Hf. unfold record_search. destruct (decide _); simpl; now rewrite Hlt.
    + intros p r Hst. apply (Hp p (r ++ [json_set "found" (JNum (all_result_ids_len sp))
                  (json_set "q" (JStr (raw_query coll_args))
                     (json_set "per_page" (JNum (per_page union_params))
                        (json_set "collection" (JStr (coll_name coll)) JNull)))])).
      unfold record_search. destruct (decide _); simpl; now rewrite Hst.
    + intros g r Hst. apply (Hg g (r ++ [sp])).
      unfold record_search. destruct (decide _); simpl; now rewrite Hst.
Qed.

(** The clauses compared by the loop over the clause positions are those
    of the first position that differs. *)
Lemma compare_clauses_first_mismatch (search_index : Z) (append_hint : string) :
  forall this first,
    compare_clauses search_index append_hint this first
    = match first_mismatch this first with
      | Some (t, f) =>
          Some (400,
                if sort_by_type_eqb (type t) (type f) then
                  order_mismatch_message search_index t f
                else type_mismatch_message search_index t f append_hint)
      | None => None
      end.
Proof.
  induction this as [|t this IH]; intros [|f first]; try reflexivity.
  simpl. destruct (sort_by_type_eqb (type t) (type f)) eqn:Et; simpl.
  - destruct (String.eqb (order t) (order f)); simpl; [apply IH | now rewrite Et].
  - now rewrite Et.
Qed.

(** What the first search leaves in the state. *)
Lemma record_first_search (union_params : union_global_params_t) (coll_id : Z)
    (coll : collection_info) (coll_args : collection_search_args_t)
    (search_params : search_args) :
  let st := record_search union_params 0 coll_id coll coll_args search_params
              initial_state in
  first_request_default_sorting_field_used st = default_sorting_field_used coll coll_args /\
  (exists p, request_json_list st = [p] /\
             json_get "collection" p = Some (JStr (coll_name coll))) /\
  search_params_guards st = [search_params].
Proof.
  unfold record_search. simpl. destruct (decide _); simpl.
  - split; [reflexivity|]. split; [|reflexivity]. eexists. split; reflexivity.
  - split; [reflexivity|]. split; [|reflexivity]. eexists. split; reflexivity.
Qed.

(** A later search is compared with the first one. *)
Lemma union_step_after_first (union_params : union_global_params_t)
    (coll_id0 coll_id : Z) (ids1 : list Z)
    (coll_args0 coll_args : collection_search_args_t)
    (searches1 : list collection_search_args_t)
    (coll0 coll : collection_info) (first guard this : search_args)
    (st1 : union_state) (search_index : Z) :
  0 < search_index ->
  loop union_params 1 ids1 searches1
    (record_search union_params 0 coll_id0 coll0 coll_args0 first initial_state)
  = Ok st1 ->
  get_collection_with_id coll_id = Some coll ->
  init_index_search_args_with_lock coll coll_args search_index = Ok guard ->
  run_search_with_lock coll guard = Ok this ->
  step union_params search_index coll_id coll_args st1
  = match check_sort_compatibility search_index
            (default_sorting_field_used coll coll_args)
            (default_sorting_field_used coll0 coll_args0)
            (coll_name coll) (coll_name coll0)
            (sort_fields_std this) (sort_fields_std first) with
    | Some (c, m) => Error c m
    | None =>
        Ok (record_search union_params search_index coll_id coll coll_args this st1)
    end.
Proof.
  intros Hpos Hloop Hget Hinit Hrun.
  destruct (record_first_search union_params coll_id0 coll0 coll_args0 first)
    as (Hflag & (p & Hp & Hname) & Hguards).
  destruct (union_loop_keeps_first union_params ids1 searches1 1 _ st1 ltac:(lia) Hloop)
    as (Hf & Hreq & Hg).
  destruct (Hreq _ _ Hp) as [r Hr]. destruct (Hg _ _ Hguards) as [g Hgs].
  unfold union_step. rewrite Hget, Hinit, Hrun.
  assert (Hlt : (0 <? search_index) = true) by (apply Z.ltb_lt; lia).
  rewrite Hlt, Hf, Hflag.
  assert (Hn : first_collection_name
                 (record_search union_params search_index coll_id coll coll_args this st1)
               = coll_name coll0).
  { unfold first_collection_name, record_search. destruct (decide _); simpl;
      rewrite Hr; simpl; now rewrite Hname. }
  assert (Hs : first_search_sort_fields
                 (record_search union_params search_index coll_id coll coll_args this st1)
               = sort_fields_std first).
  { unfold first_search_sort_fields, record_search. destruct (decide _); simpl;
      now rewrite Hgs. }
  now rewrite Hn, Hs.
Qed.

(** The union returns the error of the comparison of a later search with
    the first one. *)
Lemma do_union_rejects (search_cutoff : bool) (union_params : union_global_params_t)
    (coll_id0 coll_id : Z) (ids1 ids2 : list Z)
    (coll_args0 coll_args : collection_search_args_t)
    (searches1 searches2 : list collection_search_args_t)
    (coll0 coll : collection_info) (guard0 first guard this : search_args)
    (st1 : union_state) (code : Z) (message : string) :
  length searches1 = length ids1 ->
  length searches2 = length ids2 ->
  get_collection_with_id coll_id0 = Some coll0 ->
  init_index_search_args_with_lock coll0 coll_args0 0 = Ok guard0 ->
  run_search_with_lock coll0 guard0 = Ok first ->
  loop union_params 1 ids1 searches1
    (record_search union_params 0 coll_id0 coll0 coll_args0 first initial_state)
  = Ok st1 ->
  get_collection_with_id coll_id = Some coll ->
  init_index_search_args_with_lock coll coll_args (1 + Z.of_nat (length ids1)) = Ok guard ->
  run_search_with_lock coll guard = Ok this ->
  check_sort_compatibility (1 + Z.of_nat (length ids1))
    (default_sorting_field_used coll coll_args)
    (default_sorting_field_used coll0 coll_args0)
    (coll_name coll) (coll_name coll0)
    (sort_fields_std this) (sort_fields_std first) = Some (code, message) ->
  do_union get_collection_with_id init_index_search_args_with_lock run_search_with_lock
    union_hits search_cutoff (coll_id0 :: ids1 ++ coll_id :: ids2)
    (coll_args0 :: searches1 ++ coll_args :: searches2) union_params
  = Error code message.
Proof.
  intros Hl1 Hl2 Hget0 Hinit0 Hrun0 Hloop Hget Hinit Hrun Hcheck.
  unfold do_union.
  assert (Hlen : length (coll_args0 :: searches1 ++ coll_args :: searches2)
                 = length (coll_id0 :: ids1 ++ coll_id :: ids2)).
  { simpl. rewrite !length_app. simpl. lia. }
  rewrite Hlen, Nat.eqb_refl. cbn [negb].
  cbn [union_loop]. unfold union_step at 1.
  rewrite Hget0, Hinit0, Hrun0. change (0 <? 0) with false. cbv iota.
  change (0 + 1) with 1.
  rewrite (union_loop_app union_params ids1 (coll_id :: ids2) searches1
             (coll_args :: searches2) 1 _ Hl1).
  rewrite Hloop. cbn [union_loop].
  assert (Hpos : 0 < 1 + Z.of_nat (length ids1)) by lia.
  rewrite (union_step_after_first union_params coll_id0 coll_id ids1 coll_args0 coll_args
             searches1 coll0 coll first guard this st1 _ Hpos Hloop Hget Hinit Hrun).
  now rewrite Hcheck.
Qed.

(** C4, as the code has it: in a union of two or more searches, a later
    search whose sort clauses differ from those of the first search makes
    the union return the error 400 and no response.  When the numbers of
    clauses differ, the message lists the clauses of both searches with
    their types and gives the index of the later search.  Otherwise the
    message is about the first position that differs in type or in order.
    When the types differ there, it names both clauses with their types
    and search indexes, followed by a hint that is empty when no search
    fell back to the default sorting field of its collection, and that
    names the collection and suggests removing the default sorting field
    for each search that did.  When only the orders differ, it names both
    clauses with their orders and search indexes, and nothing else. *)
Theorem union_sort_mismatch_is_rejected (search_cutoff : bool)
    (union_params : union_global_params_t)
    (coll_id0 coll_id : Z) (ids1 ids2 : list Z)
    (coll_args0 coll_args : collection_search_args_t)
    (searches1 searches2 : list collection_search_args_t)
    (coll0 coll : collection_info) (guard0 first guard this : search_args)
    (st1 : union_state) :
  length searches1 = length ids1 ->
  length searches2 = length ids2 ->
  get_collection_with_id coll_id0 = Some coll0 ->
  init_index_search_args_with_lock coll0 coll_args0 0 = Ok guard0 ->
  run_search_with_lock coll0 guard0 = Ok first ->
  loop union_params 1 ids1 searches1
    (record_search union_params 0 coll_id0 coll0 coll_args0 first initial_state)
  = Ok st1 ->
  let search_index := 1 + Z.of_nat (length ids1) in
  get_collection_with_id coll_id = Some coll ->
  init_index_search_args_with_lock coll coll_args search_index = Ok guard ->
  run_search_with_lock coll guard = Ok this ->
  let response :=
    do_union get_collection_with_id init_index_search_args_with_lock
      run_search_with_lock union_hits search_cutoff
      (coll_id0 :: ids1 ++ coll_id :: ids2)
      (coll_args0 :: searches1 ++ coll_args :: searches2) union_params in
  let this_fell_back := default_sorting_field_used coll coll_args in
  let first_fell_back := default_sorting_field_used coll0 coll_args0 in
  (length (sort_fields_std this) <> length (sort_fields_std first) ->
   response
   = Error 400
       (described_size_message search_index (sort_fields_std first)
          (sort_fields_std this))) /\
  (length (sort_fields_std this) = length (sort_fields_std first) ->
   forall (i : nat) (this_clause first_clause : sort_by),
     sort_fields_std this !! i = Some this_clause ->
     sort_fields_std first !! i = Some first_clause ->
     type this_clause <> type first_clause \/ order this_clause <> order first_clause ->
     exists t f,
       first_mismatch (sort_fields_std this) (sort_fields_std first) = Some (t, f) /\
       (type t <> type f ->
        exists message hint,
          response = Error 400 message /\
          message
          = "Expected type of `" +:+ name t +:+ "` sort_by (" +:+ enum_name (type t)
            +:+ ") at search index `" +:+ to_string search_index
            +:+ "` to be the same as the type of `" +:+ name f +:+ "` sort_by ("
            +:+ enum_name (type f) +:+ ") at search index `0`." +:+ hint /\
          (this_fell_back = false -> first_fell_back = false -> hint = "") /\
          described_mismatch_message message search_index t f (coll_name coll)
            (coll_name coll0) this_fell_back first_fell_back = true) /\
       (type t = type f ->
        response
        = Error 400
            ("Expected order of `" +:+ name t +:+ "` sort_by (" +:+ order t
             +:+ ") at search index `" +:+ to_string search_index
             +:+ "` to be the same as the order of `" +:+ name f +:+ "` sort_by ("
             +:+ order f +:+ ") at search index `0`."))).
Proof.
  intros Hl1 Hl2 Hget0 Hinit0 Hrun0 Hloop search_index Hget Hinit Hrun response
         this_fell_back first_fell_back.
  split.
  - intros Hne. unfold response.
    apply (do_union_rejects search_cutoff union_params coll_id0 coll_id ids1 ids2
             coll_args0 coll_args searches1 searches2 coll0 coll guard0 first guard this
             st1 _ _ Hl1 Hl2 Hget0 Hinit0 Hrun0 Hloop Hget Hinit Hrun).
    unfold check_sort_compatibility.
    apply Nat.eqb_neq in Hne. rewrite Hne. cbn [negb].
    now rewrite size_mismatch_message_described.
  - intros Heq i this_clause first_clause Ht Hf Hdiff.
    destruct (first_mismatch_exists _ _ _ _ _ Ht Hf Hdiff) as (t & f & Hm).
    exists t, f. split; [exact Hm|].
    assert (Hcheck :
              check_sort_compatibility search_index this_fell_back first_fell_back
                (coll_name coll) (coll_name coll0) (sort_fields_std this)
                (sort_fields_std first)
              = Some (400,
                      if sort_by_type_eqb (type t) (type f) then
                        order_mismatch_message search_index t f
                      else
                        type_mismatch_message search_index t f
                          (default_sorting_field_hint this_fell_back first_fell_back
                             (coll_name coll) (coll_name coll0)))).
    { unfold check_sort_compatibility.
      apply Nat.eqb_eq in Heq. rewrite Heq. cbn [negb].
      now rewrite compare_clauses_first_mismatch, Hm. }
    pose proof (do_union_rejects search_cutoff union_params coll_id0 coll_id ids1 ids2
                  coll_args0 coll_args searches1 searches2 coll0 coll guard0 first guard
                  this st1 _ _ Hl1 Hl2 Hget0 Hinit0 Hrun0 Hloop Hget Hinit Hrun Hcheck)
      as Hresponse.
    fold response in Hresponse.
    split.
    + intros Htype.
      assert (Hneq : sort_by_type_eqb (type t) (type f) = false).
      { destruct (sort_by_type_eqb (type t) (type f)) eqn:E; [|reflexivity].
        apply sort_by_type_eqb_eq in E. contradiction. }
      rewrite Hneq in Hresponse.
      eexists. exists (default_sorting_field_hint this_fell_back first_fell_back
                         (coll_name coll) (coll_name coll0)).
      split; [exact Hresponse|].
      split; [apply type_mismatch_message_text|].
      split.
      * apply (hint_described this_fell_back first_fell_back (coll_name coll)
                 (coll_name coll0)).
      * apply type_mismatch_message_described.
    + intros Htype.
      assert (Heqb : sort_by_type_eqb (type t) (type f) = true)
        by now apply sort_by_type_eqb_eq.
      rewrite Heqb in Hresponse. rewrite Hresponse.
      now rewrite order_mismatch_message_text.
Qed.

End DoUnion.

(** C10: in the response of a union, [found] is the sum of the result
    counts of all its searches, a collection counted once for each search
    over it, and [out_of] is the sum of the document totals of the distinct
    collections, each counted once (both as [size_t] sums, exact whenever
    the sum fits 64 bits).  So two searches over one collection of 3
    documents that find 2 documents each report [found = 4] above
    [out_of = 3]. *)
Theorem union_found_and_out_of :
  (forall get_collection_with_id init_index_search_args_with_lock run_search_with_lock
          union_hits search_cutoff collection_ids searches union_params result,
      do_union get_collection_with_id init_index_search_args_with_lock
        run_search_with_lock union_hits search_cutoff collection_ids searches
        union_params = Ok result ->
      let found :=
        sum_list (found_counts get_collection_with_id init_index_search_args_with_lock
                    run_search_with_lock 0 collection_ids searches) in
      let documents :=
        sum_list (List.map (documents_of get_collection_with_id)
                    (distinct ∅ collection_ids)) in
      json_get "found" result = Some (JNum (to_uint64 found)) /\
      json_get "out_of" result = Some (JNum (to_uint64 documents)) /\
      (is_uint64 found -> json_get "found" result = Some (JNum found)) /\
      (is_uint64 documents -> json_get "out_of" result = Some (JNum documents))) /\
  (exists result,
      do_union union_collection union_init union_run union_no_hits false [1; 1]
        [wildcard_search []; wildcard_search []] first_page = Ok result /\
      json_get "found" result = Some (JNum 4) /\
      json_get "out_of" result = Some (JNum 3)).
Proof.
  split.
  - intros get init run hits search_cutoff collection_ids searches union_params result H
           found documents.
    destruct (do_union_totals _ _ _ _ _ _ _ _ _ H) as [Hf Ho].
    fold found in Hf. fold documents in Ho.
    split; [exact Hf|]. split; [exact Ho|].
    split; intros Hr; [rewrite Hf | rewrite Ho]; now rewrite to_uint64_small.
  - eexists. split; [vm_compute; reflexivity|]. split; vm_compute; reflexivity.
Qed.

(** Two searches over the collection [products]. *)
Lemma union_found_and_out_of_witness :
  exists result,
    do_union union_collection union_init union_run union_no_hits false [1; 1]
      [wildcard_search []; wildcard_search []] first_page = Ok result /\
    json_get "found" result = Some (JNum (to_uint64 (2 + (2 + 0)))) /\
    json_get "out_of" result = Some (JNum (to_uint64 (3 + 0))).
Proof.
  eexists. split; [vm_compute; reflexivity|].
  refine (let H := proj1 union_found_and_out_of union_collection union_init union_run
                     union_no_hits false [1; 1]
                     [wildcard_search []; wildcard_search []] first_page _ _ in _).
  Unshelve.
  3: { vm_compute. reflexivity. }
  destruct H as (Hf & Ho & _). split; [exact Hf | exact Ho].
Defined.

(** The first search names no sort clause and falls back to the default
    sorting field [points] of [products], an int32 field; the second one
    sorts the [articles] on [price], a float field.  The message names
    both clauses with their types and search indexes, and the hint names
    [products] and suggests removing its default sorting field. *)
Lemma union_sort_mismatch_is_rejected_witness :
  do_union union_collection union_init union_run union_no_hits false [1; 2]
    [wildcard_search []; wildcard_search [mk_sort_by "price" "DESC"]] first_page
  = Error 400
      ("Expected type of `price` sort_by (float_field) at search index `1` to be "
       +:+ "the same as the type of `points` sort_by (int32_field) at search index `0`."
       +:+ " `products` collection has declared a default sorting field of different "
       +:+ "type. Since union expects the searches to sort_by on the same type of "
       +:+ "fields, default sorting field of the collection should be removed.").
Proof.
  pose (clauses := fun (n : string) (t : sort_by_type) (k : Z) =>
          [with_type t (mk_sort_by n "DESC");
           with_union_search_index k
             (with_type union_query_order (mk_sort_by "_union_search_index" "ASC"));
           with_type insertion_order (mk_sort_by "_seq_id" "DESC")]).
  pose (args := fun (l : list sort_by) (found : Z) =>
          {| sort_fields_std := l; all_result_ids_len := found; raw_result_kvs := [] |}).
  destruct (proj2 (union_sort_mismatch_is_rejected union_collection union_init union_run
                     union_no_hits false first_page 1 2 [] []
                     (wildcard_search [])
                     (wildcard_search [mk_sort_by "price" "DESC"]) [] []
                     {| coll_name := "products"; coll_default_sorting_field := "points";
                        coll_num_documents := 3 |}
                     {| coll_name := "articles"; coll_default_sorting_field := "";
                        coll_num_documents := 5 |}
                     (args (clauses "points" int32_field 0) 0)
                     (args (clauses "points" int32_field 0) 2)
                     (args (clauses "price" float_field 1) 0)
                     (args (clauses "price" float_field 1) 2)
                     _ eq_refl eq_refl
                     ltac:(vm_compute; reflexivity) ltac:(vm_compute; reflexivity)
                     ltac:(vm_compute; reflexivity) eq_refl
                     ltac:(vm_compute; reflexivity) ltac:(vm_compute; reflexivity)
                     ltac:(vm_compute; reflexivity))
              ltac:(reflexivity) 0%nat
              (with_type float_field (mk_sort_by "price" "DESC"))
              (with_type int32_field (mk_sort_by "points" "DESC"))
              ltac:(reflexivity) ltac:(reflexivity) ltac:(left; discriminate))
    as (t & f & Hm & Htype & _).
  vm_compute in Hm. injection Hm as <- <-.
  destruct (Htype ltac:(discriminate)) as (message & hint & Hr & -> & _ & Hd).
  simpl app in Hr. rewrite Hr. f_equal.
  assert (Hhint : hint
                  = " `products` collection has declared a default sorting field of "
                    +:+ "different type. Since union expects the searches to sort_by on "
                    +:+ "the same type of fields, default sorting field of the "
                    +:+ "collection should be removed.").
  { assert (Hrun : do_union union_collection union_init union_run union_no_hits false
                     [1; 2]
                     [wildcard_search []; wildcard_search [mk_sort_by "price" "DESC"]]
                     first_page
                   = Error 400
                       ("Expected type of `price` sort_by (float_field) at search index `1`"
                        +:+ " to be the same as the type of `points` sort_by (int32_field)"
                        +:+ " at search index `0`."
                        +:+ " `products` collection has declared a default sorting field of "
                        +:+ "different type. Since union expects the searches to sort_by on "
                        +:+ "the same type of fields, default sorting field of the "
                        +:+ "collection should be removed."))
      by (vm_compute; reflexivity).
    rewrite Hrun in Hr. vm_compute in Hr. injection Hr as Hr.
    vm_compute. congruence. }
  rewrite Hhint. vm_compute. reflexivity.
Defined.

(** The first search sorts on the default sorting field [points] of
    [products], in descending order; the second one sorts on [rank], also
    an int32 field, in ascending order.  The message of the error names no
    type and no collection, and suggests nothing about the default sorting
    field. *)
Lemma union_order_mismatch_counterexample :
  let this := with_type int32_field (mk_sort_by "rank" "ASC") in
  let first := with_type int32_field (mk_sort_by "points" "DESC") in
  let message := order_mismatch_message 1 this first in
  do_union union_collection union_init union_run union_no_hits false [1; 2]
    [wildcard_search []; wildcard_search [mk_sort_by "rank" "ASC"]] first_page
  = Error 400 message /\
  default_sorting_field_used
    {| coll_name := "products"; coll_default_sorting_field := "points";
       coll_num_documents := 3 |} (wildcard_search []) = true /\
  described_mismatch_message message 1 this first "articles" "products" false true
  = false /\
  occurs_in "int32_field" message = false /\
  occurs_in "products" message = false /\
  occurs_in "should be removed" message = false.
Proof. vm_compute. repeat split; reflexivity. Qed.

End UnionProofs.

(** ** Curation *)

Module CurationProofs.

Import Curation.

(** A loop that has not left by [break] goes on with the rest of its list. *)
Lemma for_each_app {A S : Type} (body : A -> S -> flow * S) (before l : list A)
    (s s1 : S) :
  for_each body before s = (Continue, s1) ->
  for_each body (before ++ l) s = for_each body l s1.
Proof.
  revert s. induction before as [|x before IH]; intros s H; simpl in *.
  - now injection H as <-.
  - destruct (body x s) as [[] s']; [now apply IH | discriminate].
Qed.

(** A [break] skips the rest of the list. *)
Lemma for_each_break {A S : Type} (body : A -> S -> flow * S) (before after : list A)
    (x : A) (s s1 s2 : S) :
  for_each body before s = (Continue, s1) ->
  body x s1 = (Break, s2) ->
  for_each body (before ++ x :: after) s = (Break, s2).
Proof.
  intros Hbefore Hx. rewrite (for_each_app _ _ _ _ _ Hbefore). simpl. now rewrite Hx.
Qed.

Section Curate.

Variable doc_id_to_seq_id : string -> option Z.
Variable now_epoch : Z.
Variable contains_word : string -> string -> bool.
Variable replace_all : string -> string -> string -> string.
Variable trim : string -> string.
Variable normalize : string -> string.

Local Abbreviation matches :=
  (does_override_match doc_id_to_seq_id now_epoch contains_word replace_all trim).
Local Abbreviation curate :=
  (curate_results doc_id_to_seq_id now_epoch contains_word replace_all trim normalize).
Local Abbreviation untagged :=
  (untagged_body doc_id_to_seq_id now_epoch contains_word replace_all trim).
Local Abbreviation exact_tags :=
  (exact_tags_body doc_id_to_seq_id now_epoch contains_word replace_all trim).
Local Abbreviation partial_tags :=
  (partial_tags_body doc_id_to_seq_id now_epoch contains_word replace_all trim).
Local Abbreviation start :=
  (fun actual_query hidden_hits =>
     tokenize_query normalize (hide_hits doc_id_to_seq_id actual_query hidden_hits)).
Local Abbreviation pin := (include_hits doc_id_to_seq_id).

Lemma find_override_nonempty (overrides : list (string * override_t)) (i : string)
    (o : override_t) :
  find_override overrides i = Some o ->
  match overrides with [] => true | _ => false end = false.
Proof. now destruct overrides. Qed.

(** C6, as the code has it: once an override with [stop_processing] set
    matches, the overrides that come after it in the loop that reached it
    are not applied.  For a request without tags this is the loop over all
    overrides, and for a request of several tags matched as a whole the
    loop over the overrides of its first tag: the result of the curation
    is then the state left by that override, with the pinned hits.  In the
    matching on some of the requested tags it is the loop over the
    overrides listed under one requested tag: the rest of that list is
    skipped (for a request of one tag this ends the curation), and the
    lists of the requested tags that follow are still gone through,
    unlike in the two other passes, where the [break] ends the
    application of overrides. *)
Theorem stop_processing_ends_the_loop :
  (forall before key o after override_tags actual_query filter_query pinned_hits
          hidden_hits st1 st2,
      for_each (untagged filter_query) before (start actual_query hidden_hits)
      = (Continue, st1) ->
      matches o filter_query false (wildcard_tag o) st1 = (true, st2) ->
      stop_processing o = true ->
      curate (before ++ (key, o) :: after) override_tags actual_query filter_query true
        [] pinned_hits hidden_hits
      = pin pinned_hits st2) /\
  (forall overrides (override_tags : gmap string (list string)) tag other_tags before i
          after o actual_query filter_query pinned_hits hidden_hits st1 found all_found
          st2,
      other_tags <> [] ->
      override_tags !! tag = Some (before ++ i :: after) ->
      for_each (exact_tags overrides (tag :: other_tags) filter_query) before
        (start actual_query hidden_hits, ∅, false)
      = (Continue, (st1, found, all_found)) ->
      find_override overrides i = Some o ->
      tags (rule o) = tag :: other_tags ->
      matches o filter_query true false st1 = (true, st2) ->
      stop_processing o = true ->
      curate overrides override_tags actual_query filter_query true (tag :: other_tags)
        pinned_hits hidden_hits
      = pin pinned_hits st2) /\
  (forall overrides request_tags before i after o filter_query ts st1 found all_found
          st2,
      for_each (partial_tags overrides request_tags filter_query) before ts
      = (Continue, (st1, found, all_found)) ->
      i ∉ found ->
      find_override overrides i = Some o ->
      existsb (fun t => existsb (String.eqb t) request_tags) (tags (rule o)) = true ->
      matches o filter_query true false st1 = (true, st2) ->
      stop_processing o = true ->
      for_each (partial_tags overrides request_tags filter_query) (before ++ i :: after) ts
      = (Break, (st2, {[i]} ∪ found, all_found)) /\
      forall (override_tags : gmap string (list string)) tag actual_query pinned_hits
             hidden_hits,
        request_tags = [tag] ->
        ts = (start actual_query hidden_hits, ∅, false) ->
        override_tags !! tag = Some (before ++ i :: after) ->
        curate overrides override_tags actual_query filter_query true request_tags
          pinned_hits hidden_hits
        = pin pinned_hits st2).
Proof.
  split; [|split].
  - intros before key o after override_tags actual_query filter_query pinned_hits
           hidden_hits st1 st2 Hbefore Hmatch Hstop.
    unfold curate_results.
    replace (match before ++ (key, o) :: after with [] => true | _ => false end)
      with false by (now destruct before).
    cbn [andb negb].
    rewrite (for_each_break _ before after (key, o) _ st1 st2 Hbefore); [reflexivity|].
    unfold untagged_body. cbn [snd]. now rewrite Hmatch, Hstop.
  - intros overrides override_tags tag other_tags before i after o actual_query
           filter_query pinned_hits hidden_hits st1 found all_found st2
           Hmany Htag Hbefore Hfind Htags Hmatch Hstop.
    unfold curate_results.
    rewrite (find_override_nonempty _ _ _ Hfind). cbn [andb negb].
    replace (1 <? length (tag :: other_tags))%nat with true
      by (destruct other_tags; [congruence | reflexivity]).
    rewrite Htag.
    match goal with
    | |- context [for_each ?body (before ++ i :: after) ?s] =>
        assert (Hbreak : for_each body (before ++ i :: after) s
                         = (Break, (st2, {[i]} ∪ found, true)))
    end.
    { apply (for_each_break _ before after i _ (st1, found, all_found));
        [exact Hbefore|].
      unfold exact_tags_body. rewrite Hfind.
      rewrite bool_decide_eq_true_2 by exact Htags.
      now rewrite Hmatch, Hstop. }
    rewrite Hbreak. reflexivity.
  - intros overrides request_tags before i after o filter_query ts st1 found all_found
           st2 Hbefore Hnew Hfind Hcommon Hmatch Hstop.
    assert (Hbreak :
              for_each (partial_tags overrides request_tags filter_query)
                (before ++ i :: after) ts
              = (Break, (st2, {[i]} ∪ found, all_found))).
    { apply (for_each_break _ before after i _ (st1, found, all_found) _ Hbefore).
      unfold partial_tags_body.
      destruct (decide (i ∈ found)) as [Hin|_]; [contradiction|].
      now rewrite Hfind, Hcommon, Hmatch, Hstop. }
    split; [exact Hbreak|].
    intros override_tags tag actual_query pinned_hits hidden_hits -> -> Htag.
    unfold curate_results.
    rewrite (find_override_nonempty _ _ _ Hfind). cbn [andb negb].
    change (1 <? length [tag])%nat with false. cbv iota.
    unfold partial_tags_pass. cbn [fold_left]. rewrite Htag.
    match goal with
    | |- context [for_each ?body (before ++ i :: after) ?s] =>
        replace (for_each body (before ++ i :: after) s)
          with (Break, ((st2, {[i]} ∪ found, all_found) : tag_state))
          by (symmetry; exact Hbreak)
    end.
    reflexivity.
Qed.

End Curate.

(** Without tags, the override [u1] on the query [shoes] stops the
    processing: the document of [u2], which follows it, is not dropped. *)
Lemma stop_processing_ends_the_loop_witness :
  excluded_ids
    (curate_stored [("u1", stop_on_shoes); ("u2", drop_on_shoes)] ∅ "shoes" [])
  = [1].
Proof.
  unfold curate_stored.
  erewrite (proj1 (stop_processing_ends_the_loop stored_seq_id 0 (fun _ _ => false)
                     (fun s _ _ => s) (fun s => s) (fun s => s))
              [] "u1" stop_on_shoes [("u2", drop_on_shoes)] ∅ "shoes" "" [] []);
    [ | reflexivity | vm_compute; reflexivity | reflexivity ].
  vm_compute. reflexivity.
Defined.

(** A request with the tags [a] and [b]: the override [o1], listed under
    [a], matches and stops the processing, and the override [o2], listed
    under [b], still drops its document [2]. *)
Lemma stop_processing_counterexample :
  let overrides := [("o1", stop_under_a); ("o2", drop_under_b)] in
  let override_tags : gmap string (list string) := {["a" := ["o1"]; "b" := ["o2"]]} in
  let st := tokenize_query (fun s => s) (hide_hits stored_seq_id "shoes" []) in
  fst (does_override_match stored_seq_id 0 (fun _ _ => false) (fun s _ _ => s)
         (fun s => s) stop_under_a "" true false st) = true /\
  stop_processing stop_under_a = true /\
  drop_hits stop_under_a = ["1"] /\
  drop_hits drop_under_b = ["2"] /\
  excluded_ids (curate_stored overrides override_tags "shoes" ["a"; "b"]) = [1; 2] /\
  excluded_ids (curate_stored [("o1", stop_under_a)] override_tags "shoes" ["a"; "b"])
  = [1].
Proof. vm_compute. repeat split; reflexivity. Qed.

End CurationProofs.

(** ** Cascade on the removal of a referenced document *)

Module CascadeProofs.

Import Cascade.

Lemma json_type_eqb_eq (a b : json_type) : json_type_eqb a b = true <-> a = b.
Proof. destruct a, b; simpl; split; intros H; first [reflexivity | discriminate]. Qed.

Lemma surviving_pairs_cons (ref_value v h : json) (values helpers : list json) :
  surviving_pairs ref_value (v :: values) (h :: helpers)
  = if json_eqb v ref_value then surviving_pairs ref_value values helpers
    else (v, h) :: surviving_pairs ref_value values helpers.
Proof. unfold surviving_pairs. simpl. now destruct (json_eqb v ref_value). Qed.

Lemma array_member_push (acc : list json) (h : json) :
  json_push_back h (default JNull (array_member acc)) = JArr (acc ++ [h]).
Proof. now destruct acc. Qed.

Lemma array_member_app (acc : list json) (h : json) :
  array_member (acc ++ [h]) = Some (JArr (acc ++ [h])).
Proof. now destruct acc. Qed.

(** The loop over the reference array appends to the update document the
    pairs that do not hold the removed value, in their order. *)
Lemma drop_reference_pairs (field_name ref_helper_field_name : string) (ref_value : json) :
  field_name <> ref_helper_field_name ->
  forall values helpers update_document found field_acc helper_acc,
    length helpers = length values ->
    json_get field_name update_document = Some (JArr field_acc) ->
    json_get ref_helper_field_name update_document = array_member helper_acc ->
    let result :=
      drop_reference field_name ref_helper_field_name ref_value values helpers
        update_document found in
    let pairs := surviving_pairs ref_value values helpers in
    json_get field_name (fst result) = Some (JArr (field_acc ++ List.map fst pairs)) /\
    json_get ref_helper_field_name (fst result)
    = array_member (helper_acc ++ List.map snd pairs) /\
    (forall k, k <> field_name -> k <> ref_helper_field_name ->
               json_get k (fst result) = json_get k update_document) /\
    snd result = found || existsb (fun v => json_eqb v ref_value) values.
Proof.
  intros Hne values.
  induction values as [|v values IH];
    intros helpers update_document found field_acc helper_acc Hlen Hf Hh.
  - destruct helpers; [|discriminate]. simpl.
    rewrite !app_nil_r, orb_false_r. auto.
  - destruct helpers as [|h helpers]; [discriminate|].
    cbv zeta. rewrite surviving_pairs_cons. cbn [drop_reference existsb hd tl].
    destruct (json_eqb v ref_value) eqn:Ev.
    + destruct (IH helpers update_document true field_acc helper_acc
                  ltac:(simpl in Hlen; lia) Hf Hh) as (H1 & H2 & H3 & H4).
      rewrite orb_true_l, orb_true_r. cbn zeta in *.
      split; [exact H1|]. split; [exact H2|]. split; [exact H3|]. exact H4.
    + rewrite Hf. change (default JNull (Some (JArr field_acc))) with (JArr field_acc).
      set (u1 := json_set field_name (json_push_back v (JArr field_acc)) update_document).
      assert (Hh1 : json_get ref_helper_field_name u1 = array_member helper_acc).
      { unfold u1. rewrite json_get_set_ne by exact Hne. exact Hh. }
      rewrite Hh1, array_member_push.
      set (u2 := json_set ref_helper_field_name (JArr (helper_acc ++ [h])) u1).
      assert (Hf2 : json_get field_name u2 = Some (JArr (field_acc ++ [v]))).
      { unfold u2. rewrite json_get_set_ne by congruence.
        unfold u1. now rewrite json_get_set_eq. }
      assert (Hh2 : json_get ref_helper_field_name u2 = array_member (helper_acc ++ [h])).
      { unfold u2. now rewrite json_get_set_eq, array_member_app. }
      destruct (IH helpers u2 found (field_acc ++ [v]) (helper_acc ++ [h])
                  ltac:(simpl in Hlen; lia) Hf2 Hh2) as (H1 & H2 & H3 & H4).
      cbn zeta in *. cbn [List.map fst snd].
      rewrite <- !app_assoc in H1, H2. cbn [app] in H1, H2.
      split; [exact H1|]. split; [exact H2|]. split; [|now rewrite orb_false_l].
      intros k Hk1 Hk2. rewrite (H3 k Hk1 Hk2). unfold u2, u1.
      rewrite !json_get_set_ne by congruence. reflexivity.
Qed.

Section CascadeRemove.

Variable REFERENCE_HELPER_FIELD_SUFFIX : string.
Variable reference_helper_fields : string.
Variable get_filter_ids : string -> list Z.
Variable search_schema : gmap string Schema.field.
Variable is_singular : Schema.field -> bool.
Variable reference_fields : gmap string (string * string).
Variable get_document_from_store : Z -> option json.





End CascadeRemove.


End CascadeProofs.

(** ** Schema alteration *)

Module AlterProofs.

Import Schema Alter.

(** The components of the schema other than the embedding fields. *)
Local Abbreviation same_declared_schema c' c :=
  (fields c' = fields c /\ search_schema c' = search_schema c /\
   dynamic_fields c' = dynamic_fields c /\ nested_fields c' = nested_fields c /\
   fallback_field_type c' = fallback_field_type c /\
   default_sorting_field c' = default_sorting_field c).

Section Validation.

Variable enable_nested_fields : bool.
Variable json_field_to_field : bool -> json -> string -> Z -> Option (field * string * Z).
Variable is_dynamic : field -> bool.
Variable validate_and_init_embed_field :
  gmap string field -> json -> list json -> field -> Option field.
Variable check_and_add_nested_field : gmap string field -> field -> gmap string field.
Variable regex_match : string -> string -> bool.
Variable detect_new_fields :
  json -> gmap string field -> gmap string field -> gmap string field -> string ->
  Option (list field).
Variable validate_index_in_memory :
  json -> Z -> string -> gmap string field -> gmap string field -> string -> Option bool.
Variable split : string -> string -> list string.
Variable batch_alter_data :
  list field -> list field -> string -> Collection -> Option bool * Collection.
Variable update_apikey : json -> string -> Collection -> Option bool * Collection.

Local Abbreviation validate :=
  (validate_alter_payload enable_nested_fields json_field_to_field is_dynamic
     validate_and_init_embed_field check_and_add_nested_field regex_match
     detect_new_fields validate_index_in_memory split).
Local Abbreviation run_alter :=
  (alter enable_nested_fields json_field_to_field is_dynamic
     validate_and_init_embed_field check_and_add_nested_field regex_match
     detect_new_fields validate_index_in_memory split batch_alter_data update_apikey).

(** The validation writes the embedding fields and the counter of
    validated documents, and nothing else. *)
Lemma validate_alter_payload_frame (schema_changes : json)
    (docs : list (Z * option json)) (c c' : Collection) (r : step alter_plan) :
  validate schema_changes docs c = (r, c') ->
  same_declared_schema c' c /\ alter_history c' = alter_history c.
Proof.
  unfold validate_alter_payload. intros H.
  repeat match type of H with
         | (match ?x with _ => _ end) = _ => destruct x eqn:?
         | (if ?x then _ else _) = _ => destruct x eqn:?
         | (let '(_, _) := ?x in _) = _ => destruct x eqn:?
         end;
    injection H as <- <-; simpl; tauto.
Qed.

(** A failed validation ends the alteration. *)
Lemma alter_stops_at_validation (alter_payload : json) (docs : list (Z * option json))
    (c c1 : Collection) (code : Z) (message : string) :
  validate alter_payload docs (set_alter_status true (validated_docs c) (altered_docs c) c)
  = (Stop code message, c1) ->
  run_alter alter_payload docs c
  = (Returned (Error code message),
     reset_alter_status_counters
       (check_store_alter_status_msg false ("Alter failed validation: " +:+ message) c1))
  /\ same_declared_schema c1 c.
Proof.
  intros H. split.
  - unfold alter. now rewrite H.
  - destruct (validate_alter_payload_frame _ _ _ _ _ H) as [Hs _]. exact Hs.
Qed.

End Validation.

(** C5, as the code has it: when the validation of an alteration returns
    an error, [alter] returns that error without running a mutation phase,
    and the fields, the search schema, the dynamic fields, the nested
    fields, the fallback field type and the default sorting field of the
    collection are as before the call.  The embedding fields are those
    left by the validation, which registers the embedding fields of the
    payload in the collection itself: after the alteration that adds [emb]
    and [price] has failed on the stored document, which has no [price],
    the collection lists [emb] among its embedding fields. *)
Theorem alter_failed_validation :
  (forall enable_nested_fields json_field_to_field is_dynamic
          validate_and_init_embed_field check_and_add_nested_field regex_match
          detect_new_fields validate_index_in_memory split batch_alter_data update_apikey
          alter_payload docs c c1 code message,
      validate_alter_payload enable_nested_fields json_field_to_field is_dynamic
        validate_and_init_embed_field check_and_add_nested_field regex_match
        detect_new_fields validate_index_in_memory split alter_payload docs
        (set_alter_status true (validated_docs c) (altered_docs c) c)
      = (Stop code message, c1) ->
      exists c',
        alter enable_nested_fields json_field_to_field is_dynamic
          validate_and_init_embed_field check_and_add_nested_field regex_match
          detect_new_fields validate_index_in_memory split batch_alter_data update_apikey
          alter_payload docs c
        = (Returned (Error code message), c') /\
        same_declared_schema c' c /\
        embedding_fields c' = embedding_fields c1 /\
        alter_in_progress c' = false) /\
  (exists code message c',
      alter_titled add_embedding_and_price stored_titles titled_collection
      = (Returned (Error code message), c') /\
      embedding_fields titled_collection !! "emb" = None /\
      embedding_fields c' !! "emb"
      = Some (with_embed (default JNull (json_get "embed" embedding_entry))
                (mk_field "emb" "float[]" false)) /\
      schema_state c' <> schema_state titled_collection).
Proof.
  split.
  - intros enable_nested_fields json_field_to_field is_dynamic
           validate_and_init_embed_field check_and_add_nested_field regex_match
           detect_new_fields validate_index_in_memory split batch_alter_data update_apikey
           alter_payload docs c c1 code message H.
    destruct (alter_stops_at_validation _ _ _ _ _ _ _ _ _ batch_alter_data update_apikey
                _ _ _ _ _ _ H) as [Hrun Hsame].
    eexists. split; [exact Hrun|]. simpl. tauto.
  - do 3 eexists. split; [vm_compute; reflexivity|].
    split; [reflexivity|]. split; [vm_compute; reflexivity|].
    intros Heq.
    assert (Hemb : forall a b : Collection,
               schema_state a = schema_state b ->
               embedding_fields a = embedding_fields b)
      by (unfold schema_state; intros a b Hab; congruence).
    apply Hemb in Heq.
    apply (f_equal (fun m : gmap string field => m !! "emb")) in Heq.
    vm_compute in Heq. discriminate.
Qed.

(** The alteration of the fixture: the declared schema is as before. *)
Lemma alter_failed_validation_witness :
  exists c',
    alter_titled add_embedding_and_price stored_titles titled_collection
    = (Returned
         (Error 400
            ("Field `price` has been declared in the schema, but is not found in the "
             +:+ "documents already present in the collection. If you still want to add "
             +:+ "this field, set it as `optional: true`.")),
       c') /\
    search_schema c' = search_schema titled_collection /\
    fields c' = fields titled_collection.
Proof.
  unfold alter_titled.
  edestruct (proj1 alter_failed_validation false read_field (fun _ => false)
               (fun _ _ _ f => Ok f) (fun m _ => m) (fun _ _ => false)
               (fun _ _ _ _ _ => Ok []) require_price (fun _ _ => [])
               (fun _ _ _ c => (Ok true, c)) (fun _ _ c => (Ok true, c))
               add_embedding_and_price stored_titles titled_collection)
    as (c' & Hrun & (Hf & Hs & _) & _).
  - vm_compute. reflexivity.
  - exists c'. split; [exact Hrun|]. split; [exact Hs | exact Hf].
Defined.

End AlterProofs.

(* --------------------------------------------------------------------- *)
(** ** Further properties *)
(* --------------------------------------------------------------------- *)

(** ** Bucketed rescoring within the first 250 results *)

Module RescoringProofs.

Import Sort Search SearchProofs.

(** X1.  With at most 250 results of distinct keys, the text match block
    and the vector distance block of [search] only rearrange the results:
    every result leaves with the scores it came with, whatever the
    buckets asked for. *)
Theorem bucketing_keeps_scores (partial_sort : nat -> list kv_group -> list kv_group)
    (sort_fields_std : list sort_by) (raw_result_kvs : list kv_group) :
  (forall middle l, Permutation (partial_sort middle l) l) ->
  Z.of_nat (length raw_result_kvs) <= DEFAULT_TOPSTER_SIZE ->
  NoDup (List.map (fun g => key (first_kv g)) raw_result_kvs) ->
  Permutation (bucket_text_match partial_sort sort_fields_std raw_result_kvs)
    raw_result_kvs /\
  Permutation (bucket_vector_distance partial_sort sort_fields_std raw_result_kvs)
    raw_result_kvs.
Proof.
  intros Hsort Hsize Hkeys. split.
  - unfold bucket_text_match.
    destruct (find_bucketed_clause _ _ _ _ _) as [[i s]|]; [|reflexivity].
    destruct ((0 <? text_match_buckets s) || (0 <? text_match_bucket_size s));
      [|reflexivity].
    apply (rescore_rearranges 0 (fun _ => None) partial_sort Hsort); try assumption.
    intros kv slot v. reflexivity.
  - unfold bucket_vector_distance.
    destruct (find_bucketed_clause _ _ _ _ _) as [[i s]|]; [|reflexivity].
    destruct ((0 <? vector_search_buckets s) || (0 <? vector_search_bucket_size s));
      [|reflexivity].
    apply (rescore_rearranges 0 (fun _ => None) partial_sort Hsort); try assumption.
    intros kv slot v. reflexivity.
Qed.

(** Five results in two buckets. *)
Lemma bucketing_keeps_scores_witness :
  Permutation (bucket_text_match std_partial_sort two_buckets five_results) five_results.
Proof.
  refine (proj1 (bucketing_keeps_scores std_partial_sort two_buckets five_results
                   std_partial_sort_permutes _ _)).
  - vm_compute. discriminate.
  - apply (bool_decide_unpack _). vm_compute. exact I.
Defined.

End RescoringProofs.

(** ** The sort clauses a union accepts *)

Module UnionCheckProofs.

Import Sort Union.

Lemma sort_by_type_eqb_true (a b : sort_by_type) : sort_by_type_eqb a b = true <-> a = b.
Proof. destruct a, b; simpl; split; intros H; first [reflexivity | discriminate]. Qed.

Lemma compare_clauses_accepts (search_index : Z) (append_hint : string) :
  forall this first,
    length this = length first ->
    compare_clauses search_index append_hint this first = None <->
    Forall2 (fun t f => type t = type f /\ order t = order f) this first.
Proof.
  induction this as [|t this IH]; intros [|f first] Hlen; try discriminate.
  - simpl. split; [constructor | reflexivity].
  - simpl.
    destruct (sort_by_type_eqb (type t) (type f)) eqn:Et; simpl.
    + apply sort_by_type_eqb_true in Et.
      destruct (String.eqb_spec (order t) (order f)) as [Eo|Eo]; simpl.
      * rewrite IH by (simpl in Hlen; lia).
        split; [intros H; constructor; auto | intros H; now inversion H].
      * split; [discriminate | intros H; inversion H; tauto].
    + split; [discriminate|]. intros H. inversion H as [|? ? ? ? [Ht _]]; subst.
      apply sort_by_type_eqb_true in Ht. congruence.
Qed.

(** X2.  The comparison of a later search of a union with the first one
    lets the search through exactly when both sort on the same number of
    clauses and, position by position, on the same type in the same
    order; the names of the clauses, the collections and the use of a
    default sorting field play no part. *)
Theorem sort_compatibility_accepts (search_index : Z)
    (default_sorting_field_used first_request_default_sorting_field_used : bool)
    (this_collection first_search_collection_name : string) (this first : list sort_by) :
  check_sort_compatibility search_index default_sorting_field_used
    first_request_default_sorting_field_used this_collection
    first_search_collection_name this first = None <->
  Forall2 (fun t f => type t = type f /\ order t = order f) this first.
Proof.
  unfold check_sort_compatibility.
  destruct (Nat.eqb_spec (length this) (length first)) as [Hlen|Hlen]; simpl.
  - now apply compare_clauses_accepts.
  - split; [discriminate|]. intros H. apply Forall2_length in H. contradiction.
Qed.

End UnionCheckProofs.

(** ** Hidden hits in the curation *)

Module HiddenHitsProofs.

Import Curation.

Lemma for_each_invariant {A S : Type} (P : S -> Prop) (body : A -> S -> flow * S)
    (l : list A) :
  (forall x s, P s -> P (snd (body x s))) ->
  forall s, P s -> P (snd (for_each body l s)).
Proof.
  intros Hbody. induction l as [|x l IH]; intros s Hs; simpl; [exact Hs|].
  specialize (Hbody x s Hs).
  destruct (body x s) as [[] s']; simpl in *; [now apply IH | exact Hbody].
Qed.

Lemma fold_left_invariant {A S : Type} (P : S -> Prop) (f : S -> A -> S) (l : list A) :
  (forall s x, P s -> P (f s x)) ->
  forall s, P s -> P (fold_left f l s).
Proof.
  intros Hf. induction l as [|x l IH]; intros s Hs; simpl; [exact Hs|].
  apply IH, Hf, Hs.
Qed.

(** The sequence id is excluded and has not been included. *)
Local Abbreviation hidden seq_id st :=
  (seq_id ∈ excluded_set st /\ In seq_id (excluded_ids st) /\
   ~ In seq_id (List.map fst (included_ids st))).

Section Curate.

Variable doc_id_to_seq_id : string -> option Z.
Variable now_epoch : Z.
Variable contains_word : string -> string -> bool.
Variable replace_all : string -> string -> string -> string.
Variable trim : string -> string.
Variable normalize : string -> string.

Lemma exclude_hits_hidden (seq_id : Z) (hits : list string) (st : curation) :
  hidden seq_id st -> hidden seq_id (exclude_hits doc_id_to_seq_id hits st).
Proof.
  unfold exclude_hits. apply (fold_left_invariant (fun st => hidden seq_id st)).
  intros s hit (H1 & H2 & H3).
  destruct (doc_id_to_seq_id hit) as [x|]; simpl; [|tauto].
  split; [apply elem_of_union; now right|]. split; [apply in_or_app; tauto | exact H3].
Qed.

Lemma exclude_hits_hides (seq_id : Z) (hit : string) (hits : list string) :
  In hit hits -> doc_id_to_seq_id hit = Some seq_id ->
  forall st, ~ In seq_id (List.map fst (included_ids st)) ->
             hidden seq_id (exclude_hits doc_id_to_seq_id hits st).
Proof.
  unfold exclude_hits.
  induction hits as [|h hits IH]; intros Hin Hseq st Hst; [contradiction|].
  simpl. destruct Hin as [->|Hin].
  - rewrite Hseq.
    apply (fold_left_invariant (fun st => hidden seq_id st)).
    + intros s x (H1 & H2 & H3).
      destruct (doc_id_to_seq_id x) as [y|]; simpl; [|tauto].
      split; [apply elem_of_union; now right|].
      split; [apply in_or_app; tauto | exact H3].
    + simpl. split; [apply elem_of_union; left; now apply elem_of_singleton|].
      split; [apply in_or_app; simpl; tauto | exact Hst].
  - apply (IH Hin Hseq). destruct (doc_id_to_seq_id h); simpl; exact Hst.
Qed.

Lemma include_hits_hidden (seq_id : Z) (hits : list add_hit_t) (st : curation) :
  hidden seq_id st -> hidden seq_id (include_hits doc_id_to_seq_id hits st).
Proof.
  unfold include_hits. apply (fold_left_invariant (fun st => hidden seq_id st)).
  intros s hit (H1 & H2 & H3).
  destruct (doc_id_to_seq_id (doc_id hit)) as [x|]; [|tauto].
  destruct (decide (x ∈ excluded_set s)) as [Hx|Hx]; simpl; [tauto|].
  split; [exact H1|]. split; [exact H2|].
  rewrite List.map_app, in_app_iff. simpl. intros [Hin|[->|[]]]; tauto.
Qed.

Lemma reshape_query_hidden (seq_id : Z) (o : override_t) (st : curation) :
  hidden seq_id st -> hidden seq_id (reshape_query replace_all trim o st).
Proof.
  intros Hst. unfold reshape_query.
  destruct (negb (is_empty (replace_query o))); [exact Hst|].
  destruct (remove_matched_tokens o && is_empty (filter_by o)); exact Hst.
Qed.

Lemma does_override_match_hidden (seq_id : Z) (o : override_t) (filter_query : string)
    (tags_matched wildcard_tag_matched : bool) (st : curation) :
  hidden seq_id st ->
  hidden seq_id
    (snd (does_override_match doc_id_to_seq_id now_epoch contains_word replace_all trim o
            filter_query tags_matched wildcard_tag_matched st)).
Proof.
  intros Hst. unfold does_override_match.
  destruct (negb wildcard_tag_matched && negb tags_matched && _); [exact Hst|].
  destruct (negb (effective_from_ts o =? -1) && _); [exact Hst|].
  destruct (negb (effective_to_ts o =? -1) && _); [exact Hst|].
  assert (Hpushed : hidden seq_id
                      (if negb (is_empty (filter_by o)) then push_filter_override o st
                       else st))
    by (destruct (negb (is_empty (filter_by o))); exact Hst).
  set (st1 := if negb (is_empty (filter_by o)) then push_filter_override o st else st) in *.
  cbv zeta.
  match goal with
  | |- context [if ?b then (true, ?x) else (false, ?y)] => destruct b
  end; cbn [snd]; [|exact Hpushed].
  apply reshape_query_hidden, include_hits_hidden, exclude_hits_hidden, Hpushed.
Qed.

(** X3.  A hidden hit of the request is never among the included ids of
    the curation, whatever the overrides and the pinned hits ask for: its
    sequence id is excluded first, and no override or pinned hit includes
    an excluded id. *)
Theorem hidden_hits_are_never_included (overrides : list (string * override_t))
    (override_tags : gmap string (list string)) (actual_query_arg filter_query : string)
    (enable_overrides : bool) (request_tags : list string) (pinned_hits : list add_hit_t)
    (hidden_hits : list string) (hit : string) (seq_id : Z) :
  In hit hidden_hits ->
  doc_id_to_seq_id hit = Some seq_id ->
  let result :=
    curate_results doc_id_to_seq_id now_epoch contains_word replace_all trim normalize
      overrides override_tags actual_query_arg filter_query enable_overrides request_tags
      pinned_hits hidden_hits in
  In seq_id (excluded_ids result) /\
  forall position, ~ In (seq_id, position) (included_ids result).
Proof.
  intros Hin Hseq result.
  assert (Hresult : hidden seq_id result).
  { unfold result, curate_results. apply include_hits_hidden.
    assert (H0 : hidden seq_id (hide_hits doc_id_to_seq_id actual_query_arg hidden_hits)).
    { unfold hide_hits. apply (exclude_hits_hides seq_id hit); auto. }
    destruct (enable_overrides && _); [|exact H0].
    assert (H1 : hidden seq_id
                   (tokenize_query normalize
                      (hide_hits doc_id_to_seq_id actual_query_arg hidden_hits)))
      by exact H0.
    set (st := tokenize_query normalize _) in *.
    destruct request_tags as [|tag tags].
    - apply (for_each_invariant (fun st => hidden seq_id st)); [|exact H1].
      intros [k o] s Hs. unfold untagged_body. cbn [snd].
      pose proof (does_override_match_hidden seq_id o filter_query false (wildcard_tag o)
                    s Hs) as Hm.
      destruct (does_override_match _ _ _ _ _ _ _ _ _ _) as [b s']. exact Hm.
    - set (P := fun ts : tag_state => hidden seq_id (fst (fst ts))).
      assert (Hexact : forall ids ts, P ts ->
                 P (snd (for_each (exact_tags_body doc_id_to_seq_id now_epoch contains_word
                                     replace_all trim overrides (tag :: tags)
                                     filter_query) ids ts))).
      { intros ids. apply (for_each_invariant P).
        intros i [[s f] a] Hs. unfold exact_tags_body.
        destruct (find_override overrides i) as [o|]; [|exact Hs].
        destruct (bool_decide _); [|exact Hs].
        pose proof (does_override_match_hidden seq_id o filter_query true false s Hs) as Hm.
        destruct (does_override_match _ _ _ _ _ _ _ _ _ _) as [[] s']; exact Hm. }
      assert (Hpartial : forall ids ts, P ts ->
                 P (snd (for_each (partial_tags_body doc_id_to_seq_id now_epoch
                                     contains_word replace_all trim overrides
                                     (tag :: tags) filter_query) ids ts))).
      { intros ids. apply (for_each_invariant P).
        intros i [[s f] a] Hs. unfold partial_tags_body.
        destruct (decide (i ∈ f)); [exact Hs|].
        destruct (find_override overrides i) as [o|]; [|exact Hs].
        destruct (existsb _ _); [|exact Hs].
        pose proof (does_override_match_hidden seq_id o filter_query true false s Hs) as Hm.
        destruct (does_override_match _ _ _ _ _ _ _ _ _ _) as [[] s']; exact Hm. }
      assert (Hts : P
                (if (1 <? length (tag :: tags))%nat then
                   match override_tags !! tag with
                   | Some override_ids =>
                       snd (for_each (exact_tags_body doc_id_to_seq_id now_epoch
                                        contains_word replace_all trim overrides
                                        (tag :: tags) filter_query)
                              override_ids ((st, ∅, false) : tag_state))
                   | None => (st, ∅, false)
                   end
                 else (st, ∅, false))).
      { destruct (1 <? length (tag :: tags))%nat; [|exact H1].
        destruct (override_tags !! tag); [|exact H1]. apply Hexact. exact H1. }
      destruct (if (1 <? length (tag :: tags))%nat then _ else _) as [[s f] a] eqn:E.
      destruct a; [exact Hts|].
      unfold partial_tags_pass.
      apply (fold_left_invariant P); [|exact Hts].
      intros ts t Hs. destruct (override_tags !! t); [|exact Hs]. now apply Hpartial. }
  destruct Hresult as (_ & Hex & Hinc). split; [exact Hex|].
  intros position Hp. apply Hinc. apply List.in_map_iff. now exists (seq_id, position).
Qed.

End Curate.

(** The document [1] is hidden and also pinned, and the override on
    [shoes] drops it again. *)
Lemma hidden_hits_are_never_included_witness :
  let result :=
    curate_results stored_seq_id 0 (fun _ _ => false) (fun s _ _ => s)
      (fun s => s) (fun s => s) [("u1", stop_on_shoes)] ∅ "shoes" "" true []
      [{| doc_id := "1"; position := 1 |}; {| doc_id := "2"; position := 2 |}]
      ["1"] in
  In 1 (excluded_ids result) /\
  forall position, ~ In (1, position) (included_ids result).
Proof.
  exact (hidden_hits_are_never_included stored_seq_id 0 (fun _ _ => false)
           (fun s _ _ => s) (fun s => s) (fun s => s) [("u1", stop_on_shoes)] ∅
           "shoes" "" true []
           [{| doc_id := "1"; position := 1 |}; {| doc_id := "2"; position := 2 |}]
           ["1"] "1" 1 (or_introl eq_refl) eq_refl).
Defined.

End HiddenHitsProofs.

(** ** The status of an alteration *)

Module AlterStatusProofs.

Import Schema Alter AlterStatus.

Lemma check_store_alter_status_msg_history (success : bool) (msg : string)
    (c : Collection) :
  exists entry,
    entry_success entry = Some success /\
    alter_history (check_store_alter_status_msg success msg c)
    = (if (length (alter_history c) =? ALTER_STATUS_MSG_COUNT)%nat
       then tl (alter_history c) else alter_history c) ++ [entry].
Proof.
  unfold check_store_alter_status_msg. simpl.
  eexists. split; [|reflexivity].
  destruct success; reflexivity.
Qed.

Lemma history_stays_bounded (l : list json) (entry : json) :
  (length l <= ALTER_STATUS_MSG_COUNT)%nat ->
  (length ((if (length l =? ALTER_STATUS_MSG_COUNT)%nat then tl l else l) ++ [entry])
   <= ALTER_STATUS_MSG_COUNT)%nat.
Proof.
  unfold ALTER_STATUS_MSG_COUNT. intros H. rewrite length_app. simpl.
  destruct (Nat.eqb_spec (length l) 5) as [E|E].
  - destruct l; simpl in *; lia.
  - lia.
Qed.

Section Validation.

Variable enable_nested_fields : bool.
Variable json_field_to_field : bool -> json -> string -> Z -> Option (field * string * Z).
Variable is_dynamic : field -> bool.
Variable validate_and_init_embed_field :
  gmap string field -> json -> list json -> field -> Option field.
Variable check_and_add_nested_field : gmap string field -> field -> gmap string field.
Variable regex_match : string -> string -> bool.
Variable detect_new_fields :
  json -> gmap string field -> gmap string field -> gmap string field -> string ->
  Option (list field).
Variable validate_index_in_memory :
  json -> Z -> string -> gmap string field -> gmap string field -> string -> Option bool.
Variable split : string -> string -> list string.
Variable batch_alter_data :
  list field -> list field -> string -> Collection -> Option bool * Collection.
Variable update_apikey : json -> string -> Collection -> Option bool * Collection.

Local Abbreviation validate :=
  (validate_alter_payload enable_nested_fields json_field_to_field is_dynamic
     validate_and_init_embed_field check_and_add_nested_field regex_match
     detect_new_fields validate_index_in_memory split).
Local Abbreviation run_alter :=
  (alter enable_nested_fields json_field_to_field is_dynamic
     validate_and_init_embed_field check_and_add_nested_field regex_match
     detect_new_fields validate_index_in_memory split batch_alter_data update_apikey).

Lemma validate_keeps_status (schema_changes : json) (docs : list (Z * option json))
    (c c' : Collection) (r : step alter_plan) :
  validate schema_changes docs c = (r, c') ->
  alter_in_progress c' = alter_in_progress c /\ alter_history c' = alter_history c.
Proof.
  unfold validate_alter_payload. intros H.
  repeat match type of H with
         | (match ?x with _ => _ end) = _ => destruct x eqn:?
         | (if ?x then _ else _) = _ => destruct x eqn:?
         | (let '(_, _) := ?x in _) = _ => destruct x eqn:?
         end;
    injection H as <- <-; split; reflexivity.
Qed.

(** The status counters as [reset_alter_status_counters] leaves them. *)
Local Abbreviation at_rest c :=
  (alter_in_progress c = false /\ validated_docs c = 0 /\ altered_docs c = 0).

Lemma update_apikeys_failed (update_fields : list field) :
  forall c code m c',
    update_apikeys update_apikey update_fields c = (Error code m, c') -> at_rest c'.
Proof.
  induction update_fields as [|f rest IH]; intros c code m c' H; simpl in H.
  - discriminate.
  - destruct (has_embed_from f); [|now apply IH in H].
    destruct (update_apikey _ _ c) as [[v|code' m'] c1].
    + now apply IH in H.
    + injection H as <- <- <-. simpl. auto.
Qed.

(** X4.  [alter_in_progress] is cleared, and both counters are back at
    zero, whenever [alter] returns, be it with success or with an error of
    the validation, of a mutation phase or of a credential update; so
    [get_alter_schema_status] then answers that no alteration is running.
    When the validation is left by an exception instead, the flag stays
    set. *)
Theorem alter_clears_status_on_return (name : string) (alter_payload : json)
    (docs : list (Z * option json)) (c c' : Collection) (outcome_ : outcome bool) :
  run_alter alter_payload docs c = (outcome_, c') ->
  match outcome_ with
  | Returned _ =>
      alter_in_progress c' = false /\ validated_docs c' = 0 /\ altered_docs c' = 0 /\
      get_alter_schema_status name c' = Error 400 "No active alter operation running."
  | Thrown => alter_in_progress c' = true
  end.
Proof.
  unfold alter. intros H.
  assert (Hrest : forall x : Collection,
             at_rest x ->
             alter_in_progress x = false /\ validated_docs x = 0 /\ altered_docs x = 0 /\
             get_alter_schema_status name x
             = Error 400 "No active alter operation running.").
  { intros x (H1 & H2 & H3). unfold get_alter_schema_status. rewrite H1. auto. }
  destruct (validate alter_payload docs _) as [[p|code m|] c1] eqn:Ev.
  - destruct (negb (String.eqb (this_fallback_field_type p) "") && _).
    { injection H as <- <-. apply Hrest. simpl. auto. }
    destruct (batch_alter_data _ _ _ _) as [[v|code m] c2].
    + destruct (match reindex_fields p with [] => _ | _ => _ end) as [[v'|code m] c3].
      * destruct (update_apikeys update_apikey (update_fields p) c3)
          as [[v''|code m] c4] eqn:Eu.
        -- injection H as <- <-. apply Hrest. simpl. auto.
        -- injection H as <- <-. apply Hrest. now apply update_apikeys_failed in Eu.
      * unfold alter_data_failed in H. injection H as <- <-. apply Hrest. simpl. auto.
    + unfold alter_data_failed in H. injection H as <- <-. apply Hrest. simpl. auto.
  - injection H as <- <-. apply Hrest. simpl. auto.
  - injection H as <- <-. now rewrite (proj1 (validate_keeps_status _ _ _ _ _ Ev)).
Qed.

Lemma update_apikeys_history (update_fields : list field) :
  (forall j n c, alter_history (snd (update_apikey j n c)) = alter_history c) ->
  forall c r c',
    update_apikeys update_apikey update_fields c = (r, c') ->
    match r with
    | Ok _ => alter_history c' = alter_history c
    | Error _ _ =>
        exists entry,
          entry_success entry = Some false /\
          alter_history c'
          = (if (length (alter_history c) =? ALTER_STATUS_MSG_COUNT)%nat
             then tl (alter_history c) else alter_history c) ++ [entry]
    end.
Proof.
  intros Hkey.
  induction update_fields as [|f rest IH]; intros c r c' H; simpl in H.
  - injection H as <- <-. reflexivity.
  - destruct (has_embed_from f); [|now apply IH].
    pose proof (Hkey (default JNull (json_get "model_config" (embed f))) (name f) c) as Hk.
    destruct (update_apikey _ _ c) as [[v|code m] c1]; simpl in Hk.
    + apply IH in H. rewrite Hk in H. exact H.
    + injection H as <- <-.
      destruct (check_store_alter_status_msg_history false m c1) as (entry & Hs & Hh).
      exists entry. split; [exact Hs|]. simpl. simpl in Hh. rewrite Hh, Hk. reflexivity.
Qed.

(** X5.  Every call of [alter] that returns adds exactly one entry to the
    history of the collection, after dropping the oldest one when five are
    kept already; the entry records a success exactly when the call
    succeeded.  So the history never grows beyond five entries.  (The
    mutation phases and the credential update, which belong to other
    functions, do not write the history.) *)
Theorem alter_records_one_status (alter_payload : json) (docs : list (Z * option json))
    (c c' : Collection) (result : Option bool) :
  (forall a d t x, alter_history (snd (batch_alter_data a d t x)) = alter_history x) ->
  (forall j n x, alter_history (snd (update_apikey j n x)) = alter_history x) ->
  (length (alter_history c) <= ALTER_STATUS_MSG_COUNT)%nat ->
  run_alter alter_payload docs c = (Returned result, c') ->
  (length (alter_history c') <= ALTER_STATUS_MSG_COUNT)%nat /\
  exists entry,
    entry_success entry = Some (match result with Ok _ => true | Error _ _ => false end) /\
    alter_history c'
    = (if (length (alter_history c) =? ALTER_STATUS_MSG_COUNT)%nat
       then tl (alter_history c) else alter_history c) ++ [entry].
Proof.
  intros Hbatch Hkey Hbound H.
  assert (Hmain : exists entry,
             entry_success entry
             = Some (match result with Ok _ => true | Error _ _ => false end) /\
             alter_history c'
             = (if (length (alter_history c) =? ALTER_STATUS_MSG_COUNT)%nat
                then tl (alter_history c) else alter_history c) ++ [entry]).
  { unfold alter in H.
    destruct (validate alter_payload docs _) as [[p|code m|] c1] eqn:Ev;
      [| |discriminate].
    - pose proof (proj2 (validate_keeps_status _ _ _ _ _ Ev)) as Hv.
      simpl in Hv.
      destruct (negb (String.eqb (this_fallback_field_type p) "") && _).
      { injection H as <- <-.
        destruct (check_store_alter_status_msg_history false
                    "Alter failed: schema already contains a `.*` field." c1)
          as (entry & Hs & Hh).
        exists entry. split; [exact Hs|].
      change (alter_history (reset_alter_status_counters ?x)) with (alter_history x).
      now rewrite Hh, Hv. }
      set (c1' := if negb (String.eqb (this_fallback_field_type p) "")
                     && String.eqb (fallback_field_type c1) ""
                  then set_fallback_field_type (this_fallback_field_type p) c1 else c1)
        in *.
      assert (Hv' : alter_history c1' = alter_history c)
        by (unfold c1'; destruct (_ && _); simpl; exact Hv).
      pose proof (Hbatch (addition_fields p) (del_fields p) (fallback_field_type c1') c1')
        as Hb.
      destruct (batch_alter_data _ _ _ c1') as [[v|code m] c2]; simpl in Hb.
      + assert (Hre : forall r3 c3,
                   match reindex_fields p with
                   | [] => (Ok true, c2)
                   | _ => batch_alter_data (reindex_fields p) [] (fallback_field_type c2) c2
                   end = (r3, c3) -> alter_history c3 = alter_history c).
        { intros r3 c3 E. destruct (reindex_fields p).
          - injection E as <- <-. now rewrite Hb.
          - pose proof (Hbatch (f :: l) [] (fallback_field_type c2) c2) as Hb2.
            rewrite E in Hb2. simpl in Hb2. now rewrite Hb2, Hb. }
        destruct (match reindex_fields p with [] => _ | _ => _ end)
          as [[v'|code m] c3] eqn:Er; specialize (Hre _ _ eq_refl).
        * destruct (update_apikeys update_apikey (update_fields p) c3)
            as [[v''|code m] c4] eqn:Eu;
            pose proof (update_apikeys_history _ Hkey _ _ _ Eu) as Hu; simpl in Hu.
          -- injection H as <- <-.
             destruct (check_store_alter_status_msg_history true ""
                         (reset_alter_status_counters c4)) as (entry & Hs & Hh).
             exists entry. split; [exact Hs|]. rewrite Hh.
             change (alter_history (reset_alter_status_counters c4))
               with (alter_history c4).
             now rewrite Hu, Hre.
          -- injection H as <- <-. destruct Hu as (entry & Hs & Hh).
             exists entry. split; [exact Hs|]. now rewrite Hh, Hre.
        * unfold alter_data_failed in H. injection H as <- <-.
          destruct (check_store_alter_status_msg_history false
                      ("Alter failed during alter data: " +:+ m) c3) as (entry & Hs & Hh).
          exists entry. split; [exact Hs|].
          change (alter_history (reset_alter_status_counters ?x)) with (alter_history x).
          now rewrite Hh, Hre.
      + unfold alter_data_failed in H. injection H as <- <-.
        destruct (check_store_alter_status_msg_history false
                    ("Alter failed during alter data: " +:+ m) c2) as (entry & Hs & Hh).
        exists entry. split; [exact Hs|].
        change (alter_history (reset_alter_status_counters ?x)) with (alter_history x).
        now rewrite Hh, Hb, Hv'.
    - pose proof (proj2 (validate_keeps_status _ _ _ _ _ Ev)) as Hv.
      simpl in Hv. injection H as <- <-.
      destruct (check_store_alter_status_msg_history false
                  ("Alter failed validation: " +:+ m) c1) as (entry & Hs & Hh).
      exists entry. split; [exact Hs|].
      change (alter_history (reset_alter_status_counters ?x)) with (alter_history x).
      now rewrite Hh, Hv. }
  split; [|exact Hmain].
  destruct Hmain as (entry & _ & ->). now apply history_stays_bounded.
Qed.

End Validation.

(** The alteration that the stored document rejects. *)
Lemma alter_clears_status_on_return_witness :
  get_alter_schema_status "titles"
    (snd (alter_titled add_embedding_and_price stored_titles titled_collection))
  = Error 400 "No active alter operation running.".
Proof.
  pose proof (alter_clears_status_on_return false read_field (fun _ => false)
                (fun _ _ _ f => Ok f) (fun m _ => m) (fun _ _ => false)
                (fun _ _ _ _ _ => Ok []) require_price (fun _ _ => [])
                (fun _ _ _ c => (Ok true, c)) (fun _ _ c => (Ok true, c)) "titles"
                add_embedding_and_price stored_titles titled_collection _ _
                (surjective_pairing _)) as H.
  change (alter false read_field _ _ _ _ _ _ _ _ _ add_embedding_and_price stored_titles
            titled_collection)
    with (alter_titled add_embedding_and_price stored_titles titled_collection) in H.
  destruct (fst (alter_titled add_embedding_and_price stored_titles titled_collection))
    eqn:E; [tauto | vm_compute in E; discriminate].
Defined.

(** The failed alteration leaves one entry that records a failure. *)
Lemma alter_records_one_status_witness :
  exists entry,
    entry_success entry = Some false /\
    alter_history
      (snd (alter_titled add_embedding_and_price stored_titles titled_collection))
    = [entry].
Proof.
  destruct (alter_titled add_embedding_and_price stored_titles titled_collection)
    as [r c'] eqn:E.
  assert (Er : r = Returned (Error 400
                 ("Field `price` has been declared in the schema, but is not found in the "
                  +:+ "documents already present in the collection. If you still want to "
                  +:+ "add this field, set it as `optional: true`.")))
    by (apply (f_equal fst) in E; vm_compute in E; now subst r).
  subst r. unfold alter_titled in E.
  destruct (proj2 (alter_records_one_status false read_field (fun _ => false)
                     (fun _ _ _ f => Ok f) (fun m _ => m) (fun _ _ => false)
                     (fun _ _ _ _ _ => Ok []) require_price (fun _ _ => [])
                     (fun _ _ _ c => (Ok true, c)) (fun _ _ c => (Ok true, c))
                     add_embedding_and_price stored_titles titled_collection c' _
                     (fun _ _ _ _ => eq_refl) (fun _ _ _ => eq_refl)
                     ltac:(simpl; unfold ALTER_STATUS_MSG_COUNT; lia) E))
    as (entry & Hs & Hh).
  exists entry. split; [exact Hs|]. exact Hh.
Defined.

End AlterStatusProofs.

(** ** Payloads an alteration refuses *)

Module AlterPayloadProofs.

Import Schema Alter.

(** An entry of the payload that is an object with a string [name]. *)
Local Abbreviation named entry :=
  (is_object entry = true /\ exists n, entry_name entry = Some n).

Lemma entry_name_contains (entry : json) (n : string) :
  entry_name entry = Some n -> json_contains "name" entry = true.
Proof.
  unfold entry_name, json_contains. now destruct (json_get "name" entry).
Qed.

Lemma collect_deletions_id (entries : list json) :
  forall delete_field_names,
    Forall (fun entry => named entry) entries ->
    (exists entry, In entry entries /\ entry_name entry = Some "id") ->
    collect_deletions entries delete_field_names
    = Stop 400 "Field `id` cannot be altered.".
Proof.
  induction entries as [|e entries IH]; intros names Hall (entry & Hin & Hid).
  - contradiction.
  - apply List.Forall_cons_iff in Hall. destruct Hall as [[Hobj (n & Hn)] Hrest].
    simpl. rewrite Hobj, (entry_name_contains _ _ Hn), Hn. cbn [negb].
    destruct (String.eqb_spec n "id") as [->|Hne]; [reflexivity|].
    apply IH; [exact Hrest|].
    exists entry. split; [|exact Hid].
    destruct Hin as [->|Hin]; [congruence | exact Hin].
Qed.

Lemma drops_first_In (entries : list json) (entry : json) :
  In entry (drops_first entries) <-> In entry entries.
Proof.
  unfold drops_first. rewrite in_app_iff, !filter_In.
  destruct (json_contains "drop" entry); simpl; intuition congruence.
Qed.

Section Validation.

Variable enable_nested_fields : bool.
Variable json_field_to_field : bool -> json -> string -> Z -> Option (field * string * Z).
Variable is_dynamic : field -> bool.
Variable validate_and_init_embed_field :
  gmap string field -> json -> list json -> field -> Option field.
Variable check_and_add_nested_field : gmap string field -> field -> gmap string field.
Variable regex_match : string -> string -> bool.
Variable detect_new_fields :
  json -> gmap string field -> gmap string field -> gmap string field -> string ->
  Option (list field).
Variable validate_index_in_memory :
  json -> Z -> string -> gmap string field -> gmap string field -> string -> Option bool.
Variable split : string -> string -> list string.
Variable batch_alter_data :
  list field -> list field -> string -> Collection -> Option bool * Collection.
Variable update_apikey : json -> string -> Collection -> Option bool * Collection.

(** X6.  A payload whose entries are objects with a string [name] and
    which names the field [id] is refused, whatever else it asks for and
    whether the entry adds or drops [id]: [alter] returns the error 400
    and the schema of the collection is as before. *)
Theorem id_cannot_be_altered (entries : list json) (docs : list (Z * option json))
    (c : Collection) :
  Forall (fun entry => named entry) entries ->
  (exists entry, In entry entries /\ entry_name entry = Some "id") ->
  exists c',
    alter enable_nested_fields json_field_to_field is_dynamic
      validate_and_init_embed_field check_and_add_nested_field regex_match
      detect_new_fields validate_index_in_memory split batch_alter_data update_apikey
      (JObj [("fields", JArr entries)]) docs c
    = (Returned (Error 400 "Field `id` cannot be altered."), c') /\
    schema_state c' = schema_state c.
Proof.
  intros Hall (entry & Hin & Hid).
  destruct entries as [|first others]; [contradiction|].
  unfold alter, validate_alter_payload.
  change (members_get "fields" [("fields", JArr (first :: others))])
    with (Some (JArr (first :: others))).
  cbn [length Nat.eqb negb].
  rewrite collect_deletions_id.
  - eexists. split; reflexivity.
  - apply List.Forall_forall. intros e He. apply (proj1 (drops_first_In _ _)) in He.
    exact (proj1 (List.Forall_forall _ _) Hall e He).
  - exists entry. split; [now apply (proj2 (drops_first_In _ _)) | exact Hid].
Qed.

End Validation.

(** A payload that drops [id] next to adding [price]. *)
Lemma id_cannot_be_altered_witness :
  fst (alter_titled (JObj [("fields", JArr [price_entry;
                                            JObj [("drop", JBool true);
                                                  ("name", JStr "id")]])])
         stored_titles titled_collection)
  = Returned (Error 400 "Field `id` cannot be altered.").
Proof.
  unfold alter_titled.
  destruct (id_cannot_be_altered false read_field (fun _ => false) (fun _ _ _ f => Ok f)
              (fun m _ => m) (fun _ _ => false) (fun _ _ _ _ _ => Ok []) require_price
              (fun _ _ => []) (fun _ _ _ c => (Ok true, c)) (fun _ _ c => (Ok true, c))
              [price_entry; JObj [("drop", JBool true); ("name", JStr "id")]]
              stored_titles titled_collection) as (c' & Hrun & _).
  - repeat constructor; eexists; reflexivity.
  - eexists. split; [right; left; reflexivity | reflexivity].
  - now rewrite Hrun.
Defined.

End AlterPayloadProofs.

(** ** The number of sort clauses *)

Module SortCountProofs.

Import Sort SortFields.

Section Validate.

Variable search_schema : gmap string Schema.field.
Variable default_sorting_field : string.
Variable standardize_reference_clause : sort_by -> Option (list sort_by).
Variable parse_filter_query : string -> Option bool.
Variable standardize_field_clause : sort_by -> Option sort_by.

Lemma default_clauses_length (is_wildcard_query is_vector_query is_union_search : bool)
    (union_search_index : Z) (l : list sort_by) :
  default_clauses search_schema default_sorting_field is_wildcard_query is_vector_query
    is_union_search union_search_index = Ok l ->
  (1 <= length l)%nat /\ (is_union_search = true -> (2 <= length l)%nat).
Proof.
  unfold default_clauses.
  set (l0 := if is_vector_query then _ else _).
  destruct (negb (String.eqb default_sorting_field "")).
  - destruct (search_schema !! default_sorting_field) as [def|]; [|discriminate].
    destruct (negb (Schema.index def)); [discriminate|].
    destruct (is_union_search && _) eqn:E; intros H; injection H as <-;
      rewrite ?length_app; simpl.
    + lia.
    + split; [lia|]. intros ->. simpl in E. apply Nat.ltb_ge in E.
      rewrite length_app in E. simpl in E. lia.
  - destruct is_union_search; simpl.
    + destruct (length l0 <? 2)%nat eqn:E; intros H; injection H as <-.
      * rewrite length_app. simpl. lia.
      * apply Nat.ltb_ge in E. lia.
    + intros H. injection H as <-. rewrite length_app. simpl. split; [lia | discriminate].
Qed.

Lemma complete_clauses_length (is_wildcard_query is_vector_query is_union_search : bool)
    (union_search_index : Z) (l : list sort_by) :
  (length l
   <= length (complete_clauses is_wildcard_query is_vector_query is_union_search
                union_search_index l))%nat /\
  (is_union_search = true ->
   existsb (has_name sort_field_const.union_search_index) l = false ->
   (2 <= length (complete_clauses is_wildcard_query is_vector_query is_union_search
                   union_search_index l))%nat).
Proof.
  unfold complete_clauses. split.
  - repeat match goal with
           | |- context [if ?b then _ else _] => destruct b
           end; rewrite ?length_app; simpl; lia.
  - intros -> ->. cbn [negb andb].
    repeat match goal with
           | |- context [if ?b then _ else _] => destruct b eqn:?
           end;
      repeat match goal with
             | H : (_ <? _)%nat = false |- _ => apply Nat.ltb_ge in H
             | H : _ && _ = false |- _ => clear H
             | H : _ && _ = true |- _ => clear H
             end;
      rewrite ?length_app in *; simpl in *; lia.
Qed.

(** X7.  A successful validation of the sort clauses of a search (the
    clauses of a reference apart) leaves between one and three clauses,
    whatever the request asked for; for a search of a union it leaves at
    least two, unless the request itself sorts on [_union_search_index]. *)
Theorem sort_clauses_are_one_to_three (sort_fields : list sort_by)
    (is_wildcard_query is_vector_query is_union_search : bool) (union_search_index : Z)
    (sort_fields_std : list sort_by) :
  validate_and_standardize_sort_fields search_schema default_sorting_field
    standardize_reference_clause parse_filter_query standardize_field_clause sort_fields
    is_wildcard_query is_vector_query false is_union_search union_search_index
  = Ok sort_fields_std ->
  (1 <= length sort_fields_std <= 3)%nat /\
  (is_union_search = true ->
   (2 <= length sort_fields_std)%nat \/
   existsb (has_name sort_field_const.union_search_index) sort_fields_std = true).
Proof.
  unfold validate_and_standardize_sort_fields. intros H.
  destruct (standardize_clauses _ _ _ _ _ _) as [[std cnt]|]; [|discriminate].
  set (defaulted := match std with [] => _ | _ => Ok std end) in H.
  destruct defaulted as [l|] eqn:Ed; [|discriminate].
  assert (Hl : (1 <= length l)%nat /\
               (is_union_search = true ->
                (2 <= length l)%nat \/
                existsb (has_name sort_field_const.union_search_index) l = true \/
                existsb (has_name sort_field_const.union_search_index) l = false)).
  { unfold defaulted in Ed. destruct std as [|s std].
    - apply default_clauses_length in Ed. destruct Ed as [H1 H2].
      split; [exact H1|]. intros Hu. left. auto.
    - injection Ed as <-. split; [simpl; lia|]. intros _. right.
      destruct (existsb _ _); auto. }
  destruct (complete_clauses_length is_wildcard_query is_vector_query is_union_search
              union_search_index l) as [Hge Hunion].
  destruct (3 <? length _)%nat eqn:E3; [discriminate|].
  destruct (1 <? cnt); [discriminate|].
  injection H as <-. apply Nat.ltb_ge in E3.
  split; [lia|]. intros Hu.
  destruct (existsb (has_name sort_field_const.union_search_index) l) eqn:Ex.
  - right. unfold complete_clauses. rewrite Ex. cbn [negb andb].
    set (l1 := if _ && _ && _ then _ else l).
    assert (H1 : existsb (has_name sort_field_const.union_search_index) l1 = true).
    { unfold l1. destruct (_ && _ && _); [|exact Ex].
      rewrite existsb_app, Ex. reflexivity. }
    destruct (_ && _ && _ && _); [|exact H1].
    rewrite existsb_app, H1. reflexivity.
  - left. now apply Hunion.
Qed.

End Validate.

(** A wildcard search of a union over a collection that sorts on [points]
    by default. *)
Lemma sort_clauses_are_one_to_three_witness :
  exists sort_fields_std,
    validate_and_standardize_sort_fields points_schema "points"
      (fun _ => Ok []) (fun _ => Ok true) (fun s => Ok s) [] true false false true 1
    = Ok sort_fields_std /\
    (1 <= length sort_fields_std <= 3)%nat.
Proof.
  eexists. split; [vm_compute; reflexivity|].
  refine (proj1 (sort_clauses_are_one_to_three points_schema "points" (fun _ => Ok [])
                   (fun _ => Ok true) (fun s => Ok s) [] true false true 1 _ _)).
  vm_compute. reflexivity.
Defined.

End SortCountProofs.

(** ** The fields of a text match score put together again *)

Module TextMatchFieldsProofs.

Import TextMatch TextMatchProofs.

(** Two adjacent bit ranges make up the range they cover. *)
Lemma bits_glue (v lo mid hi : Z) :
  0 <= lo <= mid -> mid <= hi ->
  bits v lo hi = bits v (mid + 1) hi * 2 ^ (mid + 1 - lo) + bits v lo mid.
Proof.
  intros Hlo Hhi. unfold bits.
  replace (hi - lo + 1) with ((mid - lo + 1) + (hi - (mid + 1) + 1)) by lia.
  rewrite Z.pow_add_r by lia.
  assert (Ha : 0 < 2 ^ (mid - lo + 1)) by (apply Z.pow_pos_nonneg; lia).
  assert (Hb : 0 < 2 ^ (hi - (mid + 1) + 1)) by (apply Z.pow_pos_nonneg; lia).
  rewrite Z.rem_mul_r by lia.
  rewrite Z.div_div by (try apply Z.pow_pos_nonneg; lia).
  rewrite <- Z.pow_add_r by lia.
  replace (lo + (mid - lo + 1)) with (mid + 1) by lia.
  replace (mid + 1 - lo) with (mid - lo + 1) by lia.
  lia.
Qed.

Lemma low_bits (v hi : Z) : 0 <= hi -> bits v 0 hi = v mod 2 ^ (hi + 1).
Proof.
  intros H. unfold bits. rewrite Z.pow_0_r, Z.div_1_r. f_equal. f_equal. lia.
Qed.

(** X8.  The fields [populate_text_match_info] extracts from a score lose
    nothing but its top bit: under either scheme, the 63 low bits of the
    score are the four fields [tokens_matched], best field score, best
    field weight and [fields_matched] shifted back to their places. *)
Theorem text_match_fields_rebuild_score (match_score : Z) :
  is_uint64 match_score ->
  match_score mod 2 ^ 63
  = extract_bits match_score 59 4 * 2 ^ 59 + extract_bits match_score 11 48 * 2 ^ 11
    + extract_bits match_score 3 8 * 2 ^ 3 + extract_bits match_score 0 3 /\
  match_score mod 2 ^ 63
  = extract_bits match_score 59 4 * 2 ^ 59 + extract_bits match_score 51 8 * 2 ^ 51
    + extract_bits match_score 3 48 * 2 ^ 3 + extract_bits match_score 0 3.
Proof.
  intros _.
  rewrite (extract_bits_bits match_score 59 4 : _ -> _ -> _ = bits match_score 59 62) by lia.
  rewrite (extract_bits_bits match_score 0 3 : _ -> _ -> _ = bits match_score 0 2) by lia.
  rewrite (extract_bits_bits match_score 11 48 : _ -> _ -> _ = bits match_score 11 58) by lia.
  rewrite (extract_bits_bits match_score 3 8 : _ -> _ -> _ = bits match_score 3 10) by lia.
  rewrite (extract_bits_bits match_score 51 8 : _ -> _ -> _ = bits match_score 51 58) by lia.
  rewrite (extract_bits_bits match_score 3 48 : _ -> _ -> _ = bits match_score 3 50) by lia.
  change (2 ^ 63) with (2 ^ (62 + 1)). rewrite <- (low_bits match_score 62) by lia.
  split.
  - rewrite (bits_glue match_score 0 58 62) by lia.
    rewrite (bits_glue match_score 0 10 58) by lia.
    rewrite (bits_glue match_score 0 2 10) by lia.
    change (58 + 1) with 59. change (10 + 1) with 11. change (2 + 1) with 3.
    change (59 - 0) with 59. change (11 - 0) with 11. change (3 - 0) with 3. lia.
  - rewrite (bits_glue match_score 0 58 62) by lia.
    rewrite (bits_glue match_score 0 50 58) by lia.
    rewrite (bits_glue match_score 0 2 50) by lia.
    change (58 + 1) with 59. change (50 + 1) with 51. change (2 + 1) with 3.
    change (59 - 0) with 59. change (51 - 0) with 51. change (3 - 0) with 3. lia.
Qed.

(** The score of the layout example. *)
Lemma text_match_fields_rebuild_score_witness :
  1157451471441100921 mod 2 ^ 63
  = extract_bits 1157451471441100921 59 4 * 2 ^ 59
    + extract_bits 1157451471441100921 11 48 * 2 ^ 11
    + extract_bits 1157451471441100921 3 8 * 2 ^ 3 + extract_bits 1157451471441100921 0 3.
Proof.
  refine (proj1 (text_match_fields_rebuild_score 1157451471441100921 _)).
  unfold is_uint64, UINT64_MODULUS. lia.
Defined.

End TextMatchFieldsProofs.

(** ** Reference arrays that do not hold the removed value *)

Module CascadeAbsentProofs.

Import Cascade CascadeProofs CascadeAbsent.

(** One owning document that does not hold the removed value. *)
Lemma array_rule_without_reference (reference_helper_fields field_name
    ref_helper_field_name : string) (ref_value : json) (is_field_optional : bool)
    (seq_id : Z) (existing_document : json) (r : cascade_result) (id : string)
    (values helpers : list json) :
  field_name <> ref_helper_field_name ->
  json_get "id" existing_document = Some (JStr id) ->
  json_get field_name existing_document = Some (JArr values) ->
  json_get ref_helper_field_name existing_document = Some (JArr helpers) ->
  length helpers = length values ->
  (1 < length values)%nat ->
  type_of (hd JNull values) = type_of ref_value ->
  existsb (fun v => json_eqb v ref_value) values = false ->
  array_rule reference_helper_fields field_name ref_helper_field_name ref_value
    is_field_optional seq_id existing_document r = Some r.
Proof.
  intros Hne Hid Hf Hh Hlen Hmany Hty Hin.
  unfold array_rule, json_contains. rewrite Hid, Hf, Hh.
  change (default JNull (Some (JArr values))) with (JArr values).
  change (default JNull (Some (JArr helpers))) with (JArr helpers).
  cbn [negb is_array json_items].
  replace (json_empty (JArr values)) with false
    by (destruct values; [simpl in Hmany; lia | reflexivity]).
  replace (json_type_eqb (type_of (hd JNull values)) (type_of ref_value)) with true
    by (symmetry; now apply json_type_eqb_eq).
  cbn [negb json_size]. rewrite Hlen, Z.eqb_refl. cbn [negb].
  replace (1 <? Z.of_nat (length values)) with true by (symmetry; apply Z.ltb_lt; lia).
  pose proof (drop_reference_pairs field_name ref_helper_field_name ref_value Hne
                values helpers
                (json_set field_name (JArr []) (json_set "id" (JStr id) JNull))
                false [] [] Hlen) as Hloop.
  cbv zeta in Hloop.
  destruct (drop_reference field_name ref_helper_field_name ref_value values helpers
              (json_set field_name (JArr []) (json_set "id" (JStr id) JNull)) false)
    as [update_document found].
  destruct Hloop as (_ & _ & _ & H4).
  - now rewrite json_get_set_eq.
  - destruct (String.eqb_spec field_name ref_helper_field_name) as [E|_]; [contradiction|].
    rewrite json_get_set_ne by exact Hne.
    destruct (String.eqb_spec "id" ref_helper_field_name) as [<-|Hid'].
    + rewrite Hid in Hh. discriminate.
    + rewrite json_get_set_ne by exact Hid'. reflexivity.
  - cbn [snd] in H4. rewrite Hin in H4. now subst found.
Qed.


Section CascadeRemove.

Variable REFERENCE_HELPER_FIELD_SUFFIX : string.
Variable reference_helper_fields : string.
Variable get_filter_ids : string -> list Z.
Variable search_schema : gmap string Schema.field.
Variable is_singular : Schema.field -> bool.
Variable reference_fields : gmap string (string * string).
Variable get_document_from_store : Z -> option json.

Lemma for_documents_without_reference (field_name ref_helper_field_name : string)
    (ref_value : json) (is_field_optional : bool) (r : cascade_result) :
  field_name <> ref_helper_field_name ->
  forall docs,
    List.Forall
      (fun o => lacks_reference field_name ref_helper_field_name ref_value (snd o))
      (stored_documents get_document_from_store docs) ->
    for_documents get_document_from_store
      (array_rule reference_helper_fields field_name ref_helper_field_name ref_value
         is_field_optional) docs r
    = Some r.
Proof.
  intros Hne docs. induction docs as [|seq_id docs IH]; intros Hall; [reflexivity|].
  cbn [for_documents stored_documents] in *.
  destruct (get_document_from_store seq_id) as [document|]; [|now apply IH].
  apply List.Forall_cons_iff in Hall. destruct Hall as [Hdoc Hall]. cbn [snd] in Hdoc.
  destruct Hdoc as (id & values & helpers & Hid & Hf & Hh & Hlen & Hmany & Hty & Hin).
  rewrite (array_rule_without_reference reference_helper_fields field_name
             ref_helper_field_name ref_value is_field_optional seq_id document r id
             values helpers Hne Hid Hf Hh Hlen Hmany Hty Hin).
  now apply IH.
Qed.

(** X9.  When every owning document that the index lists and the store
    holds has more than one reference of the type of the removed value
    (with a string id and one helper entry for each reference) and none
    of its references is the removed value, [cascade_remove_docs] on an
    array reference field removes no document and updates none. *)
Theorem untouched_without_reference (field_name : string) (ref_seq_id : Z)
    (ref_doc : json) (f : Schema.field) (ref_coll_name ref_field_name : string)
    (ref_value : json) :
  let ref_helper_field_name := field_name +:+ REFERENCE_HELPER_FIELD_SUFFIX in
  let owners :=
    stored_documents get_document_from_store
      (get_filter_ids (ref_helper_field_name +:+ ":" +:+ to_string ref_seq_id)) in
  search_schema !! field_name = Some f ->
  is_singular f = false ->
  reference_fields !! field_name = Some (ref_coll_name, ref_field_name) ->
  json_get ref_field_name ref_doc = Some ref_value ->
  field_name <> ref_helper_field_name ->
  List.Forall
    (fun o => lacks_reference field_name ref_helper_field_name ref_value (snd o)) owners ->
  cascade_remove_docs REFERENCE_HELPER_FIELD_SUFFIX reference_helper_fields
    get_filter_ids search_schema is_singular reference_fields get_document_from_store
    field_name ref_seq_id ref_doc
  = Some nothing.
Proof.
  intros ref_helper_field_name owners Hschema Hsingular Href Hvalue Hne Hall.
  unfold cascade_remove_docs. fold ref_helper_field_name. unfold owners in Hall.
  destruct (get_filter_ids (ref_helper_field_name +:+ ":" +:+ to_string ref_seq_id))
    as [|seq_id docs]; [reflexivity|].
  rewrite Hschema, Hsingular, Href, Hvalue.
  destruct (is_array ref_value); [reflexivity|].
  now apply for_documents_without_reference.
Qed.

End CascadeRemove.

(** The category [c3] is removed, which the product [p1] does not refer
    to. *)
Lemma untouched_without_reference_witness : remove_category_c3 = Some nothing.
Proof.
  apply (untouched_without_reference "_sequence_id" ".ref" (fun _ => [3; 5])
           products_schema (fun _ => false) {["cats" := ("categories", "id")]}
           products_store "cats" 9 (JObj [("id", JStr "c3")])
           {| Schema.name := "cats"; Schema.type := "string[]"; Schema.facet := false;
              Schema.optional := false; Schema.index := true; Schema.sort := false;
              Schema.nested := false; Schema.embed := JNull |}
           "categories" "id" (JStr "c3")).
  - reflexivity.
  - reflexivity.
  - reflexivity.
  - reflexivity.
  - discriminate.
  - repeat constructor.
    exists "p1", [JStr "c1"; JStr "c2"], [JNum 7; JNum 8].
    repeat split. simpl. lia.
Defined.

End CascadeAbsentProofs.

(** ** Hiding credentials and the helper members of a document *)

Module DocumentsProofs.

Import Documents.

Lemma members_get_erase_eq (k : string) (ms : list (string * json)) :
  members_get k (members_erase k ms) = None.
Proof.
  induction ms as [|[k' v] ms IH]; simpl; [reflexivity|].
  destruct (String.eqb k k') eqn:E; [exact IH|]. simpl. now rewrite E.
Qed.

Lemma members_get_erase_ne (k k' : string) (ms : list (string * json)) :
  k <> k' -> members_get k' (members_erase k ms) = members_get k' ms.
Proof.
  intros Hne. induction ms as [|[k0 v] ms IH]; simpl; [reflexivity|].
  destruct (String.eqb_spec k k0) as [<-|Hk0]; simpl.
  - destruct (String.eqb_spec k' k) as [->|_]; [contradiction | exact IH].
  - now rewrite IH.
Qed.

Lemma json_get_erase_eq (k : string) (j : json) :
  is_object j = true -> json_get k (json_erase k j) = None.
Proof. destruct j; try discriminate. intros _. apply members_get_erase_eq. Qed.

Lemma json_get_erase_ne (k k' : string) (j : json) :
  k <> k' -> json_get k' (json_erase k j) = json_get k' j.
Proof. intros Hne. destruct j; try reflexivity. now apply members_get_erase_ne. Qed.

Lemma json_erase_object (k : string) (j : json) : is_object (json_erase k j) = is_object j.
Proof. now destruct j. Qed.

(** Erasing a list of keys. *)
Lemma erase_keys (keys : list string) :
  forall document,
    let erased := fold_left (fun document key => json_erase key document) keys document in
    is_object erased = is_object document /\
    (forall k, In k keys -> is_object document = true -> json_get k erased = None) /\
    (forall k, ~ In k keys -> json_get k erased = json_get k document).
Proof.
  induction keys as [|key keys IH]; intros document; simpl.
  - split; [reflexivity|]. split; [intros k []|reflexivity].
  - destruct (IH (json_erase key document)) as (H1 & H2 & H3).
    split; [now rewrite H1, json_erase_object|]. split.
    + intros k [->|Hin] Hobj.
      * destruct (in_dec String.string_dec k keys) as [Hk|Hk].
        -- apply H2; [exact Hk | now rewrite json_erase_object].
        -- rewrite H3 by exact Hk. now apply json_get_erase_eq.
      * apply H2; [exact Hin | now rewrite json_erase_object].
    + intros k Hk. rewrite H3 by tauto. apply json_get_erase_ne. tauto.
Qed.

Lemma contains_is_object (k : string) (j : json) :
  json_contains k j = true -> is_object j = true.
Proof. unfold json_contains. now destruct j. Qed.

(** X10.  [remove_flat_fields] on a document whose [.flat] member lists
    keys: neither [.flat] nor any listed key is left in the document, and
    every other member is as before.  A document without [.flat] is
    returned as it is. *)
Theorem flat_fields_are_removed (document : json) :
  (json_contains ".flat" document = false -> remove_flat_fields document = Some document) /\
  (forall flat_keys,
      json_contains ".flat" document = true ->
      Analytics.get_string_vector (default JNull (json_get ".flat" document))
      = Some flat_keys ->
      exists pruned,
        remove_flat_fields document = Some pruned /\
        json_get ".flat" pruned = None /\
        (forall k, In k flat_keys -> json_get k pruned = None) /\
        (forall k, k <> ".flat" -> ~ In k flat_keys ->
                   json_get k pruned = json_get k document)).
Proof.
  unfold remove_flat_fields. split.
  - now intros ->.
  - intros flat_keys Hflat Hkeys. rewrite Hflat, Hkeys.
    pose proof (contains_is_object _ _ Hflat) as Hobj.
    destruct (erase_keys flat_keys document) as (H1 & H2 & H3). cbv zeta in *.
    eexists. split; [reflexivity|]. split; [|split].
    + apply json_get_erase_eq. now rewrite H1.
    + intros k Hin. destruct (String.eqb_spec ".flat" k) as [<-|Hne].
      * apply json_get_erase_eq. now rewrite H1.
      * rewrite json_get_erase_ne by exact Hne. now apply H2.
    + intros k Hne Hin. rewrite json_get_erase_ne by congruence. now apply H3.
Qed.

(** The flattened document loses [.flat] and [address.city] and keeps
    [address]. *)
Lemma flat_fields_are_removed_witness :
  exists pruned,
    remove_flat_fields flattened_document = Some pruned /\
    json_get ".flat" pruned = None /\
    json_get "address.city" pruned = None /\
    json_get "address" pruned = Some (JObj [("city", JStr "Oslo")]).
Proof.
  destruct (proj2 (flat_fields_are_removed flattened_document) ["address.city"]
              eq_refl eq_refl) as (pruned & Hr & Hflat & Hlisted & Hkept).
  exists pruned. split; [exact Hr|]. split; [exact Hflat|]. split.
  - apply Hlisted. now left.
  - rewrite (Hkept "address"); [reflexivity | discriminate |].
    intros [H|[]]. discriminate.
Defined.

End DocumentsProofs.

Module CredentialProofs.

Import Documents.

Lemma list_ascii_length (s : string) : length (list_ascii_of_string s) = String.length s.
Proof. induction s as [|c s IH]; simpl; [reflexivity | now rewrite IH]. Qed.

Lemma nth_error_repeat {A} (x y : A) (n i : nat) :
  nth_error (repeat x n) i = Some y -> y = x.
Proof.
  revert i. induction n as [|n IH]; intros [|i] H; simpl in H; try discriminate.
  - now injection H.
  - now apply IH in H.
Qed.

(** X11.  [hide_credential] on a member that holds a string: the member is
    replaced, the other members are not touched, and no character of the
    credential from the sixth on is left.  A credential of more than five
    characters keeps its length and its first five characters, the rest
    being stars; a shorter one becomes eleven stars. *)
Theorem credential_is_masked (j : json) (credential_name credential : string) :
  json_get credential_name j = Some (JStr credential) ->
  exists masked,
    hide_credential j credential_name
    = Some (json_set credential_name (JStr masked) j) /\
    (forall i c, (5 <= i)%nat ->
                 nth_error (list_ascii_of_string masked) i = Some c -> c = "*"%char) /\
    ((5 < String.length credential)%nat ->
     String.length masked = String.length credential /\
     firstn 5 (list_ascii_of_string masked) = firstn 5 (list_ascii_of_string credential)) /\
    ((String.length credential <= 5)%nat -> masked = "***********").
Proof.
  intros Hget. unfold hide_credential, json_contains. rewrite Hget.
  destruct (Nat.ltb_spec 5 (String.length credential)) as [Hlong|Hshort].
  - eexists. split; [reflexivity|].
    set (l := list_ascii_of_string credential).
    assert (Hl : length l = String.length credential) by apply list_ascii_length.
    assert (Hmasked :
              replace_fill 5 (String.length credential - 5) (String.length credential - 5)
                "*"%char l
              = firstn 5 l ++ repeat "*"%char (String.length credential - 5)).
    { unfold replace_fill. rewrite skipn_all2 by lia. now rewrite app_nil_r. }
    rewrite Hmasked, list_ascii_of_string_of_list_ascii.
    split; [|split].
    + intros i c Hi Hc. rewrite nth_error_app2 in Hc by (rewrite length_firstn; lia).
      now apply nth_error_repeat in Hc.
    + intros _. split.
      * rewrite <- list_ascii_length, list_ascii_of_string_of_list_ascii.
        rewrite length_app, length_firstn, repeat_length. lia.
      * rewrite firstn_app, length_firstn.
        replace (5 - Nat.min 5 (length l))%nat with 0%nat by lia.
        rewrite firstn_firstn. simpl. now rewrite app_nil_r.
    + lia.
  - eexists. split; [reflexivity|]. split; [|split].
    + intros i c Hi Hc.
      change (list_ascii_of_string "***********") with (repeat "*"%char 11) in Hc.
      now apply nth_error_repeat in Hc.
    + lia.
    + reflexivity.
Qed.

(** An API key of twelve characters. *)
Lemma credential_is_masked_witness :
  hide_credential (JObj [("api_key", JStr "sk-abcdefghi"); ("model_name", JStr "m")])
    "api_key"
  = Some (JObj [("api_key", JStr "sk-ab*******"); ("model_name", JStr "m")]).
Proof.
  destruct (credential_is_masked
              (JObj [("api_key", JStr "sk-abcdefghi"); ("model_name", JStr "m")])
              "api_key" "sk-abcdefghi" eq_refl) as (masked & Hrun & _).
  rewrite Hrun. vm_compute. vm_compute in Hrun. now injection Hrun as <-.
Defined.

End CredentialProofs.

(** ** Keeping the overrides of a collection *)

Module OverridesProofs.

Import Curation Overrides.

Lemma find_assign_eq (k : string) (v : override_t) (l : list (string * override_t)) :
  find_override (entries_assign k v l) k = Some v.
Proof.
  induction l as [|[k' v'] l IH]; simpl.
  - now rewrite String.eqb_refl.
  - destruct (String.eqb k k') eqn:E; simpl.
    + now rewrite String.eqb_refl.
    + destruct (String.ltb k k'); simpl.
      * now rewrite String.eqb_refl.
      * rewrite String.eqb_sym, E. exact IH.
Qed.

Lemma find_assign_ne (k k' : string) (v : override_t) (l : list (string * override_t)) :
  k <> k' -> find_override (entries_assign k v l) k' = find_override l k'.
Proof.
  intros Hne.
  assert (Hkk : String.eqb k k' = false) by now apply String.eqb_neq.
  induction l as [|[k0 v0] l IH]; simpl.
  - now rewrite Hkk.
  - destruct (String.eqb_spec k k0) as [<-|Hk0]; simpl.
    + now rewrite Hkk.
    + destruct (String.ltb k k0); simpl.
      * now rewrite Hkk.
      * now rewrite IH.
Qed.

Lemma find_erase_eq (k : string) (l : list (string * override_t)) :
  find_override (entries_erase k l) k = None.
Proof.
  induction l as [|[k' v'] l IH]; simpl; [reflexivity|].
  destruct (String.eqb k k') eqn:E; [exact IH|]. simpl.
  now rewrite String.eqb_sym, E.
Qed.

Lemma find_erase_ne (k k' : string) (l : list (string * override_t)) :
  k <> k' -> find_override (entries_erase k l) k' = find_override l k'.
Proof.
  intros Hne. induction l as [|[k0 v0] l IH]; simpl; [reflexivity|].
  destruct (String.eqb_spec k k0) as [<-|Hk0]; simpl.
  - destruct (String.eqb_spec k k') as [->|_]; [contradiction | exact IH].
  - now rewrite IH.
Qed.

(** X12.  An override that has been added is the one [get_override]
    returns under its id, in place of any override kept under that id
    before, and the other overrides are returned as before; once it has
    been removed, [get_override] answers 404.  A failure of the store
    leaves everything as it was. *)
Theorem override_round_trip (o : override_t) (st : override_index) :
  (forall write_to_store,
      let added := snd (add_override true o write_to_store st) in
      fst (add_override true o write_to_store st) = Ok 200 /\
      get_override (id o) added = Ok o /\
      (forall other, other <> id o -> get_override other added = get_override other st) /\
      fst (remove_override true (id o) added) = Ok 200 /\
      get_override (id o) (snd (remove_override true (id o) added))
      = Error 404 ("override " +:+ id o +:+ " not found.")) /\
  add_override false o true st
  = (Error 500 "Error while storing the override on disk.", st) /\
  (forall i, snd (remove_override false i st) = st).
Proof.
  split; [|split].
  - intros write_to_store added.
    assert (Eadd : add_override true o write_to_store st
                   = (Ok 200, added)).
    { unfold added, add_override. now rewrite andb_false_r. }
    assert (Hfind : find_override (overrides added) (id o) = Some o).
    { unfold added, add_override. rewrite andb_false_r. apply find_assign_eq. }
    split; [now rewrite Eadd|]. split; [|split; [|split]].
    + unfold get_override. now rewrite Hfind.
    + intros other Hne. unfold get_override, added, add_override.
      rewrite andb_false_r. cbn [snd overrides].
      now rewrite find_assign_ne by congruence.
    + unfold remove_override. now rewrite Hfind.
    + unfold remove_override. rewrite Hfind. cbn [negb snd].
      unfold get_override. cbn [overrides]. now rewrite find_erase_eq.
  - reflexivity.
  - intros i. unfold remove_override. now destruct (find_override _ _).
Qed.

Lemma In_set_insert (x y : string) (l : list string) :
  In x (set_insert y l) <-> x = y \/ In x l.
Proof.
  induction l as [|z l IH]; simpl.
  - intuition congruence.
  - destruct (String.eqb_spec y z) as [->|Hyz]; simpl.
    + intuition congruence.
    + destruct (String.ltb y z); simpl; [intuition congruence|].
      rewrite IH. intuition congruence.
Qed.

Lemma In_set_erase (x y : string) (l : list string) :
  In x (set_erase y l) <-> x <> y /\ In x l.
Proof.
  induction l as [|z l IH]; simpl.
  - tauto.
  - destruct (String.eqb_spec y z) as [->|Hyz]; simpl.
    + rewrite IH. intuition congruence.
    + rewrite IH. intuition congruence.
Qed.

Lemma In_erase_from_tags (i : string) (tags_ : list string) :
  forall (m : gmap string (list string)) tag x,
    In x (default [] (erase_from_tags i tags_ m !! tag)) <->
    In x (default [] (m !! tag)) /\ (In tag tags_ -> x <> i).
Proof.
  unfold erase_from_tags.
  induction tags_ as [|t tags_ IH]; intros m tag x; simpl.
  - tauto.
  - rewrite IH.
    assert (Hstep :
              In x (default [] (match m !! t with
                                | Some ids => <[t := set_erase i ids]> m
                                | None => m
                                end !! tag)) <->
              In x (default [] (m !! tag)) /\ (t = tag -> x <> i)).
    { destruct (m !! t) as [ids|] eqn:Et.
      - destruct (String.eqb_spec t tag) as [<-|Hne].
        + rewrite lookup_insert_eq, Et. simpl. rewrite In_set_erase. tauto.
        + rewrite lookup_insert_ne by exact Hne. tauto.
      - split; [|tauto]. intros H. split; [exact H|]. intros <-.
        rewrite Et in H. contradiction. }
    rewrite Hstep. tauto.
Qed.

Lemma In_insert_into_tags (i : string) (tags_ : list string) :
  forall (m : gmap string (list string)) tag x,
    In x (default [] (insert_into_tags i tags_ m !! tag)) <->
    In x (default [] (m !! tag)) \/ (x = i /\ In tag tags_).
Proof.
  unfold insert_into_tags.
  induction tags_ as [|t tags_ IH]; intros m tag x; simpl.
  - tauto.
  - rewrite IH.
    destruct (String.eqb_spec t tag) as [<-|Hne].
    + rewrite lookup_insert_eq. simpl. rewrite In_set_insert. tauto.
    + rewrite lookup_insert_ne by exact Hne. tauto.
Qed.

(** X13.  The index from tags to override ids agrees with the overrides
    kept: an id is listed under a tag exactly when the override kept under
    that id carries the tag.  This holds for a collection without
    overrides, and [add_override] and [remove_override] keep it, also when
    an override replaces one with other tags and when the store fails. *)
Theorem override_tags_agree (st : override_index) :
  tags_agree no_overrides /\
  (tags_agree st ->
   (forall inserted o write_to_store,
       tags_agree (snd (add_override inserted o write_to_store st))) /\
   (forall removed i, tags_agree (snd (remove_override removed i st)))).
Proof.
  split.
  - intros tag i. simpl. rewrite lookup_empty. simpl. split; [tauto|].
    intros (o & Ho & _). discriminate.
  - intros Hst. split.
    + intros inserted o write_to_store. unfold add_override.
      destruct (write_to_store && negb inserted); [exact Hst|].
      cbn [snd]. intros tag x. cbn [overrides override_tags].
      rewrite In_insert_into_tags.
      set (tags_map := match find_override (overrides st) (id o) with
                       | Some old => _
                       | None => override_tags st
                       end).
      assert (H1 : In x (default [] (tags_map !! tag)) <->
                   In x (default [] (override_tags st !! tag)) /\ x <> id o).
      { unfold tags_map.
        destruct (find_override (overrides st) (id o)) as [old|] eqn:Eold.
        - destruct (tags (rule old)) as [|t ts] eqn:Et; cbn [negb].
          + split; [|tauto]. intros H. split; [exact H|]. intros ->.
            apply Hst in H. destruct H as (o' & Ho' & Hin).
            rewrite Eold in Ho'. injection Ho' as <-. rewrite Et in Hin. contradiction.
          + rewrite In_erase_from_tags. split; [|tauto].
            intros [H Hne]. split; [exact H|]. intros ->.
            pose proof H as H'. apply Hst in H'. destruct H' as (o' & Ho' & Hin).
            rewrite Eold in Ho'. injection Ho' as <-. rewrite Et in Hin. now apply Hne.
        - split; [|tauto]. intros H. split; [exact H|]. intros ->.
          apply Hst in H. destruct H as (o' & Ho' & _). congruence. }
      rewrite H1. destruct (String.eqb_spec x (id o)) as [->|Hne].
      * rewrite find_assign_eq. split.
        -- intros [[_ H]|[_ H]]; [congruence|]. eauto.
        -- intros (o' & Ho' & Hin). injection Ho' as <-. tauto.
      * rewrite find_assign_ne by congruence. rewrite (Hst tag x). tauto.
    + intros removed i. unfold remove_override.
      destruct (find_override (overrides st) i) as [old|] eqn:Eold; [|exact Hst].
      destruct (negb removed); [exact Hst|].
      cbn [snd]. intros tag x. cbn [overrides override_tags].
      rewrite In_erase_from_tags. destruct (String.eqb_spec x i) as [->|Hne].
      * rewrite find_erase_eq. split.
        -- intros [H Hni]. pose proof H as H'. apply Hst in H'.
           destruct H' as (o' & Ho' & Hin). rewrite Eold in Ho'. injection Ho' as <-.
           now destruct (Hni Hin).
        -- intros (o' & Ho' & _). discriminate.
      * rewrite find_erase_ne by congruence. rewrite (Hst tag x). tauto.
Qed.

(** Adding the override that stops under the tag [a] to a collection
    without overrides. *)
Lemma override_tags_agree_witness :
  tags_agree (snd (add_override true stop_under_a true no_overrides)).
Proof.
  destruct (override_tags_agree no_overrides) as [Hempty Hkeep].
  exact (proj1 (Hkeep Hempty) true stop_under_a true).
Defined.

(** X14.  [get_overrides] returns the overrides in the order of their ids
    from position [offset] on, at most [limit] of them when a limit is
    given ([limit] 0 stands for no limit); an offset other than 0 that
    does not lie within the overrides is refused with the error 400. *)
Theorem overrides_page (limit offset : Z) (st : override_index) :
  0 <= limit -> 0 <= offset -> offset + limit < 2 ^ 32 ->
  let size := Z.of_nat (length (overrides st)) in
  (0 < offset -> size <= offset ->
   get_overrides limit offset st = Some (Error 400 "Invalid offset param.")) /\
  (offset = 0 \/ offset < size ->
   exists page,
     get_overrides limit offset st = Some (Ok page) /\
     page = (if limit =? 0 then skipn (Z.to_nat offset) (overrides st)
             else firstn (Z.to_nat limit) (skipn (Z.to_nat offset) (overrides st))) /\
     (0 < limit -> Z.of_nat (length page) <= limit)).
Proof.
  intros Hlimit Hoffset Hsum size. unfold get_overrides. fold size. split.
  - intros Hpos Hout.
    replace (0 <? offset) with true by (symmetry; apply Z.ltb_lt; lia).
    replace (size <=? offset) with true by (symmetry; apply Z.leb_le; lia).
    reflexivity.
  - intros Hin.
    replace ((0 <? offset) && (size <=? offset)) with false
      by (symmetry; apply andb_false_iff;
          destruct Hin as [->|Hlt]; [left; reflexivity | right; apply Z.leb_gt; lia]).
    unfold to_uint32. rewrite Z.mod_small by lia.
    assert (Hlen : Z.of_nat (length (skipn (Z.to_nat offset) (overrides st)))
                   = Z.max 0 (size - offset)).
    { rewrite length_skipn. unfold size. lia. }
    destruct (Z.eqb_spec limit 0) as [->|Hnz].
    + cbn [Z.ltb Z.compare andb]. eexists. split; [reflexivity|]. split; [reflexivity|]. lia.
    + replace (0 <? limit) with true by (symmetry; apply Z.ltb_lt; lia). cbn [andb].
      destruct (Z.ltb_spec (offset + limit) size) as [Hlt|Hge].
      * replace (Z.of_nat (length (skipn (Z.to_nat offset) (overrides st))) <? limit)
          with false by (symmetry; apply Z.ltb_ge; lia).
        eexists. split; [reflexivity|]. split; [reflexivity|].
        intros _. rewrite length_firstn. lia.
      * eexists. split; [reflexivity|]. split.
        -- symmetry. apply firstn_all2. lia.
        -- intros _. lia.
Qed.

(** The second of three overrides. *)
Lemma overrides_page_witness :
  get_overrides 1 1
    {| overrides := [("o1", stop_under_a); ("o2", drop_under_b); ("u1", stop_on_shoes)];
       override_tags := ∅ |}
  = Some (Ok [("o2", drop_under_b)]).
Proof.
  destruct (proj2 (overrides_page 1 1
                     {| overrides := [("o1", stop_under_a); ("o2", drop_under_b);
                                      ("u1", stop_on_shoes)];
                        override_tags := ∅ |}
                     ltac:(lia) ltac:(lia) ltac:(lia))
              ltac:(right; simpl; lia)) as (page & Hrun & Hpage & _).
  rewrite Hrun, Hpage. reflexivity.
Defined.

(** An override under the tag [a] replaces the one kept as [o1]. *)
Lemma override_round_trip_witness :
  get_override "o1"
    (snd (add_override true stop_under_a true
            {| overrides := [("o1", dropping_override "o1" (tag_rule ["b"]) [] false)];
               override_tags := {["b" := ["o1"]]} |}))
  = Ok stop_under_a.
Proof.
  exact (proj1 (proj2 (proj1 (override_round_trip stop_under_a
                                {| overrides := [("o1", dropping_override "o1"
                                                          (tag_rule ["b"]) [] false)];
                                   override_tags := {["b" := ["o1"]]} |}) true))).
Defined.

End OverridesProofs.

(** ** Field names of a request *)

Module FieldNamesProofs.

Import Schema FieldNames.

Section Extract.

Variable equal_prefix_range : string -> list (string * field).
Variable is_object_field : field -> bool.
Variable is_string_field : field -> bool.
Variable is_text_embedding : field -> bool.

Local Abbreviation extract :=
  (extract_field_name equal_prefix_range is_object_field is_string_field
     is_text_embedding).

Lemma visit_fields_any_type (field_name : string) (is_wildcard enable_nested_fields : bool)
    (range : list (string * field)) :
  forall acc,
    exists acc',
      visit_fields is_object_field is_string_field is_text_embedding field_name
        is_wildcard false enable_nested_fields range acc = (Ok true, acc').
Proof.
  induction range as [|kv range IH]; intros acc; simpl; [eauto|].
  unfold visit_field. destruct acc as [processed found]. cbn [andb].
  destruct (negb _ && negb is_wildcard && negb _); [apply IH|].
  destruct (_ || _ || _ || _); apply IH.
Qed.

(** Names of any type: the only error is 404. *)
Lemma extract_any_type (field_name : string) (processed : list string)
    (enable_nested_fields include_id : bool) :
  (exists processed',
      extract field_name processed false enable_nested_fields true include_id
      = (Ok true, processed')) \/
  (exists m processed',
      extract field_name processed false enable_nested_fields true include_id
      = (Error 404 m, processed')).
Proof.
  unfold extract_field_name.
  destruct (Ascii.eqb _ _); [left; eauto|].
  destruct (String.eqb field_name "id"); [left; eauto|].
  rewrite andb_false_r.
  match goal with
  | |- context [visit_fields _ _ _ ?f ?w false ?e ?r ?acc] =>
      destruct (visit_fields_any_type f w e r acc) as [[p found] ->]
  end.
  rewrite andb_false_r. cbn [andb].
  destruct found; cbn [negb]; [left | right]; eauto.
Qed.

Lemma collect_names_succeeds (skip : string -> bool) (enable_nested_fields : bool)
    (names : list string) :
  forall fields_vec,
    exists result,
      collect_names equal_prefix_range is_object_field is_string_field is_text_embedding
        skip enable_nested_fields names fields_vec = Ok result.
Proof.
  induction names as [|f_name names IH]; intros fields_vec; simpl; [eauto|].
  destruct (skip f_name); [apply IH|].
  destruct (extract_any_type f_name fields_vec enable_nested_fields true)
    as [(p & ->)|(m & p & ->)]; [apply IH|].
  cbn [Z.eqb Pos.eqb]. apply IH.
Qed.

(** X15.  [populate_include_exclude_fields] never fails: whatever names
    and patterns a request asks to include or to exclude, and whatever the
    schema holds, it returns the two sets.  (A name the schema does not
    know is kept as it is given, since it may be a stored value of the
    documents.) *)
Theorem include_exclude_fields_never_fail (enable_nested_fields : bool)
    (include_fields exclude_fields : list string) :
  exists include_fields_full exclude_fields_full,
    populate_include_exclude_fields equal_prefix_range is_object_field is_string_field
      is_text_embedding enable_nested_fields include_fields exclude_fields
    = Ok (include_fields_full, exclude_fields_full).
Proof.
  unfold populate_include_exclude_fields.
  destruct (collect_names_succeeds (fun _ => false) enable_nested_fields include_fields [])
    as [inc ->].
  destruct (collect_names_succeeds
              (fun f_name => String.eqb f_name "out_of"
                             || String.eqb f_name "conversation_history")
              enable_nested_fields exclude_fields []) as [exc ->].
  eauto.
Qed.

Lemma visit_fields_keeps (field_name : string) (is_wildcard enable_nested_fields : bool)
    (range : list (string * field)) :
  forall processed found,
    exists processed' found',
      visit_fields is_object_field is_string_field is_text_embedding field_name
        is_wildcard false enable_nested_fields range (processed, found)
      = (Ok true, (processed', found'))
      /\ (forall name, In name processed -> In name processed')
      /\ (found = true -> found' = true).
Proof.
  induction range as [|kv range IH]; intros processed found; simpl; [eauto 6|].
  cbn [andb].
  destruct (negb _ && negb is_wildcard && negb _); [apply IH|].
  destruct (_ || _ || _ || _); [|apply IH].
  destruct (IH (processed ++ [fst kv]) true) as (p & f & -> & Hin & Hf).
  exists p, f. split; [reflexivity|]. split; [|auto].
  intros name Hname. apply Hin, in_or_app. now left.
Qed.

Lemma visit_fields_collects (field_name : string) (is_wildcard enable_nested_fields : bool)
    (kv : string * field) (range : list (string * field)) :
  In kv range ->
  String.length (fst kv) = String.length field_name ->
  is_object_field (snd kv) = false ->
  forall processed found,
    exists processed',
      visit_fields is_object_field is_string_field is_text_embedding field_name
        is_wildcard false enable_nested_fields range (processed, found)
      = (Ok true, (processed', true))
      /\ In (fst kv) processed'
      /\ (forall name, In name processed -> In name processed').
Proof.
  intros Hin Hlen Hobj.
  induction range as [|kv' range IH]; intros processed found; [destruct Hin|].
  destruct Hin as [->|Hin].
  - simpl. cbn [andb]. rewrite Hlen, Nat.eqb_refl, Hobj. cbn [negb andb orb].
    destruct (visit_fields_keeps field_name is_wildcard enable_nested_fields range
                (processed ++ [fst kv]) true) as (p & f & -> & Hkeep & Hf).
    rewrite (Hf eq_refl). exists p. split; [reflexivity|]. split.
    + apply Hkeep, in_or_app. right. now left.
    + intros name Hname. apply Hkeep, in_or_app. now left.
  - simpl. cbn [andb].
    destruct (negb _ && negb is_wildcard && negb _); [now apply IH|].
    destruct (_ || _ || _ || _); [|now apply IH].
    destruct (IH Hin (processed ++ [fst kv']) true) as (p & -> & Hk & Hkeep).
    exists p. split; [reflexivity|]. split; [exact Hk|].
    intros name Hname. apply Hkeep, in_or_app. now left.
Qed.

(** X16.  A name that is the key of a field of the schema which is not an
    object is always accepted where fields of any type are asked for: the
    call returns true, the name is among the names collected, and the
    names collected before are kept. *)
Theorem known_field_is_collected (field_name : string) (f : field)
    (processed : list string) (enable_nested_fields handle_wildcard include_id : bool) :
  has_char "*"%char field_name = false ->
  In (field_name, f) (equal_prefix_range field_name) ->
  is_object_field f = false ->
  exists processed',
    extract field_name processed false enable_nested_fields handle_wildcard include_id
    = (Ok true, processed')
    /\ In field_name processed'
    /\ (forall name, In name processed -> In name processed').
Proof.
  intros Hstar Hin Hobj. unfold extract_field_name.
  destruct (Ascii.eqb _ _).
  { eexists. split; [reflexivity|]. split.
    - apply in_or_app. right. now left.
    - intros name Hname. apply in_or_app. now left. }
  destruct (String.eqb field_name "id").
  { eexists. split; [reflexivity|]. split.
    - apply in_or_app. right. now left.
    - intros name Hname. apply in_or_app. now left. }
  rewrite Hstar. cbn [andb]. rewrite Nat.sub_0_r.
  assert (Hsub : String.substring 0 (String.length field_name) field_name = field_name).
  { clear. induction field_name as [|c s IH]; simpl; [reflexivity | now rewrite IH]. }
  rewrite Hsub.
  destruct (visit_fields_collects field_name false enable_nested_fields
              (field_name, f) (equal_prefix_range field_name) Hin eq_refl Hobj
              processed false) as (p & -> & Hk & Hkeep).
  cbn [negb]. exists p. auto.
Qed.

(** X17.  A name that is not a reference and not [id].  Without [*], when
    no key of the schema starts with it, it is answered by the error 404
    that names it, and nothing is added to the names collected.  With
    [*], it is refused with 400 where patterns are not handled; where
    they are and no key of the schema starts with the text before the
    [*], it is answered by 404: with a message that names the pattern
    when only string fields are asked for, and otherwise with a message
    that stops before the pattern.  In that last case [id] has been
    collected all the same when ids are included and the pattern is [*],
    [i*] or [id*]. *)
Theorem unknown_field_names (field_name : string) (processed : list string)
    (extract_only_string_fields enable_nested_fields handle_wildcard include_id : bool) :
  Ascii.eqb (char_at 0 field_name) "$"%char = false ->
  String.eqb field_name "id" = false ->
  (has_char "*"%char field_name = false ->
   equal_prefix_range field_name = [] ->
   extract field_name processed extract_only_string_fields enable_nested_fields
     handle_wildcard include_id
   = (Error 404 ("Could not find a field named `" +:+ field_name +:+ "` in the schema."),
      processed)) /\
  (has_char "*"%char field_name = true -> handle_wildcard = false ->
   extract field_name processed extract_only_string_fields enable_nested_fields
     handle_wildcard include_id
   = (Error 400 ("Pattern `" +:+ field_name +:+ "` is not allowed."), processed)) /\
  (has_char "*"%char field_name = true -> handle_wildcard = true ->
   equal_prefix_range (String.substring 0 (String.length field_name - 1) field_name) = [] ->
   extract field_name processed extract_only_string_fields enable_nested_fields
     handle_wildcard include_id
   = (Error 404
        (if extract_only_string_fields then
           "No string or string array field found matching the pattern `"
           +:+ field_name +:+ "` in the schema."
         else "No field found matching the pattern `"),
      if include_id
         && (String.eqb field_name "*" || String.eqb field_name "i*"
             || String.eqb field_name "id*") then
        processed ++ ["id"]
      else processed)).
Proof.
  intros Href Hid. unfold extract_field_name. rewrite Href, Hid.
  split; [|split].
  - intros Hstar Hnone. rewrite Hstar. cbn [andb].
    rewrite Nat.sub_0_r.
    assert (Hsub : String.substring 0 (String.length field_name) field_name = field_name).
    { clear. induction field_name as [|c s IH]; simpl; [reflexivity | now rewrite IH]. }
    rewrite Hsub, Hnone. reflexivity.
  - intros -> ->. reflexivity.
  - intros -> -> Hnone. cbn [andb negb]. rewrite Hnone. cbn [visit_fields negb].
    assert (Hshort :
              (String.eqb field_name "*" || String.eqb field_name "i*"
               || String.eqb field_name "id*") = true ->
              (String.length field_name <? 4)%nat = true).
    { intros H. apply orb_true_iff in H as [H|H]; [apply orb_true_iff in H as [H|H]|];
        apply String.eqb_eq in H; subst; reflexivity. }
    destruct include_id; cbn [andb].
    + destruct (String.eqb field_name "*" || String.eqb field_name "i*"
                || String.eqb field_name "id*") eqn:E.
      * rewrite (Hshort eq_refl). cbn [andb].
        destruct extract_only_string_fields; reflexivity.
      * rewrite andb_false_r. destruct extract_only_string_fields; reflexivity.
    + destruct extract_only_string_fields; reflexivity.
Qed.

End Extract.

(** The name [price] is not in the schema of [title] and [points]. *)
Lemma unknown_field_names_witness :
  extract_field_name title_and_points (fun _ => false) (fun _ => true) (fun _ => false)
    "price" [] true false false false
  = (Error 404 "Could not find a field named `price` in the schema.", []).
Proof.
  exact (proj1 (unknown_field_names title_and_points (fun _ => false) (fun _ => true)
                  (fun _ => false) "price" [] true false false false eq_refl eq_refl)
           eq_refl eq_refl).
Defined.

(** The field [title] of the schema of [title] and [points]. *)
Lemma known_field_is_collected_witness :
  exists processed',
    extract_field_name title_and_points (fun _ => false) (fun _ => true) (fun _ => false)
      "title" ["points"] false false true true
    = (Ok true, processed')
    /\ In "title" processed'
    /\ (forall name, In name ["points"] -> In name processed').
Proof.
  apply (known_field_is_collected title_and_points (fun _ => false) (fun _ => true)
           (fun _ => false) "title" (Alter.mk_field "title" "string" false)).
  - reflexivity.
  - vm_compute. now left.
  - reflexivity.
Defined.

End FieldNamesProofs.

(** ** Pruning a document *)

Module PruneProofs.

Import Prune.

(** Induction on a json value and on the values it holds. *)
Lemma json_nested_ind (P : json -> Prop)
    (Hnull : P JNull) (Hbool : forall b, P (JBool b)) (Hnum : forall n, P (JNum n))
    (Hstr : forall s, P (JStr s))
    (Harr : forall items, List.Forall P items -> P (JArr items))
    (Hobj : forall members, List.Forall (fun kv => P (snd kv)) members -> P (JObj members)) :
  forall j, P j.
Proof.
  fix IH 1. intros [|b|n|s|items|members].
  - exact Hnull.
  - apply Hbool.
  - apply Hnum.
  - apply Hstr.
  - apply Harr. induction items as [|x l IHl]; constructor; [apply IH | exact IHl].
  - apply Hobj. induction members as [|kv l IHl]; constructor; [apply IH | exact IHl].
Qed.

Section Nested.

Variable nested_references : json -> json.

Lemma prune_fields_object (include_names exclude_names : list string)
    (parent_name : string) (ms : list (string * json)) :
  prune_fields nested_references include_names exclude_names parent_name (JObj ms)
  = JObj (prune_members nested_references include_names exclude_names parent_name ms).
Proof. reflexivity. Qed.

(** The loop, one member at a time. *)
Lemma prune_members_cons (include_names exclude_names : list string)
    (parent_name key : string) (value : json) (ms : list (string * json)) :
  prune_members nested_references include_names exclude_names parent_name ((key, value) :: ms)
  = let nested_name := nested_name_of parent_name key in
    let rest := prune_members nested_references include_names exclude_names parent_name ms in
    if negb (names_empty include_names)
       && negb (names_prefix_found include_names nested_name) then rest
    else if names_count exclude_names nested_name then rest
    else if names_empty exclude_names && negb (names_empty include_names)
            && names_count include_names nested_name then (key, value) :: rest
    else
      match value with
      | JObj _ =>
          let value' :=
            nested_references
              (prune_fields nested_references include_names exclude_names nested_name
                 value) in
          if negb (json_empty value) && json_empty value' then rest
          else (key, value') :: rest
      | JArr items =>
          let items' :=
            prune_elements nested_references include_names exclude_names nested_name
              items in
          if negb (json_empty value) && json_empty (JArr items') then rest
          else if negb (forallb (fun e => negb (is_object e)) items) then
            (key, JArr items') :: rest
          else if negb (names_empty include_names)
                  && negb (names_count include_names nested_name) then rest
          else (key, JArr items') :: rest
      | _ =>
          if negb (names_empty include_names)
             && negb (names_count include_names nested_name) then rest
          else (key, value) :: rest
      end.
Proof.
  unfold prune_members at 1. cbn [prune_fields]. cbv zeta.
  fold (prune_members nested_references include_names exclude_names parent_name ms).
  destruct value; reflexivity.
Qed.

Lemma not_both (b : bool) : negb b && b = false.
Proof. now destruct b. Qed.

Lemma prune_nothing (doc : json) :
  (forall d, nested_references d = d) ->
  (forall parent_name, prune_fields nested_references [] [] parent_name doc = doc)
  /\ List.Forall
       (fun e => forall parent_name, prune_fields nested_references [] [] parent_name e = e)
       (json_items doc).
Proof.
  intros Hid.
  induction doc as [| | | |items IH|members IH] using json_nested_ind;
    try (split; [reflexivity | constructor]).
  - split; [reflexivity|]. cbn [json_items].
    induction IH as [|e es [He _] _ IHe]; constructor; assumption.
  - split; [|constructor]. intros parent_name.
    rewrite prune_fields_object. f_equal.
    induction members as [|[key value] members IHm]; [reflexivity|].
    apply List.Forall_cons_iff in IH. destruct IH as [[Hv Hitems] Hms].
    specialize (IHm Hms). cbn [snd] in Hv, Hitems.
    rewrite prune_members_cons, IHm. cbv zeta.
    cbn [names_empty negb andb names_count existsb].
    destruct value as [| | | |items|vms]; try reflexivity.
    + cbn [json_items] in Hitems.
      assert (Heach : prune_elements nested_references [] []
                        (nested_name_of parent_name key) items = items).
      { clear - Hitems Hid. induction Hitems as [|e es He _ IHe]; [reflexivity|].
        change (prune_elements nested_references [] []
                  (nested_name_of parent_name key) (e :: es))
          with (match e with
                | JObj _ =>
                    nested_references
                      (prune_fields nested_references [] []
                         (nested_name_of parent_name key) e)
                | _ => e
                end :: prune_elements nested_references [] []
                         (nested_name_of parent_name key) es).
        rewrite IHe. destruct e; try reflexivity. now rewrite Hid, He. }
      rewrite Heach, not_both.
      destruct (negb (forallb _ items)); reflexivity.
    + rewrite Hid, Hv, not_both. reflexivity.
Qed.

(** X18.  With no names to include and none to exclude the document is
    left as it is, at every depth: no field is dropped and no value is
    changed, as long as the inclusion of references with its default
    arguments leaves the objects below as they are. *)
Theorem prune_without_names_keeps_all (doc : json) (parent_name : string) :
  (forall d, nested_references d = d) ->
  prune_fields nested_references [] [] parent_name doc = doc.
Proof. intros Hid. now apply prune_nothing. Qed.

Lemma names_count_prefix (names : list string) (n : string) :
  names_count names n = true -> names_prefix_found names n = true.
Proof.
  unfold names_count, names_prefix_found. rewrite !existsb_exists.
  intros (x & Hx & He). apply String.eqb_eq in He. subst x.
  exists n. split; [exact Hx|].
  clear. induction n as [|c n IH]; [reflexivity|]. simpl.
  destruct (Ascii.ascii_dec c c); [exact IH | congruence].
Qed.

(** X19.  A field whose name is among the names to exclude is not in the
    pruned document, whatever its value and whatever is asked to be
    included; the name of a field below an object is the path to it,
    with dots. *)
Theorem excluded_field_is_pruned (include_names exclude_names : list string)
    (parent_name key : string) (doc : json) :
  names_count exclude_names (nested_name_of parent_name key) = true ->
  json_get key (prune_fields nested_references include_names exclude_names parent_name doc)
  = None.
Proof.
  intros Hex. destruct doc as [| | | | |members]; try reflexivity.
  rewrite prune_fields_object. cbn [json_get].
  induction members as [|[key' value] members IH]; [reflexivity|].
  rewrite prune_members_cons. cbv zeta.
  destruct (String.eqb key key') eqn:Hk.
  - apply String.eqb_eq in Hk. subst key'. rewrite Hex.
    destruct (negb (names_empty include_names) && negb _); exact IH.
  - repeat match goal with
           | |- context [if ?b then _ else _] => destruct b
           | |- context [match value with _ => _ end] => destruct value
           end; cbn [members_get]; rewrite ?Hk; exact IH.
Qed.

(** X20.  Without exclusions, a field whose name is among the names to
    include is kept whole: the pruned document holds it with the value it
    had, objects and arrays below it untouched. *)
Theorem included_field_is_kept_whole (include_names : list string)
    (parent_name key : string) (doc : json) :
  names_count include_names (nested_name_of parent_name key) = true ->
  json_get key (prune_fields nested_references include_names [] parent_name doc)
  = json_get key doc.
Proof.
  intros Hin. destruct doc as [| | | | |members]; try reflexivity.
  rewrite prune_fields_object. cbn [json_get].
  assert (Hne : names_empty include_names = false).
  { destruct include_names; [discriminate Hin | reflexivity]. }
  induction members as [|[key' value] members IH]; [reflexivity|].
  rewrite prune_members_cons. cbv zeta.
  destruct (String.eqb key key') eqn:Hk.
  - apply String.eqb_eq in Hk. subst key'.
    rewrite Hne, Hin, (names_count_prefix _ _ Hin).
    cbn [negb andb names_count existsb names_empty members_get].
    now rewrite String.eqb_refl.
  - cbn [members_get]. rewrite Hk.
    repeat match goal with
           | |- context [if ?b then _ else _] => destruct b
           | |- context [match value with _ => _ end] => destruct value
           end; cbn [members_get]; rewrite ?Hk; exact IH.
Qed.

(** X21.  Where names to include are given, every field that the loop
    leaves in an object has a name that some included name starts with,
    and a field left with a value that is neither an object nor an array
    is one of the included names (the inclusion of references with its
    default arguments leaving an object an object). *)
Theorem only_included_fields_remain (include_names exclude_names : list string)
    (parent_name key : string) (value : json) (members : list (string * json)) :
  (forall d, is_object d = true -> is_object (nested_references d) = true) ->
  names_empty include_names = false ->
  In (key, value)
    (prune_members nested_references include_names exclude_names parent_name members) ->
  names_prefix_found include_names (nested_name_of parent_name key) = true
  /\ (is_object value = false -> is_array value = false ->
      names_count include_names (nested_name_of parent_name key) = true).
Proof.
  intros Hobj Hne. induction members as [|[key' value'] members IH]; [intros []|].
  rewrite prune_members_cons. cbv zeta. rewrite Hne. cbn [negb andb].
  destruct (names_prefix_found include_names (nested_name_of parent_name key')) eqn:Hp;
    cbn [negb]; [|exact IH].
  destruct (names_count exclude_names (nested_name_of parent_name key')); [exact IH|].
  destruct (names_count include_names (nested_name_of parent_name key')) eqn:Hc.
  - rewrite andb_true_r. destruct (names_empty exclude_names).
    + intros [Heq|Hin]; [|now apply IH]. inversion Heq; subst. auto.
    + cbn [negb].
      destruct value' as [| | | |items|vms];
        repeat match goal with
               | |- context [if ?b then _ else _] => destruct b
               end;
        try exact IH;
        (intros [Heq|Hin]; [|now apply IH]); inversion Heq; subst; auto.
  - rewrite andb_false_r. cbn [negb].
    destruct value' as [| | | |items|vms];
      repeat match goal with
             | |- context [if ?b then _ else _] => destruct b
             end;
      try exact IH;
      (intros [Heq|Hin]; [|now apply IH]); inversion Heq; subst;
      (split; [exact Hp | intros Ho Ha; try discriminate]).
    rewrite Hobj in Ho by reflexivity. discriminate Ho.
Qed.

End Nested.

(** The product, with nothing to include or to exclude. *)
Lemma prune_without_names_keeps_all_witness :
  prune_fields (fun d => d) [] [] "" product_with_details = product_with_details.
Proof.
  apply (prune_without_names_keeps_all (fun d => d) product_with_details "").
  reflexivity.
Defined.

(** The field [price] of the product is excluded. *)
Lemma excluded_field_is_pruned_witness :
  json_get "price" (prune_fields (fun d => d) [] ["price"] "" product_with_details) = None.
Proof.
  apply (excluded_field_is_pruned (fun d => d) [] ["price"] "" "price" product_with_details).
  reflexivity.
Defined.

(** The object [details] of the product is included. *)
Lemma included_field_is_kept_whole_witness :
  json_get "details" (prune_fields (fun d => d) ["details"] [] "" product_with_details)
  = json_get "details" product_with_details.
Proof.
  apply (included_field_is_kept_whole (fun d => d) ["details"] "" "details"
           product_with_details).
  reflexivity.
Defined.

(** The field [name] is what is left of the product with [name] included. *)
Lemma only_included_fields_remain_witness :
  names_prefix_found ["name"] (nested_name_of "" "name") = true
  /\ (is_object (JStr "shoe") = false -> is_array (JStr "shoe") = false ->
      names_count ["name"] (nested_name_of "" "name") = true).
Proof.
  apply (only_included_fields_remain (fun d => d) ["name"] [] "" "name" (JStr "shoe")
           [("details", JObj [("colour", JStr "red"); ("size", JNum 42)]);
            ("name", JStr "shoe"); ("price", JNum 10)]).
  - intros d Hd. exact Hd.
  - reflexivity.
  - vm_compute. now left.
Defined.

End PruneProofs.

(** ** Weights of the fields searched *)

Module WeightsProofs.

Import Overrides Weights.

Lemma to_int_id (z : Z) : 0 <= z < 2 ^ 31 -> to_int z = z.
Proof.
  intros Hz. unfold to_int. rewrite Z.mod_small by lia. cbv zeta.
  destruct (z <? 2 ^ 31) eqn:E; [reflexivity|]. apply Z.ltb_ge in E. lia.
Qed.

Lemma to_int_wraps (z : Z) : - 2 ^ 31 <= z < 2 ^ 31 -> to_int (to_uint64 z) = z.
Proof.
  intros Hz. unfold to_int, to_uint64, UINT64_MODULUS.
  change (2 ^ 64) with (2 ^ 32 * 2 ^ 32).
  rewrite Z.rem_mul_r by lia.
  rewrite Z.mul_comm, Z.mod_add by lia. rewrite Z.mod_mod by lia.
  cbv zeta. destruct (Z_lt_le_dec z 0) as [Hneg|Hpos].
  - assert (Hm : z mod 2 ^ 32 = z + 2 ^ 32).
    { symmetry. apply (Z.mod_unique z (2 ^ 32) (-1)); lia. }
    rewrite Hm. destruct (z + 2 ^ 32 <? 2 ^ 31) eqn:E; [|lia].
    apply Z.ltb_lt in E. lia.
  - rewrite Z.mod_small by lia.
    destruct (z <? 2 ^ 31) eqn:E; [reflexivity|]. apply Z.ltb_ge in E. lia.
Qed.

Section Weights.

Context {A : Type}.
Variable FIELD_MAX_WEIGHT : Z.
Variable std_sort : list (Z * Z) -> list (Z * Z).

Hypothesis max_weight_is_small : 0 <= FIELD_MAX_WEIGHT < 2 ^ 31.

Local Abbreviation default_weight :=
  (fun i : nat => Z.max 0 (FIELD_MAX_WEIGHT - Z.of_nat i)).

Lemma first_pass_defaults (search_fields : list (search_field_t A))
    (q0 : list Z) (w0 : list (search_field_t A)) (d u : bool) (k : nat) :
  (k <= length search_fields)%nat ->
  Z.of_nat (length search_fields) <= 2 ^ 31 ->
  fold_left (first_pass FIELD_MAX_WEIGHT false search_fields) (seq 0 k)
    (Some (q0, w0, d, u))
  = Some (q0 ++ map default_weight (seq 0 k),
          w0 ++ imap (fun i f => with_weight (default_weight i) f)
                  (take k search_fields), d, u).
Proof.
  intros Hk Hn. induction k as [|k IH].
  - simpl. now rewrite !app_nil_r.
  - rewrite seq_S, fold_left_app, IH by lia. cbn [fold_left first_pass negb Nat.add].
    destruct (lookup_lt_is_Some_2 search_fields k ltac:(lia)) as [f Hf].
    rewrite Hf, (take_S_r _ _ _ Hf), imap_app, map_app, !app_assoc.
    rewrite length_take, Nat.min_l by lia.
    cbn [imap map]. rewrite Nat.add_0_r.
    rewrite (to_int_id FIELD_MAX_WEIGHT max_weight_is_small).
    rewrite to_int_wraps by lia.
    assert (Hw : to_uint32 (default_weight k) = default_weight k).
    { unfold to_uint32. apply Z.mod_small. lia. }
    rewrite Hw. reflexivity.
Qed.

(** X22.  Where a request gives no weights, the field at position [i] is
    given the weight [max(0, FIELD_MAX_WEIGHT - i)]: the first field weighs
    most, each later one weighs one less, and the weights stop at 0. *)
Theorem default_weights_fall_by_position (search_fields : list (search_field_t A)) :
  Z.of_nat (length search_fields) <= 2 ^ 31 ->
  process_search_field_weights FIELD_MAX_WEIGHT std_sort search_fields [] []
  = Some (map default_weight (seq 0 (length search_fields)),
          imap (fun i f => with_weight (default_weight i) f) search_fields).
Proof.
  intros Hn. unfold process_search_field_weights. cbn [length Nat.eqb negb].
  rewrite first_pass_defaults by lia. cbn [andb app].
  rewrite firstn_all, length_imap.
  destruct search_fields as [|f fs]; reflexivity.
Qed.

Lemma first_pass_given (search_fields : list (search_field_t A))
    (q : list Z) (w : list (search_field_t A)) (k : nat) :
  (k <= length q)%nat ->
  exists d u,
    fold_left (first_pass FIELD_MAX_WEIGHT true search_fields) (seq 0 k)
      (Some (q, w, true, true))
    = Some (q, w, d, u)
    /\ (d = true <->
        forall i x y, (S i < k)%nat -> q !! i = Some x -> q !! S i = Some y -> y <= x)
    /\ (u = true <->
        forall i x, (i < k)%nat -> q !! i = Some x -> x <= FIELD_MAX_WEIGHT).
Proof.
  intros Hk. induction k as [|k IH].
  - exists true, true. split; [reflexivity|]. split; split; auto; intros; lia.
  - destruct (IH ltac:(lia)) as (d & u & Hfold & Hd & Hu).
    rewrite seq_S, fold_left_app, Hfold. cbn [fold_left first_pass negb Nat.add].
    destruct (lookup_lt_is_Some_2 q k ltac:(lia)) as [x Hx].
    destruct (lookup_lt_is_Some_2 q (if (k =? 0)%nat then 0%nat else (k - 1)%nat))
      as [prev Hprev].
    { destruct (k =? 0)%nat; lia. }
    rewrite Hprev, Hx.
    exists (if d then x <=? prev else false), (if u then x <=? FIELD_MAX_WEIGHT else false).
    split; [destruct d, u; reflexivity|]. split.
    + split.
      * intros Hnew i a b Hi Ha Hb.
        destruct d; [|discriminate]. apply Z.leb_le in Hnew.
        destruct (Nat.eq_dec (S i) k) as [<-|Hne].
        -- cbn [Nat.eqb Nat.sub] in Hprev. rewrite Nat.sub_0_r in Hprev.
           congruence.
        -- apply (proj1 Hd eq_refl i a b); [lia | assumption..].
      * intros Hall.
        assert (Hdt : d = true).
        { apply Hd. intros i a b Hi. apply Hall. lia. }
        rewrite Hdt. apply Z.leb_le.
        destruct k as [|k'].
        -- cbn [Nat.eqb] in Hprev. rewrite Hx in Hprev. injection Hprev as <-. lia.
        -- cbn [Nat.eqb Nat.sub] in Hprev. rewrite Nat.sub_0_r in Hprev.
           apply (Hall k' prev x); [lia | assumption..].
    + split.
      * intros Hnew i a Hi Ha.
        destruct u; [|discriminate]. apply Z.leb_le in Hnew.
        destruct (Nat.eq_dec i k) as [->|Hne].
        { rewrite Hx in Ha. injection Ha as <-. exact Hnew. }
        apply (proj1 Hu eq_refl i a); [lia | assumption].
      * intros Hall.
        assert (Hut : u = true).
        { apply Hu. intros i a Hi. apply Hall. lia. }
        rewrite Hut. apply Z.leb_le. apply (Hall k x); [lia | assumption].
Qed.

(** X23.  Weights that a request gives in decreasing order, none above
    [FIELD_MAX_WEIGHT], are taken as they are: the weights are not changed
    and the fields are searched in the order and with the weights given. *)
Theorem ordered_weights_are_kept (search_fields : list (search_field_t A))
    (query_by_weights : list Z) :
  length query_by_weights = length search_fields ->
  (forall i x y, query_by_weights !! i = Some x -> query_by_weights !! S i = Some y ->
                 y <= x) ->
  (forall i x, query_by_weights !! i = Some x -> x <= FIELD_MAX_WEIGHT) ->
  process_search_field_weights FIELD_MAX_WEIGHT std_sort search_fields
    query_by_weights []
  = Some (query_by_weights, search_fields).
Proof.
  intros Hlen Hdesc Hunder. unfold process_search_field_weights.
  destruct query_by_weights as [|x0 q'].
  - destruct search_fields; [reflexivity | discriminate Hlen].
  - rewrite <- Hlen. change (negb (length (x0 :: q') =? 0)%nat) with true.
    destruct (first_pass_given search_fields (x0 :: q') [] (length (x0 :: q'))
                ltac:(lia)) as (d & u & Hfold & Hd & Hu).
    rewrite Hfold.
    assert (Hdt : d = true) by (apply Hd; intros i a b _; apply Hdesc).
    assert (Hut : u = true) by (apply Hu; intros i a _; apply Hunder).
    rewrite Hdt, Hut. reflexivity.
Qed.

Section Sorted.

Hypothesis std_sort_permutes : forall l, Permutation (std_sort l) l.

Lemma store_in_range {T : Type} (i : nat) (x : T) (v : list T) :
  (i < length v)%nat -> store i x v = Some (<[i := x]> v).
Proof.
  intros Hi. unfold store. destruct (i <? length v)%nat eqn:E; [reflexivity|].
  apply Nat.ltb_ge in E. lia.
Qed.

Lemma normalised_snoc (c : list Z) (v : Z) :
  normalised FIELD_MAX_WEIGHT c ->
  (c = [] -> v = FIELD_MAX_WEIGHT) ->
  (forall x, last c = Some x -> v <= x) ->
  0 <= v <= FIELD_MAX_WEIGHT ->
  normalised FIELD_MAX_WEIGHT (c ++ [v]).
Proof.
  intros (Hhead & Hdesc & Hall) Hfirst Hlast Hv. split; [|split].
  - intros x Hx. destruct c as [|c0 c'].
    + simpl in Hx. injection Hx as <-. now apply Hfirst.
    + apply Hhead. exact Hx.
  - intros i x y Hx Hy.
    destruct (Nat.lt_ge_cases (S i) (length c)) as [Hlt|Hge].
    + rewrite lookup_app_l in Hx, Hy by lia. eapply Hdesc; eassumption.
    + rewrite lookup_app_r in Hy by lia.
      destruct (S i - length c)%nat as [|m] eqn:Em; [|destruct m; discriminate Hy].
      injection Hy as <-.
      rewrite lookup_app_l in Hx by lia.
      apply Hlast. rewrite last_lookup.
      replace (Init.Nat.pred (length c)) with i by lia. exact Hx.
  - apply Forall_app. split; [exact Hall|]. constructor; [exact Hv | constructor].
Qed.

(** The field that a sorted pair stands for, with another weight. *)
Local Abbreviation stands_for search_fields :=
  (fun (f' : search_field_t A) (p : Z * Z) =>
     exists f, search_fields !! Z.to_nat (fst p) = Some f
               /\ name f' = name f /\ others f' = others f).

Lemma second_pass_normalises (search_fields : list (search_field_t A))
    (field_index_and_weights : list (Z * Z)) (q0 : list Z)
    (w0 : list (search_field_t A)) (k : nat) :
  length field_index_and_weights = length q0 ->
  List.Forall (fun p => is_Some (search_fields !! Z.to_nat (fst p)))
    field_index_and_weights ->
  (k <= length q0)%nat ->
  exists q w,
    fold_left (second_pass FIELD_MAX_WEIGHT search_fields field_index_and_weights)
      (seq 0 k) (Some (q0, w0))
    = Some (q, w0 ++ w)
    /\ length q = length q0
    /\ map weight w = take k q
    /\ Forall2 (stands_for search_fields) w (take k field_index_and_weights)
    /\ normalised FIELD_MAX_WEIGHT (take k q).
Proof.
  intros Hlen Hrange Hk. induction k as [|k IH].
  - exists q0, []. rewrite app_nil_r. repeat split; try constructor.
    + intros x Hx. discriminate Hx.
    + intros i x y Hx. discriminate Hx.
  - destruct (IH ltac:(lia)) as (q & w & Hfold & Hq & Hw & Hfields & Hnorm).
    rewrite seq_S, fold_left_app, Hfold. cbn [fold_left second_pass Nat.add].
    destruct (lookup_lt_is_Some_2 field_index_and_weights k ltac:(lia)) as [p Hp].
    rewrite Hp.
    destruct (proj1 (List.Forall_forall _ _) Hrange p) as [f Hf].
    { apply list_elem_of_In. eapply list_elem_of_lookup_2. exact Hp. }
    assert (Hstep : forall v,
               (take k q = [] -> v = FIELD_MAX_WEIGHT) ->
               (forall x, last (take k q) = Some x -> v <= x) ->
               0 <= v <= FIELD_MAX_WEIGHT ->
               exists q' w',
                 match search_fields !! Z.to_nat (fst p), <[k := v]> q !! k with
                 | Some search_field, Some weight =>
                     Some (<[k := v]> q, (w0 ++ w) ++ [with_weight weight search_field])
                 | _, _ => None
                 end = Some (q', w0 ++ w')
                 /\ length q' = length q0
                 /\ map weight w' = take (S k) q'
                 /\ Forall2 (stands_for search_fields) w'
                      (take (S k) field_index_and_weights)
                 /\ normalised FIELD_MAX_WEIGHT (take (S k) q')).
    { intros v Hfirst Hlast Hv.
      assert (Hkv : <[k := v]> q !! k = Some v).
      { apply list_lookup_insert_eq. lia. }
      rewrite Hf, Hkv.
      exists (<[k := v]> q), (w ++ [with_weight v f]).
      rewrite app_assoc. split; [reflexivity|].
      rewrite length_insert. split; [exact Hq|].
      rewrite (take_S_r _ _ _ Hkv), (take_S_r _ _ _ Hp), take_insert_ge by lia.
      split; [|split].
      - rewrite map_app, Hw. reflexivity.
      - apply Forall2_app; [exact Hfields|]. constructor; [|constructor].
        exists f. auto.
      - now apply normalised_snoc. }
    destruct k as [|k'].
    + cbn [Nat.eqb]. rewrite store_in_range by lia.
      apply Hstep.
      * intros _. unfold to_uint32. apply Z.mod_small. lia.
      * intros x Hx. discriminate Hx.
      * unfold to_uint32. rewrite Z.mod_small by lia. lia.
    + cbn [Nat.eqb Nat.sub]. rewrite Nat.sub_0_r.
      destruct (lookup_lt_is_Some_2 field_index_and_weights k' ltac:(lia))
        as [prev Hprev].
      destruct (lookup_lt_is_Some_2 q k' ltac:(lia)) as [prev_stored Hstored].
      rewrite Hprev, Hstored.
      assert (Hlastk : last (take (S k') q) = Some prev_stored).
      { rewrite last_lookup, length_take, Nat.min_l by lia.
        cbn [Init.Nat.pred]. rewrite lookup_take_lt by lia. exact Hstored. }
      assert (Hbound : 0 <= prev_stored <= FIELD_MAX_WEIGHT).
      { destruct Hnorm as (_ & _ & Hall).
        apply (proj1 (List.Forall_forall _ _) Hall).
        apply list_elem_of_In.
        apply (list_elem_of_lookup_2 (take (S k') q) k' prev_stored).
        rewrite lookup_take_lt by lia. exact Hstored. }
      assert (Hnonempty : take (S k') q <> []).
      { intros He. rewrite He in Hlastk. discriminate Hlastk. }
      destruct (snd p =? snd prev).
      * rewrite store_in_range by lia. apply Hstep.
        -- intros He. contradiction.
        -- intros x Hx. rewrite Hlastk in Hx. injection Hx as <-. lia.
        -- exact Hbound.
      * rewrite store_in_range by lia.
        assert (Hv : to_uint32 (Z.max 0 (to_int prev_stored - 1))
                     = Z.max 0 (prev_stored - 1)).
        { rewrite to_int_id by lia. unfold to_uint32. apply Z.mod_small. lia. }
        rewrite Hv. apply Hstep.
        -- intros He. contradiction.
        -- intros x Hx. rewrite Hlastk in Hx. injection Hx as <-. lia.
        -- lia.
Qed.

(** X24.  Weights that are given out of order, or above
    [FIELD_MAX_WEIGHT], are replaced: the fields are searched in the
    order of the sort by weight, each with one of the new weights, and
    the new weights start at [FIELD_MAX_WEIGHT], never rise and stay
    between 0 and [FIELD_MAX_WEIGHT].  No field is lost or repeated. *)
Theorem unordered_weights_are_normalised (search_fields : list (search_field_t A))
    (query_by_weights : list Z) :
  length query_by_weights = length search_fields ->
  (exists i x y, query_by_weights !! i = Some x /\ query_by_weights !! S i = Some y
                 /\ x < y)
  \/ (exists i x, query_by_weights !! i = Some x /\ FIELD_MAX_WEIGHT < x) ->
  exists weights weighted_search_fields,
    process_search_field_weights FIELD_MAX_WEIGHT std_sort search_fields
      query_by_weights []
    = Some (weights, weighted_search_fields)
    /\ length weights = length search_fields
    /\ normalised FIELD_MAX_WEIGHT weights
    /\ map weight weighted_search_fields = weights
    /\ Permutation (map (fun f => (name f, others f)) weighted_search_fields)
         (map (fun f => (name f, others f)) search_fields).
Proof.
  intros Hlen Hbad. unfold process_search_field_weights.
  assert (Hpos : (0 < length query_by_weights)%nat).
  { destruct Hbad as [(i & x & y & Hx & _)|(i & x & Hx & _)];
      apply lookup_lt_Some in Hx; lia. }
  assert (Hgiven : negb (length query_by_weights =? 0)%nat = true).
  { destruct (length query_by_weights); [lia | reflexivity]. }
  rewrite Hgiven, <- Hlen.
  destruct (first_pass_given search_fields query_by_weights []
              (length query_by_weights) ltac:(lia)) as (d & u & Hfold & Hd & Hu).
  rewrite Hfold.
  assert (Hflags : negb d || negb u = true).
  { destruct d; [|reflexivity]. destruct u; [|reflexivity]. exfalso.
    destruct Hbad as [(i & x & y & Hx & Hy & Hlt)|(i & x & Hx & Hlt)].
    - pose proof (proj1 Hd eq_refl i x y) as H.
      apply lookup_lt_Some in Hy as Hi. specialize (H Hi Hx Hy). lia.
    - pose proof (proj1 Hu eq_refl i x) as H.
      apply lookup_lt_Some in Hx as Hi. specialize (H Hi Hx). lia. }
  rewrite Hflags. cbn [andb].
  set (pairs := imap (fun (i : nat) (f : search_field_t A) => (Z.of_nat i, weight f))
                  search_fields).
  pose proof (std_sort_permutes pairs) as Hperm.
  assert (Hsize : length (std_sort pairs) = length query_by_weights).
  { rewrite (Permutation_length Hperm). unfold pairs. rewrite length_imap. lia. }
  assert (Hrange : List.Forall (fun p => is_Some (search_fields !! Z.to_nat (fst p)))
                     (std_sort pairs)).
  { apply List.Forall_forall. intros p Hp.
    apply (Permutation_in _ Hperm) in Hp. apply list_elem_of_In in Hp.
    apply elem_of_lookup_imap_1 in Hp. destruct Hp as (i & f & -> & Hf).
    cbn [fst]. rewrite Nat2Z.id. eauto. }
  destruct (second_pass_normalises search_fields (std_sort pairs) query_by_weights []
              (length query_by_weights) Hsize Hrange ltac:(lia))
    as (q & w & Hpass & Hq & Hw & Hfields & Hnorm).
  rewrite Hsize, Hpass. cbn [app].
  rewrite <- Hq, firstn_all in Hw, Hnorm.
  rewrite <- Hsize, firstn_all in Hfields.
  assert (Hwn : length w = length query_by_weights).
  { rewrite <- Hq, <- Hw, length_map. reflexivity. }
  assert (Hne : (length w =? 0)%nat = false).
  { apply Nat.eqb_neq. lia. }
  rewrite Hne. exists q, w. split; [reflexivity|].
  split; [lia|]. split; [exact Hnorm|]. split; [exact Hw|].
  set (strip := fun f : search_field_t A => (name f, others f)).
  set (at_pair := fun p : Z * Z => strip <$> search_fields !! Z.to_nat (fst p)).
  assert (Hleft : map Some (map strip w) = map at_pair (std_sort pairs)).
  { clear - Hfields. induction Hfields as [|f' p w' ps (f & Hf & Hn & Ho) _ IH];
      [reflexivity|].
    cbn [map]. rewrite IH. f_equal. unfold at_pair. rewrite Hf. cbn.
    unfold strip. now rewrite Hn, Ho. }
  assert (Hright : map at_pair pairs = map Some (map strip search_fields)).
  { apply list_eq. intros i. unfold pairs.
    rewrite !list_lookup_fmap, list_lookup_imap.
    destruct (search_fields !! i) as [f|] eqn:Hf; [|reflexivity].
    cbn. unfold at_pair. cbn [fst]. rewrite Nat2Z.id, Hf. reflexivity. }
  assert (Hsome : Permutation (map Some (map strip w))
                    (map Some (map strip search_fields))).
  { rewrite Hleft, <- Hright. apply Permutation_map. exact Hperm. }
  destruct search_fields as [|f0 fs]; [cbn in Hlen; lia|].
  apply (Permutation_map (from_option id (strip f0))) in Hsome.
  rewrite !map_map in Hsome. cbn [from_option id] in Hsome.
  exact Hsome.
Qed.

End Sorted.

End Weights.

Lemma insert_desc_permutes (p : Z * Z) (l : list (Z * Z)) :
  Permutation (insert_desc p l) (p :: l).
Proof.
  induction l as [|q l IH]; [reflexivity|]. simpl.
  destruct (snd q <? snd p); [reflexivity|].
  rewrite IH. apply perm_swap.
Qed.

Lemma sort_desc_permutes (l : list (Z * Z)) : Permutation (sort_desc l) l.
Proof.
  induction l as [|p l IH]; [reflexivity|].
  unfold sort_desc in *. simpl. rewrite insert_desc_permutes. now constructor.
Qed.

(** Three fields without weights, with the greatest weight 15. *)
Lemma default_weights_fall_by_position_witness :
  process_search_field_weights 15 sort_desc three_fields [] []
  = Some ([15; 14; 13],
          [{| name := "title"; weight := 15; others := tt |};
           {| name := "body"; weight := 14; others := tt |};
           {| name := "tags"; weight := 13; others := tt |}]).
Proof.
  apply (default_weights_fall_by_position 15 sort_desc ltac:(lia) three_fields).
  simpl. lia.
Defined.

(** The weights 3, 2, 1 are in order. *)
Lemma ordered_weights_are_kept_witness :
  process_search_field_weights 15 sort_desc three_fields [3; 2; 1] []
  = Some ([3; 2; 1], three_fields).
Proof.
  apply (ordered_weights_are_kept 15 sort_desc three_fields [3; 2; 1]).
  - reflexivity.
  - intros [|[|[|i]]] x y Hx Hy; simpl in Hx, Hy; try discriminate;
      injection Hx as <-; injection Hy as <-; lia.
  - intros [|[|[|i]]] x Hx; simpl in Hx; try discriminate;
      injection Hx as <-; lia.
Defined.

(** The weights 1, 3, 2 are not. *)
Lemma unordered_weights_are_normalised_witness :
  exists weights weighted_search_fields,
    process_search_field_weights 15 sort_desc three_fields [1; 3; 2] []
    = Some (weights, weighted_search_fields)
    /\ length weights = length three_fields
    /\ normalised 15 weights
    /\ map weight weighted_search_fields = weights
    /\ Permutation (map (fun f => (name f, others f)) weighted_search_fields)
         (map (fun f => (name f, others f)) three_fields).
Proof.
  apply (unordered_weights_are_normalised 15 sort_desc ltac:(lia) sort_desc_permutes
           three_fields [1; 3; 2]).
  - reflexivity.
  - left. exists 0%nat, 1, 3. repeat split.
Defined.

End WeightsProofs.

(** ** Pinned hits of a request *)

Module PinnedHitsProofs.

Import FieldNames PinnedHits.

Lemma string_length_append (s1 s2 : string) :
  String.length (s1 +:+ s2) = (String.length s1 + String.length s2)%nat.
Proof. induction s1 as [|c s1 IH]; simpl; [reflexivity | now rewrite IH]. Qed.

Lemma substring_whole (s : string) : String.substring 0 (String.length s) s = s.
Proof. induction s as [|c s IH]; simpl; [reflexivity | now rewrite IH]. Qed.

Lemma substring_front (s1 s2 : string) :
  String.substring 0 (String.length s1) (s1 +:+ s2) = s1.
Proof.
  induction s1 as [|c s1 IH]; simpl.
  - destruct s2; reflexivity.
  - now rewrite IH.
Qed.

Lemma substring_back (s1 s2 : string) (m : nat) :
  String.substring (String.length s1) m (s1 +:+ s2) = String.substring 0 m s2.
Proof. induction s1 as [|c s1 IH]; simpl; [reflexivity | exact IH]. Qed.

Lemma get_has_char (c : ascii) (s : string) :
  forall i, String.get i s = Some c -> has_char c s = true.
Proof.
  induction s as [|c' s IH]; intros i Hget; [discriminate Hget|].
  simpl. destruct i as [|i].
  - simpl in Hget. injection Hget as ->. now rewrite Ascii.eqb_refl.
  - simpl in Hget. rewrite (IH i Hget). apply orb_true_r.
Qed.

Lemma char_at_colon (s : string) (i : nat) :
  has_char ":"%char s = false -> Ascii.eqb (char_at i s) ":"%char = false.
Proof.
  intros Hno. unfold char_at. destruct (String.get i s) as [c|] eqn:Hget;
    [|reflexivity].
  destruct (Ascii.eqb c ":"%char) eqn:Hc; [|reflexivity].
  apply Ascii.eqb_eq in Hc. subst c.
  rewrite (get_has_char _ _ _ Hget) in Hno. discriminate Hno.
Qed.

Lemma last_colon_none (s : string) (n : nat) :
  has_char ":"%char s = false -> last_colon s n = -1.
Proof.
  intros Hno. induction n as [|n IH]; [reflexivity|].
  simpl. now rewrite (char_at_colon s n Hno).
Qed.

Lemma last_colon_found (pinned_id pinned_pos : string) (n : nat) :
  has_char ":"%char pinned_pos = false ->
  (String.length pinned_id < n)%nat ->
  last_colon (pinned_id +:+ ":" +:+ pinned_pos) n = Z.of_nat (String.length pinned_id).
Proof.
  intros Hno. induction n as [|n IH]; [lia|]. intros Hn.
  cbn [last_colon].
  destruct (Nat.eq_dec n (String.length pinned_id)) as [->|Hne].
  - unfold char_at.
    pose proof (append_correct2 pinned_id (":" +:+ pinned_pos) 0) as Hget.
    cbn [Nat.add] in Hget. rewrite <- Hget. reflexivity.
  - assert (Hchar : char_at n (pinned_id +:+ ":" +:+ pinned_pos)
                    = char_at (n - String.length pinned_id - 1) pinned_pos).
    { unfold char_at.
      replace n with ((n - String.length pinned_id) + String.length pinned_id)%nat
        at 1 by lia.
      rewrite <- append_correct2.
      destruct (n - String.length pinned_id)%nat as [|m] eqn:Em; [lia|].
      simpl. now rewrite Nat.sub_0_r. }
    rewrite Hchar, (char_at_colon _ _ Hno). apply IH. lia.
Qed.

Section Parse.

Variable split : string -> string -> list string.
Variable is_positive_integer : string -> bool.
Variable stoi : string -> option Z.

(** X25.  In a part of the pinned hits the position is what follows the
    last colon and the id is all that stands before it, so an id may hold
    colons itself: the id is added to the hits pinned at that position.
    A part that holds no colon at all is read as both id and position. *)
Theorem pinned_id_ends_at_last_colon (pinned_id pinned_pos : string) (position : Z)
    (pinned_hits : gmap Z (list string)) :
  has_char ":"%char pinned_pos = false ->
  is_positive_integer pinned_pos = true ->
  stoi pinned_pos = Some position ->
  position <> 0 ->
  (pinned_id <> "" ->
   parse_part is_positive_integer stoi (pinned_id +:+ ":" +:+ pinned_pos) pinned_hits
   = Returned (Ok (<[to_uint64 position :=
                       default [] (pinned_hits !! to_uint64 position) ++ [pinned_id]]>
                     pinned_hits)))
  /\ parse_part is_positive_integer stoi pinned_pos pinned_hits
     = Returned (Ok (<[to_uint64 position :=
                         default [] (pinned_hits !! to_uint64 position) ++ [pinned_pos]]>
                       pinned_hits)).
Proof.
  intros Hno Hint Hstoi Hpos. split.
  - intros Hid. unfold parse_part.
    rewrite last_colon_found
      by (try exact Hno; rewrite string_length_append; simpl; lia).
    assert (Hlen : (0 < String.length pinned_id)%nat).
    { destruct pinned_id; [congruence | simpl; lia]. }
    destruct (Z.of_nat (String.length pinned_id) =? 0) eqn:E;
      [apply Z.eqb_eq in E; lia|].
    assert (Hfront : substr_to (Z.of_nat (String.length pinned_id))
                       (pinned_id +:+ ":" +:+ pinned_pos) = pinned_id).
    { unfold substr_to.
      destruct (Z.of_nat (String.length pinned_id) <? 0) eqn:E'; [lia|].
      rewrite Nat2Z.id. apply substring_front. }
    assert (Hback : substr_from (Z.to_nat (Z.of_nat (String.length pinned_id) + 1))
                      (pinned_id +:+ ":" +:+ pinned_pos) = pinned_pos).
    { unfold substr_from.
      replace (Z.to_nat (Z.of_nat (String.length pinned_id) + 1))
        with (String.length (pinned_id +:+ ":")) by (rewrite string_length_append; simpl; lia).
      replace (pinned_id +:+ ":" +:+ pinned_pos)
        with ((pinned_id +:+ ":") +:+ pinned_pos).
      2:{ clear. induction pinned_id as [|c s IH]; [reflexivity|].
          change (String c ((s +:+ ":") +:+ pinned_pos)
                  = String c (s +:+ ":" +:+ pinned_pos)).
          now rewrite IH. }
      rewrite substring_back, !string_length_append.
      replace (String.length pinned_id + String.length ":" + String.length pinned_pos
               - (String.length pinned_id + String.length ":"))%nat
        with (String.length pinned_pos) by lia.
      apply substring_whole. }
    rewrite Hfront, Hback, Hint, Hstoi. cbn [negb].
    destruct (position =? 0) eqn:E0; [apply Z.eqb_eq in E0; contradiction|].
    reflexivity.
  - unfold parse_part. rewrite (last_colon_none _ _ Hno).
    change (-1 =? 0) with false. cbv zeta.
    change (Z.to_nat (-1 + 1)) with 0%nat.
    unfold substr_to, substr_from. change (-1 <? 0) with true. cbv iota.
    rewrite Nat.sub_0_r, substring_whole, Hint, Hstoi. cbn [negb].
    destruct (position =? 0) eqn:E0; [apply Z.eqb_eq in E0; contradiction|].
    reflexivity.
Qed.

(** X26.  A part that begins with its only colon names no id and is
    refused with the error 400, before its position is looked at. *)
Theorem pinned_hit_without_id (pinned_pos : string) (pinned_hits : gmap Z (list string)) :
  has_char ":"%char pinned_pos = false ->
  parse_part is_positive_integer stoi (":" +:+ pinned_pos) pinned_hits
  = Returned (Error 400 "Pinned hits are not in expected format.").
Proof.
  intros Hno. unfold parse_part.
  change (":" +:+ pinned_pos) with ("" +:+ ":" +:+ pinned_pos).
  rewrite last_colon_found by (try exact Hno; simpl; lia).
  reflexivity.
Qed.

End Parse.

(** The id [shop:7] pinned at position 2. *)
Lemma pinned_id_ends_at_last_colon_witness :
  parse_part (fun _ => true) (fun _ => Some 2) ("shop:7" +:+ ":" +:+ "2") ∅
  = Returned (Ok (<[to_uint64 2 := default [] ((∅ : gmap Z (list string)) !! to_uint64 2)
                                     ++ ["shop:7"]]> ∅)).
Proof.
  refine (proj1 (pinned_id_ends_at_last_colon (fun _ => true) (fun _ => Some 2)
                   "shop:7" "2" 2 ∅ _ _ _ _) _).
  - reflexivity.
  - reflexivity.
  - reflexivity.
  - lia.
  - discriminate.
Defined.

(** The part [:2] names no id. *)
Lemma pinned_hit_without_id_witness :
  parse_part (fun _ => true) (fun _ => Some 2) (":" +:+ "2") (∅ : gmap Z (list string))
  = Returned (Error 400 "Pinned hits are not in expected format.").
Proof.
  apply (pinned_hit_without_id (fun _ => true) (fun _ => Some 2) "2" ∅).
  reflexivity.
Defined.

End PinnedHitsProofs.

(** ** Counter events of the analytics manager *)

Module CountersProofs.

Import Analytics Counters.

Lemma bump_lookup (w : Z) (counts : gmap string Z) (id0 id : string) :
  bump w counts id0 !! id
  = if string_dec id0 id then Some (to_uint64 (default 0 (counts !! id) + w))
    else counts !! id.
Proof.
  unfold bump. destruct (string_dec id0 id) as [->|Hne].
  - now rewrite lookup_insert_eq.
  - now rewrite lookup_insert_ne.
Qed.

Lemma fold_bump (w : Z) (ids : list string) :
  forall (counts : gmap string Z) (id : string),
    fold_left (bump w) ids counts !! id
    = if occurrences id ids =? 0 then counts !! id
      else Some (to_uint64 (default 0 (counts !! id) + w * occurrences id ids)).
Proof.
  unfold occurrences.
  induction ids as [|id0 ids IH]; intros counts id; [reflexivity|].
  cbn [fold_left count_occ]. rewrite IH, bump_lookup.
  destruct (string_dec id0 id) as [->|Hne].
  - destruct (Z.of_nat (count_occ string_dec ids id) =? 0) eqn:E.
    + apply Z.eqb_eq in E.
      destruct (Z.of_nat (S (count_occ string_dec ids id)) =? 0) eqn:E';
        [apply Z.eqb_eq in E'; lia|].
      f_equal. f_equal. lia.
    + destruct (Z.of_nat (S (count_occ string_dec ids id)) =? 0) eqn:E';
        [apply Z.eqb_eq in E'; lia|].
      f_equal. change (default 0 (Some ?x)) with x.
      unfold to_uint64. rewrite Zplus_mod_idemp_l. f_equal. lia.
  - reflexivity.
Qed.

(** X27.  An event of a counter rule adds the weight of the event to the
    count of each document it names, once for every time the document is
    named, within 64 bits; the counts of the other documents and the
    counters of the other collections are as they were. *)
Theorem counter_event_adds_weight (destination event_name : string) (f : event_fields)
    (ce : gmap string counter_event_t) (c : counter_event_t) (w : Z) :
  ce !! destination = Some c ->
  event_weight_map c !! event_name = Some w ->
  exists c',
    count_event destination event_name f ce !! destination = Some c'
    /\ counter_field c' = counter_field c
    /\ event_weight_map c' = event_weight_map c
    /\ (forall id,
          docid_counts c' !! id
          = if occurrences id (counted_ids f) =? 0 then docid_counts c !! id
            else Some (to_uint64 (default 0 (docid_counts c !! id)
                                  + w * occurrences id (counted_ids f))))
    /\ (forall other, other <> destination ->
          count_event destination event_name f ce !! other = ce !! other).
Proof.
  intros Hc Hw. unfold count_event. rewrite Hc, Hw.
  eexists. split; [apply lookup_insert_eq|]. cbn.
  split; [reflexivity|]. split; [reflexivity|]. split.
  - intros id. unfold counted_ids.
    destruct (f_doc_ids f) as [|id0 ids] eqn:Hids.
    + exact (fold_bump w [f_doc_id f] (docid_counts c) id).
    + exact (fold_bump w (id0 :: ids) (docid_counts c) id).
  - intros other Hne. now rewrite lookup_insert_ne.
Qed.

(** Three clicks, two of them on the document 7. *)
Lemma counter_event_adds_weight_witness :
  exists c',
    count_event "products" "product_click" three_clicks click_counter !! "products"
    = Some c'
    /\ docid_counts c' !! "7" = Some 44
    /\ docid_counts c' !! "9" = Some 2.
Proof.
  destruct (counter_event_adds_weight "products" "product_click" three_clicks
              click_counter
              {| counter_field := "popularity"; docid_counts := {["7" := 40]};
                 event_weight_map := {["product_click" := 2]} |} 2
              eq_refl eq_refl) as (c' & Hc' & _ & _ & Hcounts & _).
  exists c'. split; [exact Hc'|]. split.
  - rewrite (Hcounts "7"). reflexivity.
  - rewrite (Hcounts "9"). reflexivity.
Defined.

Lemma remove_percent_removes (s : string) :
  ~ In "%"%char (list_ascii_of_string (remove_percent s)).
Proof.
  induction s as [|ch s IH]; [intros []|].
  simpl. destruct (Ascii.eqb ch "%"%char) eqn:E; [exact IH|].
  simpl. intros [Heq|Hin]; [|now apply IH].
  subst ch. discriminate E.
Qed.

(** X28.  An event is kept for the store only under a rule that logs to
    the store; it is then appended to the events of its source
    collection, and the user id kept with it holds no [%].  Under a rule
    that does not log, the events kept are as they were. *)
Theorem logged_event_has_clean_user_id (now_ts_useconds : Z)
    (event_type_arg event_name src_collection : string) (ec : event_type_collection)
    (events_vec : list event_t) (event_json : json) (m m' : AnalyticsManager) :
  record_event now_ts_useconds event_type_arg event_name src_collection ec events_vec
    event_json m = (Returned (Ok true), m') ->
  (log_to_store ec = true ->
   exists e,
     query_collection_events m' !! src_collection = Some (events_vec ++ [e])
     /\ e_name e = event_name /\ e_timestamp e = now_ts_useconds
     /\ ~ In "%"%char (list_ascii_of_string (e_user_id e)))
  /\ (log_to_store ec = false ->
      query_collection_events m' = query_collection_events m).
Proof.
  unfold record_event. intros Hrec.
  destruct (read_event_fields event_type_arg event_json) as [f|]; [|discriminate Hrec].
  destruct (String.eqb event_type_arg SEARCH_EVENT).
  - destruct (queries_ptr ec) as [q|]; [|discriminate Hrec].
    injection Hrec as <-. cbn. split.
    + intros ->. eexists. split; [apply lookup_insert_eq|]. cbn.
      split; [reflexivity|]. split; [reflexivity|]. apply remove_percent_removes.
    + intros ->. reflexivity.
  - injection Hrec as <-. cbn. split.
    + intros ->. eexists. split; [apply lookup_insert_eq|]. cbn.
      split; [reflexivity|]. split; [reflexivity|]. apply remove_percent_removes.
    + intros ->. reflexivity.
Qed.

(** A click logged under a rule that logs to the store. *)
Lemma logged_event_has_clean_user_id_witness :
  exists e,
    query_collection_events (snd logged_click) !! "products" = Some ([] ++ [e])
    /\ e_name e = "product_click" /\ e_timestamp e = 5
    /\ ~ In "%"%char (list_ascii_of_string (e_user_id e)).
Proof.
  apply (proj1 (logged_event_has_clean_user_id 5 "click" "product_click" "products"
                  logging_rule []
                  (JObj [("doc_id", JStr "21"); ("user_id", JStr "u%1")])
                  scenario_manager (snd logged_click) eq_refl)).
  reflexivity.
Defined.

End CountersProofs.
